(* ===== verification/_CoqProject ===== *)
-Q . S2P
Prelude.v
Text.v
Glob.v
Lex.v
Path.v
SshParse.v
Model.v
Database.v
Forest.v
StoreInv.v
Folders.v
Hosts.v
Tags.v
Settings.v
Migrate.v
Collection.v
StoreRefines.v
StoreSteps.v
SshImport.v
KnownHosts.v
TrustBook.v
TermStream.v
F64.v
Reconnect.v
Supervise.v
Vault.v
Auth.v
Session.v
Keys.v
Shell.v
Pty.v
LocalShell.v
Channel.v
Handles.v
HostKey.v
Proto.v
StoreCommands.v
Secrets.v
Commands.v
Open.v
Bench.v
DataPath.v
Journey.v
System.v
Desk.v
DeskRefines.v
ShellExample.v
BenchSink.v
Bootstrap.v
