(* ===== verification/Prelude.v ===== *)
(** * Tern: a verification of its Rust core

    Tern is an SSH client: a desktop shell ([apps/desktop/src]) over crates that
    each own one concern ([crates/]).  This library models the logic of those
    crates as executable Rocq definitions and proves what makes each part
    correct.  Names follow the source; where a name is taken in Rocq or in
    another component, the definition says which function it is.

    ** The program, and where its parts are modelled

    _Importing an OpenSSH configuration_ ([core-store/src/ssh_config]).
    [Lex] is the line tokenizer ([lex.rs]); [Glob] the backtracking pattern
    matcher that [parse.rs] and [known_hosts.rs] both carry; [Path] the lexical
    path operations and the file system as a class; [SshParse] the parser:
    stanzas, [Match] boundaries, includes with their depth cap, and
    first-obtained-value-wins resolution; [SshImport] the preview ([scan]) and
    the upsert by alias ([apply]).

    _The host store_ ([core-store/src]).  [Model] has the records and their text
    columns ([model.rs], [error.rs]); [Database] the schema of the two SQL
    migrations as tables with their constraints, the statements the repositories
    run, and the store monad [M] with its lock ([db.rs]).  [Folders], [Hosts],
    [Tags] and [Settings] are the repositories, [Migrate] opening the store and
    the migration runner.  [Forest] and [StoreInv] state what every reachable
    database satisfies ([db_ok]).  [Collection] is the abstract specification of
    the store (hosts, folders and tags as a user knows them, without rows,
    indexes or foreign keys), [StoreRefines] proves the repositories implement
    it, and [StoreSteps] is the step relation of all repository calls.  What
    SQLite is free to choose (new row ids, the order of an unordered scan) is
    the class [Engine].

    _Trusting a host key_.  [KnownHosts] is Tern's own [known_hosts] file
    ([core-ssh/src/known_hosts.rs]) over the class [SshKeys] (what the ssh-key
    crate parses); [TrustBook] specifies it as a book of entries, which the file
    implements; [HostKey] is the prompt-and-answer flow of [commands.rs] around
    it.

    _Credentials_.  [Vault] is the keyring wrapper ([core-vault]) over the class
    [Keyring]; [Auth] the authentication chain of a host and the session's
    configuration ([auth.rs], [session_cfg.rs], [core-ssh/src/config.rs]);
    [Keys] what a private key file is and whether a passphrase opens it
    ([core-ssh/src/keys.rs]), over the class [KeyCodec].

    _A session_.  [Session] connects and authenticates ([session.rs],
    [error.rs]) over the class [Transport] (russh, the agent, key files);
    [Channel] opens a shell on it and has the handles that write, resize and
    close, over [ShellTransport], and [Handles] the same shell whole and split;
    [Shell] is the output pump; [Pty] the local shell with its threads and
    bounded queues ([core-pty]), over [PtySystem], and [LocalShell] the task
    that forwards its output; [TermStream] the coalescer ([term-stream]);
    [Reconnect] the backoff policy ([reconnect.rs]) on the rounding of [F64];
    [Supervise] the supervisor task of [commands.rs]; [Commands] the session
    registry and the gate before the webview.

    _The command layer_.  [Proto] has the wire records ([proto]) and
    [StoreCommands] the commands of [store_commands.rs] over a state made of the
    store, the keyring and the [known_hosts] file.  [Secrets] compares runs of
    those commands that differ only in secrets.  [Open] is what [open_session],
    the reconnector and [test_connection] of [commands.rs] do before and after
    the network; [Bench] the benchmark commands.

    _All of it together_.  [DataPath] joins the pump, the supervisor, the
    coalescer and the gate by their bounded queues, across reconnects.
    [Journey] goes from a line of [ssh_config] to the arguments of a connect.
    [System] is the desktop as one transition system: calls opening, testing and
    reconnecting sessions, keys presented and answered, supervisors, tabs
    closed, and the store, the keyring and [known_hosts] changing under them, in
    any order.  [Desk] is that desktop as its user sees it (hosts dialled, keys
    shown, lines, tabs and what they are told), in the terms of the book of
    [TrustBook] and the hosts of [Collection]; [DeskRefines] proves that
    [System] does nothing else.

    _Around it_.  [Bootstrap] is what a start sets up ([lib.rs]), the clock, and
    [schema_dump]; [ShellExample] and [BenchSink] are the two programs of
    [core-ssh/examples].

    [Prelude] (this file) and [Text] (text as Unicode scalar values, with the
    [str] methods the code uses) are shared by all.

    ** How effects are modelled

    Fallible code returns [result]; repository code lives in [M], a state and
    error monad whose statements either apply or fail whole; keyring calls in
    [K] and commands in [C] are the same shape over larger states.  Async tasks
    (coalescer, pump, gate, supervisor, host-key callback) are state machines:
    a state is what the task holds between two suspension points, an input is
    what wakes it, and theorems range over all runs.  Clocks, random bytes and
    jitter are arguments.  A write to [known_hosts] goes through, is refused, or
    is cut short and leaves part of its text, the file emptied before where the
    code replaces it ([disk]).  Machine integers are [Z] with the wrapping or
    saturation the code has written out; a width that matters is a hypothesis
    ([in_u16], [overrides_wf], [host_wf]).

    ** What is proved

    - Text: the tokenizer reads back what is rendered, every directive names its
      line; the glob loop terminates and decides the reference relation;
      resolution is first-value-wins, [Match] is a hard boundary, include cycles
      end in a warning.
    - Store: every repository call keeps [db_ok] (constraints, a folder forest,
      readable rows), and after every history of calls each host row reads back
      ([store_invariant]); create and update read back, edits too, whatever is
      done to the credential ([update_host_reads_back]); listing returns exactly the
      accepted hosts in order; a search string is literal; in every history of
      calls each answer and error is one the abstract collection allows, and the
      database shows the collection it then has ([store_refines]); moves that
      would create a cycle are exactly those refused; deleting a folder never
      deletes a host; an import writes what the file says, is idempotent and
      leaves user data alone; migrations never go back and stop at a version the
      schema has.  Both histories leave out a folder created under the very id
      it is about to get ([create_self_parent]), after which the folders are no
      forest, and connection counts past [i64].
    - Trust: the verdict on a key is the documented one ([verify_as_documented])
      unless a line that records it stands ahead of a revocation
      ([revoked_after_trusted]); what learning, removing and importing do to the
      file; and no run accepts a key without a trusted entry or the user's
      approval of that very prompt, but for the rig's connects that accept
      anything.  The file implements the book of entries, on a disk that may
      fail at every write ([trust_refines]), and a trusted key goes back to the
      operation that let it in ([trusted_since]).  What is said of a key that is
      learned asks for a host name that is no pattern ([plain_name]).
    - Credentials: a secret saved with a host is what its chain sends, accounts
      are private to a host, deletion forgets, [Debug] does not depend on
      secrets, and no answer of a command, error or not, depends on a secret
      stored or typed to be stored ([secrets_stay]), but for what the credential
      store says of taking it.
    - Keys: the headers of a PuTTY key read back, a description is always well
      formed, and a passphrase that was checked is one the transport will load.
    - The example programs: a command line reads back; what is typed reaches the
      shell, and what it prints the terminal; the benchmark's sink counts every
      byte, never panics on ASCII, and finds the marker of each scenario however
      the output is cut into frames ([sink_finds_markers]).
    - Local shells: nothing is lost between the child and the coalescer, the
      queues are bounded, and the exit is reported after the last byte.
    - The data path: what the terminal shows is what the remote shell printed,
      across pauses and reconnects, and the backlog is bounded.
    - The whole: no session is ever on a transport whose host key was not let
      through, a refused key ends a reconnect, a reconnect connects as opening
      does, a connection test too where the host records the account of its
      chain, and an imported alias opens as the file says.
      Every run is a run of the abstract desk ([desk_refines]); from that, no
      key is written down that the user was not shown ([recorded_was_asked]),
      and a closed tab is never dialled again ([closed_never_redialled]).
    - Sessions: the authentication chain refines its abstract description; the
      connect timeout waits for the user and, unless it is zero, no longer than
      the cap; the backoff stays between zero and its ceiling whatever the f64
      rounding ([delay_bounded]); output is neither lost
      nor reordered by the pump, the coalescer and the gate; the supervisor's
      events follow the reconnect protocol, and what must not be retried is not;
      a new session never takes a live one's id.

    The theorems [glob_match_star_in_value], [global_settings_dropped],
    [unreadable_include_silent], [zero_attempts_gives_up], [create_self_parent],
    [port_zero_aborts], [revoked_after_trusted], [revoked_import_dropped],
    [passphrase_sent_as_password], [zero_timeout_never_gives_up],
    [damaged_openssh_reported_open], [ppk_without_fingerprint],
    [stale_secret_differs], [test_ignores_overrides],
    [exited_before_connected], [resize_while_reconnecting_lost] and
    [sink_panics_on_binary] pin down behaviour that differs from a comment or is
    likely unintended.

    ** Bounds and fuel

    [glob_loop] runs on [glob_fuel], proved enough for every input
    ([glob_terminates]).  [parse_into] recurses on the include depth the code
    itself caps at 16.  [ancestors] and [walk_rows] run on the number of folders
    plus one, enough because a chain of parents has no repetition in a forest.
    [connect_loop] consumes the list of timer turns it is given, and
    [connect_waits_for_user] says how many it can take.

    [trim_matches] and [take_markers] run on the length of their text, which
    [take_markers_done] proves enough for the latter.  The queues of [Pty] and
    [DataPath] have the depths of the code.

    ** Not modelled

    What libraries do (russh, ssh-key, SQLite, the keyring, portable-pty, the
    operating system, Tauri, the tracing subscriber): they are the classes
    above, or arguments.  The JSON of the wire records, which serde's derive
    macros generate; the text of the benchmark's report; the web user interface;
    the serial and SFTP crates, which are empty.  Memory wiping is not visible
    in the model.  [System] takes each stretch of a task between two awaits on
    the network, the user or a timer as one step (the jobs that read the store
    while a session is opened, and the write that follows an approval, are part
    of it), and leaves the bytes of a session to [DataPath] and [LocalShell]. *)
From stdpp Require Export base tactics list gmap strings sorting.
From Stdlib Require Export ZArith Lia.

(** * Rust results

    [Result<A, E>] with its monad.  [x ← m; k] is the [?] operator: an [Err]
    leaves the function with that error. *)
Inductive result (E A : Type) : Type :=
  | Ok (a : A)
  | Err (e : E).
Arguments Ok {E A} a.
Arguments Err {E A} e.

#[export] Instance result_bind E : MBind (result E) := λ A B f m,
  match m with Ok a => f a | Err e => Err e end.
#[export] Instance result_ret E : MRet (result E) := λ A a, Ok a.
#[export] Instance result_fmap E : FMap (result E) := λ A B f m,
  match m with Ok a => Ok (f a) | Err e => Err e end.

#[export] Instance result_eq_dec E A `{!EqDecision E, !EqDecision A} :
  EqDecision (result E A).
Proof. solve_decision. Defined.

(** [Result::map_err]. *)
Definition map_err {E F A} (f : E → F) (m : result E A) : result F A :=
  match m with Ok a => Ok a | Err e => Err (f e) end.

(** [Option::ok_or_else]. *)
Definition ok_or {E A} (e : E) (o : option A) : result E A :=
  match o with Some a => Ok a | None => Err e end.

(** [Result::ok]. *)
Definition ok {E A} (m : result E A) : option A :=
  match m with Ok a => Some a | Err _ => None end.

Definition is_ok {E A} (m : result E A) : bool :=
  match m with Ok _ => true | Err _ => false end.

(** * Machine integers

    Values are kept in [Z] (or [N]); every operation of the code that can
    leave its width says what it does there. *)
Definition u16_max : Z := 65535.
Definition u32_max : Z := 4294967295.
Definition u64_max : Z := 18446744073709551615.
Definition i64_max : Z := 9223372036854775807.

(** [Duration::MAX] in nanoseconds. *)
Definition DURATION_MAX : Z := u64_max * 1000000000 + 999999999.

(** [AtomicU64::fetch_add] wraps. *)
Definition wrap64 (z : Z) : Z := z mod 2 ^ 64.

(** * Iterators *)

(** The first element that satisfies [p] ([Iterator::find]). *)
Fixpoint find_first {A} (p : A → bool) (l : list A) : option A :=
  match l with
  | [] => None
  | x :: l => if p x then Some x else find_first p l
  end.

(** [Iterator::find_map]. *)
Fixpoint find_map {A B} (f : A → option B) (l : list A) : option B :=
  match l with
  | [] => None
  | x :: l => match f x with Some b => Some b | None => find_map f l end
  end.

(** Elements paired with their position, from [n] on. *)
Fixpoint enumerate_from {A} (n : nat) (l : list A) : list (nat * A) :=
  match l with [] => [] | x :: l => (n, x) :: enumerate_from (S n) l end.

(** [Iterator::enumerate]. *)
Definition enumerate {A} (l : list A) : list (nat * A) := enumerate_from 0 l.

(** * Transition systems

    Reachability in the reflexive transitive closure of a step relation. *)
Inductive steps {S : Type} (step : S → S → Prop) : S → S → Prop :=
  | steps_refl s : steps step s s
  | steps_snoc s1 s2 s3 : steps step s1 s2 → step s2 s3 → steps step s1 s3.

(** * Tactics shared by the components *)

(** Case analysis on every [match]/[decide] of the goal, then the equations
    it leaves behind. *)
Ltac case_all := repeat (case_match || case_decide); simplify_eq/=.

(** Destruct the scrutinee of a [match] in the hypotheses: used to invert a
    computation that succeeded. *)
Ltac inv_match :=
  repeat match goal with
  | H : context [match ?x with _ => _ end] |- _ =>
      lazymatch x with
      | context [match _ with _ => _ end] => fail
      | _ => destruct x eqn:?
      end; simplify_eq/=
  end.

(** Close a goal about a concrete input by evaluation. *)
Ltac by_eval := vm_compute; first [reflexivity | congruence | lia].

Create HintDb tern discriminated.
Create Rewrite HintDb tern.

(** * Results *)
Lemma result_bind_Ok {E A B} (m : result E A) (f : A → result E B) b :
  m ≫= f = Ok b ↔ ∃ a, m = Ok a ∧ f a = Ok b.
Proof. destruct m; naive_solver. Qed.

Lemma ok_or_Ok {E A} (e : E) (o : option A) a : ok_or e o = Ok a ↔ o = Some a.
Proof. destruct o; naive_solver. Qed.

(** Invert [m ≫= f = Ok b] all the way down. *)
Ltac inv_ok :=
  repeat match goal with
  | H : _ ≫= _ = Ok _ |- _ => apply result_bind_Ok in H as (? & ? & H); simplify_eq/=
  | H : ok_or _ _ = Ok _ |- _ => apply ok_or_Ok in H
  end.

(** * Wrapping counters *)
Lemma wrap64_small z : (0 ≤ z < 2 ^ 64)%Z → wrap64 z = z.
Proof. apply Z.mod_small. Qed.

Lemma wrap64_add z w : wrap64 (wrap64 z + w) = wrap64 (z + w).
Proof. unfold wrap64. by rewrite Zplus_mod_idemp_l. Qed.

Lemma wrap64_range z : (0 ≤ wrap64 z < 2 ^ 64)%Z.
Proof. apply Z.mod_pos_bound. done. Qed.
#[export] Hint Resolve wrap64_small wrap64_range : tern.

(** * Lists *)
Section lists.
Context {A B : Type}.
Implicit Types (l k : list A) (x y : A).

(** A prefix of a list with one more element is the whole of it or a prefix of
    the list. *)
Lemma prefix_snoc (t l : list A) x : t `prefix_of` l ++ [x] → t = l ++ [x] ∨ t `prefix_of` l.
Proof.
  intros [k Hk]. destruct k as [|y k _] using rev_ind; [left; by rewrite Hk, app_nil_r|].
  rewrite (assoc_L (++)) in Hk. apply app_inj_tail in Hk as [-> _]. right. by exists k.
Qed.

Lemma find_first_Some (p : A → bool) l x :
  find_first p l = Some x ↔
  ∃ l1 l2, l = l1 ++ x :: l2 ∧ p x = true ∧ Forall (λ y, p y = false) l1.
Proof.
  split.
  - induction l as [|y l IH]; [done|]; simpl. destruct (p y) eqn:Hy.
    + intros [= <-]. by exists [], l.
    + intros (l1 & l2 & -> & Hx & Hl1)%IH. exists (y :: l1), l2. by rewrite Forall_cons.
  - intros (l1 & l2 & -> & Hx & Hl1). induction Hl1 as [|y l1 Hy _ IH]; simpl.
    + by rewrite Hx.
    + by rewrite Hy.
Qed.

Lemma find_first_None (p : A → bool) l :
  find_first p l = None ↔ Forall (λ y, p y = false) l.
Proof.
  split.
  - induction l as [|y l IH]; simpl; [done|]. destruct (p y) eqn:Hy; naive_solver.
  - induction 1 as [|y l Hy _ IH]; simpl; [done|]. by rewrite Hy.
Qed.

Lemma find_map_app (f : A → option B) l k :
  find_map f (l ++ k) =
  match find_map f l with Some b => Some b | None => find_map f k end.
Proof. induction l as [|y l IH]; simpl; [done|]. by destruct (f y). Qed.

Lemma find_map_None (f : A → option B) l :
  find_map f l = None ↔ Forall (λ y, f y = None) l.
Proof.
  split.
  - induction l as [|y l IH]; simpl; [done|]. destruct (f y) eqn:Hy; naive_solver.
  - induction 1 as [|y l Hy _ IH]; simpl; [done|]. by rewrite Hy.
Qed.

Lemma find_map_Some (f : A → option B) l b :
  find_map f l = Some b ↔
  ∃ l1 x l2, l = l1 ++ x :: l2 ∧ f x = Some b ∧ Forall (λ y, f y = None) l1.
Proof.
  split.
  - induction l as [|y l IH]; [done|]; simpl. destruct (f y) eqn:Hy.
    + intros [= <-]. by exists [], y, l.
    + intros (l1 & x & l2 & -> & Hx & Hl1)%IH. exists (y :: l1), x, l2.
      by rewrite Forall_cons.
  - intros (l1 & x & l2 & -> & Hx & Hl1). induction Hl1 as [|y l1 Hy _ IH]; simpl.
    + by rewrite Hx.
    + by rewrite Hy.
Qed.

Lemma enumerate_from_lookup n l i :
  enumerate_from n l !! i = (λ x, (n + i, x)) <$> l !! i.
Proof.
  revert n i. induction l as [|x l IH]; intros n [|i]; simpl; try done.
  - by rewrite Nat.add_0_r.
  - rewrite IH. by rewrite Nat.add_succ_r.
Qed.

Lemma enumerate_from_elem n l i x :
  (i, x) ∈ enumerate_from n l ↔ n ≤ i ∧ l !! (i - n) = Some x.
Proof.
  rewrite list_elem_of_lookup. setoid_rewrite enumerate_from_lookup.
  setoid_rewrite fmap_Some. split.
  - intros (j & y & Hy & [= -> ->]). split; [lia|]. by replace (n + j - n) with j by lia.
  - intros [Hle Hx]. exists (i - n), x. split; [done|]. f_equal. lia.
Qed.

Lemma enumerate_from_app n l k :
  enumerate_from n (l ++ k) = enumerate_from n l ++ enumerate_from (n + length l) k.
Proof.
  revert n. induction l as [|x l IH]; intros n; simpl; [by rewrite Nat.add_0_r|].
  rewrite IH. by rewrite Nat.add_succ_r.
Qed.

Lemma list_filter_all (P : A → Prop) `{!∀ x, Decision (P x)} l :
  (∀ x, x ∈ l → P x) → filter P l = l.
Proof.
  induction l as [|x l IH]; intros Hl; [done|]. rewrite filter_cons_True by (apply Hl; by left).
  f_equal. apply IH. intros y Hy. apply Hl. by right.
Qed.

Lemma Forall_filter (P Q : A → Prop) `{!∀ x, Decision (P x)} l : Forall Q l → Forall Q (filter P l).
Proof. rewrite !Forall_forall. intros Hl x [_ Hx]%list_elem_of_filter. auto. Qed.

(** In a sorted list the earlier element is the smaller one. *)
Lemma StronglySorted_lookup (R : relation A) l i j x y :
  StronglySorted R l → l !! i = Some x → l !! j = Some y → i < j → R x y.
Proof.
  intros Hs. revert i j. induction Hs as [|z l Hs IH Hz]; intros i j Hi Hj Hij; [done|].
  destruct j as [|j]; [lia|]. simpl in Hj. destruct i as [|i]; simpl in Hi.
  - injection Hi as ->. rewrite Forall_forall in Hz. apply Hz. by eapply list_elem_of_lookup_2.
  - eapply IH; [done..|lia].
Qed.
End lists.

(** * Reachability *)
Section transitions.
Context {S : Type} (step : S → S → Prop).

(** Rule induction: an invariant of the steps holds wherever they lead. *)
Lemma steps_invariant (I : S → Prop) s1 s2 :
  (∀ s s', I s → step s s' → I s') → I s1 → steps step s1 s2 → I s2.
Proof. intros Hstep HI. induction 1; eauto. Qed.

Lemma steps_trans s1 s2 s3 : steps step s1 s2 → steps step s2 s3 → steps step s1 s3.
Proof. intros H1. induction 1; eauto using @steps. Qed.

Lemma steps_once s1 s2 : step s1 s2 → steps step s1 s2.
Proof. eauto using @steps. Qed.

Lemma steps_cons s1 s2 s3 :
  step s1 s2 → steps step s2 s3 → steps step s1 s3.
Proof. intros H. by apply steps_trans, steps_once. Qed.
End transitions.
#[export] Hint Resolve steps_refl steps_snoc steps_once : tern.

(** Chunks of bounded size. *)
Lemma concat_length_le {A} n (l : list (list A)) :
  Forall (λ c, length c ≤ n) l → length (concat l) ≤ length l * n.
Proof.
  induction 1 as [|c l Hc _ IH]; [done|]. cbn [concat]. rewrite length_app. cbn [length].
  rewrite Nat.mul_succ_l. lia.
Qed.
