(* ===== verification/Text.v ===== *)
(** * Rust text

    The parts of [char], [str] and integer parsing/printing that the code
    uses.  A [char] is a Unicode scalar value in [N]; a [str] is the sequence
    of its chars, which is what [str::chars] yields and what every routine of
    the code iterates over.  [#"..."] writes an ASCII literal.

    The one table that is not spelled out is Unicode case mapping: the class
    [Lowercase] states what [str::to_lowercase] does on ASCII text and leaves
    the rest of the mapping open. *)
From stdpp Require Export pretty.
From Stdlib Require Export Ascii.
From S2P Require Import Prelude.

Abbreviation char := N (only parsing).
Abbreviation str := (list N) (only parsing).

Definition ch (a : Ascii.ascii) : char := Ascii.N_of_ascii a.
Arguments ch _%_char.

Fixpoint lit (s : string) : str :=
  match s with
  | EmptyString => []
  | String a s => ch a :: lit s
  end.

Declare Scope text_scope.
Delimit Scope text_scope with text.
Notation "# s" := (lit s%string) (at level 1, s at level 0, format "# s") : text_scope.
Open Scope text_scope.

Definition newline : char := 10%N.
Definition carriage_return : char := 13%N.

(** [char::is_whitespace]: the Unicode property White_Space. *)
Definition is_whitespace (c : char) : bool :=
  ((9 <=? c) && (c <=? 13) || (c =? 32) || (c =? 133) || (c =? 160) || (c =? 5760)
   || (8192 <=? c) && (c <=? 8202) || (c =? 8232) || (c =? 8233) || (c =? 8239)
   || (c =? 8287) || (c =? 12288))%N.

Definition is_ascii (c : char) : bool := (c <? 128)%N.

Definition ascii_lower (c : char) : char :=
  if ((65 <=? c) && (c <=? 90))%N then (c + 32)%N else c.

(** [str::to_lowercase]: exact on ASCII text. *)
Class Lowercase := {
  to_lowercase : str → str;
  to_lowercase_ascii s : Forall (λ c, is_ascii c = true) s → to_lowercase s = ascii_lower <$> s
}.

(** [str::trim_start], [trim_end], [trim]. *)
Fixpoint trim_start (s : str) : str :=
  match s with
  | [] => []
  | c :: s' => if is_whitespace c then trim_start s' else s
  end.
Definition trim_end (s : str) : str := reverse (trim_start (reverse s)).
Definition trim (s : str) : str := trim_end (trim_start s).

(** [str::starts_with], [ends_with], [strip_prefix] with a string pattern. *)
Fixpoint strip_prefix (p s : str) : option str :=
  match p, s with
  | [], _ => Some s
  | a :: p, b :: s => if (a =? b)%N then strip_prefix p s else None
  | _ :: _, [] => None
  end.
Definition starts_with (p s : str) : bool :=
  match strip_prefix p s with Some _ => true | None => false end.
Definition ends_with (p s : str) : bool := starts_with (reverse p) (reverse s).

(** [str::contains] with a string pattern. *)
Fixpoint contains (p s : str) : bool :=
  starts_with p s || match s with [] => false | _ :: s => contains p s end.

(** [str::contains] with a char pattern. *)
Definition contains_char (c : char) (s : str) : bool := existsb (N.eqb c) s.

(** [str::split(char)]: always at least one piece. *)
Fixpoint split_char (c : char) (s : str) : list str :=
  match s with
  | [] => [[]]
  | d :: s =>
      if (d =? c)%N then [] :: split_char c s
      else match split_char c s with
           | [] => [[d]]
           | piece :: pieces => (d :: piece) :: pieces
           end
  end.

(** [str::split_once(char)]. *)
Fixpoint split_once (c : char) (s : str) : option (str * str) :=
  match s with
  | [] => None
  | d :: s =>
      if (d =? c)%N then Some ([], s)
      else match split_once c s with
           | Some (a, b) => Some (d :: a, b)
           | None => None
           end
  end.

(** [<[String]>::join]. *)
Fixpoint join (sep : str) (ss : list str) : str :=
  match ss with
  | [] => []
  | [s] => s
  | s :: ss => s ++ sep ++ join sep ss
  end.

(** [str::split_inclusive('\n')]: every piece but perhaps the last ends in a
    newline, and there is no empty last piece. *)
Fixpoint split_inclusive (s : str) : list str :=
  match s with
  | [] => []
  | c :: s =>
      if (c =? newline)%N then [c] :: split_inclusive s
      else match split_inclusive s with
           | [] => [[c]]
           | piece :: pieces => (c :: piece) :: pieces
           end
  end.

(** What [str::lines] does to such a piece: drop the newline, and a carriage
    return only when it came before that newline. *)
Definition strip_line_ending (piece : str) : str :=
  match reverse piece with
  | c :: r =>
      if (c =? newline)%N then
        match r with
        | d :: r' => if (d =? carriage_return)%N then reverse r' else reverse r
        | [] => []
        end
      else piece
  | [] => []
  end.

(** [str::lines]. *)
Definition lines (s : str) : list str := strip_line_ending <$> split_inclusive s.

(** [str::split_whitespace]. *)
Fixpoint split_ws_go (cur : str) (s : str) : list str :=
  match s with
  | [] => match cur with [] => [] | _ => [reverse cur] end
  | c :: s =>
      if is_whitespace c then
        match cur with [] => split_ws_go [] s | _ => reverse cur :: split_ws_go [] s end
      else split_ws_go (c :: cur) s
  end.
Definition split_whitespace (s : str) : list str := split_ws_go [] s.

(** [u8]/[u16]/[u32]'s [FromStr]: an optional [+], then at least one digit;
    anything else, or a value above [bound], is an error. *)
Definition digit (c : char) : option Z :=
  if ((48 <=? c) && (c <=? 57))%N then Some (Z.of_N c - 48)%Z else None.
Fixpoint parse_digits (bound acc : Z) (s : str) : option Z :=
  match s with
  | [] => Some acc
  | c :: s =>
      match digit c with
      | None => None
      | Some d =>
          let acc' := (acc * 10 + d)%Z in
          if (acc' <=? bound)%Z then parse_digits bound acc' s else None
      end
  end.
Definition parse_uint (bound : Z) (s : str) : option Z :=
  match (match s with c :: s' => if (c =? ch "+")%N then s' else s | [] => s end) with
  | [] => None
  | ds => parse_digits bound 0 ds
  end.

(** [Display] of an unsigned integer, and of an [i64]. *)
Definition show_N (n : N) : str := lit (pretty n).
Definition show_Z (z : Z) : str := lit (pretty z).
Definition show_nat (n : nat) : str := show_N (N.of_nat n).

(** ASCII case folding, as [COLLATE NOCASE] and [LIKE] use it. *)
Definition nocase (s : str) : str := ascii_lower <$> s.

(** The order of [str] (bytes of UTF-8, that is, code points). *)
Fixpoint str_le (s t : str) : bool :=
  match s, t with
  | [], _ => true
  | _ :: _, [] => false
  | a :: s, b :: t => if (a <? b)%N then true else if (a =? b)%N then str_le s t else false
  end.

(** A line that ends in a carriage return. *)
Definition ends_cr (l : str) : bool := ends_with [carriage_return] l.

#[export] Instance lowercase_ascii_only : Lowercase.
Proof. by refine {| to_lowercase s := ascii_lower <$> s |}. Defined.

(** * Literals *)
Lemma lit_app s t : lit (s +:+ t)%string = lit s ++ lit t.
Proof. induction s as [|a s IH]; [done|]. simpl. by rewrite <- IH. Qed.

#[export] Instance ch_inj : Inj (=) (=) ch.
Proof.
  intros a b Hab. rewrite <- (Ascii.ascii_N_embedding a), <- (Ascii.ascii_N_embedding b).
  unfold ch in Hab. by rewrite Hab.
Qed.

#[export] Instance lit_inj : Inj (=) (=) lit.
Proof.
  intros s. induction s as [|a s IH]; intros [|b t] [=]; [done|].
  f_equal; [by apply ch_inj|by apply IH].
Qed.

#[export] Instance show_N_inj : Inj (=) (=) show_N.
Proof. intros n m H%lit_inj. by apply (inj pretty). Qed.

#[export] Instance show_Z_inj : Inj (=) (=) show_Z.
Proof. intros n m H%lit_inj. by apply (inj pretty). Qed.

(** * Prefixes *)
Lemma strip_prefix_Some p s t : strip_prefix p s = Some t ↔ s = p ++ t.
Proof.
  split.
  - revert s. induction p as [|a p IH]; intros s; simpl; [by intros [= ->]|].
    destruct s as [|b s]; [done|]. destruct (N.eqb_spec a b) as [->|]; [|done].
    intros ->%IH. done.
  - intros ->. induction p as [|a p IH]; simpl; [done|]. by rewrite N.eqb_refl.
Qed.

Lemma starts_with_spec p s : starts_with p s = true ↔ ∃ t, s = p ++ t.
Proof.
  unfold starts_with. destruct (strip_prefix p s) as [t|] eqn:E.
  - apply strip_prefix_Some in E. naive_solver.
  - split; [done|]. intros [t Ht%strip_prefix_Some]. congruence.
Qed.

Lemma ends_with_spec p s : ends_with p s = true ↔ ∃ t, s = t ++ p.
Proof.
  unfold ends_with. rewrite starts_with_spec. split; intros [t Ht].
  - exists (reverse t). apply (f_equal reverse) in Ht.
    by rewrite reverse_app, !reverse_involutive in Ht.
  - exists (reverse t). by rewrite Ht, reverse_app.
Qed.

Lemma contains_spec p s : contains p s = true ↔ ∃ a b, s = a ++ p ++ b.
Proof.
  induction s as [|c s IH]; simpl; rewrite orb_true_iff, starts_with_spec.
  - split.
    + intros [[t Ht]|]; [|done]. by exists [], t.
    + intros (a & b & Hab). symmetry in Hab. apply app_nil in Hab as [-> Hab]. left. eauto.
  - rewrite IH. split.
    + intros [[t ->]|(a & b & ->)]; [by exists [], t|by exists (c :: a), b].
    + intros ([|d a] & b & Hab); [left; by exists b|]. right. injection Hab as -> ->. eauto.
Qed.

Lemma contains_char_spec c s : contains_char c s = true ↔ c ∈ s.
Proof.
  unfold contains_char. rewrite existsb_exists. split.
  - intros (d & Hd & ->%N.eqb_eq). by apply list_elem_of_In.
  - intros Hc%list_elem_of_In. exists c. by rewrite N.eqb_refl.
Qed.

Lemma contains_char_false c s : contains_char c s = false ↔ c ∉ s.
Proof. rewrite <- contains_char_spec. destruct (contains_char c s); naive_solver. Qed.

(** * Trimming *)
Lemma trim_start_all_ws s t :
  Forall (λ c, is_whitespace c = true) s → trim_start (s ++ t) = trim_start t.
Proof. induction 1 as [|c s Hc _ IH]; simpl; [done|]. by rewrite Hc. Qed.

Lemma trim_end_all_ws s t :
  Forall (λ c, is_whitespace c = true) t → trim_end (s ++ t) = trim_end s.
Proof.
  intros Ht. unfold trim_end. rewrite reverse_app, trim_start_all_ws; [done|].
  by apply Forall_reverse.
Qed.

Lemma trim_start_id c s : is_whitespace c = false → trim_start (c :: s) = c :: s.
Proof. simpl. by intros ->. Qed.

Lemma trim_end_id s c : is_whitespace c = false → trim_end (s ++ [c]) = s ++ [c].
Proof.
  intros Hc. unfold trim_end. rewrite reverse_snoc. simpl. rewrite Hc.
  by rewrite reverse_cons, reverse_involutive.
Qed.

(** [trim_start] finds the first non-blank; what it drops is blank. *)
Lemma trim_start_split s :
  ∃ b, Forall (λ c, is_whitespace c = true) b ∧ s = b ++ trim_start s ∧
       match trim_start s with [] => True | c :: _ => is_whitespace c = false end.
Proof.
  induction s as [|c s (b & Hb & Hs & Ht)]; simpl; [by exists []|].
  destruct (is_whitespace c) eqn:Hc.
  - exists (c :: b). simpl. rewrite <- Hs. auto.
  - by exists [].
Qed.

Lemma trim_end_ws_suffix s t :
  Forall (λ c, is_whitespace c = true) t → trim (s ++ t) = trim s.
Proof.
  intros Ht. unfold trim. destruct (trim_start_split s) as (b & Hb & Hs & Hc).
  rewrite Hs at 1. rewrite <- app_assoc, trim_start_all_ws by done.
  destruct (trim_start s) as [|c s'].
  - simpl. rewrite <- (app_nil_r t), trim_start_all_ws by done. done.
  - simpl. rewrite Hc. by apply (trim_end_all_ws (c :: s')).
Qed.

Lemma trim_start_idem s : trim_start (trim_start s) = trim_start s.
Proof.
  induction s as [|c s IH]; [done|]. simpl. destruct (is_whitespace c) eqn:E; [done|].
  simpl. by rewrite E.
Qed.

(** Trimming the end keeps a first character that is not blank. *)
Lemma trim_end_cons c s : is_whitespace c = false → ∃ t, trim_end (c :: s) = c :: t.
Proof.
  intros Hc. unfold trim_end. rewrite reverse_cons. induction (reverse s) as [|d r IH]; simpl.
  - rewrite Hc. by exists [].
  - destruct (is_whitespace d); [done|]. exists (reverse (d :: r)).
    by rewrite app_comm_cons, reverse_snoc.
Qed.

Lemma trim_idem s : trim (trim s) = trim s.
Proof.
  unfold trim. destruct (trim_start_split s) as (b & _ & _ & Hc).
  destruct (trim_start s) as [|c t]; [done|]. destruct (trim_end_cons c t Hc) as [u Hu].
  rewrite Hu, trim_start_id by done. rewrite <- Hu. unfold trim_end.
  by rewrite reverse_involutive, trim_start_idem.
Qed.

Lemma trim_start_suffix s : trim_start s `suffix_of` s.
Proof. destruct (trim_start_split s) as (b & _ & Hs & _). by exists b. Qed.

Lemma trim_end_prefix s : trim_end s `prefix_of` s.
Proof.
  unfold trim_end. rewrite prefix_suffix_reverse, reverse_involutive. apply trim_start_suffix.
Qed.

Lemma trim_start_elem c s : c ∈ trim_start s → c ∈ s.
Proof.
  induction s as [|d s IH]; [done|]. simpl. destruct (is_whitespace d); [|done].
  intros Hc. right. by apply IH.
Qed.

Lemma trim_elem c s : c ∈ trim s → c ∈ s.
Proof.
  unfold trim, trim_end. rewrite elem_of_reverse. intros Hc%trim_start_elem.
  rewrite elem_of_reverse in Hc. by apply trim_start_elem.
Qed.

(** * Lines *)
Lemma split_inclusive_concat s : concat (split_inclusive s) = s.
Proof.
  induction s as [|c s IH]; simpl; [done|]. destruct (N.eqb_spec c newline); simpl.
  - by rewrite IH.
  - destruct (split_inclusive s) as [|p ps]; simpl in *; by rewrite <- IH.
Qed.

Lemma split_inclusive_line l s :
  newline ∉ l → split_inclusive (l ++ newline :: s) = (l ++ [newline]) :: split_inclusive s.
Proof.
  induction l as [|c l IH]; intros Hl; [done|].
  apply not_elem_of_cons in Hl as [Hc Hl]. simpl.
  destruct (N.eqb_spec c newline) as [->|_]; [done|]. by rewrite IH.
Qed.

Lemma split_inclusive_last l :
  newline ∉ l → split_inclusive l = match l with [] => [] | _ => [l] end.
Proof.
  induction l as [|c l IH]; intros Hl; [done|].
  apply not_elem_of_cons in Hl as [Hc Hl]. simpl.
  destruct (N.eqb_spec c newline) as [->|_]; [done|]. rewrite IH by done. by destruct l.
Qed.

Lemma split_inclusive_app_nl a b :
  ends_with [newline] a = true ∨ a = [] →
  split_inclusive (a ++ b) = split_inclusive a ++ split_inclusive b.
Proof.
  intros [[t ->]%ends_with_spec| ->]; [|done].
  induction t as [|c t IH]; simpl in *.
  - done.
  - destruct (N.eqb_spec c newline); [by rewrite IH|].
    rewrite IH. destruct (split_inclusive (t ++ [newline])) eqn:E; [|done].
    apply (f_equal (@concat _)) in E. rewrite split_inclusive_concat in E. by destruct t.
Qed.

(** The lines of a text that ends in a newline (or is empty), followed by
    more text: the lines of both. *)
Lemma lines_app a b :
  ends_with [newline] a = true ∨ a = [] → lines (a ++ b) = lines a ++ lines b.
Proof. intros Ha. unfold lines. by rewrite split_inclusive_app_nl, fmap_app. Qed.

Lemma strip_line_ending_no_nl l : newline ∉ l → strip_line_ending l = l.
Proof.
  intros Hl. unfold strip_line_ending. destruct (reverse l) as [|c r] eqn:E.
  - apply (f_equal reverse) in E. by rewrite reverse_involutive in E.
  - destruct (N.eqb_spec c newline) as [->|]; [|done]. destruct Hl.
    apply elem_of_reverse. rewrite E. by left.
Qed.

Lemma strip_line_ending_nl l :
  ends_cr l = false → strip_line_ending (l ++ [newline]) = l.
Proof.
  intros Hl. unfold strip_line_ending. rewrite reverse_snoc, N.eqb_refl.
  destruct (reverse l) as [|d r] eqn:E.
  { apply (f_equal reverse) in E. by rewrite reverse_involutive in E. }
  destruct (N.eqb_spec d carriage_return) as [->|].
  - exfalso. apply not_true_iff_false in Hl. apply Hl, ends_with_spec.
    exists (reverse r). apply (f_equal reverse) in E.
    by rewrite reverse_involutive, reverse_cons in E.
  - rewrite <- E. apply reverse_involutive.
Qed.

(** A line is trimmed the same whether or not [lines] took a carriage return
    off it. *)
Lemma trim_strip_line_ending l : trim (strip_line_ending (l ++ [newline])) = trim l.
Proof.
  unfold strip_line_ending. rewrite reverse_snoc, N.eqb_refl.
  destruct (reverse l) as [|d r] eqn:E.
  { apply (f_equal reverse) in E. rewrite reverse_involutive in E. by rewrite E. }
  assert (l = reverse r ++ [d]) as ->.
  { apply (f_equal reverse) in E. by rewrite reverse_involutive, reverse_cons in E. }
  destruct (N.eqb_spec d carriage_return) as [->|].
  - symmetry. apply trim_end_ws_suffix. by apply Forall_singleton.
  - by rewrite reverse_cons.
Qed.

Lemma lines_nil : lines [] = [].
Proof. done. Qed.

(** No line of a text contains a newline. *)
Lemma lines_no_newline s : Forall (λ l, newline ∉ l) (lines s).
Proof.
  unfold lines. apply Forall_fmap. unfold compose.
  assert (Forall (λ p, ∃ q, (newline ∉ q) ∧ (p = q ∨ p = q ++ [newline])) (split_inclusive s))
    as Hs.
  { induction s as [|c s IH]; simpl; [done|].
    destruct (N.eqb_spec c newline) as [->|Hc].
    - constructor; [|done]. exists []. split; [set_solver|by right].
    - destruct (split_inclusive s) as [|p ps].
      + constructor; [|done]. exists [c]. split; [set_solver|by left].
      + apply Forall_cons in IH as [(q & Hq & Hp) IH]. constructor; [|done].
        exists (c :: q). split; [set_solver|]. destruct Hp as [->| ->]; auto. }
  eapply Forall_impl; [done|]. intros p (q & Hq & [->| ->]).
  - by rewrite strip_line_ending_no_nl.
  - destruct (ends_cr q) eqn:Ecr; [|by rewrite strip_line_ending_nl].
    apply ends_with_spec in Ecr as [t ->]. unfold strip_line_ending.
    rewrite reverse_snoc, N.eqb_refl, reverse_snoc, N.eqb_refl, reverse_involutive.
    set_solver.
Qed.

(** Writing lines back with a newline each and reading them again gives the
    same lines, up to the carriage return [lines] takes off. *)
Lemma lines_concat_nl ls :
  Forall (λ l, newline ∉ l) ls →
  lines (concat ((λ l, l ++ [newline]) <$> ls)) =
  (λ l, strip_line_ending (l ++ [newline])) <$> ls.
Proof.
  induction 1 as [|l ls Hl _ IH]; [done|]. simpl.
  rewrite <- app_assoc. simpl. unfold lines.
  rewrite split_inclusive_line by done. simpl. f_equal. apply IH.
Qed.

(** A text is complete lines and what follows the last newline. *)
Lemma last_line_split s :
  ∃ a b, s = a ++ b ∧ (ends_with [newline] a = true ∨ a = []) ∧ newline ∉ b.
Proof.
  induction s as [|c s (a & b & -> & Ha & Hb)] using rev_ind; [exists [], []; set_solver|].
  destruct (decide (c = newline)) as [->|Hc].
  - exists ((a ++ b) ++ [newline]), []. rewrite app_nil_r. split_and!; [done| |set_solver].
    left. apply ends_with_spec. eauto.
  - exists a, (b ++ [c]). rewrite (assoc_L (++)). split_and!; [done..|set_solver].
Qed.

Lemma lines_last b : newline ∉ b → b ≠ [] → lines b = [b].
Proof.
  intros Hb Hne. unfold lines. rewrite split_inclusive_last by done. destruct b; [done|].
  simpl. by rewrite strip_line_ending_no_nl.
Qed.

Lemma lines_last_nl b : newline ∉ b → lines (b ++ [newline]) = [strip_line_ending (b ++ [newline])].
Proof. intros Hb. unfold lines. by rewrite split_inclusive_line. Qed.

(** * Splitting and joining *)
Lemma split_char_cons_ne c s : ∃ p ps, split_char c s = p :: ps.
Proof. destruct s as [|d s]; simpl; [eauto|]. case_match; [eauto|]. case_match; eauto. Qed.

Lemma split_char_no_sep c s : c ∉ s → split_char c s = [s].
Proof.
  induction s as [|d s IH]; intros Hc; [done|]. apply not_elem_of_cons in Hc as [Hd Hc].
  simpl. destruct (N.eqb_spec d c) as [->|_]; [done|]. by rewrite IH.
Qed.

Lemma split_char_app c a s :
  c ∉ a → split_char c (a ++ c :: s) = a :: split_char c s.
Proof.
  induction a as [|d a IH]; intros Hc; simpl; [by rewrite N.eqb_refl|].
  apply not_elem_of_cons in Hc as [Hd Hc].
  destruct (N.eqb_spec d c) as [->|_]; [done|]. by rewrite IH.
Qed.

(** [split] undoes [join] when no piece contains the separator. *)
Lemma split_char_join c ss :
  ss ≠ [] → Forall (λ s, c ∉ s) ss → split_char c (join [c] ss) = ss.
Proof.
  intros Hne Hss. induction Hss as [|s ss Hs Hss IH]; [done|].
  destruct ss as [|t ss]; [by apply split_char_no_sep|].
  change (join [c] (s :: t :: ss)) with (s ++ c :: join [c] (t :: ss)).
  rewrite split_char_app by done. f_equal. by apply IH.
Qed.

Lemma split_once_None c s : split_once c s = None ↔ c ∉ s.
Proof.
  induction s as [|d s IH]; simpl; [split; [set_solver|done]|].
  destruct (N.eqb_spec d c) as [->|Hd].
  - split; [done|]. intros []. by left.
  - rewrite not_elem_of_cons. destruct (split_once c s) as [[a b]|]; naive_solver.
Qed.

Lemma split_once_app c a b : c ∉ a → split_once c (a ++ c :: b) = Some (a, b).
Proof.
  induction a as [|d a IH]; intros Ha; simpl; [by rewrite N.eqb_refl|].
  apply not_elem_of_cons in Ha as [Hd Ha].
  destruct (N.eqb_spec d c) as [->|_]; [done|]. by rewrite IH.
Qed.

Lemma split_once_Some c s a b : split_once c s = Some (a, b) ↔ s = a ++ c :: b ∧ c ∉ a.
Proof.
  split; [|intros [-> Ha]; by apply split_once_app].
  revert a. induction s as [|d s IH]; intros a; simpl; [done|].
  destruct (N.eqb_spec d c) as [->|Hd].
  - intros [= <- <-]. split; [done|]. apply not_elem_of_nil.
  - destruct (split_once c s) as [[a' b']|]; [|done]. intros [= <- <-].
    destruct (IH a') as [-> Ha']; [done|]. split; [done|]. by apply not_elem_of_cons.
Qed.

(** * Integers *)
Lemma parse_digits_bound bound acc s n :
  (0 ≤ acc ≤ bound)%Z → parse_digits bound acc s = Some n → (0 ≤ n ≤ bound)%Z.
Proof.
  revert acc. induction s as [|c s IH]; intros acc Hacc; simpl; [by intros [= <-]|].
  unfold digit. destruct ((48 <=? c) && (c <=? 57))%N eqn:Hc; [|done].
  destruct (Z.leb_spec (acc * 10 + (Z.of_N c - 48)) bound); [|done].
  apply IH. apply andb_true_iff in Hc as [H1%N.leb_le H2%N.leb_le]. lia.
Qed.

Lemma parse_uint_bound bound s n :
  (0 ≤ bound)%Z → parse_uint bound s = Some n → (0 ≤ n ≤ bound)%Z.
Proof.
  unfold parse_uint. intros Hb. repeat case_match; try done; apply parse_digits_bound; lia.
Qed.

(** Printing a number and reading it back. *)
Lemma digit_char (x : N) : (x < 10)%N → digit (ch (pretty_N_char x)) = Some (Z.of_N x).
Proof.
  intros Hx. assert (x ∈ [0; 1; 2; 3; 4; 5; 6; 7; 8; 9]%N) as Hin by (rewrite !elem_of_cons; lia).
  repeat (apply elem_of_cons in Hin as [->|Hin]; [reflexivity|]). by apply elem_of_nil in Hin.
Qed.

Lemma parse_digits_go bound x s :
  (Z.of_N x ≤ bound)%Z → parse_digits bound 0 (lit (pretty_N_go x s)) = parse_digits bound (Z.of_N x) (lit s).
Proof.
  revert s. induction (N.lt_wf_0 x) as [x _ IH]. intros s Hx.
  destruct (decide (0 < x)%N) as [Hpos|Hz]; [|by assert (x = 0)%N as -> by lia].
  rewrite pretty_N_go_step by done.
  assert (x `div` 10 < x)%N by (apply N.div_lt; lia).
  assert (x = 10 * (x `div` 10) + x `mod` 10)%N as Heq by (apply N.div_mod; lia).
  assert (x `mod` 10 < 10)%N by (apply N.mod_lt; lia).
  rewrite IH by lia. cbn [lit parse_digits]. rewrite digit_char by done. cbv zeta.
  assert (Z.of_N (x `div` 10) * 10 + Z.of_N (x `mod` 10) = Z.of_N x)%Z as -> by lia.
  by rewrite (proj2 (Z.leb_le _ _) Hx).
Qed.

Lemma pretty_go_digits x s :
  Forall (λ c, is_Some (digit c)) (lit s) → Forall (λ c, is_Some (digit c)) (lit (pretty_N_go x s)).
Proof.
  revert s. induction (N.lt_wf_0 x) as [x _ IH]. intros s Hs.
  destruct (decide (0 < x)%N) as [Hpos|Hz]; [|by assert (x = 0)%N as -> by lia].
  rewrite pretty_N_go_step by done. apply IH; [apply N.div_lt; lia|]. constructor; [|done].
  rewrite digit_char by (apply N.mod_lt; lia). by eexists.
Qed.

(** What [Display] writes for an unsigned integer: at least one digit. *)
Lemma show_Z_digits z :
  (0 ≤ z)%Z → Forall (λ c, is_Some (digit c)) (show_Z z) ∧ show_Z z ≠ [].
Proof.
  intros Hz. unfold show_Z, pretty, pretty_Z. destruct z as [|p|p]; [|clear Hz|lia].
  { split; [|done]. repeat constructor. by eexists. }
  unfold pretty, pretty_positive, pretty, pretty_N. case_decide; [done|]. split.
  { by apply pretty_go_digits. }
  intros Hnil. pose proof (parse_digits_go (Z.pos p) (N.pos p) "") as Hp.
  rewrite Hnil in Hp. cbn in Hp. specialize (Hp ltac:(lia)). done.
Qed.

Lemma parse_show_Z bound z : (0 ≤ z ≤ bound)%Z → parse_uint bound (show_Z z) = Some z.
Proof.
  intros [Hz Hb]. destruct (show_Z_digits z Hz) as [Hd Hne]. unfold parse_uint.
  destruct (show_Z z) as [|c s] eqn:Hs; [done|].
  assert ((c =? ch "+")%N = false) as ->.
  { apply N.eqb_neq. intros ->. apply Forall_cons in Hd as [[d Hd] _]. done. }
  rewrite <- Hs. unfold show_Z, pretty, pretty_Z. destruct z as [|p|p]; [| |lia].
  { change (parse_digits bound 0 [ch (pretty_N_char 0)] = Some 0%Z). cbn [parse_digits].
    rewrite (digit_char 0) by done. cbv zeta. change (0 * 10 + Z.of_N 0)%Z with 0%Z.
    by rewrite (proj2 (Z.leb_le _ _) Hb). }
  unfold pretty, pretty_positive, pretty, pretty_N. case_decide; [done|].
  by rewrite parse_digits_go by done.
Qed.

Lemma nocase_length s : length (nocase s) = length s.
Proof. apply length_fmap. Qed.

(** * The order of text *)
Lemma str_le_cons a s b t :
  str_le (a :: s) (b :: t) = true ↔ (a < b)%N ∨ a = b ∧ str_le s t = true.
Proof.
  simpl. destruct (N.ltb_spec a b); [naive_solver|].
  destruct (N.eqb_spec a b); split; naive_solver lia.
Qed.

Lemma str_le_total s t : str_le s t = true ∨ str_le t s = true.
Proof.
  revert t. induction s as [|a s IH]; intros [|b t]; [by left|by left|by right|].
  rewrite !str_le_cons. destruct (N.lt_trichotomy a b) as [?|[->|?]]; naive_solver.
Qed.

Lemma str_le_trans s t u : str_le s t = true → str_le t u = true → str_le s u = true.
Proof.
  revert t u. induction s as [|a s IH]; intros [|b t] [|c u]; try done.
  rewrite !str_le_cons. intros [?|[-> ?]] [?|[-> ?]]; try (left; lia). right. eauto.
Qed.
