(* ===== verification/Glob.v ===== *)
(** * Host-pattern globbing

    [glob_match] of [core-store/src/ssh_config/parse.rs] and its twin in
    [core-ssh/src/known_hosts.rs]: an iterative matcher with one backtracking
    point.  The loop is a function with fuel on the four variables of the
    code; [glob_fuel] is proved to be enough for every pattern and value.

    The reference is the relation [matches]: [*] spans any run of characters,
    [?] exactly one, any other character itself. *)
From S2P Require Import Prelude Text.

Definition star : char := ch "*".
Definition question : char := ch "?".

(** The variables of the loop.  [last_star = None] is the code's
    [star == usize::MAX]. *)
Record loop_state := Loop {
  pi : nat;
  vi : nat;
  last_star : option nat;
  resume : nat
}.

(** [pi < p.len() && (p[pi] == '?' || p[pi] == v[vi])] *)
Definition char_matches (p v : str) (s : loop_state) : bool :=
  match p !! pi s, v !! vi s with
  | Some c, Some d => (c =? question)%N || (c =? d)%N
  | _, _ => false
  end.

(** [pi < p.len() && p[pi] == '*'] *)
Definition at_star (p : str) (s : loop_state) : bool :=
  match p !! pi s with Some c => (c =? star)%N | None => false end.

(** One turn of [while vi < v.len()]: the next state, or [return false]. *)
Definition loop_body (p v : str) (s : loop_state) : option loop_state :=
  if char_matches p v s then
    Some (Loop (pi s + 1) (vi s + 1) (last_star s) (resume s))
  else if at_star p s then
    Some (Loop (pi s + 1) (vi s) (Some (pi s)) (vi s))
  else match last_star s with
       | Some st => Some (Loop (st + 1) (resume s + 1) (Some st) (resume s + 1))
       | None => None
       end.

(** The [while] loop: [None] is out of fuel, [Some None] is [return false],
    [Some (Some pi)] is the normal exit. *)
Fixpoint glob_loop (fuel : nat) (p v : str) (s : loop_state) : option (option nat) :=
  match fuel with
  | 0 => None
  | S fuel =>
      if decide (vi s < length v) then
        match loop_body p v s with
        | Some s' => glob_loop fuel p v s'
        | None => Some None
        end
      else Some (Some (pi s))
  end.

Definition glob_fuel (p v : str) : nat :=
  S (length v * (length v + length p + 1) + length v + length p).

(** [while pi < p.len() && p[pi] == '*' { pi += 1 }] on what is left of the
    pattern. *)
Fixpoint skip_stars (rest : str) : str :=
  match rest with
  | c :: rest' => if (c =? star)%N then skip_stars rest' else rest
  | [] => []
  end.

Definition glob_match (pattern value : str) : bool :=
  match glob_loop (glob_fuel pattern value) pattern value (Loop 0 0 None 0) with
  | Some (Some pi) => bool_decide (skip_stars (drop pi pattern) = [])
  | _ => false
  end.

(** The reference. *)
Inductive matches : str → str → Prop :=
  | matches_nil : matches [] []
  | matches_char c p v : matches p v → matches (c :: p) (c :: v)
  | matches_question d p v : matches p v → matches (question :: p) (d :: v)
  | matches_star_nil p v : matches p v → matches (star :: p) v
  | matches_star_cons d p v : matches (star :: p) v → matches (star :: p) (d :: v).

(** What the loop knows between two turns: where it is, that its backtracking
    point is a star of the pattern with no star after it up to [pi], and that
    the states it can still reach decide the match. *)
Record loop_inv (p v : str) (s : loop_state) : Prop := {
  inv_pi : pi s ≤ length p;
  inv_vi : resume s ≤ vi s ≤ length v;
  inv_star : match last_star s with
             | None => resume s = 0
             | Some st => st + 1 ≤ pi s
             end;
  inv_sound : matches (drop (pi s) p) (drop (vi s) v) → matches p v;
  inv_sound_star st k : last_star s = Some st → resume s ≤ k →
    matches (drop (st + 1) p) (drop k v) → matches p v
}.

Record loop_live (p v : str) (s : loop_state) : Prop := {
  live_segment st : last_star s = Some st →
    pi s = st + 1 + (vi s - resume s) ∧
    star ∉ take (vi s - resume s) (drop (st + 1) p);
  live_complete : matches p v →
    match last_star s with
    | None => matches (drop (pi s) p) (drop (vi s) v)
    | Some st => ∃ k, resume s ≤ k ∧ matches (drop (st + 1) p) (drop k v)
    end
}.

Definition loop_measure (p v : str) (s : loop_state) : nat :=
  (length v - resume s) * (length v + length p + 1) + (length v - vi s) + (length p - pi s).

(** ** The reference relation *)
Lemma matches_star_iff p v :
  matches (star :: p) v ↔ ∃ k, matches p (drop k v).
Proof.
  split.
  - intros H. remember (star :: p) as q eqn:Hq. revert p Hq.
    induction H as [|c p' v H _|d p' v H _|p' v H _|d p' v H IH]; intros p Hq; simplify_eq.
    + exists 1. done.
    + by exists 0.
    + destruct (IH p eq_refl) as [k Hk]. by exists (S k).
  - intros [k Hk]. revert v Hk. induction k as [|k IH]; intros v Hk.
    + by constructor.
    + destruct v as [|d v]; simpl in Hk; [by constructor|].
      apply matches_star_cons. by apply IH.
Qed.

(** A star-free prefix of the pattern consumes exactly its length. *)
Lemma matches_segment seg p w :
  star ∉ seg → matches (seg ++ p) w → length seg ≤ length w ∧ matches p (drop (length seg) w).
Proof.
  revert w. induction seg as [|c seg IH]; intros w Hstar H; simpl in *; [split; [lia|done]|].
  apply not_elem_of_cons in Hstar as [Hc Hseg].
  inversion H; simplify_eq/=; (destruct (IH v) as [??]; [done|done|split; [lia|done]]).
Qed.

Lemma matches_nil_iff p : matches p [] ↔ skip_stars p = [].
Proof.
  split.
  - intros H. remember [] as v eqn:Hv. induction H; simplify_eq/=; auto.
  - induction p as [|c p IH]; simpl; [constructor|].
    destruct (N.eqb_spec c star) as [->|]; [|done]. intros ?. constructor. auto.
Qed.

Lemma drop_lookup {A} (l : list A) n x : l !! n = Some x → drop n l = x :: drop (n + 1) l.
Proof. intros H. rewrite Nat.add_1_r. by apply drop_S. Qed.

Lemma char_matches_spec p v s :
  char_matches p v s = true ↔
  ∃ c d, p !! pi s = Some c ∧ v !! vi s = Some d ∧ (c = question ∨ c = d).
Proof.
  unfold char_matches. destruct (p !! pi s) as [c|]; [|naive_solver].
  destruct (v !! vi s) as [d|]; [|naive_solver].
  rewrite orb_true_iff, !N.eqb_eq. naive_solver.
Qed.

Lemma at_star_spec p s : at_star p s = true ↔ p !! pi s = Some star.
Proof.
  unfold at_star. destruct (p !! pi s) as [c|]; [|naive_solver].
  rewrite N.eqb_eq. naive_solver.
Qed.

(** Where neither test of the loop passes, the rest of the pattern does not
    match the rest of the value. *)
Lemma stuck_no_match p v s :
  vi s < length v → char_matches p v s = false → at_star p s = false →
  ¬ matches (drop (pi s) p) (drop (vi s) v).
Proof.
  intros Hv Hc Hs Hm. apply not_true_iff_false in Hc, Hs.
  rewrite char_matches_spec in Hc. rewrite at_star_spec in Hs.
  destruct (lookup_lt_is_Some_2 v (vi s) Hv) as [d Hd].
  rewrite (drop_lookup v _ d) in Hm by done.
  destruct (p !! pi s) as [c|] eqn:Hp.
  - rewrite (drop_lookup p _ c) in Hm by done. inversion Hm; simplify_eq; naive_solver.
  - apply lookup_ge_None in Hp. rewrite (drop_ge p) in Hm by done. by inversion Hm.
Qed.

(** ** The loop *)
Section loop.
Context (p v : str).

Lemma loop_inv_init : loop_inv p v (Loop 0 0 None 0).
Proof. split; simpl; try lia; done. Qed.

Lemma loop_live_init : loop_live p v (Loop 0 0 None 0).
Proof. by split. Qed.

Lemma loop_body_inv s s' :
  loop_inv p v s → vi s < length v → loop_body p v s = Some s' → loop_inv p v s'.
Proof.
  intros [Hpi Hvi Hst Hs Hss] Hlt. unfold loop_body.
  destruct (char_matches p v s) eqn:Hc.
  - apply char_matches_spec in Hc as (c & d & Hp & Hv & Hcd). intros [= <-].
    pose proof (lookup_lt_Some _ _ _ Hp).
    split; simpl; try lia.
    + destruct (last_star s); lia.
    + intros Hm. apply Hs. rewrite (drop_lookup p _ c), (drop_lookup v _ d) by done.
      destruct Hcd as [->| ->]; by constructor.
    + done.
  - destruct (at_star p s) eqn:Ha.
    + apply at_star_spec in Ha. intros [= <-]. pose proof (lookup_lt_Some _ _ _ Ha).
      assert (∀ k, vi s ≤ k → matches (drop (pi s + 1) p) (drop k v) → matches p v) as Hk.
      { intros k Hk Hm. apply Hs. rewrite (drop_lookup p _ star) by done.
        apply matches_star_iff. exists (k - vi s). rewrite drop_drop.
        by replace (vi s + (k - vi s)) with k by lia. }
      split; simpl; try lia; [by apply Hk|]. intros st k [= <-]. apply Hk.
    + destruct (last_star s) as [st|]; [|done]. intros [= <-].
      split; simpl; try lia.
      * intros Hm. by apply (Hss st (resume s + 1)); [|lia|].
      * intros st' k [= <-] ? Hm. by apply (Hss st k); [|lia|].
Qed.

Lemma loop_body_measure s s' :
  loop_inv p v s → vi s < length v → loop_body p v s = Some s' →
  loop_measure p v s' < loop_measure p v s.
Proof.
  intros [Hpi Hvi Hst _ _] Hlt. unfold loop_body, loop_measure.
  destruct (char_matches p v s) eqn:Hc.
  - apply char_matches_spec in Hc as (c & d & Hp & _). intros [= <-]; simpl.
    apply lookup_lt_Some in Hp. lia.
  - destruct (at_star p s) eqn:Ha.
    + apply at_star_spec, lookup_lt_Some in Ha. intros [= <-]; simpl.
      assert ((length v - vi s) * (length v + length p + 1) ≤
              (length v - resume s) * (length v + length p + 1))
        by (apply Nat.mul_le_mono_r; lia). lia.
    + destruct (last_star s) as [st|]; [|done]. intros [= <-]; simpl.
      replace (length v - resume s) with (S (length v - (resume s + 1))) by lia. lia.
Qed.

(** With enough fuel the loop always ends. *)
Lemma glob_loop_total fuel s :
  loop_inv p v s → loop_measure p v s < fuel → is_Some (glob_loop fuel p v s).
Proof.
  revert s. induction fuel as [|fuel IH]; intros s Hinv Hfuel; [lia|]. simpl.
  destruct (decide (vi s < length v)) as [Hlt|]; [|eauto].
  destruct (loop_body p v s) as [s'|] eqn:Hb; [|eauto].
  pose proof (loop_body_measure s s' Hinv Hlt Hb).
  apply IH; [by eapply loop_body_inv|lia].
Qed.

Lemma loop_measure_init : loop_measure p v (Loop 0 0 None 0) < glob_fuel p v.
Proof. unfold loop_measure, glob_fuel. simpl. lia. Qed.

Lemma glob_loop_sound fuel s n :
  loop_inv p v s → glob_loop fuel p v s = Some (Some n) →
  skip_stars (drop n p) = [] → matches p v.
Proof.
  revert s. induction fuel as [|fuel IH]; intros s Hinv; [done|]. simpl.
  destruct (decide (vi s < length v)) as [Hlt|Hge].
  - destruct (loop_body p v s) as [s'|] eqn:Hb; [|done].
    apply IH. by eapply loop_body_inv.
  - intros [= <-] Hskip. apply (inv_sound _ _ _ Hinv).
    rewrite (drop_ge v) by lia. by apply matches_nil_iff.
Qed.

(** The states of the loop stay alive for a value without a star. *)
Lemma loop_body_live s s' :
  star ∉ v → loop_inv p v s → loop_live p v s → vi s < length v →
  loop_body p v s = Some s' → loop_live p v s'.
Proof.
  intros Hfree [Hpi Hvi Hst _ _] [Hseg Hlive] Hlt Hb. pose proof Hb as Hb'.
  unfold loop_body in Hb. destruct (char_matches p v s) eqn:Hc.
  - apply char_matches_spec in Hc as (c & d & Hp & Hv & Hcd). injection Hb as <-.
    assert (c ≠ star) as Hcs.
    { intros ->. destruct Hcd as [|<-]; [done|]. apply Hfree. by eapply list_elem_of_lookup_2. }
    split; simpl.
    + intros st Hst'. destruct (Hseg st Hst') as [Heq Hns].
      replace (vi s + 1 - resume s) with (S (vi s - resume s)) by lia. split; [lia|].
      assert (drop (st + 1) p !! (vi s - resume s) = Some c) as Hc.
      { rewrite lookup_drop. by rewrite <- Heq. }
      rewrite (take_S_r _ _ _ Hc). set_solver.
    + intros Hm. specialize (Hlive Hm). destruct (last_star s); [done|].
      rewrite (drop_lookup p _ c), (drop_lookup v _ d) in Hlive by done.
      inversion Hlive; simplify_eq; done.
  - destruct (at_star p s) eqn:Ha.
    + apply at_star_spec in Ha. injection Hb as <-. split; simpl.
      * intros st [= <-]. rewrite Nat.sub_diag. split; [lia|]. set_solver.
      * intros Hm. specialize (Hlive Hm).
        destruct (last_star s) as [st|] eqn:Hls.
        -- destruct Hlive as (k & Hk & Hm'). destruct (Hseg st eq_refl) as [Heq Hns].
           rewrite <- (take_drop (vi s - resume s) (drop (st + 1) p)) in Hm'.
           apply matches_segment in Hm' as [Hlen Hm']; [|done].
           rewrite !drop_drop, <- Heq, length_take_le in Hm'
             by (rewrite length_drop; lia).
           rewrite (drop_lookup p _ star) in Hm' by done.
           apply matches_star_iff in Hm' as [j Hj]. rewrite drop_drop in Hj.
           eexists. split; [|exact Hj]. lia.
        -- rewrite (drop_lookup p _ star) in Hlive by done.
           apply matches_star_iff in Hlive as [j Hj]. rewrite drop_drop in Hj.
           eexists. split; [|exact Hj]. lia.
    + destruct (last_star s) as [st|] eqn:Hls; [|done]. injection Hb as <-. split; simpl.
      * intros st' [= <-]. rewrite Nat.sub_diag. split; [lia|]. set_solver.
      * intros Hm. destruct (Hlive Hm) as (k & Hk & Hm'). exists k. split; [|done].
        destruct (decide (k = resume s)) as [->|]; [|lia].
        destruct (Hseg st eq_refl) as [Heq Hns].
        rewrite <- (take_drop (vi s - resume s) (drop (st + 1) p)) in Hm'.
        apply matches_segment in Hm' as [Hlen Hm']; [|done].
        rewrite !drop_drop, <- Heq, length_take_le in Hm' by (rewrite length_drop; lia).
        replace (resume s + (vi s - resume s)) with (vi s) in Hm' by lia.
        by apply stuck_no_match in Hm'.
Qed.

Lemma glob_loop_complete fuel s r :
  star ∉ v → loop_inv p v s → loop_live p v s → matches p v →
  glob_loop fuel p v s = Some r → ∃ n, r = Some n ∧ skip_stars (drop n p) = [].
Proof.
  intros Hfree. revert s. induction fuel as [|fuel IH]; intros s Hinv Hl Hm; [done|]. simpl.
  destruct (decide (vi s < length v)) as [Hlt|Hge].
  - destruct (loop_body p v s) as [s'|] eqn:Hb.
    + apply IH; [by eapply loop_body_inv|by eapply loop_body_live|done].
    + exfalso. unfold loop_body in Hb.
      destruct (char_matches p v s) eqn:Hc; [done|]. destruct (at_star p s) eqn:Ha; [done|].
      destruct (last_star s) eqn:Hls; [done|].
      pose proof (live_complete _ _ _ Hl Hm) as Hlive. rewrite Hls in Hlive.
      by apply stuck_no_match in Hlive.
  - intros [= <-]. exists (pi s). split; [done|]. apply matches_nil_iff.
    destruct Hinv as [Hpi Hvi _ _ _]. destruct Hl as [Hseg Hlive]. specialize (Hlive Hm).
    destruct (last_star s) as [st|].
    + destruct Hlive as (k & Hk & Hm'). destruct (Hseg st eq_refl) as [Heq Hns].
      rewrite <- (take_drop (vi s - resume s) (drop (st + 1) p)) in Hm'.
      apply matches_segment in Hm' as [Hlen Hm']; [|done].
      rewrite !drop_drop, <- Heq, length_take_le in Hm' by (rewrite length_drop; lia).
      by rewrite (drop_ge v) in Hm' by lia.
    + by rewrite (drop_ge v) in Hlive by lia.
Qed.
End loop.

(** A text matches itself as a pattern. *)
Lemma matches_refl s : matches s s.
Proof. induction s; [apply matches_nil|by apply matches_char]. Qed.

(** What the two matchers agree on: used by the components that call
    [glob_match]. *)
Lemma glob_match_matches p v : glob_match p v = true → matches p v.
Proof.
  unfold glob_match. destruct (glob_loop _ p v _) as [[n|]|] eqn:E; [|done..].
  intros Hskip%bool_decide_eq_true. eapply glob_loop_sound; eauto using loop_inv_init.
Qed.

Lemma glob_match_star_free p v : star ∉ v → matches p v → glob_match p v = true.
Proof.
  intros Hfree Hm. unfold glob_match.
  destruct (glob_loop_total p v (glob_fuel p v) (Loop 0 0 None 0)) as [r Hr];
    [apply loop_inv_init|apply loop_measure_init|].
  rewrite Hr. eapply glob_loop_complete in Hr as (n & -> & Hn);
    eauto using loop_inv_init, loop_live_init.
  by apply bool_decide_eq_true.
Qed.

(** ** Properties *)

(** The backtracking loop of [glob_match] ends for every pattern and
    value: with [glob_fuel] turns it reaches its normal exit or [return
    false], so a pathological pattern cannot make it run on. *)
Theorem glob_terminates p v :
  is_Some (glob_loop (glob_fuel p v) p v (Loop 0 0 None 0)).
Proof. apply glob_loop_total; [apply loop_inv_init|apply loop_measure_init]. Qed.

(** C15: on values without a literal [*] the iterative matcher decides the
    reference relation: [*] spans any run, [?] exactly one character. *)
Theorem glob_match_spec p v :
  star ∉ v → glob_match p v = true ↔ matches p v.
Proof.
  intros Hfree. split; [apply glob_match_matches|by apply glob_match_star_free].
Qed.

Lemma glob_match_spec_witness :
  (star ∉ #"a.b.example.com") ∧
  (glob_match #"*.example.com" #"a.b.example.com" = true ↔
   matches #"*.example.com" #"a.b.example.com").
Proof.
  split; [by apply contains_char_false|].
  apply (glob_match_spec #"*.example.com" #"a.b.example.com"). by apply contains_char_false.
Defined.

(** The literal test comes before the star test, so a [*] in the pattern
    that meets a [*] in the value is consumed as a plain character and never
    becomes a backtracking point: [*] fails to match any longer text that
    begins with [*], although it spans any run of characters. *)
Theorem glob_match_star_in_value c v :
  matches #"*" (star :: c :: v) ∧ glob_match #"*" (star :: c :: v) = false.
Proof.
  split; [|reflexivity].
  apply matches_star_iff. exists (length (star :: c :: v)).
  rewrite drop_all. constructor.
Qed.
