(* ===== verification/Lex.v ===== *)
(** * OpenSSH client-config tokenizer

    [core-store/src/ssh_config/lex.rs]: lines into [Directive]s.  The char
    loop of [split_fields] is a fold of [split_step] over the line; [None] is
    its [break] at a comment. *)
From S2P Require Import Prelude Text.

Definition dquote : char := 34%N.

Record Directive := MkDirective {
  line : nat;
  keyword : str;
  args : list str
}.
#[export] Instance Directive_eq_dec : EqDecision Directive.
Proof. solve_decision. Defined.

(** The local variables of [split_fields]. *)
Record fields := Fields {
  out : list str;
  current : str;
  in_quotes : bool;
  separator_used : bool
}.

(** [let mut separator_used = !out.is_empty()] with an empty [out]. *)
Definition fields_init : fields := Fields [] [] false false.

Definition is_empty {A} (l : list A) : bool := match l with [] => true | _ => false end.

Definition split_step (s : fields) (c : char) : option fields :=
  if (c =? dquote)%N then
    let q := negb (in_quotes s) in
    if negb q && is_empty (current s) then
      Some (Fields (out s ++ [[]]) (current s) q true)
    else Some (Fields (out s) (current s) q (separator_used s))
  else if (c =? ch "#")%N && negb (in_quotes s) then None
  else if (c =? ch "=")%N && negb (in_quotes s) && negb (separator_used s)
          && (length (out s) =? 1)%nat && is_empty (current s) then
    Some (Fields (out s) (current s) (in_quotes s) true)
  else if (c =? ch "=")%N && negb (in_quotes s) && negb (separator_used s)
          && is_empty (out s) && negb (is_empty (current s)) then
    Some (Fields (out s ++ [current s]) [] (in_quotes s) true)
  else if is_whitespace c && negb (in_quotes s) then
    if is_empty (current s) then Some s
    else Some (Fields (out s ++ [current s]) [] (in_quotes s) (separator_used s))
  else Some (Fields (out s) (current s ++ [c]) (in_quotes s) (separator_used s)).

#[global] Arguments split_step : simpl never.

Fixpoint split_loop (s : fields) (raw : str) : fields :=
  match raw with
  | [] => s
  | c :: raw => match split_step s c with Some s' => split_loop s' raw | None => s end
  end.

Definition fields_end (s : fields) : list str :=
  if is_empty (current s) then out s else out s ++ [current s].

(** Split one line into fields, honouring quotes, [=] separators and comments. *)
Definition split_fields (raw : str) : list str := fields_end (split_loop fields_init raw).

Section tokenize.
Context `{Lowercase}.

Definition tokenize_line (raw : str) : option (str * list str) :=
  match split_fields raw with
  | [] => None
  | kw :: fs =>
      let kw := to_lowercase kw in
      if is_empty kw then None else Some (kw, fs)
  end.

Definition tokenize (input : str) : list Directive :=
  omap (λ '(idx, raw),
          '(kw, fs) ← tokenize_line raw; Some (MkDirective (idx + 1) kw fs))
       (enumerate (lines input)).
End tokenize.

(** A config writer for the round trip: the keyword, then every argument in
    double quotes after a space. *)
Definition quote_arg (a : str) : str := dquote :: a ++ [dquote].
Definition render (kw : str) (fs : list str) : str :=
  kw ++ concat ((λ a, ch " " :: quote_arg a) <$> fs).

(** A char that is none of the tokenizer's special characters. *)
Definition plain (c : char) : bool :=
  negb (is_whitespace c || (c =? dquote)%N || (c =? ch "#")%N || (c =? ch "=")%N).

(** ** The loop *)
Lemma split_loop_app s a b :
  split_loop s (a ++ b) = split_loop (split_loop s a) b ∨
  split_loop s (a ++ b) = split_loop s a.
Proof.
  revert s. induction a as [|c a IH]; intros s; simpl; [by left|].
  destruct (split_step s c); [apply IH|by right].
Qed.

(** Chars that only lengthen the current field. *)
Definition quiet (s : fields) (c : char) : Prop :=
  split_step s c = Some (Fields (out s) (current s ++ [c]) (in_quotes s) (separator_used s)).

Lemma split_loop_quiet o cur q sep w rest :
  (∀ cur' c, c ∈ w → quiet (Fields o cur' q sep) c) →
  split_loop (Fields o cur q sep) (w ++ rest) = split_loop (Fields o (cur ++ w) q sep) rest.
Proof.
  revert cur. induction w as [|c w IH]; intros cur Hw; simpl; [by rewrite app_nil_r|].
  rewrite Hw by set_solver. simpl. rewrite IH by (intros; apply Hw; set_solver).
  by rewrite <- app_assoc.
Qed.

Lemma plain_quiet s c : plain c = true → quiet s c.
Proof.
  unfold plain, quiet, split_step. intros H%negb_true_iff.
  apply orb_false_iff in H as [[[-> ->]%orb_false_iff ->]%orb_false_iff ->]. done.
Qed.

Lemma quoted_quiet s c : in_quotes s = true → c ≠ dquote → quiet s c.
Proof.
  unfold quiet, split_step. intros -> Hc%N.eqb_neq. rewrite Hc. simpl.
  by rewrite !andb_false_r.
Qed.

(** After the separator (or past the first field) an [=] is plain text. *)
Lemma value_quiet s c :
  plain c = true ∨ (c = ch "=" ∧ (separator_used s = true ∨
    (out s ≠ [] ∧ (current s ≠ [] ∨ length (out s) ≠ 1)))) → quiet s c.
Proof.
  intros [Hc|[-> Hs]]; [by apply plain_quiet|]. unfold quiet, split_step. simpl.
  destruct (in_quotes s); simpl; [done|].
  destruct Hs as [->|[Ho Hs]]; [done|].
  destruct (separator_used s); [done|]. simpl.
  destruct (out s) as [|o os]; [done|]. simpl.
  destruct (current s); simpl; [|by rewrite andb_false_r].
  destruct os; simpl; [|done]. destruct Hs; done.
Qed.

Lemma is_empty_true {A} (l : list A) : is_empty l = true ↔ l = [].
Proof. by destruct l. Qed.

Lemma split_step_space o cur sep :
  split_step (Fields o cur false sep) (ch " ") =
  Some (Fields (if is_empty cur then o else o ++ [cur]) [] false sep).
Proof. by destruct cur. Qed.

Lemma split_step_open o cur sep :
  split_step (Fields o cur false sep) dquote = Some (Fields o cur true sep).
Proof. done. Qed.

Lemma split_step_close o cur sep :
  split_step (Fields o cur true sep) dquote =
  Some (if is_empty cur then Fields (o ++ [[]]) [] false true else Fields o cur false sep).
Proof. by destruct cur. Qed.

Lemma plain_keyword_loop kw rest :
  kw ≠ [] → Forall (λ c, plain c = true) kw →
  split_loop fields_init (kw ++ rest) = split_loop (Fields [] kw false false) rest.
Proof.
  intros _ Hkw. rewrite Forall_forall in Hkw. unfold fields_init.
  rewrite split_loop_quiet; [done|]. intros; apply plain_quiet; auto.
Qed.

(** One quoted argument leaves its text as the field being built, or, when it
    is empty, already pushed. *)
Lemma quoted_arg_fields o cur sep a rest :
  dquote ∉ a →
  split_loop (Fields o cur false sep) (ch " " :: quote_arg a ++ rest) =
  split_loop (if is_empty a then Fields ((if is_empty cur then o else o ++ [cur]) ++ [[]]) [] false true
              else Fields (if is_empty cur then o else o ++ [cur]) a false sep) rest.
Proof.
  intros Ha. unfold quote_arg. cbn [split_loop app].
  rewrite split_step_space, split_step_open, <- app_assoc.
  rewrite split_loop_quiet; [|intros; apply quoted_quiet; [done|set_solver]].
  cbn [split_loop app]. rewrite split_step_close. by destruct a.
Qed.

Lemma render_args_loop fs o cur sep :
  Forall (λ a, dquote ∉ a) fs →
  fields_end (split_loop (Fields o cur false sep) (concat ((λ a, ch " " :: quote_arg a) <$> fs))) =
  (if is_empty cur then o else o ++ [cur]) ++ fs.
Proof.
  intros Hfs. revert o cur sep. induction Hfs as [|a fs Ha _ IH]; intros o cur sep.
  - simpl. unfold fields_end. simpl. destruct cur; by rewrite ?app_nil_r.
  - rewrite fmap_cons. cbn [concat app]. rewrite quoted_arg_fields by done.
    destruct a as [|c a]; simpl is_empty; cbv iota; rewrite IH; simpl is_empty; cbv iota;
      by rewrite <- app_assoc.
Qed.

Lemma split_fields_render kw fs :
  kw ≠ [] → Forall (λ c, plain c = true) kw → Forall (λ a, dquote ∉ a) fs →
  split_fields (render kw fs) = kw :: fs.
Proof.
  intros Hne Hkw Hfs. unfold split_fields, render. rewrite plain_keyword_loop by done.
  rewrite render_args_loop by done. by destruct kw.
Qed.

Lemma value_loop kw cur sep w :
  cur ≠ [] → Forall (λ d, plain d = true ∨ d = ch "=") w →
  fields_end (split_loop (Fields [kw] cur false sep) w) = [kw; cur ++ w].
Proof.
  intros Hcur Hw. revert cur Hcur. induction Hw as [|d w Hd _ IH]; intros cur Hcur.
  - unfold fields_end. simpl. rewrite app_nil_r. by destruct cur.
  - cbn [split_loop]. assert (quiet (Fields [kw] cur false sep) d) as ->.
    { apply value_quiet. destruct Hd as [| ->]; [by left|]. right. split; [done|]. right. auto. }
    simpl. rewrite IH by (by destruct cur). by rewrite <- app_assoc.
Qed.

Section facts.
Context `{Lowercase}.

Lemma tokenize_elem input d :
  d ∈ tokenize input ↔
  ∃ i raw, lines input !! i = Some raw ∧ line d = i + 1 ∧
           tokenize_line raw = Some (keyword d, args d).
Proof.
  unfold tokenize, enumerate. rewrite list_elem_of_omap. split.
  - intros ([i raw] & Hi & Hd). apply enumerate_from_elem in Hi as [_ Hi].
    rewrite Nat.sub_0_r in Hi. destruct (tokenize_line raw) as [[kw fs]|] eqn:E; [|done].
    injection Hd as <-. simpl. eauto.
  - intros (i & raw & Hi & Hl & E). exists (i, raw). split.
    + apply enumerate_from_elem. rewrite Nat.sub_0_r. split; [lia|done].
    + rewrite E. simpl. destruct d; simpl in *. by subst.
Qed.
End facts.

(** ** Properties *)

(** A directive written as a keyword and double-quoted arguments reads
    back as that keyword (lowercased) and exactly those arguments, whatever
    spaces, [#] or [=] the arguments contain, the empty argument included. *)
Theorem tokenize_line_render `{Lowercase} kw fs :
  kw ≠ [] → Forall (λ c, plain c = true ∧ is_ascii c = true) kw →
  Forall (λ a, dquote ∉ a) fs →
  tokenize_line (render kw fs) = Some (ascii_lower <$> kw, fs).
Proof.
  intros Hne Hkw Hfs. apply Forall_and in Hkw as [Hp Ha].
  unfold tokenize_line. rewrite split_fields_render by done.
  rewrite to_lowercase_ascii by done. by destruct kw.
Qed.

Lemma tokenize_line_render_witness :
  let kw := #"IdentityFile" in let fs := [ #"/home/me/my keys/id #1"; []; #"a=b"] in
  kw ≠ [] ∧ tokenize_line (render kw fs) = Some (#"identityfile", fs).
Proof.
  split; [done|].
  apply (tokenize_line_render #"IdentityFile" [ #"/home/me/my keys/id #1"; []; #"a=b"]).
  - done.
  - by repeat constructor.
  - repeat constructor; by apply contains_char_false.
Defined.

(** [Keyword value], [Keyword=value] and [Keyword = value] are the same
    directive, for a value without blanks, quotes or [#]; an [=] inside the
    value is ordinary text. *)
Theorem separators_equivalent kw c w :
  kw ≠ [] → Forall (λ c, plain c = true) kw → plain c = true →
  Forall (λ d, plain d = true ∨ d = ch "=") w →
  split_fields (kw ++ #" " ++ c :: w) = [kw; c :: w] ∧
  split_fields (kw ++ #"=" ++ c :: w) = [kw; c :: w] ∧
  split_fields (kw ++ #" = " ++ c :: w) = [kw; c :: w].
Proof.
  intros Hne Hkw Hc Hw. 
  assert (∀ sep, fields_end (split_loop (Fields [kw] [] false sep) (c :: w)) = [kw; c :: w]) as Hv.
  { intros sep. cbn [split_loop].
    rewrite (plain_quiet (Fields [kw] [] false sep) c Hc). by apply value_loop. }
  unfold split_fields. rewrite !plain_keyword_loop by done.
  destruct kw as [|k kw]; [done|].
  split_and!; cbn [lit app split_loop]; rewrite ?split_step_space; apply Hv.
Qed.

Lemma separators_equivalent_witness :
  #"Port" ≠ [] ∧
  (split_fields (#"Port" ++ #" " ++ #"2222") = [ #"Port"; #"2222"] ∧
   split_fields (#"Port" ++ #"=" ++ #"2222") = [ #"Port"; #"2222"] ∧
   split_fields (#"Port" ++ #" = " ++ #"2222") = [ #"Port"; #"2222"]).
Proof.
  split; [done|]. apply (separators_equivalent #"Port" (ch "2") #"222").
  - done.
  - by repeat constructor.
  - done.
  - repeat constructor; by left.
Defined.

(** Every directive names the line it came from: it is at line [n]
    (1-based, skipped lines counted) exactly when the [n]-th line of the file
    tokenizes to its keyword and arguments, and no line is dropped that
    tokenizes. *)
Theorem tokenize_line_numbers `{Lowercase} input d :
  d ∈ tokenize input ↔
  1 ≤ line d ∧
  (lines input !! (line d - 1)) ≫= tokenize_line = Some (keyword d, args d).
Proof.
  rewrite tokenize_elem. split.
  - intros (i & raw & Hi & Hl & Ht). rewrite Hl, Nat.add_sub, Hi. split; [lia|done].
  - intros [Hl Ht]. apply bind_Some in Ht as (raw & Hi & Ht).
    exists (line d - 1), raw. repeat split; [done|lia|done].
Qed.

(** A comment changes nothing: outside quotes, [#] and everything after
    it is dropped from the line. *)
Theorem comment_ignored a b :
  in_quotes (split_loop fields_init a) = false →
  split_fields (a ++ ch "#" :: b) = split_fields a.
Proof.
  intros Hq. unfold split_fields. f_equal.
  destruct (split_loop_app fields_init a (ch "#" :: b)) as [-> | ->]; [|done].
  simpl. unfold split_step. by rewrite Hq.
Qed.

Lemma comment_ignored_witness :
  in_quotes (split_loop fields_init #"Port 22 ") = false ∧
  split_fields (#"Port 22 " ++ ch "#" :: #" trailing") = split_fields #"Port 22 ".
Proof. split; [done|]. apply (comment_ignored #"Port 22 " #" trailing"). done. Defined.
