(* ===== verification/Path.v ===== *)
(** * Paths and the file system

    [std::path] on Unix, as text, and the interface of [std::fs] the code
    relies on.  What a concrete disk answers is the class [FileSystem]: the
    operating system's side is a parameter of every definition that reads
    files. *)
From S2P Require Import Prelude Text.

Definition slash : char := ch "/".
Definition dot : char := ch ".".

(** [Path::is_absolute]. *)
Definition is_absolute (p : str) : bool := starts_with [slash] p.

(** [Path::join] ([PathBuf::push]). *)
Definition path_join (base p : str) : str :=
  if is_absolute p then p
  else match base with
       | [] => p
       | _ => if ends_with [slash] base then base ++ p else base ++ slash :: p
       end.

(** [Path::components]: whether there is a root, and the named components; a
    leading [.] of a relative path is kept, the others are dropped. *)
Definition path_key (p : str) : bool * list str :=
  let raw := split_char slash p in
  (is_absolute p,
   (if decide (raw !! 0 = Some [dot]) then [[dot]] else []) ++
   filter (λ c, c ≠ [] ∧ c ≠ [dot]) raw).

(** [Path::file_name]. *)
Definition file_name (p : str) : option str :=
  match last (path_key p).2 with
  | Some c => if decide (c = [dot; dot] ∨ c = [dot]) then None else Some c
  | None => None
  end.

(** [Path::parent]: the text before the last component, without trailing
    separators and [.] components.  Both helpers work on the reversed text. *)
Fixpoint trim_back (r : str) : str :=
  match r with
  | c :: r' =>
      if (c =? slash)%N then match r' with [] => r | _ => trim_back r' end
      else match r' with
           | d :: _ => if (c =? dot)%N && (d =? slash)%N then trim_back r' else r
           | [] => r
           end
  | [] => []
  end.
Fixpoint drop_component (r : str) : str :=
  match r with
  | c :: r' => if (c =? slash)%N then r else drop_component r'
  | [] => []
  end.
Definition parent (p : str) : option str :=
  let t := trim_back (reverse p) in
  if decide (t = [] ∨ t = [slash]) then None
  else Some (reverse (trim_back (drop_component t))).

(** [Ord] on paths: component by component. *)
Fixpoint comps_le (a b : list str) : bool :=
  match a, b with
  | [], _ => true
  | _ :: _, [] => false
  | x :: a, y :: b => if decide (x = y) then comps_le a b else str_le x y
  end.
Definition path_le (p q : str) : Prop := comps_le (path_key p).2 (path_key q).2 = true.
#[export] Instance path_le_dec p q : Decision (path_le p q).
Proof. unfold path_le. apply _. Defined.

(** What the operating system answers: [Path::canonicalize],
    [fs::read_to_string] ([None] also for text that is not UTF-8),
    [Path::is_file], the readable entries of [fs::read_dir], and [HOME] (or
    [USERPROFILE]). *)
Class FileSystem := {
  canonicalize : str → option str;
  read_to_string : str → option str;
  is_file : str → bool;
  read_dir : str → option (list str);
  home : option str
}.

(** A disk given by its files, with paths already canonical: used to run the
    definitions on concrete inputs. *)
Definition disk (files : list (str * str)) (dir_entries : str → option (list str))
    (h : option str) : FileSystem := {|
  canonicalize p := if decide (p ∈ files.*1) then Some p else None;
  read_to_string p := snd <$> find_first (λ f, bool_decide (f.1 = p)) files;
  is_file p := bool_decide (p ∈ files.*1);
  read_dir := dir_entries;
  home := h
|}.

Example parent_1 : parent #"/home/me/.ssh/config" = Some #"/home/me/.ssh".
Proof. reflexivity. Qed.
Example parent_2 : parent #"./a//b/." = Some #"./a".
Proof. reflexivity. Qed.
Example parent_3 : (parent #"a", parent #"/a/", parent #"/") = (Some [], Some #"/", None).
Proof. reflexivity. Qed.
Example path_key_1 : path_key #"//a/./b/" = (true, [ #"a"; #"b"]).
Proof. reflexivity. Qed.
Example file_name_1 : (file_name #"/a/*/", file_name #"/a/..") = (Some #"*", None).
Proof. reflexivity. Qed.
