(* ===== verification/SshParse.v ===== *)
(** * Parsing an OpenSSH client config

    [core-store/src/ssh_config/parse.rs]: directives into [Host] stanzas,
    following [Include]s, and the resolution of an alias against them.

    [parse_into] recurses on the include depth that is left
    ([MAX_INCLUDE_DEPTH + 1 - depth]), so [0] is the code's
    [depth > MAX_INCLUDE_DEPTH].  The mutable arguments [visited] and [cfg]
    are threaded as a [walk]. *)
From S2P Require Import Prelude Text Glob Lex Path.

Inductive Warning :=
  | MatchUnsupported (file : str) (line : nat)
  | IncludeCycle (file : str) (line : nat)
  | IncludeUnreadable (file : str) (line : nat) (pattern : str)
  | UnsupportedKeyword (file : str) (line : nat) (keyword : str).

#[export] Instance Warning_eq_dec : EqDecision Warning.
Proof. solve_decision. Defined.

Definition UNDERSTOOD : list str :=
  [ #"hostname"; #"port"; #"user"; #"identityfile"; #"proxyjump";
    #"serveraliveinterval"; #"connecttimeout"; #"forwardagent"].

Record Stanza := MkStanza {
  patterns : list str;
  hostname : option str;
  port : option Z;
  user : option str;
  identity_file : option str;
  proxy_jump : option str;
  server_alive_interval : option Z;
  connect_timeout : option Z;
  forward_agent : option bool
}.

(** [Stanza { patterns, ..Stanza::default() }] *)
Definition stanza_of (ps : list str) : Stanza :=
  MkStanza ps None None None None None None None None.

(** The body of the loop of [Stanza::matches]: [None] is [return false]. *)
Definition matches_pattern (alias : str) (matched : bool) (pattern : str) : option bool :=
  match strip_prefix #"!" pattern with
  | Some negated => if glob_match negated alias then None else Some matched
  | None => Some (if glob_match pattern alias then true else matched)
  end.

Fixpoint matches_loop (alias : str) (matched : bool) (ps : list str) : bool :=
  match ps with
  | [] => matched
  | p :: ps =>
      match matches_pattern alias matched p with
      | Some matched => matches_loop alias matched ps
      | None => false
      end
  end.

Definition stanza_matches (s : Stanza) (alias : str) : bool :=
  matches_loop alias false (patterns s).

(** [if self.f.is_none() { self.f = other.f }] *)
Definition or_else {A} (x y : option A) : option A :=
  match x with None => y | Some _ => x end.

Definition inherit_from (self other : Stanza) : Stanza := {|
  patterns := patterns self;
  hostname := or_else (hostname self) (hostname other);
  port := or_else (port self) (port other);
  user := or_else (user self) (user other);
  identity_file := or_else (identity_file self) (identity_file other);
  proxy_jump := or_else (proxy_jump self) (proxy_jump other);
  server_alive_interval := or_else (server_alive_interval self) (server_alive_interval other);
  connect_timeout := or_else (connect_timeout self) (connect_timeout other);
  forward_agent := or_else (forward_agent self) (forward_agent other)
|}.

Record ParsedConfig := MkParsed {
  stanzas : list Stanza;
  warnings : list Warning
}.

Definition parsed_default : ParsedConfig := MkParsed [] [].

Definition push_stanza (s : Stanza) (cfg : ParsedConfig) : ParsedConfig :=
  MkParsed (stanzas cfg ++ [s]) (warnings cfg).
Definition push_warning (w : Warning) (cfg : ParsedConfig) : ParsedConfig :=
  MkParsed (stanzas cfg) (warnings cfg ++ [w]).

(** A pattern that names one connectable host. *)
Definition concrete (pattern : str) : bool :=
  negb (starts_with #"!" pattern || contains_char star pattern || contains_char question pattern).

(** [ParsedConfig::aliases]: the inner loop over one stanza's patterns, with
    the [seen] set and the output so far. *)
Definition alias_step (acc : gset str * list str) (pattern : str) : gset str * list str :=
  if concrete pattern then
    if decide (pattern ∈ acc.1) then acc
    else ({[pattern]} ∪ acc.1, acc.2 ++ [pattern])
  else acc.

Definition aliases (cfg : ParsedConfig) : list str :=
  (foldl (λ acc s, foldl alias_step acc (patterns s)) (∅, []) (stanzas cfg)).2.

(** [ParsedConfig::resolve] *)
Definition resolve (cfg : ParsedConfig) (alias : str) : Stanza :=
  foldl (λ resolved s, if stanza_matches s alias then inherit_from resolved s else resolved)
        (stanza_of [alias]) (stanzas cfg).

Definition MAX_INCLUDE_DEPTH : nat := 16.

Definition flush (current : option Stanza) (cfg : ParsedConfig) : ParsedConfig :=
  match current with
  | None => cfg
  | Some s => match patterns s with [] => cfg | _ => push_stanza s cfg end
  end.

Section with_fs.
Context `{FileSystem}.

Definition expand_tilde_str (input : str) : str :=
  match strip_prefix #"~/" input with
  | None => input
  | Some rest => match home with None => input | Some h => path_join h rest end
  end.

Definition glob_one (pattern value : str) : bool := glob_match pattern value.

Definition glob_paths (pattern : str) : list str :=
  if negb (contains_char star pattern) then
    if is_file pattern then [pattern] else []
  else match parent pattern with
       | None => []
       | Some dir =>
           let name := default [] (file_name pattern) in
           match read_dir dir with
           | None => []
           | Some entries =>
               merge_sort path_le
                 (filter (λ p, is_file p = true ∧
                               from_option (glob_one name) false (file_name p) = true) entries)
           end
       end.
End with_fs.

Section parse.
Context `{FileSystem, Lowercase}.

(** [apply]: first value wins. *)
Definition apply_directive (s : Stanza) (kw : str) (fs : list str) : Stanza :=
  match fs with
  | [] => s
  | first :: _ =>
      if decide (kw = #"hostname" ∧ hostname s = None) then
        MkStanza (patterns s) (Some first) (port s) (user s) (identity_file s) (proxy_jump s)
          (server_alive_interval s) (connect_timeout s) (forward_agent s)
      else if decide (kw = #"port" ∧ port s = None) then
        MkStanza (patterns s) (hostname s) (parse_uint u16_max first) (user s) (identity_file s)
          (proxy_jump s) (server_alive_interval s) (connect_timeout s) (forward_agent s)
      else if decide (kw = #"user" ∧ user s = None) then
        MkStanza (patterns s) (hostname s) (port s) (Some first) (identity_file s) (proxy_jump s)
          (server_alive_interval s) (connect_timeout s) (forward_agent s)
      else if decide (kw = #"identityfile" ∧ identity_file s = None) then
        MkStanza (patterns s) (hostname s) (port s) (user s) (Some (expand_tilde_str first))
          (proxy_jump s) (server_alive_interval s) (connect_timeout s) (forward_agent s)
      else if decide (kw = #"proxyjump" ∧ proxy_jump s = None) then
        MkStanza (patterns s) (hostname s) (port s) (user s) (identity_file s)
          (Some (join #"," fs)) (server_alive_interval s) (connect_timeout s) (forward_agent s)
      else if decide (kw = #"serveraliveinterval" ∧ server_alive_interval s = None) then
        MkStanza (patterns s) (hostname s) (port s) (user s) (identity_file s) (proxy_jump s)
          (parse_uint u32_max first) (connect_timeout s) (forward_agent s)
      else if decide (kw = #"connecttimeout" ∧ connect_timeout s = None) then
        MkStanza (patterns s) (hostname s) (port s) (user s) (identity_file s) (proxy_jump s)
          (server_alive_interval s) (parse_uint u32_max first) (forward_agent s)
      else if decide (kw = #"forwardagent" ∧ forward_agent s = None) then
        MkStanza (patterns s) (hostname s) (port s) (user s) (identity_file s) (proxy_jump s)
          (server_alive_interval s) (connect_timeout s)
          (Some (bool_decide (to_lowercase first ∈ [ #"yes"; #"true"; #"on"])))
      else s
  end.

(** The [&mut] arguments of the parser: the visit set and the result. *)
Record walk := Walk {
  visited : gset (bool * list str);
  cfg : ParsedConfig
}.
Definition walk_warn (w : Warning) (st : walk) : walk :=
  Walk (visited st) (push_warning w (cfg st)).

(** The locals of [absorb]'s loop. *)
Record absorbing := Absorb {
  current : option Stanza;
  in_match : bool;
  now : walk
}.

(** The path an [Include] pattern stands for. *)
Definition include_target (pattern base : str) : str :=
  let expanded := expand_tilde_str pattern in
  if is_absolute expanded then expanded else path_join base expanded.

Section absorb.
(** [parse_into] one level deeper. *)
Context (parse_deeper : str → walk → walk).

Definition include (pattern base : str) (line : nat) (file : str) (st : walk) : walk :=
  let entries := glob_paths (include_target pattern base) in
  let st := foldl (λ st entry, parse_deeper entry st) st entries in
  match entries with
  | [] => walk_warn (IncludeUnreadable file line pattern) st
  | _ => st
  end.

Definition absorb_step (file : str) (base : option str) (a : absorbing) (d : Directive) : absorbing :=
  let flushed := Walk (visited (now a)) (flush (current a) (cfg (now a))) in
  if decide (keyword d = #"host") then
    Absorb (Some (stanza_of (args d))) false flushed
  else if decide (keyword d = #"match") then
    Absorb None true (walk_warn (MatchUnsupported file (line d)) flushed)
  else if decide (keyword d = #"include") then
    match base with
    | Some base =>
        Absorb (current a) (in_match a)
          (foldl (λ st pattern, include pattern base (line d) file st) (now a) (args d))
    | None =>
        Absorb (current a) (in_match a)
          (walk_warn (IncludeUnreadable file (line d) (join #" " (args d))) (now a))
    end
  else if in_match a then a
  else match current a with
       | None => a
       | Some s =>
           if decide (keyword d ∈ UNDERSTOOD) then
             Absorb (Some (apply_directive s (keyword d) (args d))) (in_match a) (now a)
           else
             Absorb (Some s) (in_match a)
               (walk_warn (UnsupportedKeyword file (line d) (keyword d)) (now a))
       end.

Definition absorb_loop (file : str) (base : option str) (a : absorbing) (ds : list Directive) :
    absorbing :=
  foldl (absorb_step file base) a ds.

Definition absorb (directives : list Directive) (file : str) (base : option str) (st : walk) : walk :=
  let a := absorb_loop file base (Absorb None false st) directives in
  Walk (visited (now a)) (flush (current a) (cfg (now a))).
End absorb.

Fixpoint parse_into (fuel : nat) (path : str) (st : walk) : walk :=
  let canonical := path_key (default path (canonicalize path)) in
  match fuel with
  | 0 => walk_warn (IncludeCycle path 0) st
  | S fuel =>
      if decide (canonical ∈ visited st) then walk_warn (IncludeCycle path 0) st
      else
        let st := Walk ({[canonical]} ∪ visited st) (cfg st) in
        match read_to_string path with
        | None => st
        | Some text => absorb (parse_into fuel) (tokenize text) path (parent path) st
        end
  end.

Definition parse_file (path : str) : ParsedConfig :=
  cfg (parse_into (MAX_INCLUDE_DEPTH + 1) path (Walk ∅ parsed_default)).
End parse.

(** A disk with one file, that nobody can read. *)
Definition locked_disk : FileSystem :=
  Build_FileSystem Some (λ _, None) (λ p, bool_decide (p = #"/s/x")) (λ _, None) None.

(** * Resolution *)

Lemma or_else_find_map {A} (f : Stanza → option A) o s (l : list Stanza) :
  or_else (or_else o (f s)) (find_map f l) = or_else o (find_map f (s :: l)).
Proof. destruct o; [done|]. simpl. by destruct (f s). Qed.

(** Folding [inherit_from] computes, in every field, the first value the
    contributing stanzas obtain. *)
Lemma resolve_field {A} (f : Stanza → option A) alias l r :
  (∀ x y, f (inherit_from x y) = or_else (f x) (f y)) →
  f (foldl (λ res s, if stanza_matches s alias then inherit_from res s else res) r l) =
  or_else (f r) (find_map f (filter (λ s, stanza_matches s alias = true) l)).
Proof.
  intros Hf. revert r. induction l as [|s l IH]; intros r; [simpl; by destruct (f r)|].
  cbn [foldl]. rewrite IH, filter_cons.
  destruct (stanza_matches s alias); case_decide; try done.
  by rewrite Hf, or_else_find_map.
Qed.

(** C33: [resolve] is first-obtained-value-wins: every field of the resolved
    host is the first value that field has among the stanzas that match the
    alias, in file order. *)
Theorem resolve_first_wins pc alias :
  let ms := filter (λ s, stanza_matches s alias = true) (stanzas pc) in
  resolve pc alias =
  MkStanza [alias] (find_map hostname ms) (find_map port ms) (find_map user ms)
    (find_map identity_file ms) (find_map proxy_jump ms) (find_map server_alive_interval ms)
    (find_map connect_timeout ms) (find_map forward_agent ms).
Proof.
  intros ms.
  assert (patterns (resolve pc alias) = [alias]) as Hp.
  { unfold resolve. generalize (stanzas pc). clear ms.
    assert (∀ l r, patterns r = [alias] → patterns (foldl (λ res s,
      if stanza_matches s alias then inherit_from res s else res) r l) = [alias]) as Hl.
    { induction l as [|s l IH]; intros r Hr; [done|]. simpl. apply IH.
      by destruct (stanza_matches s alias). }
    intros l. by apply Hl. }
  pose proof (λ A (f : Stanza → option A) H,
    resolve_field f alias (stanzas pc) (stanza_of [alias]) H) as Hf.
  fold (resolve pc alias) in Hf. fold ms in Hf.
  destruct (resolve pc alias) as [ps h p u i j k c fw] eqn:E. simpl in Hp.
  f_equal; [done|..].
  - by apply (Hf _ hostname).
  - by apply (Hf _ port).
  - by apply (Hf _ user).
  - by apply (Hf _ identity_file).
  - by apply (Hf _ proxy_jump).
  - by apply (Hf _ server_alive_interval).
  - by apply (Hf _ connect_timeout).
  - by apply (Hf _ forward_agent).
Qed.

(** What a pattern says about an alias: it selects it, or it rules it out. *)
Definition selects (alias p : str) : Prop :=
  strip_prefix #"!" p = None ∧ glob_match p alias = true.
Definition rules_out (alias p : str) : Prop :=
  ∃ n, strip_prefix #"!" p = Some n ∧ glob_match n alias = true.

#[export] Instance selects_dec alias p : Decision (selects alias p).
Proof. unfold selects. apply _. Defined.

Lemma matches_pattern_spec alias m p m' :
  matches_pattern alias m p = Some m' ↔
  ¬ rules_out alias p ∧ (m' = true ↔ m = true ∨ selects alias p).
Proof.
  unfold matches_pattern, rules_out, selects. destruct (strip_prefix _ p) as [n|].
  - destruct (glob_match n alias) eqn:Eg.
    + split; [done|]. intros [[] _]. eauto.
    + split.
      * intros [= ->]. split; [intros (?&[= <-]&?); congruence|]. naive_solver.
      * intros [_ H]. f_equal. destruct m, m'; naive_solver.
  - split.
    + intros [= <-]. split; [by intros (?&?&?)|]. destruct (glob_match p alias), m; naive_solver.
    + intros [_ H]. f_equal. destruct (glob_match p alias), m, m'; naive_solver.
Qed.

Lemma matches_loop_spec alias m ps :
  matches_loop alias m ps = true ↔
  (m = true ∨ Exists (selects alias) ps) ∧ Forall (λ p, ¬ rules_out alias p) ps.
Proof.
  revert m. induction ps as [|p ps IH]; intros m; cbn [matches_loop].
  { rewrite Exists_nil, Forall_nil. tauto. }
  rewrite Exists_cons, Forall_cons. destruct (matches_pattern alias m p) as [m'|] eqn:E.
  - apply matches_pattern_spec in E as [Hr Hm]. rewrite IH. tauto.
  - split; [done|]. intros [_ [Hr _]]. destruct (decide (m = true ∨ selects alias p)) as [Hd|Hd].
    + by rewrite (proj2 (matches_pattern_spec alias m p true)) in E.
    + by rewrite (proj2 (matches_pattern_spec alias m p false)) in E.
Qed.

(** A stanza applies to an alias exactly when one of its positive
    patterns matches it and none of its negated ones does, wherever the
    negated ones stand. *)
Theorem stanza_matches_spec s alias :
  stanza_matches s alias = true ↔
  (∃ p, p ∈ patterns s ∧ selects alias p) ∧ ¬ ∃ p, p ∈ patterns s ∧ rules_out alias p.
Proof.
  unfold stanza_matches. rewrite matches_loop_spec, Exists_exists, Forall_forall. naive_solver.
Qed.

(** * Aliases *)

(** What holds of the loop of [aliases] after the patterns [ps]. *)
Definition alias_inv (ps : list str) (acc : gset str * list str) : Prop :=
  NoDup acc.2 ∧ (∀ x, x ∈ acc.1 ↔ x ∈ acc.2) ∧
  (∀ x, x ∈ acc.2 ↔ x ∈ ps ∧ concrete x = true) ∧
  acc.2 `sublist_of` filter (λ p, concrete p = true) ps.

Lemma alias_step_inv ps acc p : alias_inv ps acc → alias_inv (ps ++ [p]) (alias_step acc p).
Proof.
  intros (Hnd & Hs & He & Hsub). unfold alias_inv, alias_step.
  rewrite filter_app.
  destruct (concrete p) eqn:Hc.
  2: { rewrite filter_cons_False, filter_nil, app_nil_r by congruence.
       split_and!; [done..| |done].
       intros x. rewrite He, elem_of_app, list_elem_of_singleton.
       split; [tauto|]. intros [[?| ->] ?]; [done|congruence]. }
  rewrite filter_cons_True, filter_nil by done.
  destruct (decide (p ∈ acc.1)) as [Hin|Hin].
  - split_and!; [done..| |by apply sublist_inserts_r].
    intros x. rewrite He, elem_of_app, list_elem_of_singleton.
    apply Hs, He in Hin as [? ?]. split; [tauto|]. by intros [[?| ->] ?].
  - cbn [fst snd]. rewrite Hs in Hin. split_and!.
    + apply NoDup_app. split_and!; [done| |apply NoDup_singleton]. set_solver.
    + intros x. rewrite elem_of_union, Hs, elem_of_app. set_solver.
    + intros x. rewrite !elem_of_app, He, !list_elem_of_singleton.
      split; [|tauto]. intros [[? ?]| ->]; auto.
    + by apply sublist_app.
Qed.

Lemma foldl_alias_inv ps qs acc :
  alias_inv ps acc → alias_inv (ps ++ qs) (foldl alias_step acc qs).
Proof.
  revert ps acc. induction qs as [|q qs IH]; intros ps acc H; simpl; [by rewrite app_nil_r|].
  rewrite cons_middle, (assoc_L (++)). by apply IH, alias_step_inv.
Qed.

(** [aliases] offers exactly the concrete patterns of the stanzas, each
    once, in file order. *)
Theorem aliases_spec pc :
  NoDup (aliases pc) ∧
  (∀ x, x ∈ aliases pc ↔ concrete x = true ∧ ∃ s, s ∈ stanzas pc ∧ x ∈ patterns s) ∧
  aliases pc `sublist_of` filter (λ p, concrete p = true) (concat (patterns <$> stanzas pc)).
Proof.
  unfold aliases. destruct pc as [ss ws]. cbn [stanzas]. clear ws.
  assert (∀ ss ps acc, alias_inv ps acc →
    alias_inv (ps ++ concat (patterns <$> ss))
      (foldl (λ acc s, foldl alias_step acc (patterns s)) acc ss)) as Hl.
  { clear ss. induction ss as [|s ss IH]; intros ps acc H; simpl; [by rewrite app_nil_r|].
   rewrite (assoc_L (++)). by apply IH, foldl_alias_inv. }
  destruct (Hl ss [] (∅, [])) as (Hnd & _ & He & Hsub); [|split_and!; [done| |done]].
  - split_and!; [constructor|set_solver..|done].
  - intros x. rewrite He. simpl. rewrite list_elem_of_In, in_concat.
    setoid_rewrite <- list_elem_of_In. setoid_rewrite list_elem_of_fmap. naive_solver.
Qed.

(** * The walk only grows *)

Definition walk_le (st st' : walk) : Prop :=
  visited st ⊆ visited st' ∧
  stanzas (cfg st) `prefix_of` stanzas (cfg st') ∧
  warnings (cfg st) `prefix_of` warnings (cfg st').

#[export] Instance walk_le_preorder : PreOrder walk_le.
Proof.
  split.
  - intros st. by split_and!.
  - intros s1 s2 s3 (?&?&?) (?&?&?). split_and!; by etrans.
Qed.

Lemma walk_le_intro v v' c c' :
  v ⊆ v' → stanzas c `prefix_of` stanzas c' → warnings c `prefix_of` warnings c' →
  walk_le (Walk v c) (Walk v' c').
Proof. done. Qed.

Lemma walk_warn_le w st : walk_le st (walk_warn w st).
Proof. destruct st as [v c]. apply walk_le_intro; [done..|]. by eexists. Qed.

Lemma flush_le o v c : walk_le (Walk v c) (Walk v (flush o c)).
Proof.
  unfold flush. destruct o as [s|]; [|done]. destruct (patterns s); [done|].
  apply walk_le_intro; [done|by eexists|done].
Qed.

Lemma visit_le k st : walk_le st (Walk ({[k]} ∪ visited st) (cfg st)).
Proof. destruct st. apply walk_le_intro; [set_solver|done..]. Qed.
#[export] Hint Resolve walk_warn_le flush_le visit_le : tern.

Lemma foldl_le {A B} (R : relation A) `{!PreOrder R} (f : A → B → A) l a :
  (∀ a b, R a (f a b)) → R a (foldl f a l).
Proof.
  intros Hf. revert a. induction l as [|b l IH]; intros a; simpl; [done|].
  etrans; [apply Hf|apply IH].
Qed.

(** A fold that grows reaches, at each element, a state from which it only
    grows further. *)
Lemma foldl_reach {A B} (R : relation A) `{!PreOrder R} (f : A → B → A) l a b :
  (∀ a b, R a (f a b)) → b ∈ l → ∃ a', R a a' ∧ R (f a' b) (foldl f a l).
Proof.
  intros Hf (l1 & l2 & ->)%list_elem_of_split. exists (foldl f a l1).
  rewrite foldl_app. split; [by apply (foldl_le R)|]. by apply (foldl_le R f l2).
Qed.

(** The argument of [parse_deeper] only grows the walk. *)
Definition growing (deeper : str → walk → walk) : Prop := ∀ p st, walk_le st (deeper p st).

Section growth.
Context `{FileSystem, Lowercase} (deeper : str → walk → walk) (Hdeeper : growing deeper).

Lemma include_le pat base n file st : walk_le st (include deeper pat base n file st).
Proof.
  unfold include. set (entries := glob_paths _).
  trans (foldl (λ st entry, deeper entry st) st entries).
  - apply foldl_le; [apply _|]. intros a b. apply Hdeeper.
  - destruct entries; [apply walk_warn_le|done].
Qed.

(** The walk of the loop's locals, with the open stanza already written. *)
Definition closed (a : absorbing) : walk :=
  Walk (visited (now a)) (flush (current a) (cfg (now a))).

Lemma absorb_closed ds file base st :
  absorb deeper ds file base st = closed (absorb_loop deeper file base (Absorb None false st) ds).
Proof. done. Qed.

Lemma absorb_step_le file base a d : walk_le (now a) (now (absorb_step deeper file base a d)).
Proof.
  destruct a as [cur m [v c]]. unfold absorb_step. cbn [now current in_match visited cfg].
  repeat case_decide.
  - apply flush_le.
  - etrans; [apply flush_le|apply walk_warn_le].
  - destruct base as [b|]; [|apply walk_warn_le]. simpl.
    apply foldl_le; [apply _|]. intros a p. apply include_le.
  - destruct m; [done|]. by destruct cur.
  - destruct m; [done|]. destruct cur; [apply walk_warn_le|done].
Qed.

Lemma absorb_loop_le file base a ds : walk_le (now a) (now (absorb_loop deeper file base a ds)).
Proof.
  revert a. induction ds as [|d ds IH]; intros a; [done|].
  etrans; [apply absorb_step_le|apply IH].
Qed.

Lemma closed_le a : walk_le (now a) (closed a).
Proof. destruct a as [cur m [v c]]. apply flush_le. Qed.

Lemma absorb_le ds file base st : walk_le st (absorb deeper ds file base st).
Proof.
  rewrite absorb_closed. etrans; [|apply closed_le].
  apply (absorb_loop_le file base (Absorb None false st)).
Qed.

Lemma absorb_loop_app file base a ds1 ds2 :
  absorb_loop deeper file base a (ds1 ++ ds2) =
  absorb_loop deeper file base (absorb_loop deeper file base a ds1) ds2.
Proof. apply foldl_app. Qed.

Lemma absorb_loop_cons file base a d ds :
  absorb_loop deeper file base a (d :: ds) =
  absorb_loop deeper file base (absorb_step deeper file base a d) ds.
Proof. done. Qed.
End growth.

Lemma parse_into_le `{FileSystem, Lowercase} fuel p st : walk_le st (parse_into fuel p st).
Proof.
  revert p st. induction fuel as [|fuel IH]; intros p st; simpl; [apply walk_warn_le|].
  case_decide; [apply walk_warn_le|]. etrans; [apply visit_le|].
  destruct (read_to_string p) as [text|]; [|done]. apply absorb_le. exact IH.
Qed.

(** * Directives and the stanza they belong to *)

(** A directive that is a setting: it neither opens nor closes a block. *)
Definition setting (d : Directive) : Prop :=
  keyword d ≠ #"host" ∧ keyword d ≠ #"match" ∧ keyword d ≠ #"include".

#[export] Instance setting_dec d : Decision (setting d).
Proof. unfold setting. apply _. Defined.

Section settings.
Context `{FileSystem, Lowercase} (deeper : str → walk → walk) (file : str) (base : option str).
Abbreviation step := (absorb_step deeper file base).
Abbreviation loop := (absorb_loop deeper file base).

Lemma host_step a d :
  keyword d = #"host" → step a d = Absorb (Some (stanza_of (args d))) false (closed a).
Proof. intros Hd. unfold absorb_step. by rewrite decide_True. Qed.

Lemma match_step a d :
  keyword d = #"match" →
  step a d = Absorb None true (walk_warn (MatchUnsupported file (line d)) (closed a)).
Proof.
  intros Hd. unfold absorb_step. rewrite decide_False by (rewrite Hd; done).
  by rewrite decide_True.
Qed.

Lemma setting_step a d :
  setting d →
  step a d =
  if in_match a then a
  else match current a with
       | None => a
       | Some s =>
           if decide (keyword d ∈ UNDERSTOOD) then
             Absorb (Some (apply_directive s (keyword d) (args d))) (in_match a) (now a)
           else Absorb (Some s) (in_match a)
                  (walk_warn (UnsupportedKeyword file (line d) (keyword d)) (now a))
       end.
Proof. intros (?&?&?). unfold absorb_step. by rewrite !decide_False. Qed.

(** Settings outside a stanza are skipped. *)
Lemma settings_skipped a ds :
  in_match a = true ∨ current a = None → Forall setting ds → loop a ds = a.
Proof.
  intros Ha. induction 1 as [|d ds Hd _ IH]; [done|].
  rewrite absorb_loop_cons, setting_step by done.
  destruct (in_match a), (current a); first [apply IH|naive_solver].
Qed.

(** A stanza stays open up to the next [Host] or [Match]. *)
Lemma stanza_stays_open a ds :
  in_match a = false → is_Some (current a) →
  Forall (λ d, keyword d ≠ #"host" ∧ keyword d ≠ #"match") ds →
  in_match (loop a ds) = false ∧ is_Some (current (loop a ds)).
Proof.
  intros Ha Hc Hds. revert a Ha Hc. induction Hds as [|d ds [Hh Hm] _ IH]; intros a Ha Hc; [done|].
  rewrite absorb_loop_cons. apply IH; unfold absorb_step;
    rewrite !decide_False by done; (case_decide; [by destruct base|]);
    rewrite Ha; destruct Hc as [s ->]; by case_decide.
Qed.
End settings.

(** A [Match] line is a hard boundary.  The settings that follow it, up
    to the next [Host] or the end of the file, are discarded: the result is
    that of the directives before it, plus a warning naming its line, plus
    what the directives from that [Host] on give. *)
Theorem match_isolates `{FileSystem, Lowercase} deeper file base ds1 m ds2 ds3 st :
  keyword m = #"match" → Forall setting ds2 →
  ds3 = [] ∨ (∃ h ds, ds3 = h :: ds ∧ keyword h = #"host") →
  absorb deeper (ds1 ++ m :: ds2 ++ ds3) file base st =
  absorb deeper ds3 file base
    (walk_warn (MatchUnsupported file (line m)) (absorb deeper ds1 file base st)).
Proof.
  intros Hm Hds Hds3. rewrite !absorb_closed, absorb_loop_app, absorb_loop_cons, absorb_loop_app.
  rewrite match_step by done. rewrite (settings_skipped _ _ _ _ ds2); [|by left|done].
  destruct Hds3 as [->|(h & ds & -> & Hh)]; [done|].
  by rewrite !absorb_loop_cons, !host_step.
Qed.

Lemma match_isolates_witness :
  let fs := disk [] (λ _, None) None in
  let ds := tokenize #"Host a
Port 22
Match user x
Port 2222
Host b" in
  absorb (parse_into 0) ds #"f" None (Walk ∅ parsed_default) =
  absorb (parse_into 0) (drop 4 ds) #"f" None
    (walk_warn (MatchUnsupported #"f" 3)
       (absorb (parse_into 0) (take 2 ds) #"f" None (Walk ∅ parsed_default))).
Proof.
  intros fs ds.
  apply (match_isolates (parse_into 0) #"f" None (take 2 ds) (MkDirective 3 #"match" [ #"user"; #"x"])
           [MkDirective 4 #"port" [ #"2222"]] (drop 4 ds)).
  - done.
  - by apply (bool_decide_unpack _).
  - right. eexists _, _. split; [vm_compute; reflexivity|done].
Defined.

(** Settings before the first [Host] are dropped without a trace: no
    stanza carries them and no warning names them. *)
Theorem global_settings_dropped `{FileSystem, Lowercase} deeper file base ds ds' st :
  Forall setting ds →
  absorb deeper (ds ++ ds') file base st = absorb deeper ds' file base st.
Proof. intros Hds. by rewrite !absorb_closed, absorb_loop_app, (settings_skipped _ _ _ _ ds); [|by right|]. Qed.

Lemma global_settings_dropped_witness :
  let fs := disk [] (λ _, None) None in
  absorb (parse_into 0) (tokenize #"User root
Compression yes" ++ tokenize #"Host a") #"f" None (Walk ∅ parsed_default) =
  absorb (parse_into 0) (tokenize #"Host a") #"f" None (Walk ∅ parsed_default).
Proof. apply global_settings_dropped, (bool_decide_unpack _). by vm_compute. Defined.

(** A keyword the importer does not model, anywhere in a [Host] stanza,
    is listed in the warnings with its file and line. *)
Theorem unsupported_keyword_listed `{FileSystem, Lowercase} fuel file base ds1 h ds2 d ds3 st :
  keyword h = #"host" →
  Forall (λ d, keyword d ≠ #"host" ∧ keyword d ≠ #"match") ds2 →
  setting d → (keyword d ∉ UNDERSTOOD) →
  UnsupportedKeyword file (line d) (keyword d) ∈
    warnings (cfg (absorb (parse_into fuel) (ds1 ++ h :: ds2 ++ d :: ds3) file base st)).
Proof.
  intros Hh Hds Hd Hk.
  rewrite absorb_closed, absorb_loop_app, absorb_loop_cons, absorb_loop_app, absorb_loop_cons.
  rewrite (host_step _ _ _ _ h) by done. set (b := Absorb _ _ _).
  destruct (stanza_stays_open (parse_into fuel) file base b ds2) as [Hm [s Hs]]; [done..|].
  rewrite setting_step, Hm, Hs, decide_False by done.
  set (e := Absorb _ _ _).
  assert (UnsupportedKeyword file (line d) (keyword d) ∈ warnings (cfg (now e))) as He.
  { apply elem_of_app. right. by left. }
  destruct (absorb_loop_le (parse_into fuel) (parse_into_le fuel) file base e ds3)
    as (_ & _ & [l1 Hl1]).
  destruct (closed_le (absorb_loop (parse_into fuel) file base e ds3)) as (_ & _ & [l2 Hl2]).
  rewrite Hl2, Hl1. set_solver.
Qed.

Lemma unsupported_keyword_listed_witness :
  let fs := disk [] (λ _, None) None in
  UnsupportedKeyword #"f" 3 #"ciphers" ∈
    warnings (cfg (absorb (parse_into 0) (tokenize #"Host a
Port 22
Ciphers x") #"f" None (Walk ∅ parsed_default))).
Proof.
  intros fs.
  apply (unsupported_keyword_listed 0 #"f" None [] (MkDirective 1 #"host" [ #"a"])
           [MkDirective 2 #"port" [ #"22"]] (MkDirective 3 #"ciphers" [ #"x"]) []).
  - done.
  - by apply (bool_decide_unpack _).
  - by apply (bool_decide_unpack _).
  - by apply (bool_decide_unpack _).
Defined.

(** * Include cycles *)
Section cycles.
Context `{FileSystem, Lowercase}.

Definition canonical_key (p : str) : bool * list str := path_key (default p (canonicalize p)).

(** [q] is an entry of an [Include] directive of the file [p]. *)
Definition includes (p q : str) : Prop :=
  ∃ text base d pat,
    read_to_string p = Some text ∧ parent p = Some base ∧ d ∈ tokenize text ∧
    keyword d = #"include" ∧ pat ∈ args d ∧ q ∈ glob_paths (include_target pat base).

Definition cycle_warned (st : walk) : Prop := ∃ f, IncludeCycle f 0 ∈ warnings (cfg st).

Lemma cycle_warned_le st st' : walk_le st st' → cycle_warned st → cycle_warned st'.
Proof. intros (_ & _ & [l Hl]) [f Hf]. exists f. rewrite Hl. set_solver. Qed.

(** An include step reaches [parse_into] on each of its entries. *)
Lemma include_reaches fuel pat base n file st q :
  q ∈ glob_paths (include_target pat base) →
  ∃ st', walk_le st st' ∧ walk_le (parse_into fuel q st') (include (parse_into fuel) pat base n file st).
Proof.
  intros Hq. unfold include. set (entries := glob_paths _) in *.
  destruct (foldl_reach walk_le (λ st entry, parse_into fuel entry st) entries st q)
    as (st' & H1 & H2); [intros; apply parse_into_le|done|].
  exists st'. split; [done|]. etrans; [exact H2|].
  destruct entries; [apply walk_warn_le|done].
Qed.

Lemma include_step_reaches fuel a d file base pat q :
  keyword d = #"include" → pat ∈ args d → q ∈ glob_paths (include_target pat base) →
  ∃ st', walk_le (now a) st' ∧
    walk_le (parse_into fuel q st') (now (absorb_step (parse_into fuel) file (Some base) a d)).
Proof.
  intros Hd Hpat Hq. unfold absorb_step. rewrite Hd, !decide_False by done.
  rewrite decide_True by done. cbn [now].
  destruct (foldl_reach walk_le (λ st p, include (parse_into fuel) p base (line d) file st)
    (args d) (now a) pat) as (st1 & H1 & H2).
  { intros; apply include_le. exact (parse_into_le fuel). }
  { done. }
  destruct (include_reaches fuel pat base (line d) file st1 q Hq) as (st2 & H3 & H4).
  exists st2. split; by etrans.
Qed.

(** Reading a file reaches everything it includes, with the file visited. *)
Lemma parse_into_reaches fuel p q st :
  includes p q →
  cycle_warned (parse_into fuel p st) ∨
  ∃ fuel' st', fuel = S fuel' ∧ walk_le st st' ∧ canonical_key p ∈ visited st' ∧
    walk_le (parse_into fuel' q st') (parse_into fuel p st).
Proof.
  intros (text & base & d & pat & Htext & Hbase & Hd & Hk & Hpat & Hq).
  destruct fuel as [|fuel]; simpl.
  { left. exists p. apply elem_of_app. right. by left. }
  fold (canonical_key p). case_decide as Hv.
  { left. exists p. apply elem_of_app. right. by left. }
  right. set (st0 := Walk _ _). rewrite Htext, Hbase, absorb_closed.
  apply list_elem_of_split in Hd as (ds1 & ds2 & Hds).
  rewrite Hds, absorb_loop_app, absorb_loop_cons.
  set (a := absorb_loop _ p (Some base) _ ds1).
  destruct (include_step_reaches fuel a d p base pat q Hk Hpat Hq) as (st' & H1 & H2).
  assert (walk_le st0 st') as Hst0.
  { etrans; [|exact H1].
    apply (absorb_loop_le _ (parse_into_le fuel) p (Some base) (Absorb None false st0)). }
  exists fuel, st'. split_and!; [done|..].
  - etrans; [apply visit_le|exact Hst0].
  - apply (proj1 Hst0). unfold st0. cbn [visited]. set_solver.
  - etrans; [exact H2|]. etrans; [|apply closed_le].
    apply absorb_loop_le. exact (parse_into_le fuel).
Qed.

(** Reaching a visited file again is reported. *)
Lemma revisit_warned fuel p q st :
  rtc includes p q → canonical_key q ∈ visited st → cycle_warned (parse_into fuel p st).
Proof.
  intros Hpq. revert fuel st. induction Hpq as [q|p p' q Hp Hpq IH]; intros fuel st Hv.
  - exists q. destruct fuel; simpl; [|fold (canonical_key q); rewrite decide_True by done];
      apply elem_of_app; right; by left.
  - destruct (parse_into_reaches fuel p p' st Hp) as [?|(fuel' & st' & _ & Hle & _ & Hr)]; [done|].
    eapply cycle_warned_le; [exact Hr|]. apply IH. by apply (proj1 Hle).
Qed.

Lemma cycle_from_warned fuel p q st :
  tc includes p q → canonical_key q = canonical_key p → cycle_warned (parse_into fuel p st).
Proof.
  intros Htc Heq. assert (∃ p', includes p p' ∧ rtc includes p' q) as (p' & Hp & Hpq).
  { destruct Htc as [p q|p r q]; eauto using rtc_refl, tc_rtc. }
  destruct (parse_into_reaches fuel p p' st Hp) as [?|(fuel' & st' & _ & _ & Hv & Hr)]; [done|].
  eapply cycle_warned_le; [exact Hr|]. eapply revisit_warned; [done|]. by rewrite Heq.
Qed.

(** C34: an include cycle anywhere below the parsed file, of any length and
    through any spelling of the paths, ends in an [IncludeCycle] warning. *)
Theorem include_cycle_reported root p q :
  rtc includes root p → tc includes p q → canonical_key q = canonical_key p →
  ∃ f, IncludeCycle f 0 ∈ warnings (parse_file root).
Proof.
  intros Hroot Hpq Hkey. unfold parse_file.
  fold (cycle_warned (parse_into (MAX_INCLUDE_DEPTH + 1) root (Walk ∅ parsed_default))).
  generalize (MAX_INCLUDE_DEPTH + 1), (Walk ∅ parsed_default).
  induction Hroot as [root|root r p Hr _ IH]; intros fuel st; [by eapply cycle_from_warned|].
  destruct (parse_into_reaches fuel root r st Hr) as [?|(fuel' & st' & _ & _ & _ & Hle)]; [done|].
  eapply cycle_warned_le; [exact Hle|]. by apply IH.
Qed.
End cycles.

Lemma include_cycle_reported_witness :
  let fs := disk [(#"/a", #"Include b"); (#"/b", #"Include /a")] (λ _, None) None in
  ∃ f, IncludeCycle f 0 ∈ warnings (parse_file #"/a").
Proof.
  intros fs.
  assert (includes #"/a" #"/b") as Hab.
  { exists #"Include b", #"/", (MkDirective 1 #"include" [ #"b"]), #"b".
    by apply (bool_decide_unpack _). }
  assert (includes #"/b" #"/a") as Hba.
  { exists #"Include /a", #"/", (MkDirective 1 #"include" [ #"/a"]), #"/a".
    by apply (bool_decide_unpack _). }
  apply (include_cycle_reported #"/a" #"/a" #"/a").
  - apply rtc_refl.
  - eapply tc_l; [exact Hab|by apply tc_once].
  - reflexivity.
Defined.

(** An [Include] whose file exists but cannot be read (or is not UTF-8)
    adds no warning, nor anything else, to the result. *)
Theorem unreadable_include_silent `{FileSystem, Lowercase} fuel pat base n file st q :
  glob_paths (include_target pat base) = [q] →
  read_to_string q = None → (canonical_key q ∉ visited st) →
  cfg (include (parse_into (S fuel)) pat base n file st) = cfg st.
Proof.
  intros Hg Hr Hv. unfold include. rewrite Hg. simpl. fold (canonical_key q).
  rewrite decide_False by done. by rewrite Hr.
Qed.

Lemma unreadable_include_silent_witness :
  let fs := locked_disk in
  cfg (include (parse_into 1) #"x" #"/s" 1 #"/s/config" (Walk ∅ parsed_default)) = parsed_default.
Proof.
  intros fs.
  apply (unreadable_include_silent 0 #"x" #"/s" 1 #"/s/config" (Walk ∅ parsed_default) #"/s/x").
  - reflexivity.
  - reflexivity.
  - by apply (bool_decide_unpack _).
Defined.
