(* ===== verification/Model.v ===== *)
(** * The records of the host store

    [core-store/src/model.rs] and [error.rs].  Field names carry a prefix per
    record ([h_] for [Host], [n_] for [NewHost], [o_] for [HostOverrides],
    ...), since Rocq records share one name space.  Identifiers and timestamps
    are [i64]s in [Z]; [u16] and [u32] fields are [Z]s with the well-formedness
    predicates [overrides_wf], [host_wf] and [new_host_wf] stating their width.

    Messages of [StoreError::Invalid] are kept by cause, not by text. *)
From S2P Require Import Prelude Text.

Abbreviation HostId := Z (only parsing).
Abbreviation FolderId := Z (only parsing).
Abbreviation TagId := Z (only parsing).

Inductive AuthKind := Agent | KeyFile | Password.
#[export] Instance AuthKind_eq_dec : EqDecision AuthKind.
Proof. solve_decision. Defined.

Inductive invalid_reason :=
  | UnknownAuthMethod (s : str)
  | UnknownHostSource (s : str)
  | EmptyFolderName
  | EmptyTagName.

Inductive entity := EFolder | ETag | EHost.

(** What the engine reports: a violated constraint, or a column whose value
    does not convert to the Rust type it is read at. *)
Inductive sqlite_error :=
  | ForeignKeyViolation
  | UniqueViolation
  | CheckViolation
  | ConversionFailure (column : nat)
  | StatementFailure.

Inductive StoreError :=
  | Sqlite (e : sqlite_error)
  | Json
  | CreateDir
  | SchemaAhead (db app : Z)
  | LockPoisoned
  | NotFound (what : entity) (id : Z)
  | Invalid (why : invalid_reason)
  | FolderCycle (id target : Z).

Definition AuthKind_as_str (k : AuthKind) : str :=
  match k with
  | Agent => #"agent"
  | KeyFile => #"key_file"
  | Password => #"password"
  end.

Definition AuthKind_try_from (value : str) : result StoreError AuthKind :=
  if decide (value = #"agent") then Ok Agent
  else if decide (value = #"key_file") then Ok KeyFile
  else if decide (value = #"password") then Ok Password
  else Err (Invalid (UnknownAuthMethod value)).

Definition comma : char := ch ",".

Definition encode_auth_fallbacks (kinds : list AuthKind) : option str :=
  match kinds with
  | [] => None
  | _ => Some (join [comma] (AuthKind_as_str <$> kinds))
  end.

Definition decode_auth_fallbacks (raw : option str) : list AuthKind :=
  omap (λ s, ok (AuthKind_try_from (trim s))) (split_char comma (default [] raw)).

Inductive HostSource := Manual | SshConfig.
#[export] Instance HostSource_eq_dec : EqDecision HostSource.
Proof. solve_decision. Defined.

Definition HostSource_as_str (s : HostSource) : str :=
  match s with
  | Manual => #"manual"
  | SshConfig => #"ssh_config"
  end.

Definition HostSource_try_from (value : str) : result StoreError HostSource :=
  if decide (value = #"manual") then Ok Manual
  else if decide (value = #"ssh_config") then Ok SshConfig
  else Err (Invalid (UnknownHostSource value)).

Record HostOverrides := MkOverrides {
  o_term : option str;
  o_keepalive_secs : option Z;
  o_keepalive_max : option Z;
  o_connect_timeout_secs : option Z;
  o_window_size : option Z;
  o_reconnect_enabled : option bool;
  o_reconnect_max_attempts : option Z
}.
Definition overrides_default : HostOverrides := MkOverrides None None None None None None None.

Record Host := MkHost {
  h_id : HostId;
  h_folder_id : option FolderId;
  h_name : str;
  h_hostname : str;
  h_port : Z;
  h_username : str;
  h_auth : AuthKind;
  h_auth_fallbacks : list AuthKind;
  h_secret_ref : option str;
  h_key_path : option str;
  h_overrides : HostOverrides;
  h_proxy_jump : option str;
  h_source : HostSource;
  h_source_alias : option str;
  h_color : option str;
  h_notes : option str;
  h_last_connected_at : option Z;
  h_connect_count : Z;
  h_created_at : Z;
  h_updated_at : Z;
  h_tags : list TagId
}.

Record NewHost := MkNewHost {
  n_folder_id : option FolderId;
  n_name : str;
  n_hostname : str;
  n_port : Z;
  n_username : str;
  n_auth : AuthKind;
  n_auth_fallbacks : list AuthKind;
  n_secret_ref : option str;
  n_key_path : option str;
  n_overrides : HostOverrides;
  n_proxy_jump : option str;
  n_source : HostSource;
  n_source_alias : option str;
  n_color : option str;
  n_notes : option str
}.

Definition default_source : HostSource := Manual.

(** [NewHost::manual]. *)
Definition manual (name hostname : str) : NewHost :=
  MkNewHost None name hostname 22 [] Agent [] None None overrides_default None Manual None
    None None.

Record Folder := MkFolder {
  f_id : FolderId;
  f_parent_id : option FolderId;
  f_name : str;
  f_position : Z;
  f_created_at : Z;
  f_updated_at : Z
}.

Record Tag := MkTag {
  t_id : TagId;
  t_name : str;
  t_color : option str;
  t_created_at : Z
}.

Record HostFilter := MkFilter {
  q_query : option str;
  q_folder_id : option FolderId;
  q_tag_ids : list TagId;
  q_limit : option Z
}.

#[export] Instance HostOverrides_eq_dec : EqDecision HostOverrides.
Proof. solve_decision. Defined.
#[export] Instance Host_eq_dec : EqDecision Host.
Proof. solve_decision. Defined.
#[export] Instance Folder_eq_dec : EqDecision Folder.
Proof. solve_decision. Defined.

(** The widths of the Rust types. *)
Definition in_u16 (z : Z) : Prop := (0 ≤ z ≤ u16_max)%Z.
Definition in_u32 (z : Z) : Prop := (0 ≤ z ≤ u32_max)%Z.
Definition opt_u32 (o : option Z) : Prop := ∀ z, o = Some z → in_u32 z.

Definition overrides_wf (o : HostOverrides) : Prop :=
  opt_u32 (o_keepalive_secs o) ∧ opt_u32 (o_keepalive_max o) ∧
  opt_u32 (o_connect_timeout_secs o) ∧ opt_u32 (o_window_size o) ∧
  opt_u32 (o_reconnect_max_attempts o).
Definition host_wf (h : Host) : Prop := in_u16 (h_port h) ∧ overrides_wf (h_overrides h).
Definition new_host_wf (n : NewHost) : Prop := in_u16 (n_port n) ∧ overrides_wf (n_overrides n).

(** * Round trips of the text columns *)

Lemma AuthKind_try_from_Ok s k : AuthKind_try_from s = Ok k ↔ s = AuthKind_as_str k.
Proof.
  unfold AuthKind_try_from. repeat case_decide; subst; split;
    try (intros [= <-]; done); destruct k; done.
Qed.

Lemma HostSource_try_from_Ok s k : HostSource_try_from s = Ok k ↔ s = HostSource_as_str k.
Proof.
  unfold HostSource_try_from. repeat case_decide; subst; split;
    try (intros [= <-]; done); destruct k; done.
Qed.

Lemma AuthKind_roundtrip k : AuthKind_try_from (AuthKind_as_str k) = Ok k.
Proof. by apply AuthKind_try_from_Ok. Qed.
Lemma HostSource_roundtrip k : HostSource_try_from (HostSource_as_str k) = Ok k.
Proof. by apply HostSource_try_from_Ok. Qed.
#[export] Hint Rewrite AuthKind_roundtrip HostSource_roundtrip : tern.

Lemma AuthKind_as_str_no_comma k : comma ∉ AuthKind_as_str k.
Proof. apply contains_char_false. by destruct k. Qed.

Lemma trim_AuthKind k : trim (AuthKind_as_str k) = AuthKind_as_str k.
Proof. by destruct k. Qed.

Lemma fallbacks_roundtrip kinds : decode_auth_fallbacks (encode_auth_fallbacks kinds) = kinds.
Proof.
  unfold decode_auth_fallbacks, encode_auth_fallbacks. destruct kinds as [|k ks]; [done|].
  unfold default, from_option, id. rewrite split_char_join.
  - induction (k :: ks) as [|j js IH]; [done|]. cbn [fmap list_fmap omap list_omap].
    rewrite trim_AuthKind, AuthKind_roundtrip. cbn [ok]. by rewrite IH.
  - done.
  - apply Forall_fmap, Forall_true. intros j. apply AuthKind_as_str_no_comma.
Qed.
#[export] Hint Rewrite fallbacks_roundtrip : tern.
