(* ===== verification/Database.v ===== *)
(** * The store's database

    [core-store/src/db.rs] and the tables of [migrations/*.sql].  A table is a
    map from row id to row (a set of pairs for [host_tags], a map from key for
    [settings]).  The statements of the repositories are modelled as functions
    on the tables that check the schema's UNIQUE, CHECK and FOREIGN KEY
    constraints and apply its ON DELETE actions; a statement that fails
    changes nothing.

    The engine itself is the class [Engine]: how it picks a fresh row id and
    in which order it scans a table.  [Store] is the database behind its
    mutex; every repository method takes the lock first and holds it until it
    returns, so a method is one atomic step ([M]). *)
From S2P Require Import Prelude Text Model.

(** [INTEGER PRIMARY KEY] rows inserted without an id get an unused positive
    one; a scan visits each row once. *)
Class Engine := {
  fresh_rowid : gset Z → Z;
  scan {A} : gmap Z A → list (Z * A);
  fresh_rowid_fresh ids : fresh_rowid ids ∉ ids;
  fresh_rowid_pos ids : (0 < fresh_rowid ids)%Z;
  scan_perm A (t : gmap Z A) : scan t ≡ₚ map_to_list t
}.

Record FolderRow := MkFolderRow {
  fr_parent_id : option Z;
  fr_name : str;
  fr_position : Z;
  fr_created_at : Z;
  fr_updated_at : Z
}.

Record HostRow := MkHostRow {
  r_folder_id : option Z;
  r_name : str;
  r_hostname : str;
  r_port : Z;
  r_username : str;
  r_auth_method : str;
  r_secret_ref : option str;
  r_key_path : option str;
  r_term : option str;
  r_keepalive_secs : option Z;
  r_keepalive_max : option Z;
  r_connect_timeout_secs : option Z;
  r_window_size : option Z;
  r_reconnect_enabled : option Z;
  r_reconnect_max_attempts : option Z;
  r_proxy_jump : option str;
  r_source : str;
  r_source_alias : option str;
  r_color : option str;
  r_notes : option str;
  r_last_connected_at : option Z;
  r_connect_count : Z;
  r_created_at : Z;
  r_updated_at : Z;
  r_auth_fallbacks : option str
}.

Record TagRow := MkTagRow {
  tr_name : str;
  tr_color : option str;
  tr_created_at : Z
}.

Record SettingRow := MkSettingRow {
  sr_value : str;
  sr_updated_at : Z
}.

Record Db := MkDb {
  folders : gmap Z FolderRow;
  hosts : gmap Z HostRow;
  tags : gmap Z TagRow;
  host_tags : gset (Z * Z);
  settings : gmap str SettingRow
}.

Definition empty_db : Db := MkDb ∅ ∅ ∅ ∅ ∅.

Definition set_folders (t : gmap Z FolderRow) (d : Db) : Db :=
  MkDb t (hosts d) (tags d) (host_tags d) (settings d).
Definition set_hosts (t : gmap Z HostRow) (d : Db) : Db :=
  MkDb (folders d) t (tags d) (host_tags d) (settings d).
Definition set_tag_table (t : gmap Z TagRow) (d : Db) : Db :=
  MkDb (folders d) (hosts d) t (host_tags d) (settings d).
Definition set_host_tags (t : gset (Z * Z)) (d : Db) : Db :=
  MkDb (folders d) (hosts d) (tags d) t (settings d).
Definition set_settings (t : gmap str SettingRow) (d : Db) : Db :=
  MkDb (folders d) (hosts d) (tags d) (host_tags d) t.

(** [folders_parent_name]: UNIQUE on (ifnull(parent_id, -1), name NOCASE). *)
Definition folder_key (r : FolderRow) : Z * str := (default (-1)%Z (fr_parent_id r), nocase (fr_name r)).

(** [hosts_source_alias]: the rows it indexes, and their key; SQL NULLs are
    distinct. *)
Definition host_key (r : HostRow) : option str :=
  if decide (r_source r = #"ssh_config") then r_source_alias r else None.

Definition folder_unique (t : gmap Z FolderRow) (id : Z) (r : FolderRow) : Prop :=
  map_Forall (λ id' r', id' = id ∨ folder_key r' ≠ folder_key r) t.
Definition host_unique (t : gmap Z HostRow) (id : Z) (r : HostRow) : Prop :=
  map_Forall (λ id' r', id' = id ∨ host_key r = None ∨ host_key r' ≠ host_key r) t.
Definition tag_unique (t : gmap Z TagRow) (id : Z) (r : TagRow) : Prop :=
  map_Forall (λ id' r', id' = id ∨ nocase (tr_name r') ≠ nocase (tr_name r)) t.

(** A nullable foreign key. *)
Definition references {A} (t : gmap Z A) (o : option Z) : Prop :=
  match o with None => True | Some id => is_Some (t !! id) end.

(** The CHECK constraints of [hosts]; a comparison with NULL does not fail. *)
Definition host_check (r : HostRow) : Prop :=
  (1 ≤ r_port r ≤ 65535)%Z ∧
  match r_keepalive_secs r with None => True | Some k => (0 ≤ k)%Z end ∧
  match r_reconnect_enabled r with None => True | Some b => b = 0%Z ∨ b = 1%Z end.

#[export] Instance references_dec {A} (t : gmap Z A) o : Decision (references t o).
Proof. destruct o; apply _. Defined.
#[export] Instance folder_unique_dec t id r : Decision (folder_unique t id r).
Proof. unfold folder_unique. apply _. Defined.
#[export] Instance host_unique_dec t id r : Decision (host_unique t id r).
Proof. unfold host_unique. apply _. Defined.
#[export] Instance tag_unique_dec t id r : Decision (tag_unique t id r).
Proof. unfold tag_unique. apply _. Defined.
#[export] Instance host_check_dec r : Decision (host_check r).
Proof.
  unfold host_check. destruct (r_keepalive_secs r), (r_reconnect_enabled r); apply _.
Defined.

(** Writing one row of a table, constraints checked; [id] is new for INSERT
    and old for UPDATE. *)
Definition write_folder (id : Z) (r : FolderRow) (d : Db) : result sqlite_error Db :=
  if negb (bool_decide (folder_unique (folders d) id r)) then Err UniqueViolation
  else if negb (bool_decide (references (<[id:=r]> (folders d)) (fr_parent_id r))) then
    Err ForeignKeyViolation
  else Ok (set_folders (<[id:=r]> (folders d)) d).

Definition write_host (id : Z) (r : HostRow) (d : Db) : result sqlite_error Db :=
  if negb (bool_decide (host_check r)) then Err CheckViolation
  else if negb (bool_decide (host_unique (hosts d) id r)) then Err UniqueViolation
  else if negb (bool_decide (references (folders d) (r_folder_id r))) then Err ForeignKeyViolation
  else Ok (set_hosts (<[id:=r]> (hosts d)) d).

Definition write_tag (id : Z) (r : TagRow) (d : Db) : result sqlite_error Db :=
  if negb (bool_decide (tag_unique (tags d) id r)) then Err UniqueViolation
  else Ok (set_tag_table (<[id:=r]> (tags d)) d).

(** INSERT OR IGNORE INTO host_tags: the primary key conflict is ignored, a
    dangling reference is not. *)
Definition insert_host_tag (host tag : Z) (d : Db) : result sqlite_error Db :=
  if decide (is_Some (hosts d !! host) ∧ is_Some (tags d !! tag)) then
    Ok (set_host_tags ({[(host, tag)]} ∪ host_tags d) d)
  else Err ForeignKeyViolation.

(** DELETE on hosts and on tags: [host_tags] rows cascade. *)
Definition delete_host_row (id : Z) (d : Db) : Db :=
  set_host_tags (filter (λ p, p.1 ≠ id) (host_tags d)) (set_hosts (delete id (hosts d)) d).
Definition delete_tag_row (id : Z) (d : Db) : Db :=
  set_host_tags (filter (λ p, p.2 ≠ id) (host_tags d)) (set_tag_table (delete id (tags d)) d).

(** The ids on the way from [id] up, at most [fuel] of them. *)
Fixpoint ancestors (fuel : nat) (t : gmap Z FolderRow) (id : Z) : list Z :=
  match fuel with
  | 0 => []
  | S fuel =>
      id :: match t !! id with
            | Some r => match fr_parent_id r with Some p => ancestors fuel t p | None => [] end
            | None => []
            end
  end.

(** More steps than there are folders cannot be needed on a forest. *)
Definition walk_fuel (t : gmap Z FolderRow) : nat := S (size t).

(** The folders DELETE removes: [id] and what cascades from it. *)
Definition in_subtree (t : gmap Z FolderRow) (id f : Z) : Prop :=
  id ∈ ancestors (walk_fuel t) t f.
#[export] Instance in_subtree_dec t id f : Decision (in_subtree t id f).
Proof. unfold in_subtree. apply _. Defined.

(** ON DELETE SET NULL of [hosts.folder_id]. *)
Definition unfiled (r : HostRow) : HostRow :=
  MkHostRow None (r_name r) (r_hostname r) (r_port r) (r_username r) (r_auth_method r)
    (r_secret_ref r) (r_key_path r) (r_term r) (r_keepalive_secs r) (r_keepalive_max r)
    (r_connect_timeout_secs r) (r_window_size r) (r_reconnect_enabled r)
    (r_reconnect_max_attempts r) (r_proxy_jump r) (r_source r) (r_source_alias r)
    (r_color r) (r_notes r) (r_last_connected_at r) (r_connect_count r) (r_created_at r)
    (r_updated_at r) (r_auth_fallbacks r).
Definition orphan (gone : Z → Prop) `{!∀ f, Decision (gone f)} (r : HostRow) : HostRow :=
  match r_folder_id r with
  | Some f => if decide (gone f) then unfiled r else r
  | None => r
  end.

Definition delete_folder_row (id : Z) (d : Db) : Db :=
  let gone := in_subtree (folders d) id in
  set_hosts (orphan gone <$> hosts d)
    (set_folders (filter (λ kv, ¬ gone kv.1) (folders d)) d).

(** * The store and its monad *)

Record Store := MkStore {
  poisoned : bool;
  db : Db
}.

Definition M (A : Type) : Type := Store → result StoreError A * Store.

#[export] Instance M_ret : MRet M := λ A a s, (Ok a, s).
#[export] Instance M_bind : MBind M := λ A B f m s,
  match m s with
  | (Ok a, s) => f a s
  | (Err e, s) => (Err e, s)
  end.

Definition throw {A} (e : StoreError) : M A := λ s, (Err e, s).
Definition of_result {A} (r : result StoreError A) : M A := λ s, (r, s).

(** [Store::lock]. *)
Definition lock : M () := λ s, if poisoned s then (Err LockPoisoned, s) else (Ok (), s).

(** A query. *)
Definition query {A} (f : Db → A) : M A := λ s, (Ok (f (db s)), s).

(** A statement that writes: [?] turns the engine's error into
    [StoreError::Sqlite]. *)
Definition execute {A} (f : Db → result sqlite_error (A * Db)) : M A := λ s,
  match f (db s) with
  | Ok (a, d) => (Ok a, MkStore (poisoned s) d)
  | Err e => (Err (Sqlite e), s)
  end.

(** UPDATE ... WHERE id = ?1: the number of rows changed. *)
Definition update_row {A} (t : gmap Z A) (id : Z) (f : A → A)
    (write : Z → A → Db → result sqlite_error Db) (d : Db) : result sqlite_error (nat * Db) :=
  match t !! id with
  | None => Ok (0, d)
  | Some r => d ← write id (f r) d; Ok (1, d)
  end.

(** DELETE ... WHERE id = ?1. *)
Definition delete_row {A} (t : gmap Z A) (id : Z) (del : Z → Db → Db) (d : Db) :
    result sqlite_error (nat * Db) :=
  match t !! id with
  | None => Ok (0, d)
  | Some _ => Ok (1, del id d)
  end.

(** [if changed == 0 { return Err(NotFound) } Ok(())]. *)
Definition or_not_found (what : entity) (id : Z) (changed : nat) : M () :=
  match changed with 0 => throw (NotFound what id) | _ => mret () end.

(** A concrete engine: the largest id plus one, rows in map order. *)
Definition sqlite_max_rowid : Engine.
Proof.
  refine {|
    fresh_rowid ids := (1 + set_fold Z.max 0 ids)%Z;
    scan A t := map_to_list t
  |}.
  - intros ids Hin.
    assert (∀ x, x ∈ ids → x ≤ set_fold Z.max 0 ids)%Z as Hmax.
    { apply (set_fold_ind_L (λ m X, ∀ x, x ∈ X → (x ≤ m)%Z)); [set_solver|].
      intros x X m Hx IH y [->%elem_of_singleton|Hy]%elem_of_union; [lia|].
      specialize (IH y Hy). lia. }
    specialize (Hmax _ Hin). lia.
  - intros ids. assert (0 ≤ set_fold Z.max 0 ids)%Z; [|lia].
    apply (set_fold_ind_L (λ m X, (0 ≤ m)%Z)); lia.
  - done.
Defined.

(** * Running the monad *)

Lemma M_bind_eq {A B} (m : M A) (f : A → M B) s :
  (m ≫= f) s = match m s with (Ok a, s) => f a s | (Err e, s) => (Err e, s) end.
Proof. done. Qed.

Lemma run_bind_Ok {A B} (m : M A) (f : A → M B) s b s' :
  (m ≫= f) s = (Ok b, s') ↔ ∃ a s1, m s = (Ok a, s1) ∧ f a s1 = (Ok b, s').
Proof. rewrite M_bind_eq. destruct (m s) as [[a|e] s1]; naive_solver. Qed.
