(* ===== verification/Forest.v ===== *)
(** * The folder forest

    What no constraint of the schema says: following [parent_id] from any
    folder reaches a root.  [chain t id l] is the path [l] from [id] up to a
    root of the table [t]; a table is a [forest] when every row has one. *)
From S2P Require Import Prelude Model Database.

Inductive chain (t : gmap Z FolderRow) : Z → list Z → Prop :=
  | chain_top id r : t !! id = Some r → fr_parent_id r = None → chain t id [id]
  | chain_up id r p l :
      t !! id = Some r → fr_parent_id r = Some p → chain t p l → chain t id (id :: l).

Definition rooted (t : gmap Z FolderRow) (id : Z) : Prop := ∃ l, chain t id l.
Definition forest (t : gmap Z FolderRow) : Prop := ∀ id, is_Some (t !! id) → rooted t id.

(** A folder may be written with the parent [o]: no cycle closes through it. *)
Definition may_hang (t : gmap Z FolderRow) (id : Z) (o : option Z) : Prop :=
  match o with None => True | Some p => ∃ l, chain t p l ∧ id ∉ l end.

Section chains.
Context (t : gmap Z FolderRow).

Lemma chain_det id l l' : chain t id l → chain t id l' → l = l'.
Proof.
  intros H. revert l'. induction H as [id r Hr Hp|id r p l Hr Hp Hl IH]; intros l' H';
    inversion H'; simplify_eq; [done|]. f_equal. by apply IH.
Qed.

Lemma chain_head id l : chain t id l → id ∈ l.
Proof. by destruct 1; left. Qed.

Lemma chain_is_Some id l : chain t id l → is_Some (t !! id).
Proof. by destruct 1; eexists. Qed.

(** The path of a folder on the way is the rest of the way. *)
Lemma chain_suffix id l x : chain t id l → x ∈ l → ∃ l', chain t x l' ∧ l' `suffix_of` l.
Proof.
  induction 1 as [id r Hr Hp|id r p l Hr Hp Hl IH].
  - intros ->%list_elem_of_singleton. exists [id]. split; [by eapply chain_top|done].
  - intros [->|Hx]%elem_of_cons.
    + exists (id :: l). split; [by eapply chain_up|done].
    + destruct (IH Hx) as (l' & Hl' & Hs). exists l'. split; [done|]. by apply suffix_cons_r.
Qed.

Lemma chain_dom id l x : chain t id l → x ∈ l → x ∈ dom t.
Proof.
  intros Hl Hx. destruct (chain_suffix id l x Hl Hx) as (l' & Hl' & _).
  apply elem_of_dom. by eapply chain_is_Some.
Qed.

(** No folder is its own ancestor. *)
Lemma chain_acyclic id p l r :
  t !! id = Some r → fr_parent_id r = Some p → chain t p l → id ∉ l.
Proof.
  intros Hr Hp Hl Hin. destruct (chain_suffix p l id Hl Hin) as (l' & Hl' & Hs%suffix_length).
  assert (l' = id :: l) as -> by (eapply chain_det; [done|by eapply chain_up]). simpl in Hs. lia.
Qed.

Lemma chain_NoDup id l : chain t id l → NoDup l.
Proof.
  induction 1 as [|id r p l Hr Hp Hl IH]; [apply NoDup_singleton|].
  constructor; [|done]. by eapply chain_acyclic.
Qed.

Lemma chain_length id l : chain t id l → length l ≤ size t.
Proof.
  intros Hl. rewrite <- size_dom. rewrite <- (size_list_to_set (C := gset Z) l).
  - apply subseteq_size. intros x Hx%elem_of_list_to_set. by eapply chain_dom.
  - by eapply chain_NoDup.
Qed.

(** The recursive query of [FolderRepo::reparent] finds the whole path, and
    its fuel never runs out. *)
Lemma ancestors_chain fuel id l : chain t id l → length l ≤ fuel → ancestors fuel t id = l.
Proof.
  intros Hl. revert fuel. induction Hl as [id r Hr Hp|id r p l Hr Hp Hl IH];
    intros [|fuel] Hf; simpl in *; try lia; rewrite Hr, Hp; [done|].
  f_equal. apply IH. lia.
Qed.

Lemma walk_chain id l : chain t id l → ancestors (walk_fuel t) t id = l.
Proof.
  intros Hl. apply ancestors_chain; [done|]. apply chain_length in Hl. unfold walk_fuel. lia.
Qed.

Lemma chain_parent id r p : forest t → t !! id = Some r → fr_parent_id r = Some p → rooted t p.
Proof.
  intros Hf Hr Hp. destruct (Hf id) as [l Hl]; [by eexists|].
  inversion Hl; simplify_eq. by eexists.
Qed.

(** Keeping the parent is always allowed. *)
Lemma may_hang_same id r : forest t → t !! id = Some r → may_hang t id (fr_parent_id r).
Proof.
  intros Hf Hr. destruct (fr_parent_id r) as [p|] eqn:Hp; [|done].
  destruct (chain_parent id r p Hf Hr Hp) as [l Hl]. exists l. split; [done|].
  by eapply chain_acyclic.
Qed.

(** So is hanging a new folder anywhere. *)
Lemma may_hang_new id o : forest t → t !! id = None → references t o → may_hang t id o.
Proof.
  intros Hf Hid. destruct o as [p|]; [|done]. simpl. intros [l Hl]%Hf. exists l. split; [done|].
  intros Hin%(chain_dom p l id Hl)%elem_of_dom. rewrite Hid in Hin. by destruct Hin.
Qed.

(** A path that avoids the written row is a path of the new table. *)
Lemma chain_insert_ne id r x l : chain t x l → id ∉ l → chain (<[id:=r]> t) x l.
Proof.
  induction 1 as [x rx Hr Hp|x rx p l Hr Hp Hl IH]; intros Hid.
  - apply not_elem_of_cons in Hid as [Hne _]. eapply chain_top; [|done]. by rewrite lookup_insert_ne.
  - apply not_elem_of_cons in Hid as [Hne Hid]. eapply chain_up; [|done|by apply IH].
    by rewrite lookup_insert_ne.
Qed.

Lemma rooted_insert id r : may_hang t id (fr_parent_id r) → rooted (<[id:=r]> t) id.
Proof.
  destruct (fr_parent_id r) as [p|] eqn:Hp; simpl.
  - intros (l & Hl & Hid). exists (id :: l). eapply chain_up; [apply lookup_insert_eq|done|].
    by apply chain_insert_ne.
  - intros _. exists [id]. eapply chain_top; [apply lookup_insert_eq|done].
Qed.

(** Writing a row that closes no cycle keeps the table a forest. *)
Lemma forest_insert id r :
  forest t → may_hang t id (fr_parent_id r) → forest (<[id:=r]> t).
Proof.
  intros Hf Hh. assert (∀ x l, chain t x l → rooted (<[id:=r]> t) x) as Hall.
  { induction 1 as [x rx Hr Hp|x rx p l Hr Hp Hl [l' Hl']].
    - destruct (decide (x = id)) as [->|Hne]; [by apply rooted_insert|].
      exists [x]. eapply chain_top; [|done]. by rewrite lookup_insert_ne.
    - destruct (decide (x = id)) as [->|Hne]; [by apply rooted_insert|].
      exists (x :: l'). eapply chain_up; [|done..]. by rewrite lookup_insert_ne. }
  intros x Hx. destruct (decide (x = id)) as [->|Hne]; [by apply rooted_insert|].
  rewrite lookup_insert_ne in Hx by done. destruct (Hf x Hx) as [l Hl]. by eapply Hall.
Qed.

(** What a cascading DELETE leaves is upward closed: still a forest. *)
Lemma chain_filter id x l (gone : Z → Prop) `{!∀ y, Decision (gone y)} :
  (∀ y ly, chain t y ly → gone y ↔ id ∈ ly) →
  chain t x l → ¬ gone x → chain (filter (λ kv, ¬ gone kv.1) t) x l.
Proof.
  intros Hg Hl. induction Hl as [x r Hr Hp|x r p l Hr Hp Hl IH]; intros Hx.
  - eapply chain_top; [|done]. by apply map_lookup_filter_Some.
  - eapply chain_up; [by apply map_lookup_filter_Some|done|]. apply IH.
    rewrite (Hg p l Hl). rewrite (Hg x (x :: l)) in Hx by (by eapply chain_up). set_solver.
Qed.

Lemma in_subtree_chain id x l : chain t x l → in_subtree t id x ↔ id ∈ l.
Proof. intros Hl. unfold in_subtree. by rewrite (walk_chain x l). Qed.

Lemma forest_delete id :
  forest t → forest (filter (λ kv, ¬ in_subtree t id kv.1) t).
Proof.
  intros Hf x [r [Hr Hx]%map_lookup_filter_Some]. destruct (Hf x) as [l Hl]; [by eexists|].
  exists l. eapply (chain_filter id x l (in_subtree t id)); [|done..].
  intros y ly Hy. by apply in_subtree_chain.
Qed.

(** A surviving folder's parent survives. *)
Lemma survivor_parent id x r p :
  forest t → t !! x = Some r → fr_parent_id r = Some p →
  ¬ in_subtree t id x → ¬ in_subtree t id p.
Proof.
  intros Hf Hr Hp Hx. destruct (Hf x) as [l Hl]; [by eexists|].
  inversion Hl as [|? ? ? l' ? ? Hl']; simplify_eq.
  rewrite (in_subtree_chain id p l') by done. rewrite (in_subtree_chain id x _ Hl) in Hx. set_solver.
Qed.

(** The deleted folder is in its own subtree. *)
Lemma in_subtree_self id : is_Some (t !! id) → in_subtree t id id.
Proof. intros _. unfold in_subtree. simpl. by left. Qed.
End chains.

Lemma forest_empty : forest ∅.
Proof. intros id [r Hr]. by rewrite lookup_empty in Hr. Qed.
