(* ===== verification/StoreInv.v ===== *)
(** * The invariant of the host store

    [db_ok] is what every database reachable through the repositories
    satisfies: the schema's constraints, and the two facts the schema cannot
    state, that folders form a forest and that every host row reads back as a
    [Host].  This file proves it statement by statement; the repositories'
    files do so method by method. *)
From S2P Require Import Prelude Text Model Database Forest.

(** The text and integer columns a [Host] is read from hold what the code
    wrote: an [AuthKind], a [HostSource] and [u32]s. *)
Definition row_ok (r : HostRow) : Prop :=
  host_check r ∧
  is_ok (AuthKind_try_from (r_auth_method r)) = true ∧
  is_ok (HostSource_try_from (r_source r)) = true ∧
  opt_u32 (r_keepalive_secs r) ∧ opt_u32 (r_keepalive_max r) ∧
  opt_u32 (r_connect_timeout_secs r) ∧ opt_u32 (r_window_size r) ∧
  opt_u32 (r_reconnect_max_attempts r).

Record db_ok (d : Db) : Prop := {
  ok_forest : forest (folders d);
  ok_folders_unique i j r r' :
    folders d !! i = Some r → folders d !! j = Some r' → folder_key r = folder_key r' → i = j;
  ok_rows i r : hosts d !! i = Some r → row_ok r;
  ok_host_folder i r : hosts d !! i = Some r → references (folders d) (r_folder_id r);
  ok_hosts_unique i j r r' :
    hosts d !! i = Some r → hosts d !! j = Some r' →
    host_key r = host_key r' → host_key r ≠ None → i = j;
  ok_tags_unique i j r r' :
    tags d !! i = Some r → tags d !! j = Some r' → nocase (tr_name r) = nocase (tr_name r') → i = j;
  ok_host_tags h t : (h, t) ∈ host_tags d → is_Some (hosts d !! h) ∧ is_Some (tags d !! t)
}.

Lemma empty_db_ok : db_ok empty_db.
Proof.
  split; simpl; try (intros *; rewrite ?lookup_empty; by intros); apply forest_empty.
Qed.

(** * Statements *)

Lemma write_folder_Ok id r d d' :
  write_folder id r d = Ok d' ↔
  folder_unique (folders d) id r ∧ references (<[id:=r]> (folders d)) (fr_parent_id r) ∧
  d' = set_folders (<[id:=r]> (folders d)) d.
Proof.
  unfold write_folder. case_bool_decide; simpl; [|naive_solver].
  case_bool_decide; simpl; naive_solver.
Qed.

Lemma write_host_Ok id r d d' :
  write_host id r d = Ok d' ↔
  host_check r ∧ host_unique (hosts d) id r ∧ references (folders d) (r_folder_id r) ∧
  d' = set_hosts (<[id:=r]> (hosts d)) d.
Proof.
  unfold write_host. case_bool_decide; simpl; [|naive_solver].
  case_bool_decide; simpl; [|naive_solver]. case_bool_decide; simpl; naive_solver.
Qed.

Lemma write_tag_Ok id r d d' :
  write_tag id r d = Ok d' ↔
  tag_unique (tags d) id r ∧ d' = set_tag_table (<[id:=r]> (tags d)) d.
Proof. unfold write_tag. case_bool_decide; simpl; naive_solver. Qed.

(** Uniqueness of a key survives the write of a row that was checked. *)
Lemma unique_insert {A K} (key : A → K) (t : gmap Z A) (P : K → Prop) id r :
  (∀ i j x y, t !! i = Some x → t !! j = Some y → key x = key y → P (key x) → i = j) →
  (∀ i x, t !! i = Some x → P (key r) → i = id ∨ key x ≠ key r) →
  ∀ i j x y, <[id:=r]> t !! i = Some x → <[id:=r]> t !! j = Some y →
    key x = key y → P (key x) → i = j.
Proof.
  intros Hu Hr i j x y [[<- <-]|[Hi Hx]]%lookup_insert_Some [[<- <-]|[Hj Hy]]%lookup_insert_Some Hk HP;
    [done|..|by eapply Hu].
  - destruct (Hr j y Hy HP) as [->|Hne]; [done|]. by destruct Hne.
  - rewrite Hk in HP. destruct (Hr i x Hx HP) as [->|Hne]; [done|]. by destruct Hne.
Qed.

Lemma references_mono {A} (t t' : gmap Z A) o :
  (∀ i, is_Some (t !! i) → is_Some (t' !! i)) → references t o → references t' o.
Proof. destruct o; simpl; auto. Qed.

Lemma is_Some_insert {A} (t : gmap Z A) id r i : is_Some (t !! i) → is_Some (<[id:=r]> t !! i).
Proof. destruct (decide (i = id)) as [->|]; by simplify_map_eq. Qed.

Lemma write_folder_ok id r d d' :
  db_ok d → may_hang (folders d) id (fr_parent_id r) → write_folder id r d = Ok d' → db_ok d'.
Proof.
  intros H Hh (Hu & Href & ->)%write_folder_Ok. split; simpl.
  - by apply forest_insert, Hh; apply H.
  - intros i j x y Hx Hy Hk. eapply (unique_insert folder_key (folders d) (λ _, True) id r);
      [|..|exact Hx|exact Hy|done|done].
    + intros; by eapply (ok_folders_unique d H).
    + intros k z Hz _. exact (Hu k z Hz).
  - apply H.
  - intros i h Hi. eapply references_mono; [|by eapply (ok_host_folder d H)].
    intros; by apply is_Some_insert.
  - apply H.
  - apply H.
  - apply H.
Qed.

Lemma write_host_ok id r d d' :
  db_ok d → row_ok r → write_host id r d = Ok d' → db_ok d'.
Proof.
  intros H Hr (Hc & Hu & Href & ->)%write_host_Ok. split; simpl.
  - apply H.
  - apply H.
  - intros i x [[_ <-]|[_ Hx]]%lookup_insert_Some; [done|]. by eapply (ok_rows d H).
  - intros i x [[_ <-]|[_ Hx]]%lookup_insert_Some; [done|]. by eapply (ok_host_folder d H).
  - intros i j x y Hx Hy Hk HP. eapply (unique_insert host_key (hosts d) (λ k, k ≠ None) id r);
      [|..|exact Hx|exact Hy|done|done].
    + intros; by eapply (ok_hosts_unique d H).
    + intros k z Hz HPr. destruct (Hu k z Hz) as [|[|]]; naive_solver.
  - apply H.
  - intros h t Hht. destruct (ok_host_tags d H h t Hht). split; [|done]. by apply is_Some_insert.
Qed.

Lemma write_tag_ok id r d d' : db_ok d → write_tag id r d = Ok d' → db_ok d'.
Proof.
  intros H (Hu & ->)%write_tag_Ok. split; simpl; try apply H.
  - intros i j x y Hx Hy Hk.
    eapply (unique_insert (λ r, nocase (tr_name r)) (tags d) (λ _, True) id r);
      [|..|exact Hx|exact Hy|done|done].
    + intros; by eapply (ok_tags_unique d H).
    + intros k z Hz _. exact (Hu k z Hz).
  - intros h t Hht. destruct (ok_host_tags d H h t Hht). split; [done|]. by apply is_Some_insert.
Qed.

Lemma insert_host_tag_ok h t d d' : db_ok d → insert_host_tag h t d = Ok d' → db_ok d'.
Proof.
  intros H. unfold insert_host_tag. case_decide as Hd; [|done]. intros [= <-].
  split; simpl; try apply H.
  intros h' t' [[= -> ->]%elem_of_singleton|Hin]%elem_of_union; [done|].
  by apply (ok_host_tags d H).
Qed.

Lemma set_host_tags_sub_ok X d : X ⊆ host_tags d → db_ok d → db_ok (set_host_tags X d).
Proof.
  intros HX H. split; simpl; try apply H.
  intros h t Hht. apply (ok_host_tags d H). by apply HX.
Qed.

Lemma delete_host_row_ok id d : db_ok d → db_ok (delete_host_row id d).
Proof.
  intros H. split; simpl; try apply H.
  - intros i r [_ Hr]%lookup_delete_Some. by eapply (ok_rows d H).
  - intros i r [_ Hr]%lookup_delete_Some. by eapply (ok_host_folder d H).
  - intros i j x y [_ Hx]%lookup_delete_Some [_ Hy]%lookup_delete_Some.
    by apply (ok_hosts_unique d H).
  - intros h t [Hne Hin]%elem_of_filter. simpl in Hne.
    destruct (ok_host_tags d H h t Hin). rewrite lookup_delete_ne by done. done.
Qed.

Lemma delete_tag_row_ok id d : db_ok d → db_ok (delete_tag_row id d).
Proof.
  intros H. split; simpl; try apply H.
  - intros i j x y [_ Hx]%lookup_delete_Some [_ Hy]%lookup_delete_Some.
    by apply (ok_tags_unique d H).
  - intros h t [Hne Hin]%elem_of_filter. simpl in Hne.
    destruct (ok_host_tags d H h t Hin). rewrite lookup_delete_ne by done. done.
Qed.

(** What ON DELETE SET NULL leaves alone. *)
Lemma orphan_spec (gone : Z → Prop) `{!∀ f, Decision (gone f)} r :
  (row_ok r → row_ok (orphan gone r)) ∧ host_key (orphan gone r) = host_key r ∧
  (orphan gone r = r ∨ ∃ f, r_folder_id r = Some f ∧ gone f ∧ orphan gone r = unfiled r).
Proof.
  unfold orphan. destruct (r_folder_id r) as [f|] eqn:Hf; [|naive_solver].
  case_decide; split_and!; try done; eauto 6.
Qed.

Lemma orphan_folder_id (gone : Z → Prop) `{!∀ f, Decision (gone f)} r :
  r_folder_id (orphan gone r) =
  match r_folder_id r with
  | Some f => if decide (gone f) then None else Some f
  | None => None
  end.
Proof. unfold orphan. destruct (r_folder_id r) as [f|] eqn:Hf; [|done]. by case_decide. Qed.

Lemma delete_folder_row_ok id d : db_ok d → db_ok (delete_folder_row id d).
Proof.
  intros H. unfold delete_folder_row. set (gone := in_subtree (folders d) id).
  split; simpl; try apply H.
  - apply forest_delete, H.
  - intros i j x y [Hx _]%map_lookup_filter_Some [Hy _]%map_lookup_filter_Some.
    by apply (ok_folders_unique d H).
  - intros i r (r0 & <- & Hr)%lookup_fmap_Some. apply orphan_spec. by eapply (ok_rows d H).
  - intros i r (r0 & <- & Hr)%lookup_fmap_Some. rewrite orphan_folder_id.
    pose proof (ok_host_folder d H i r0 Hr) as Href.
    destruct (r_folder_id r0) as [f|]; [|done]. case_decide; [done|].
    destruct Href as [rf Hrf]. exists rf. by apply map_lookup_filter_Some.
  - intros i j r r' (x & <- & Hx)%lookup_fmap_Some (y & <- & Hy)%lookup_fmap_Some.
    rewrite !(proj1 (proj2 (orphan_spec gone _))). by apply (ok_hosts_unique d H).
  - intros h t Hht. destruct (ok_host_tags d H h t Hht). by rewrite lookup_fmap, fmap_is_Some.
Qed.

(** * Methods

    [keeps m]: whatever [m] returns, it leaves the database well formed.
    [atomic m]: when it returns an error it has changed nothing. *)
Definition keeps {A} (m : M A) : Prop := ∀ s, db_ok (db s) → db_ok (db (m s).2).
Definition atomic {A} (m : M A) : Prop := ∀ s e s', m s = (Err e, s') → s' = s.

Section methods.
Context {A B : Type}.

Lemma keeps_bind (m : M A) (f : A → M B) : keeps m → (∀ a, keeps (f a)) → keeps (m ≫= f).
Proof.
  intros Hm Hf s Hs. rewrite M_bind_eq. specialize (Hm s Hs).
  destruct (m s) as [[a|e] s1]; simpl in *; [|done]. by apply Hf.
Qed.

Lemma keeps_ret (a : A) : keeps (mret a).
Proof. by intros s Hs. Qed.
Lemma keeps_throw e : keeps (throw (A := A) e).
Proof. by intros s Hs. Qed.
Lemma keeps_of_result (r : result StoreError A) : keeps (of_result r).
Proof. by intros s Hs. Qed.
Lemma keeps_query (f : Db → A) : keeps (query f).
Proof. by intros s Hs. Qed.
Lemma keeps_lock : keeps lock.
Proof. intros s Hs. unfold lock. by destruct (poisoned s). Qed.
Lemma keeps_execute (f : Db → result sqlite_error (A * Db)) :
  (∀ d d' a, db_ok d → f d = Ok (a, d') → db_ok d') → keeps (execute f).
Proof.
  intros Hf s Hs. unfold execute. destruct (f (db s)) as [[a d']|e] eqn:E; simpl; [|done].
  by eapply Hf.
Qed.
Lemma keeps_or_not_found what id n : keeps (or_not_found what id n).
Proof. intros s Hs. by destruct n. Qed.

(** A method that ends in its only writing statement is atomic. *)
Lemma atomic_bind_query (m : M A) (f : A → M B) :
  (∀ s, (m s).2 = s) → (∀ a, atomic (f a)) → atomic (m ≫= f).
Proof.
  intros Hm Hf s e s'. rewrite M_bind_eq. specialize (Hm s).
  destruct (m s) as [[a|e'] s1]; simpl in *; subst; [apply Hf|by intros [= _ <-]].
Qed.
Lemma atomic_ret (a : A) : atomic (mret a).
Proof. by intros s e s' [=]. Qed.
Lemma atomic_throw e : atomic (throw (A := A) e).
Proof. by intros s e' s' [= _ <-]. Qed.
Lemma atomic_query (f : Db → A) : atomic (query f).
Proof. by intros s e' s' [=]. Qed.
Lemma atomic_of_result (r : result StoreError A) : atomic (of_result r).
Proof. by intros s e' s' [= _ <-]. Qed.
Lemma atomic_execute (f : Db → result sqlite_error (A * Db)) : atomic (execute f).
Proof. intros s e s'. unfold execute. destruct (f (db s)) as [[a d]|]; by intros [= _ <-]. Qed.
Lemma lock_pure s : (lock s).2 = s.
Proof. unfold lock. by destruct (poisoned s). Qed.
End methods.

Lemma changed_ok s f what id :
  db_ok (db s) → (∀ n d', f (db s) = Ok (n, d') → db_ok d') →
  db_ok (db ((changed ← execute f; or_not_found what id changed) s).2).
Proof.
  intros Hs Hf. rewrite M_bind_eq. unfold execute. destruct (f (db s)) as [[n d']|e]; [|done].
  destruct n; by eapply Hf.
Qed.

(** UPDATE or DELETE of one row, then [NotFound] when there was none. *)
Lemma atomic_changed {A} (t : Db → gmap Z A) id what (f : Db → result sqlite_error (nat * Db)) :
  (∀ d d', f d = Ok (0, d') → d' = d) →
  atomic (changed ← execute f; or_not_found what id changed).
Proof.
  intros Hf [p d] e s'. rewrite M_bind_eq. unfold execute. simpl.
  destruct (f d) as [[[|n] d']|e'] eqn:E; simpl; intros [= <- <-]; [|done].
  by rewrite (Hf d d').
Qed.

Lemma update_row_zero {A} (t : gmap Z A) id f write d d' :
  update_row t id f write d = Ok (0, d') → d' = d.
Proof.
  unfold update_row. destruct (t !! id); [|by intros [= <-]].
  destruct (write _ _ _); simpl; congruence.
Qed.

Lemma delete_row_zero {A} (t : gmap Z A) id del d d' : delete_row t id del d = Ok (0, d') → d' = d.
Proof. unfold delete_row. destruct (t !! id); congruence. Qed.

#[export] Hint Resolve keeps_bind keeps_ret keeps_throw keeps_of_result keeps_query keeps_lock
  keeps_or_not_found atomic_ret atomic_throw atomic_query atomic_of_result atomic_execute
  update_row_zero delete_row_zero lock_pure : tern.

(** Go through a method's statements; what is left are its writes. *)
Ltac keeps_steps :=
  repeat first
    [ apply keeps_lock | apply keeps_query | apply keeps_ret | apply keeps_throw
    | apply keeps_of_result | apply keeps_or_not_found
    | apply keeps_bind; [|intros ?] | case_decide | case_match | apply keeps_execute; intros ??? ].
