(* ===== verification/Folders.v ===== *)
(** * [FolderRepo]

    [core-store/src/folders.rs].  [now] is the clock the method reads.  The
    recursive query of [tree] is the level-by-level walk SQLite makes of it;
    its fuel, and that of the walk in [reparent], is one more than the number
    of folders, which [Forest] shows to be enough. *)
From S2P Require Import Prelude Text Model Database Forest StoreInv.

Section folders.
Context `{Engine}.

Definition folder_of (kv : Z * FolderRow) : Folder :=
  MkFolder kv.1 (fr_parent_id kv.2) (fr_name kv.2) (fr_position kv.2) (fr_created_at kv.2)
    (fr_updated_at kv.2).

Definition children_of (t : gmap Z FolderRow) (parent : option Z) : list (Z * FolderRow) :=
  filter (λ kv, fr_parent_id kv.2 = parent) (scan t).

(** WITH RECURSIVE walk: the rows of the frontier at [depth], then the rows
    they join with. *)
Fixpoint walk_rows (fuel : nat) (t : gmap Z FolderRow) (frontier : list (Z * FolderRow))
    (depth : nat) : list (nat * (Z * FolderRow)) :=
  match fuel with
  | 0 => []
  | S fuel =>
      match frontier with
      | [] => []
      | _ => ((λ kv, (depth, kv)) <$> frontier) ++
             walk_rows fuel t (frontier ≫= λ kv, children_of t (Some kv.1)) (S depth)
      end
  end.

(** ORDER BY depth, position, name COLLATE NOCASE. *)
Definition tree_le (a b : nat * (Z * FolderRow)) : Prop :=
  a.1 < b.1 ∨
  a.1 = b.1 ∧
    ((fr_position a.2.2 < fr_position b.2.2)%Z ∨
     fr_position a.2.2 = fr_position b.2.2 ∧
       str_le (nocase (fr_name a.2.2)) (nocase (fr_name b.2.2)) = true).
#[export] Instance tree_le_dec a b : Decision (tree_le a b).
Proof. unfold tree_le. apply _. Defined.

Definition tree_rows (t : gmap Z FolderRow) : list Folder :=
  (λ row, folder_of row.2) <$>
    merge_sort tree_le (walk_rows (walk_fuel t) t (children_of t None) 0).

Definition tree : M (list Folder) :=
  lock;; query (λ d, tree_rows (folders d)).

(** SELECT COALESCE(MAX(position), -1) + 1 over the siblings. *)
Definition next_position (parent : option FolderId) (d : Db) : Z :=
  let siblings :=
    filter (λ kv, default (-1)%Z (fr_parent_id kv.2) = default (-1)%Z parent) (scan (folders d)) in
  (match fr_position ∘ snd <$> siblings with
   | [] => -1
   | p :: ps => foldr Z.max p ps
   end + 1)%Z.

Definition insert_folder (parent : option FolderId) (name : str) (position ts : Z) (d : Db) :
    result sqlite_error (Z * Db) :=
  let id := fresh_rowid (dom (folders d)) in
  d ← write_folder id (MkFolderRow parent name position ts ts) d;
  Ok (id, d).

Definition create (parent : option FolderId) (name : str) (now : Z) : M FolderId :=
  let name := trim name in
  if decide (name = []) then throw (Invalid EmptyFolderName)
  else
    lock;;
    position ← query (next_position parent);
    execute (insert_folder parent name position now).

Definition rename (id : FolderId) (name : str) (now : Z) : M () :=
  let name := trim name in
  if decide (name = []) then throw (Invalid EmptyFolderName)
  else
    lock;;
    changed ← execute (λ d, update_row (folders d) id
      (λ r, MkFolderRow (fr_parent_id r) name (fr_position r) (fr_created_at r) now)
      write_folder d);
    or_not_found EFolder id changed.

(** The ancestry query [SELECT 1 FROM anc WHERE id = ?2 LIMIT 1]: is [id] on
    the way from [target] up? *)
Definition is_descendant (target id : FolderId) (d : Db) : bool :=
  bool_decide (in_subtree (folders d) id target).

Definition set_parent (to : option FolderId) (now : Z) (r : FolderRow) : FolderRow :=
  MkFolderRow to (fr_name r) (fr_position r) (fr_created_at r) now.

Definition reparent (id : FolderId) (to : option FolderId) (now : Z) : M () :=
  if decide (Some id = to) then throw (FolderCycle id id)
  else
    lock;;
    match to with
    | Some target =>
        found ← query (is_descendant target id);
        if (found : bool) then throw (FolderCycle id target) else mret ()
    | None => mret ()
    end;;
    changed ← execute (λ d, update_row (folders d) id (set_parent to now) write_folder d);
    or_not_found EFolder id changed.

Definition delete_folder (id : FolderId) : M () :=
  lock;;
  changed ← execute (λ d, delete_row (folders d) id delete_folder_row d);
  or_not_found EFolder id changed.
End folders.

(** A store with one folder inside another. *)
Definition sample_folders : Store :=
  let e := sqlite_max_rowid in
  snd ((create (Some 1%Z) #"eu" 2) (snd ((create None #"prod" 1) (MkStore false empty_db)))).

(** * Every method keeps the invariant *)
Section keeps.
Context `{Engine}.

Lemma tree_keeps : keeps tree.
Proof. unfold tree. keeps_steps. Qed.

(** A new folder's parent exists, or the insertion is refused, unless the
    parent named is the id the new folder is about to get. *)
Lemma insert_folder_ok parent name position ts d id d' :
  db_ok d → parent ≠ Some (fresh_rowid (dom (folders d))) →
  insert_folder parent name position ts d = Ok (id, d') → db_ok d'.
Proof.
  intros Hd Hne. unfold insert_folder. set (new := fresh_rowid _) in *.
  intros (d1 & Hw & [= <- <-])%result_bind_Ok.
  eapply write_folder_ok; [done| |done]. apply may_hang_new; [apply Hd|..].
  - apply not_elem_of_dom, fresh_rowid_fresh.
  - apply write_folder_Ok in Hw as (_ & Hr & _). destruct parent as [p|]; [|done].
    simpl in *. by rewrite lookup_insert_ne in Hr by congruence.
Qed.

Lemma create_ok parent name now s :
  db_ok (db s) → parent ≠ Some (fresh_rowid (dom (folders (db s)))) →
  db_ok (db (create parent name now s).2).
Proof.
  intros Hs Hne. unfold create. case_decide; [done|]. rewrite !M_bind_eq.
  unfold lock. destruct (poisoned s); [done|]. rewrite M_bind_eq. unfold query, execute. simpl.
  destruct (insert_folder _ _ _ _ _) as [[id d']|] eqn:E; simpl; [|done].
  by eapply insert_folder_ok.
Qed.

Lemma update_folder_ok id (f : FolderRow → FolderRow) d d' n :
  db_ok d → (∀ r, folders d !! id = Some r → may_hang (folders d) id (fr_parent_id (f r))) →
  update_row (folders d) id f write_folder d = Ok (n, d') → db_ok d'.
Proof.
  intros Hd Hh. unfold update_row. destruct (folders d !! id) as [r|] eqn:Hr; [|by intros [= <- <-]].
  intros (d1 & Hw & [= <- <-])%result_bind_Ok. eapply write_folder_ok; [done|by apply Hh|done].
Qed.

Lemma rename_keeps id name now : keeps (rename id name now).
Proof.
  unfold rename. keeps_steps. intros Hd. apply (update_folder_ok id
    (λ r, MkFolderRow (fr_parent_id r) (trim name) (fr_position r) (fr_created_at r) now)).
  - done.
  - intros r Hr. apply (may_hang_same (folders d) id r); [apply Hd|done].
Qed.

(** The walk that guards [reparent] decides whether a cycle would close. *)
Lemma is_descendant_false d id target :
  db_ok d → is_Some (folders d !! target) → is_descendant target id d = false →
  may_hang (folders d) id (Some target).
Proof.
  intros Hd Ht. unfold is_descendant. destruct (ok_forest d Hd target Ht) as [l Hl].
  rewrite bool_decide_eq_false, (in_subtree_chain (folders d) id target l Hl).
  intros Hin. by exists l.
Qed.

Lemma set_parent_ok id to now d d' n :
  db_ok d → Some id ≠ to →
  (∀ target, to = Some target → is_descendant target id d = false) →
  update_row (folders d) id (set_parent to now) write_folder d = Ok (n, d') → db_ok d'.
Proof.
  intros Hd Hne Hdesc. unfold update_row. destruct (folders d !! id) as [r|] eqn:Hr; [|by intros [= <- <-]].
  intros (d1 & Hw & [= <- <-])%result_bind_Ok. eapply write_folder_ok; [done| |done].
  apply write_folder_Ok in Hw as (_ & Href & _). simpl in *. destruct to as [target|]; [|done].
  apply is_descendant_false; [done| |by apply Hdesc].
  simpl in Href. by rewrite lookup_insert_ne in Href by congruence.
Qed.

Lemma reparent_keeps id to now : keeps (reparent id to now).
Proof.
  intros s Hs. unfold reparent. case_decide as Hne; [done|]. rewrite !M_bind_eq.
  unfold lock. destruct (poisoned s); [done|]. rewrite !M_bind_eq.
  assert (∀ n d', update_row (folders (db s)) id (set_parent to now) write_folder (db s) = Ok (n, d') →
    (∀ target, to = Some target → is_descendant target id (db s) = false) → db_ok d') as Hup.
  { intros n d' E Hd. by eapply set_parent_ok. }
  destruct to as [target|].
  - rewrite !M_bind_eq. unfold query. destruct (is_descendant target id (db s)) eqn:Hd; [done|].
    apply changed_ok; [done|]. intros n d' E. eapply Hup; [done|]. by intros ? [= <-].
  - apply changed_ok; [done|]. intros n d' E. by eapply Hup.
Qed.

Lemma delete_folder_keeps id : keeps (delete_folder id).
Proof.
  unfold delete_folder. keeps_steps. intros Hd. unfold delete_row.
  destruct (folders d !! id); [|congruence]. intros [= <- <-]. by apply delete_folder_row_ok.
Qed.
End keeps.

(** * The tree *)

#[export] Instance tree_le_total : Total tree_le.
Proof.
  intros a b. unfold tree_le.
  destruct (lt_eq_lt_dec a.1 b.1) as [[?| ->]|?]; [by left; left| |by right; left].
  destruct (Z.lt_trichotomy (fr_position a.2.2) (fr_position b.2.2)) as [?|[->|?]];
    [left; right; by auto| |right; right; by auto].
  destruct (str_le_total (nocase (fr_name a.2.2)) (nocase (fr_name b.2.2)));
    [left|right]; right; auto.
Qed.

#[export] Instance tree_le_trans : Transitive tree_le.
Proof.
  intros a b c. unfold tree_le. intros [?|[Hd1 H1]] [?|[Hd2 H2]]; try (left; lia).
  right. split; [lia|]. destruct H1 as [?|[Hp1 Hn1]], H2 as [?|[Hp2 Hn2]]; try (left; lia).
  right. split; [lia|]. by eapply str_le_trans.
Qed.

Section tree.
Context `{Engine} (t : gmap Z FolderRow).

(** The rows [n] steps below a root. *)
Definition at_depth (n : nat) (kv : Z * FolderRow) : Prop :=
  t !! kv.1 = Some kv.2 ∧ ∃ l, chain t kv.1 l ∧ length l = S n.

Fixpoint level (n : nat) : list (Z * FolderRow) :=
  match n with
  | 0 => children_of t None
  | S n => level n ≫= λ kv, children_of t (Some kv.1)
  end.

Lemma children_of_elem parent kv :
  kv ∈ children_of t parent ↔ t !! kv.1 = Some kv.2 ∧ fr_parent_id kv.2 = parent.
Proof.
  unfold children_of. rewrite list_elem_of_filter, scan_perm.
  destruct kv. rewrite elem_of_map_to_list. naive_solver.
Qed.

Lemma children_of_NoDup parent : NoDup (children_of t parent).
Proof. apply NoDup_filter. rewrite scan_perm. apply NoDup_map_to_list. Qed.

Lemma level_elem n kv : kv ∈ level n ↔ at_depth n kv.
Proof.
  revert kv. induction n as [|n IH]; intros kv; simpl; unfold at_depth.
  - rewrite children_of_elem. split.
    + intros [Hk Hp]. split; [done|]. exists [kv.1]. split; [|done]. by eapply chain_top.
    + intros (Hk & l & Hl & Hlen). split; [done|]. inversion Hl as [|? ? ? l' ? ? Hl']; simplify_eq/=; [done|].
      apply chain_head in Hl'. by destruct l'; [apply elem_of_nil in Hl'|].
  - rewrite list_elem_of_bind. setoid_rewrite children_of_elem. setoid_rewrite IH. split.
    + intros (kp & [Hk Hp] & Hkp & l & Hl & Hlen). split; [done|].
      exists (kv.1 :: l). split; [by eapply chain_up|]. simpl. lia.
    + intros (Hk & l & Hl & Hlen). inversion Hl as [|? r p l' Hr Hp Hl']; simplify_eq/=.
      destruct (chain_is_Some t p l' Hl') as [rp Hrp].
      exists (p, rp). split; [done|]. split; [done|]. exists l'. split; [done|lia].
Qed.

Lemma level_NoDup n : NoDup (level n).
Proof.
  induction n as [|n IH]; simpl; [apply children_of_NoDup|]. apply NoDup_bind; [..|done].
  - intros x1 x2 y [H1 _]%level_elem [H2 _]%level_elem [_ Hy1]%children_of_elem [_ Hy2]%children_of_elem.
    destruct x1, x2; simpl in *. congruence.
  - intros. apply children_of_NoDup.
Qed.

Lemma level_nil n m : level n = [] → n ≤ m → level m = [].
Proof. intros Hn. induction 1 as [|m _ IH]; [done|]. simpl. by rewrite IH. Qed.

(** The recursive query visits the levels one by one. *)
Lemma walk_rows_levels fuel n :
  walk_rows fuel t (level n) n = seq n fuel ≫= λ k, pair k <$> level k.
Proof.
  revert n. induction fuel as [|fuel IH]; intros n; [done|].
  cbn [walk_rows seq mbind list_bind]. destruct (level n) as [|kv kvs] eqn:El.
  - assert (∀ k m, n ≤ m → (seq m k ≫= λ k, pair k <$> level k) = []) as Hnil.
    { induction k as [|k IHk]; intros m Hm; [done|]. cbn [seq mbind list_bind].
      rewrite (level_nil n m El Hm). simpl. apply IHk. lia. }
    simpl. symmetry. apply Hnil. lia.
  - rewrite <- El. f_equal. apply (IH (S n)).
Qed.

Definition visited_rows : list (nat * (Z * FolderRow)) :=
  walk_rows (walk_fuel t) t (children_of t None) 0.

Lemma visited_rows_elem k kv : (k, kv) ∈ visited_rows ↔ k ≤ size t ∧ at_depth k kv.
Proof.
  unfold visited_rows. change (children_of t None) with (level 0). rewrite walk_rows_levels.
  rewrite list_elem_of_bind. setoid_rewrite list_elem_of_fmap. split.
  - intros (k' & (kv' & [= <- <-] & Hkv) & Hk%elem_of_seq). unfold walk_fuel in Hk.
    split; [lia|]. by apply level_elem.
  - intros [Hk Hkv]. exists k. split; [|apply elem_of_seq; unfold walk_fuel; lia].
    exists kv. split; [done|]. by apply level_elem.
Qed.

Lemma visited_rows_NoDup : NoDup visited_rows.
Proof.
  unfold visited_rows. change (children_of t None) with (level 0). rewrite walk_rows_levels.
  apply NoDup_bind.
  - intros k1 k2 y _ _ (? & -> & _)%list_elem_of_fmap (? & [= -> _] & _)%list_elem_of_fmap. done.
  - intros k _. apply (NoDup_fmap_2 _), level_NoDup.
  - apply NoDup_seq.
Qed.

Lemma at_depth_det k k' kv : at_depth k kv → at_depth k' kv → k = k'.
Proof.
  intros (_ & l & Hl & Hk) (_ & l' & Hl' & Hk'). rewrite (chain_det t kv.1 l l') in Hk by done. lia.
Qed.

Lemma visited_rows_perm : forest t → visited_rows.*2 ≡ₚ map_to_list t.
Proof.
  intros Hf. apply NoDup_Permutation.
  - apply NoDup_fmap_2_strong, visited_rows_NoDup.
    intros [k kv] [k' kv'] [_ H1]%visited_rows_elem [_ H2]%visited_rows_elem. simpl. intros ->.
    f_equal. by eapply at_depth_det.
  - apply NoDup_map_to_list.
  - intros [id r]. rewrite elem_of_map_to_list, list_elem_of_fmap. split.
    + intros ([k kv] & Heq & [_ [Hr _]]%visited_rows_elem). by destruct kv; simplify_eq/=.
    + intros Hr. destruct (Hf id) as [l Hl]; [by eexists|]. exists (pred (length l), (id, r)).
      split; [done|]. pose proof (chain_length t id l Hl).
      assert (0 < length l) by (apply chain_head in Hl; by destruct l; [apply elem_of_nil in Hl|simpl; lia]).
      apply visited_rows_elem. split; [lia|]. split; [done|]. exists l. split; [done|lia].
Qed.

Lemma visited_parent k kv p :
  (k, kv) ∈ visited_rows → fr_parent_id kv.2 = Some p →
  ∃ k' r, k' < k ∧ (k', (p, r)) ∈ visited_rows.
Proof.
  intros [Hk (Hr & l & Hl & Hlen)]%visited_rows_elem Hp.
  inversion Hl as [|? r' p' l' Hr' Hp' Hl']; simplify_eq/=.
  destruct (chain_is_Some t p l' Hl') as [rp Hrp].
  assert (0 < length l').
  { apply chain_head in Hl'. by destruct l'; [apply elem_of_nil in Hl'|simpl; lia]. }
  exists (pred (length l')), rp. split; [lia|]. apply visited_rows_elem. split; [lia|]. split; [done|].
  exists l'. split; [done|lia].
Qed.
End tree.

(** What [tree] answers. *)
Lemma tree_run `{Engine} s :
  db_ok (db s) → poisoned s = false →
  ∃ fs, tree s = (Ok fs, s) ∧
    fs ≡ₚ folder_of <$> map_to_list (folders (db s)) ∧
    ∀ i f p, fs !! i = Some f → f_parent_id f = Some p →
      ∃ j g, j < i ∧ fs !! j = Some g ∧ f_id g = p.
Proof.
  intros Hs Hp. exists (tree_rows (folders (db s))). split_and!.
  - unfold tree. rewrite M_bind_eq. unfold lock. by rewrite Hp.
  - unfold tree_rows. rewrite merge_sort_Permutation.
    fold (visited_rows (folders (db s))). rewrite <- visited_rows_perm by apply Hs.
    by rewrite <- list_fmap_compose.
  - unfold tree_rows. fold (visited_rows (folders (db s))).
    set (rows := merge_sort tree_le _). intros i f p Hi Hpar.
    assert (rows ≡ₚ visited_rows (folders (db s))) as Hperm by apply merge_sort_Permutation.
    apply list_lookup_fmap_Some in Hi as ([k kv] & -> & Hi). simpl in Hpar.
    destruct (visited_parent (folders (db s)) k kv p) as (k' & r & Hk & Hin); [|done|].
    { rewrite <- Hperm. by eapply list_elem_of_lookup_2. }
    rewrite <- Hperm in Hin. apply list_elem_of_lookup in Hin as [j Hj].
    exists j, (folder_of (p, r)). split; [|by rewrite list_lookup_fmap, Hj].
    destruct (lt_eq_lt_dec i j) as [[Hij| ->]|]; [|simplify_eq; lia|done].
    assert (tree_le (k, kv) (k', (p, r))) as [Hle|[Hle _]]; simpl in *; [|lia..].
    eapply (StronglySorted_lookup tree_le rows i j); [|done..].
    apply (StronglySorted_merge_sort tree_le).
Qed.

(** On a well-formed database [tree] lists every folder exactly once,
    and a parent always before its children. *)
Theorem tree_complete `{Engine} s :
  db_ok (db s) → poisoned s = false →
  ∃ fs, tree s = (Ok fs, s) ∧
    fs ≡ₚ folder_of <$> map_to_list (folders (db s)) ∧
    ∀ i f p, fs !! i = Some f → f_parent_id f = Some p →
      ∃ j g, j < i ∧ fs !! j = Some g ∧ f_id g = p.
Proof. apply tree_run. Qed.

Lemma sample_folders_ok : db_ok (db sample_folders).
Proof.
  unfold sample_folders. apply (create_ok (Some 1%Z)); [|by vm_compute].
  apply (create_ok None); [apply empty_db_ok|done].
Qed.

Lemma tree_complete_witness :
  let e := sqlite_max_rowid in
  ∃ fs, tree sample_folders = (Ok fs, sample_folders) ∧
    fs ≡ₚ folder_of <$> map_to_list (folders (db sample_folders)) ∧
    ∀ i f p, fs !! i = Some f → f_parent_id f = Some p →
      ∃ j g, j < i ∧ fs !! j = Some g ∧ f_id g = p.
Proof. intros e. apply tree_complete; [apply sample_folders_ok|reflexivity]. Defined.

Lemma changed_no_cycle f what i id target s :
  ((changed ← execute f; or_not_found what i changed) s).1 ≠ Err (FolderCycle id target).
Proof. rewrite M_bind_eq. unfold execute. by destruct (f (db s)) as [[[|n] d']|]. Qed.

(** Moving a folder is refused as a cycle exactly when the target lies
    in the folder's own subtree (the folder itself included); then nothing
    changes. *)
Theorem reparent_cycle_iff `{Engine} s id target now :
  db_ok (db s) → poisoned s = false → is_Some (folders (db s) !! target) →
  reparent id (Some target) now s = (Err (FolderCycle id target), s) ↔
  ∃ l, chain (folders (db s)) target l ∧ id ∈ l.
Proof.
  intros Hs Hp Ht. destruct (ok_forest _ Hs target Ht) as [l Hl].
  trans (id ∈ l); [|split; [eauto|intros (l' & Hl' & Hin); by rewrite (chain_det _ _ _ _ Hl Hl')]].
  unfold reparent. case_decide as Heq.
  { injection Heq as ->. split; [|done]. intros _. by eapply chain_head. }
  rewrite !M_bind_eq. unfold lock. rewrite Hp, !M_bind_eq. unfold query, is_descendant.
  rewrite (bool_decide_ext _ _ (in_subtree_chain (folders (db s)) id target l Hl)).
  case_bool_decide as Hin; [done|]. split; [|done].
  intros Hc%(f_equal fst). by apply changed_no_cycle in Hc.
Qed.

Lemma reparent_cycle_iff_witness :
  let e := sqlite_max_rowid in
  reparent 1 (Some 2%Z) 3 sample_folders = (Err (FolderCycle 1 2), sample_folders).
Proof.
  intros e. apply (reparent_cycle_iff sample_folders 1 2 3).
  - apply sample_folders_ok.
  - reflexivity.
  - by eexists.
  - exists [2%Z; 1%Z]. split; [|by right; left].
    eapply chain_up; [reflexivity..|]. by eapply chain_top.
Defined.

(** Deleting a folder removes exactly its subtree and never a host: every
    host survives with all its columns, and loses its [folder_id] only when
    its folder was in that subtree. *)
Theorem delete_folder_keeps_hosts s id :
  db_ok (db s) → poisoned s = false → is_Some (folders (db s) !! id) →
  ∃ s', delete_folder id s = (Ok (), s') ∧
    (∀ f r, folders (db s') !! f = Some r ↔
       folders (db s) !! f = Some r ∧ ∀ l, chain (folders (db s)) f l → id ∉ l) ∧
    (∀ h r, hosts (db s) !! h = Some r →
       hosts (db s') !! h = Some r ∨
       hosts (db s') !! h = Some (unfiled r) ∧
         ∃ f l, r_folder_id r = Some f ∧ chain (folders (db s)) f l ∧ id ∈ l) ∧
    dom (hosts (db s')) = dom (hosts (db s)).
Proof.
  intros Hs Hp [r0 Hid]. exists (MkStore false (delete_folder_row id (db s))). split_and!.
  - unfold delete_folder. rewrite M_bind_eq. unfold lock. rewrite Hp, M_bind_eq.
    unfold execute, delete_row. by rewrite Hid, Hp.
  - intros f r. cbn. rewrite map_lookup_filter_Some. simpl. split.
    + intros [Hr Hg]. split; [done|]. intros l Hl. by rewrite <- (in_subtree_chain _ id f l Hl).
    + intros [Hr Hg]. split; [done|]. destruct (ok_forest _ Hs f) as [l Hl]; [by eexists|].
      rewrite (in_subtree_chain _ id f l Hl). by apply Hg.
  - intros h r Hr. cbn. rewrite lookup_fmap, Hr. simpl.
    destruct (orphan_spec (in_subtree (folders (db s)) id) r) as (_ & _ & [->|(f & Hf & Hg & ->)]);
      [by left|right]. split; [done|].
    pose proof (ok_host_folder _ Hs h r Hr) as Href. rewrite Hf in Href.
    destruct (ok_forest _ Hs f Href) as [l Hl]. exists f, l. split_and!; [done..|].
    by rewrite <- (in_subtree_chain _ id f l Hl).
  - cbn. apply dom_fmap_L.
Qed.

Lemma delete_folder_keeps_hosts_witness :
  ∃ s', delete_folder 1 sample_folders = (Ok (), s') ∧
    (∀ f r, folders (db s') !! f = Some r ↔
       folders (db sample_folders) !! f = Some r ∧
         ∀ l, chain (folders (db sample_folders)) f l → 1%Z ∉ l) ∧
    (∀ h r, hosts (db sample_folders) !! h = Some r →
       hosts (db s') !! h = Some r ∨
       hosts (db s') !! h = Some (unfiled r) ∧
         ∃ f l, r_folder_id r = Some f ∧ chain (folders (db sample_folders)) f l ∧ 1%Z ∈ l) ∧
    dom (hosts (db s')) = dom (hosts (db sample_folders)).
Proof.
  apply delete_folder_keeps_hosts; [apply sample_folders_ok|reflexivity|by eexists].
Defined.

(** A folder created under a parent id that no longer exists, but that is
    the id the engine hands out next, becomes its own parent: the insertion
    succeeds and the folder cannot be reached from any root. *)
Theorem create_self_parent `{Engine} s name now :
  db_ok (db s) → poisoned s = false → trim name ≠ [] →
  let id := fresh_rowid (dom (folders (db s))) in
  ∃ s', create (Some id) name now s = (Ok id, s') ∧
    (∃ r, folders (db s') !! id = Some r ∧ fr_parent_id r = Some id) ∧
    ¬ rooted (folders (db s')) id.
Proof.
  intros Hs Hp Hn id.
  assert (folders (db s) !! id = None) as Hid by (apply not_elem_of_dom, fresh_rowid_fresh).
  set (r := MkFolderRow (Some id) (trim name) (next_position (Some id) (db s)) now now).
  assert (write_folder id r (db s) = Ok (set_folders (<[id:=r]> (folders (db s))) (db s))) as Hw.
  { apply write_folder_Ok. split_and!; [|by simpl; rewrite lookup_insert_eq|done].
    intros j rj Hj. right. intros [= Hk _]. simpl in Hk.
    destruct (fr_parent_id rj) as [p|] eqn:Hpj; simpl in Hk.
    - subst p. destruct (chain_parent (folders (db s)) j rj id) as [l Hl]; [apply Hs|done..|].
      apply chain_is_Some in Hl. rewrite Hid in Hl. by destruct Hl.
    - assert (0 < id)%Z by apply fresh_rowid_pos. lia. }
  exists (MkStore false (set_folders (<[id:=r]> (folders (db s))) (db s))). split_and!.
  - unfold create. rewrite decide_False by done. rewrite !M_bind_eq. unfold lock. rewrite Hp.
    rewrite M_bind_eq. unfold query, execute, insert_folder. fold id. fold r. by rewrite Hw, Hp.
  - exists r. cbn. by rewrite lookup_insert_eq.
  - intros [l Hl]. cbn in Hl.
    assert (<[id:=r]> (folders (db s)) !! id = Some r) as Hr by apply lookup_insert_eq.
    eapply (chain_acyclic _ id id l r Hr); [done..|]. by eapply chain_head.
Qed.

Lemma create_self_parent_witness :
  let e := sqlite_max_rowid in
  let s := snd (delete_folder 2 sample_folders) in
  let id := fresh_rowid (dom (folders (db s))) in
  id = 2%Z ∧
  ∃ s', create (Some id) #"uk" 4 s = (Ok id, s') ∧
    (∃ r, folders (db s') !! id = Some r ∧ fr_parent_id r = Some id) ∧
    ¬ rooted (folders (db s')) id.
Proof.
  intros e s id. split; [by vm_compute|]. apply (create_self_parent s #"uk" 4).
  - apply delete_folder_keeps, sample_folders_ok.
  - by vm_compute.
  - by vm_compute.
Defined.
