(* ===== verification/Hosts.v ===== *)
(** * [HostRepo]

    [core-store/src/hosts.rs].  [now] is the clock a method reads.  The WHERE
    clauses [list] appends are values of [clause]; [list_sql] is the text it
    builds for them, and [run_clause] what each means on a row. *)
From S2P Require Import Prelude Text Model Database Forest StoreInv.

(** Reading an integer column at [u16], [Option<u32>], [i64]: a value out of
    range is a conversion error. *)
Definition get_u16 (column : nat) (z : Z) : result sqlite_error Z :=
  if ((0 <=? z) && (z <=? u16_max))%Z then Ok z else Err (ConversionFailure column).
Definition get_opt_u32 (column : nat) (o : option Z) : result sqlite_error (option Z) :=
  match o with
  | None => Ok None
  | Some z => if ((0 <=? z) && (z <=? u32_max))%Z then Ok (Some z) else Err (ConversionFailure column)
  end.
Definition get_i64 (column : nat) (z : Z) : result sqlite_error Z :=
  if (z <=? i64_max)%Z then Ok z else Err (ConversionFailure column).

Definition row_to_host (id : HostId) (row : HostRow) : result sqlite_error Host :=
  port ← get_u16 4 (r_port row);
  auth ← map_err (λ _, ConversionFailure 0) (AuthKind_try_from (r_auth_method row));
  keepalive_secs ← get_opt_u32 10 (r_keepalive_secs row);
  keepalive_max ← get_opt_u32 11 (r_keepalive_max row);
  connect_timeout_secs ← get_opt_u32 12 (r_connect_timeout_secs row);
  window_size ← get_opt_u32 13 (r_window_size row);
  reconnect_max_attempts ← get_opt_u32 15 (r_reconnect_max_attempts row);
  source ← map_err (λ _, ConversionFailure 0) (HostSource_try_from (r_source row));
  connect_count ← get_i64 22 (r_connect_count row);
  Ok {|
    h_id := id;
    h_folder_id := r_folder_id row;
    h_name := r_name row;
    h_hostname := r_hostname row;
    h_port := port;
    h_username := r_username row;
    h_auth := auth;
    h_auth_fallbacks := decode_auth_fallbacks (r_auth_fallbacks row);
    h_secret_ref := r_secret_ref row;
    h_key_path := r_key_path row;
    h_overrides := {|
      o_term := r_term row;
      o_keepalive_secs := keepalive_secs;
      o_keepalive_max := keepalive_max;
      o_connect_timeout_secs := connect_timeout_secs;
      o_window_size := window_size;
      o_reconnect_enabled := (λ v, negb (v =? 0)%Z) <$> r_reconnect_enabled row;
      o_reconnect_max_attempts := reconnect_max_attempts
    |};
    h_proxy_jump := r_proxy_jump row;
    h_source := source;
    h_source_alias := r_source_alias row;
    h_color := r_color row;
    h_notes := r_notes row;
    h_last_connected_at := r_last_connected_at row;
    h_connect_count := connect_count;
    h_created_at := r_created_at row;
    h_updated_at := r_updated_at row;
    h_tags := []
  |}.

(** SELECT tag_id ... ORDER BY tag_id. *)
Definition tags_for (d : Db) (host_id : HostId) : list TagId :=
  merge_sort Z.le (snd <$> elements (filter (λ p, p.1 = host_id) (host_tags d))).

(** [h.tags = tags]. *)
Definition with_tags (h : Host) (ts : list TagId) : Host :=
  MkHost (h_id h) (h_folder_id h) (h_name h) (h_hostname h) (h_port h) (h_username h) (h_auth h)
    (h_auth_fallbacks h) (h_secret_ref h) (h_key_path h) (h_overrides h) (h_proxy_jump h)
    (h_source h) (h_source_alias h) (h_color h) (h_notes h) (h_last_connected_at h)
    (h_connect_count h) (h_created_at h) (h_updated_at h) ts.

(** The values INSERT and UPDATE bind. *)
Definition bool_to_i64 (b : bool) : Z := if b then 1 else 0.

Definition new_row (draft : NewHost) (ts : Z) : HostRow := {|
  r_folder_id := n_folder_id draft;
  r_name := n_name draft;
  r_hostname := n_hostname draft;
  r_port := n_port draft;
  r_username := n_username draft;
  r_auth_method := AuthKind_as_str (n_auth draft);
  r_secret_ref := n_secret_ref draft;
  r_key_path := n_key_path draft;
  r_term := o_term (n_overrides draft);
  r_keepalive_secs := o_keepalive_secs (n_overrides draft);
  r_keepalive_max := o_keepalive_max (n_overrides draft);
  r_connect_timeout_secs := o_connect_timeout_secs (n_overrides draft);
  r_window_size := o_window_size (n_overrides draft);
  r_reconnect_enabled := bool_to_i64 <$> o_reconnect_enabled (n_overrides draft);
  r_reconnect_max_attempts := o_reconnect_max_attempts (n_overrides draft);
  r_proxy_jump := n_proxy_jump draft;
  r_source := HostSource_as_str (n_source draft);
  r_source_alias := n_source_alias draft;
  r_color := n_color draft;
  r_notes := n_notes draft;
  r_last_connected_at := None;
  r_connect_count := 0;
  r_created_at := ts;
  r_updated_at := ts;
  r_auth_fallbacks := encode_auth_fallbacks (n_auth_fallbacks draft)
|}.

Definition updated_row (host : Host) (now : Z) (old : HostRow) : HostRow := {|
  r_folder_id := h_folder_id host;
  r_name := h_name host;
  r_hostname := h_hostname host;
  r_port := h_port host;
  r_username := h_username host;
  r_auth_method := AuthKind_as_str (h_auth host);
  r_secret_ref := h_secret_ref host;
  r_key_path := h_key_path host;
  r_term := o_term (h_overrides host);
  r_keepalive_secs := o_keepalive_secs (h_overrides host);
  r_keepalive_max := o_keepalive_max (h_overrides host);
  r_connect_timeout_secs := o_connect_timeout_secs (h_overrides host);
  r_window_size := o_window_size (h_overrides host);
  r_reconnect_enabled := bool_to_i64 <$> o_reconnect_enabled (h_overrides host);
  r_reconnect_max_attempts := o_reconnect_max_attempts (h_overrides host);
  r_proxy_jump := h_proxy_jump host;
  r_source := HostSource_as_str (h_source host);
  r_source_alias := h_source_alias host;
  r_color := h_color host;
  r_notes := h_notes host;
  r_last_connected_at := r_last_connected_at old;
  r_connect_count := r_connect_count old;
  r_created_at := r_created_at old;
  r_updated_at := now;
  r_auth_fallbacks := encode_auth_fallbacks (h_auth_fallbacks host)
|}.

Definition moved_row (to : option FolderId) (now : Z) (r : HostRow) : HostRow :=
  MkHostRow to (r_name r) (r_hostname r) (r_port r) (r_username r) (r_auth_method r)
    (r_secret_ref r) (r_key_path r) (r_term r) (r_keepalive_secs r) (r_keepalive_max r)
    (r_connect_timeout_secs r) (r_window_size r) (r_reconnect_enabled r)
    (r_reconnect_max_attempts r) (r_proxy_jump r) (r_source r) (r_source_alias r)
    (r_color r) (r_notes r) (r_last_connected_at r) (r_connect_count r) (r_created_at r)
    now (r_auth_fallbacks r).

Definition connected_row (at_ : Z) (r : HostRow) : HostRow :=
  MkHostRow (r_folder_id r) (r_name r) (r_hostname r) (r_port r) (r_username r) (r_auth_method r)
    (r_secret_ref r) (r_key_path r) (r_term r) (r_keepalive_secs r) (r_keepalive_max r)
    (r_connect_timeout_secs r) (r_window_size r) (r_reconnect_enabled r)
    (r_reconnect_max_attempts r) (r_proxy_jump r) (r_source r) (r_source_alias r)
    (r_color r) (r_notes r) (Some at_) (r_connect_count r + 1) (r_created_at r)
    (r_updated_at r) (r_auth_fallbacks r).

(** * Search *)

Definition percent : char := ch "%".
Definition underscore : char := ch "_".
Definition backslash : char := 92%N.

Definition escape_char (c : char) : str :=
  if decide (c ∈ [percent; underscore; backslash]) then [backslash; c] else [c].
Definition escape_like (input : str) : str := input ≫= escape_char.

(** [x LIKE pattern ESCAPE '\'] of SQLite: [%] is any run, [_] any one
    character, the rest compares without ASCII case. *)
Fixpoint suffixes (s : str) : list str :=
  s :: match s with [] => [] | _ :: s' => suffixes s' end.
Fixpoint like (pattern text : str) : bool :=
  match pattern with
  | [] => match text with [] => true | _ => false end
  | c :: p =>
      if (c =? percent)%N then existsb (like p) (suffixes text)
      else if (c =? backslash)%N then
        match p with
        | [] => false
        | e :: p' =>
            match text with
            | [] => false
            | d :: text' => (ascii_lower e =? ascii_lower d)%N && like p' text'
            end
        end
      else match text with
           | [] => false
           | d :: text' =>
               ((c =? underscore) || (ascii_lower c =? ascii_lower d))%N && like p text'
           end
  end.

(** [?*] markers become [?1], [?2], ... *)
Definition qmark : char := ch "?".
Definition asterisk : char := ch "*".
Fixpoint number_from (n : nat) (sql : str) : str :=
  match sql with
  | [] => []
  | c :: rest =>
      match rest with
      | d :: rest' =>
          if ((c =? qmark) && (d =? asterisk))%N
          then qmark :: show_nat (S n) ++ number_from (S n) rest'
          else c :: number_from n rest
      | [] => [c]
      end
  end.
Definition number_placeholders (sql : str) : str := number_from 0 sql.

(** The clauses [list] appends and the values it binds for them. *)
Inductive clause :=
  | NameLike (pattern : str)
  | InFolder (folder : FolderId)
  | HasTag (tag : TagId).

Inductive sql_value := SqlText (s : str) | SqlInt (z : Z).

Definition is_blank (q : str) : bool := match trim q with [] => true | _ => false end.

Definition query_clause (query : option str) : list clause :=
  match query with
  | Some q => if is_blank q then [] else [NameLike (percent :: escape_like (trim q) ++ [percent])]
  | None => []
  end.
Definition clauses (f : HostFilter) : list clause :=
  query_clause (q_query f) ++ (InFolder <$> option_list (q_folder_id f)) ++ (HasTag <$> q_tag_ids f).

Definition clause_sql (c : clause) : str :=
  match c with
  | NameLike _ => #" AND (name LIKE ?* ESCAPE '\' OR hostname LIKE ?* ESCAPE '\' OR username LIKE ?* ESCAPE '\')"
  | InFolder _ => #" AND folder_id = ?*"
  | HasTag _ => #" AND EXISTS (SELECT 1 FROM host_tags ht WHERE ht.host_id = hosts.id AND ht.tag_id = ?*)"
  end.
Definition clause_args (c : clause) : list sql_value :=
  match c with
  | NameLike p => [SqlText p; SqlText p; SqlText p]
  | InFolder f => [SqlInt f]
  | HasTag t => [SqlInt t]
  end.

Definition HOST_COLUMNS : str :=
  #"id, folder_id, name, hostname, port, username, auth_method, secret_ref, key_path, term, keepalive_secs, keepalive_max, connect_timeout_secs, window_size, reconnect_enabled, reconnect_max_attempts, proxy_jump, source, source_alias, color, notes, last_connected_at, connect_count, created_at, updated_at, auth_fallbacks".

(** The statement [list] prepares and its parameters, in order. *)
Definition list_sql (f : HostFilter) : str * list sql_value :=
  let text := #"SELECT " ++ HOST_COLUMNS ++ #" FROM hosts WHERE 1 = 1" ++
              concat (clause_sql <$> clauses f) ++
              #" ORDER BY last_connected_at DESC NULLS LAST, name COLLATE NOCASE ASC" in
  let values := concat (clause_args <$> clauses f) in
  match q_limit f with
  | Some limit => (number_placeholders (text ++ #" LIMIT ?*"), values ++ [SqlInt limit])
  | None => (number_placeholders text, values)
  end.

Definition run_clause (d : Db) (c : clause) (kv : Z * HostRow) : bool :=
  match c with
  | NameLike p => like p (r_name kv.2) || like p (r_hostname kv.2) || like p (r_username kv.2)
  | InFolder f => bool_decide (r_folder_id kv.2 = Some f)
  | HasTag t => bool_decide ((kv.1, t) ∈ host_tags d)
  end.

(** ORDER BY last_connected_at DESC NULLS LAST, name COLLATE NOCASE ASC. *)
Definition host_le (a b : Z * HostRow) : Prop :=
  match r_last_connected_at a.2, r_last_connected_at b.2 with
  | Some x, Some y => (y < x)%Z ∨ x = y ∧ str_le (nocase (r_name a.2)) (nocase (r_name b.2)) = true
  | Some _, None => True
  | None, Some _ => False
  | None, None => str_le (nocase (r_name a.2)) (nocase (r_name b.2)) = true
  end.
#[export] Instance host_le_dec a b : Decision (host_le a b).
Proof. unfold host_le. repeat case_match; apply _. Defined.

(** [rows.collect::<Result<Vec<_>>>()]. *)
Fixpoint collect {E A B} (f : A → result E B) (l : list A) : result E (list B) :=
  match l with
  | [] => Ok []
  | x :: l => y ← f x; ys ← collect f l; Ok (y :: ys)
  end.

Section hosts.
Context `{Engine}.

Definition insert_host (draft : NewHost) (ts : Z) (d : Db) : result sqlite_error (Z * Db) :=
  let id := fresh_rowid (dom (hosts d)) in
  d ← write_host id (new_row draft ts) d;
  Ok (id, d).

Definition create_host_row (draft : NewHost) (now : Z) : M HostId :=
  lock;; execute (insert_host draft now).

Definition read_host (d : Db) (kv : Z * HostRow) : result StoreError Host :=
  h ← map_err Sqlite (row_to_host kv.1 kv.2);
  Ok (with_tags h (tags_for d (h_id h))).

Definition get_host (id : HostId) : M (option Host) :=
  lock;;
  found ← query (λ d, (λ r, read_host d (id, r)) <$> hosts d !! id);
  match found with
  | Some host => h ← of_result host; mret (Some h)
  | None => mret None
  end.

Definition matching (f : HostFilter) (d : Db) : list (Z * HostRow) :=
  merge_sort host_le (filter (λ kv, forallb (λ c, run_clause d c kv) (clauses f)) (scan (hosts d))).

Definition limited {A} (limit : option Z) (l : list A) : list A :=
  match limit with Some n => take (Z.to_nat n) l | None => l end.

Definition list_hosts (f : HostFilter) : M (list Host) :=
  lock;;
  found ← query (λ d, collect (read_host d) (limited (q_limit f) (matching f d)));
  of_result found.

Definition update_host_row (host : Host) (now : Z) : M () :=
  lock;;
  changed ← execute (λ d, update_row (hosts d) (h_id host) (updated_row host now) write_host d);
  or_not_found EHost (h_id host) changed.

Definition delete_host (id : HostId) : M () :=
  lock;;
  changed ← execute (λ d, delete_row (hosts d) id delete_host_row d);
  or_not_found EHost id changed.

Definition move_to_folder (id : HostId) (to : option FolderId) (now : Z) : M () :=
  lock;;
  changed ← execute (λ d, update_row (hosts d) id (moved_row to now) write_host d);
  or_not_found EHost id changed.

(** One transaction: the first failing insertion rolls everything back. *)
Fixpoint insert_tags (id : HostId) (ts : list TagId) (d : Db) : result sqlite_error Db :=
  match ts with
  | [] => Ok d
  | t :: ts => d ← insert_host_tag id t d; insert_tags id ts d
  end.
Definition replace_tags (id : HostId) (ts : list TagId) (d : Db) : result sqlite_error (() * Db) :=
  d ← insert_tags id ts (set_host_tags (filter (λ p, p.1 ≠ id) (host_tags d)) d);
  Ok ((), d).
Definition set_tags (id : HostId) (ts : list TagId) : M () :=
  lock;; execute (replace_tags id ts).

Definition record_connection (id : HostId) (at_ : Z) : M () :=
  lock;;
  changed ← execute (λ d, update_row (hosts d) id (connected_row at_) write_host d);
  mret ().

Definition find_by_source_alias (alias : str) : M (option Host) :=
  lock;;
  found ← query (λ d,
    (read_host d) <$> find_first (λ kv, bool_decide
      (r_source kv.2 = #"ssh_config" ∧ r_source_alias kv.2 = Some alias)) (scan (hosts d)));
  match found with
  | Some host => h ← of_result host; mret (Some h)
  | None => mret None
  end.
End hosts.

(** * Searching for what the user typed *)

Lemma suffixes_elem x s : x ∈ suffixes s ↔ ∃ a, s = a ++ x.
Proof.
  induction s as [|c s IH]; simpl.
  - rewrite list_elem_of_singleton. split; [intros ->; by exists []|].
    intros [a Ha]. symmetry in Ha. by apply app_nil in Ha as [_ ->].
  - rewrite elem_of_cons, IH. split.
    + intros [->|[a ->]]; [by exists []|by exists (c :: a)].
    + intros [[|d a] Ha]; [by left|]. injection Ha as -> ->. right. eauto.
Qed.

Lemma existsb_suffixes f s : existsb f (suffixes s) = true ↔ ∃ a b, s = a ++ b ∧ f b = true.
Proof.
  rewrite existsb_exists. setoid_rewrite <- list_elem_of_In. setoid_rewrite suffixes_elem.
  naive_solver.
Qed.

(** One escaped character matches itself, whatever its case. *)
Lemma like_escape_char c rest s :
  like (escape_char c ++ rest) s =
  match s with
  | [] => false
  | d :: s' => (ascii_lower c =? ascii_lower d)%N && like rest s'
  end.
Proof.
  unfold escape_char. case_decide as Hc.
  - done.
  - apply not_elem_of_cons in Hc as [Hp [Hu [Hb _]%not_elem_of_cons]%not_elem_of_cons].
    simpl. apply N.eqb_neq in Hp, Hu, Hb. rewrite Hp, Hb. destruct s; [done|]. by rewrite Hu.
Qed.

Lemma like_escape q rest s :
  like (escape_like q ++ rest) s = true ↔
  ∃ a b, s = a ++ b ∧ nocase a = nocase q ∧ like rest b = true.
Proof.
  revert s. induction q as [|c q IH]; intros s.
  - simpl. split; [by exists [], s|]. intros (a & b & -> & Ha & Hb).
    apply fmap_nil_inv in Ha as ->. done.
  - unfold escape_like. cbn [mbind list_bind]. fold (escape_like q).
    rewrite <- app_assoc, like_escape_char. destruct s as [|d s].
    { split; [done|]. intros (a & b & Hs & Ha & _). symmetry in Hs.
      apply app_nil in Hs as [-> _]. done. }
    rewrite andb_true_iff, N.eqb_eq, IH. split.
    + intros (Hd & a & b & -> & Ha & Hb). exists (d :: a), b. simpl. by rewrite Hd, Ha.
    + intros ([|e a] & b & Hs & Ha & Hb); [done|]. injection Hs as -> ->.
      injection Ha as He Ha. eauto 6.
Qed.

Lemma like_contains q s :
  like (percent :: escape_like q ++ [percent]) s = contains (nocase q) (nocase s).
Proof.
  apply eq_bool_prop_intro. rewrite !Is_true_true. cbn [like]. rewrite N.eqb_refl.
  rewrite existsb_suffixes, contains_spec. setoid_rewrite like_escape. split.
  - intros (a & ? & -> & b & c & -> & Hb & _). exists (nocase a), (nocase c).
    unfold nocase in *. by rewrite !fmap_app, Hb.
  - intros (a & b & Hs). unfold nocase in *.
    apply fmap_app_inv in Hs as (a' & s' & _ & Hs & ->).
    symmetry in Hs. apply fmap_app_inv in Hs as (q' & b' & Hq & _ & ->).
    exists a', (q' ++ b'). split; [done|]. exists q', b'. split_and!; [done..|].
    simpl. apply existsb_suffixes. exists b', []. by rewrite app_nil_r.
Qed.

(** The LIKE pattern [list] builds from what the user typed finds
    exactly the texts that contain it, without ASCII case: [%], [_] and the
    backslash are ordinary characters. *)
Theorem search_is_literal q s :
  like (percent :: escape_like q ++ [percent]) s = contains (nocase q) (nocase s).
Proof. apply like_contains. Qed.

(** The pieces of a statement with their markers put back in. *)
Fixpoint with_markers (pieces : list str) : str :=
  match pieces with
  | [] => []
  | [p] => p
  | p :: ps => p ++ [qmark; asterisk] ++ with_markers ps
  end.
Fixpoint with_numbers (n : nat) (pieces : list str) : str :=
  match pieces with
  | [] => []
  | [p] => p
  | p :: ps => p ++ qmark :: show_nat (S n) ++ with_numbers (S n) ps
  end.

Lemma number_from_skip n c rest : c ≠ qmark → number_from n (c :: rest) = c :: number_from n rest.
Proof. intros Hc%N.eqb_neq. destruct rest; cbn [number_from]; [done|]. by rewrite Hc. Qed.

Lemma number_from_piece n p rest :
  qmark ∉ p → number_from n (p ++ rest) = p ++ number_from n rest.
Proof.
  induction p as [|c p IH]; intros Hp; [done|]. apply not_elem_of_cons in Hp as [Hc Hp].
  rewrite <- !app_comm_cons, number_from_skip by done. by rewrite IH.
Qed.

(** The [n]th marker of a statement becomes [?n], and nothing else of
    its text changes. *)
Theorem number_placeholders_spec pieces :
  Forall (λ p, qmark ∉ p) pieces →
  number_placeholders (with_markers pieces) = with_numbers 0 pieces.
Proof.
  unfold number_placeholders. generalize 0. intros n Hp. revert n.
  induction Hp as [|p ps Hp Hps IH]; intros n; [done|]. destruct ps as [|p' ps].
  - simpl. rewrite <- (app_nil_r p) at 1. rewrite number_from_piece by done. by rewrite app_nil_r.
  - change (with_markers (p :: p' :: ps)) with (p ++ qmark :: asterisk :: with_markers (p' :: ps)).
    rewrite number_from_piece by done. cbn [number_from]. rewrite !N.eqb_refl. cbn [andb].
    by rewrite IH.
Qed.

Lemma number_placeholders_spec_witness :
  number_placeholders #"a = ?* AND b = ?*" = #"a = ?1 AND b = ?2".
Proof.
  apply (number_placeholders_spec [ #"a = "; #" AND b = "; []]).
  by apply (bool_decide_unpack _).
Defined.

(** * Rows and records *)

Lemma get_opt_u32_ok n o : opt_u32 o → get_opt_u32 n o = Ok o.
Proof.
  destruct o as [z|]; [|done]. intros Hz. simpl. specialize (Hz z eq_refl).
  destruct Hz as [H1 H2]. apply Z.leb_le in H1, H2. by rewrite H1, H2.
Qed.

Lemma get_u16_ok n z : in_u16 z → get_u16 n z = Ok z.
Proof. intros [H1 H2]. unfold get_u16. apply Z.leb_le in H1, H2. by rewrite H1, H2. Qed.

Lemma get_i64_ok n z : (z ≤ i64_max)%Z → get_i64 n z = Ok z.
Proof. intros Hz. unfold get_i64. apply Z.leb_le in Hz. by rewrite Hz. Qed.

(** A well-formed row reads back. *)
Lemma row_ok_reads id r :
  row_ok r → (r_connect_count r ≤ i64_max)%Z → ∃ h, row_to_host id r = Ok h.
Proof.
  intros ((Hport & _) & Ha & Hs & ? & ? & ? & ? & ?) Hc. unfold row_to_host.
  rewrite get_u16_ok by (unfold in_u16, u16_max; lia). simpl.
  destruct (AuthKind_try_from _); [|done]. simpl. rewrite !get_opt_u32_ok by done. simpl.
  destruct (HostSource_try_from _); [|done]. simpl. rewrite get_i64_ok by done. simpl. eauto.
Qed.

(** The record a draft becomes. *)
Definition host_of_draft (id : HostId) (n : NewHost) (ts : Z) : Host :=
  MkHost id (n_folder_id n) (n_name n) (n_hostname n) (n_port n) (n_username n) (n_auth n)
    (n_auth_fallbacks n) (n_secret_ref n) (n_key_path n) (n_overrides n) (n_proxy_jump n)
    (n_source n) (n_source_alias n) (n_color n) (n_notes n) None 0 ts ts [].

Lemma bool_column (o : option bool) :
  (λ v, negb (v =? 0)%Z) <$> (bool_to_i64 <$> o) = o.
Proof. by destruct o as [[]|]. Qed.

Lemma new_row_reads id n ts :
  new_host_wf n → row_to_host id (new_row n ts) = Ok (host_of_draft id n ts).
Proof.
  intros (Hp & ? & ? & ? & ? & ?). unfold row_to_host, new_row. simpl.
  rewrite get_u16_ok by done. simpl. rewrite AuthKind_roundtrip. simpl.
  rewrite !get_opt_u32_ok by done. simpl. rewrite HostSource_roundtrip. simpl.
  rewrite bool_column, fallbacks_roundtrip. unfold host_of_draft. by destruct (n_overrides n).
Qed.

(** The record an updated row reads as: the written one, with the columns
    UPDATE leaves alone. *)
Definition host_updated (h : Host) (old : HostRow) (now : Z) (ts : list TagId) : Host :=
  MkHost (h_id h) (h_folder_id h) (h_name h) (h_hostname h) (h_port h) (h_username h) (h_auth h)
    (h_auth_fallbacks h) (h_secret_ref h) (h_key_path h) (h_overrides h) (h_proxy_jump h)
    (h_source h) (h_source_alias h) (h_color h) (h_notes h) (r_last_connected_at old)
    (r_connect_count old) (r_created_at old) now ts.

Lemma updated_row_reads h old now :
  host_wf h → (r_connect_count old ≤ i64_max)%Z →
  row_to_host (h_id h) (updated_row h now old) = Ok (host_updated h old now []).
Proof.
  intros (Hp & ? & ? & ? & ? & ?) Hc. unfold row_to_host, updated_row. simpl.
  rewrite get_u16_ok by done. simpl. rewrite AuthKind_roundtrip. simpl.
  rewrite !get_opt_u32_ok by done. simpl. rewrite HostSource_roundtrip. simpl.
  rewrite get_i64_ok by done. simpl.
  rewrite bool_column, fallbacks_roundtrip. unfold host_updated. by destruct (h_overrides h).
Qed.

(** What a row reads as is in range. *)
Lemma row_reads_wf id r h : row_ok r → row_to_host id r = Ok h → host_wf h.
Proof.
  intros (Hc & _ & _ & H1 & H2 & H3 & H4 & H5) Hr. unfold row_to_host in Hr.
  repeat (apply result_bind_Ok in Hr as (? & ? & Hr)). injection Hr as <-.
  repeat match goal with
  | H : get_u16 _ _ = Ok _ |- _ => unfold get_u16 in H; case_match; [|done]
  | H : get_opt_u32 _ _ = Ok _ |- _ => rewrite get_opt_u32_ok in H by done; injection H as <-
  end.
  simplify_eq. split; [|done]. destruct Hc as [Hc _]. unfold in_u16, u16_max in *. simpl. lia.
Qed.

(** The history a row carries. *)
Lemma row_reads_history id r h :
  row_to_host id r = Ok h →
  h_id h = id ∧ h_last_connected_at h = r_last_connected_at r ∧
  h_connect_count h = r_connect_count r ∧ h_created_at h = r_created_at r ∧
  (r_connect_count r ≤ i64_max)%Z.
Proof.
  intros Hr. unfold row_to_host in Hr. repeat (apply result_bind_Ok in Hr as (? & ? & Hr)).
  injection Hr as <-.
  repeat match goal with H : get_i64 _ _ = Ok _ |- _ => unfold get_i64 in H; case_match; [|done] end.
  simplify_eq. split_and!; try done. by apply Z.leb_le.
Qed.

Lemma bool_to_i64_01 b : bool_to_i64 b = 0%Z ∨ bool_to_i64 b = 1%Z.
Proof. destruct b; auto. Qed.

Lemma new_row_ok n ts : new_host_wf n → host_check (new_row n ts) → row_ok (new_row n ts).
Proof.
  intros (Hp & ? & ? & ? & ? & ?) Hc. split_and!; try done; simpl.
  - by rewrite AuthKind_roundtrip.
  - by rewrite HostSource_roundtrip.
Qed.

Lemma updated_row_ok h now old :
  host_wf h → host_check (updated_row h now old) → row_ok (updated_row h now old).
Proof.
  intros (Hp & ? & ? & ? & ? & ?) Hc. split_and!; try done; simpl.
  - by rewrite AuthKind_roundtrip.
  - by rewrite HostSource_roundtrip.
Qed.

(** A draft in range passes every CHECK but, perhaps, the one on the port. *)
Lemma new_row_check n ts : new_host_wf n → host_check (new_row n ts) ↔ n_port n ≠ 0%Z.
Proof.
  intros ([Hp1 Hp2] & Hk & _). unfold host_check, new_row, u16_max in *. simpl.
  split; [lia|]. intros Hne. split; [lia|]. split.
  - destruct (o_keepalive_secs _) as [k|]; [|done]. by destruct (Hk k eq_refl).
  - destruct (o_reconnect_enabled _) as [b|]; [|done]. apply bool_to_i64_01.
Qed.

Lemma updated_row_check h now old :
  host_wf h → host_check (updated_row h now old) ↔ h_port h ≠ 0%Z.
Proof.
  intros ([Hp1 Hp2] & Hk & _). unfold host_check, updated_row, u16_max in *. simpl.
  split; [lia|]. intros Hne. split; [lia|]. split.
  - destruct (o_keepalive_secs _) as [k|] eqn:E; [|done]. by destruct (Hk k eq_refl).
  - destruct (o_reconnect_enabled _) as [b|]; [|done]. apply bool_to_i64_01.
Qed.

(** * Every method keeps the invariant *)
Section keeps.
Context `{Engine}.

Lemma create_host_row_keeps n now : new_host_wf n → keeps (create_host_row n now).
Proof.
  intros Hn. unfold create_host_row. keeps_steps. intros Hd.
  unfold insert_host. intros (d1 & Hw & [= <- <-])%result_bind_Ok.
  eapply write_host_ok; [done| |done]. apply new_row_ok; [done|].
  by apply write_host_Ok in Hw as [? _].
Qed.

Lemma get_host_keeps id : keeps (get_host id).
Proof. unfold get_host. keeps_steps. Qed.
Lemma list_hosts_keeps f : keeps (list_hosts f).
Proof. unfold list_hosts. keeps_steps. Qed.
Lemma find_by_source_alias_keeps a : keeps (find_by_source_alias a).
Proof. unfold find_by_source_alias. keeps_steps. Qed.

Lemma update_host_ok id f d d' n :
  db_ok d → (∀ r, hosts d !! id = Some r → host_check (f r) → row_ok (f r)) →
  update_row (hosts d) id f write_host d = Ok (n, d') → db_ok d'.
Proof.
  intros Hd Hf. unfold update_row. destruct (hosts d !! id) as [r|] eqn:Hr; [|by intros [= <- <-]].
  intros (d1 & Hw & [= <- <-])%result_bind_Ok. eapply write_host_ok; [done| |done].
  apply Hf; [done|]. by apply write_host_Ok in Hw as [? _].
Qed.

Lemma update_host_row_keeps h now : host_wf h → keeps (update_host_row h now).
Proof.
  intros Hh. unfold update_host_row. keeps_steps. intros Hd. apply update_host_ok; [done|].
  intros r Hr. by apply updated_row_ok.
Qed.

Lemma move_to_folder_keeps id to now : keeps (move_to_folder id to now).
Proof.
  unfold move_to_folder. keeps_steps. intros Hd. apply update_host_ok; [done|].
  intros r Hr _. apply (ok_rows d Hd id r Hr).
Qed.

Lemma record_connection_keeps id at_ : keeps (record_connection id at_).
Proof.
  unfold record_connection. keeps_steps. intros Hd. apply update_host_ok; [done|].
  intros r Hr _. apply (ok_rows d Hd id r Hr).
Qed.

Lemma delete_host_keeps id : keeps (delete_host id).
Proof.
  unfold delete_host. keeps_steps. intros Hd. unfold delete_row.
  destruct (hosts d !! id); [|by intros [= <- <-]]. intros [= <- <-]. by apply delete_host_row_ok.
Qed.

Lemma insert_tags_ok id ts d d' : db_ok d → insert_tags id ts d = Ok d' → db_ok d'.
Proof.
  revert d. induction ts as [|t ts IH]; intros d Hd; simpl; [by intros [= <-]|].
  intros (d1 & H1 & H2)%result_bind_Ok. eapply IH; [|done]. by eapply insert_host_tag_ok.
Qed.

Lemma set_tags_keeps id ts : keeps (set_tags id ts).
Proof.
  unfold set_tags. keeps_steps. intros Hd.
  intros (d1 & H1 & [= _ <-])%result_bind_Ok. eapply insert_tags_ok; [|done].
  apply set_host_tags_sub_ok; [|done]. intros p Hp%elem_of_filter. tauto.
Qed.
End keeps.

(** * Creating, reading and updating *)
Section repo.
Context `{Engine}.

Lemma read_run (o : option (result StoreError Host)) s :
  match o with Some r => h ← of_result r; mret (Some h) | None => mret (M := M) None end s =
  match o with
  | Some (Ok h) => (Ok (Some h), s)
  | Some (Err e) => (Err e, s)
  | None => (Ok None, s)
  end.
Proof. destruct o as [[h|e]|]; done. Qed.

Lemma get_host_run id s :
  poisoned s = false →
  get_host id s =
  match hosts (db s) !! id with
  | Some r => match read_host (db s) (id, r) with Ok h => (Ok (Some h), s) | Err e => (Err e, s) end
  | None => (Ok None, s)
  end.
Proof.
  intros Hp. unfold get_host. rewrite M_bind_eq. unfold lock. rewrite Hp, M_bind_eq.
  unfold query. rewrite read_run. by destruct (hosts (db s) !! id).
Qed.

Lemma tags_for_elem d id t : t ∈ tags_for d id ↔ (id, t) ∈ host_tags d.
Proof.
  unfold tags_for. rewrite merge_sort_Permutation, list_elem_of_fmap.
  setoid_rewrite elem_of_elements. setoid_rewrite elem_of_filter. split.
  - intros ([i t'] & -> & [Hi ?]). simpl in *. by subst i.
  - intros ?. by exists (id, t).
Qed.

Lemma tags_for_fresh d id : db_ok d → hosts d !! id = None → tags_for d id = [].
Proof.
  intros Hd Hid. apply elem_of_nil_inv. intros t Ht%tags_for_elem%(ok_host_tags d Hd).
  destruct Ht as [Ht _]. rewrite Hid in Ht. by destruct Ht.
Qed.

Lemma create_host_row_run n now s :
  poisoned s = false →
  let id := fresh_rowid (dom (hosts (db s))) in
  create_host_row n now s =
  match write_host id (new_row n now) (db s) with
  | Ok d => (Ok id, MkStore false d)
  | Err e => (Err (Sqlite e), s)
  end.
Proof.
  intros Hp id. unfold create_host_row. rewrite M_bind_eq. unfold lock. rewrite Hp.
  unfold execute, insert_host. fold id. rewrite Hp.
  by destruct (write_host id (new_row n now) (db s)).
Qed.

(** What [create] leaves behind. *)
Lemma create_get n now s id s' :
  db_ok (db s) → poisoned s = false → new_host_wf n →
  create_host_row n now s = (Ok id, s') →
  hosts (db s) !! id = None ∧ poisoned s' = false ∧
  get_host id s' = (Ok (Some (host_of_draft id n now)), s') ∧
  ∀ j, j ≠ id → hosts (db s') !! j = hosts (db s) !! j.
Proof.
  intros Hs Hp Hn. rewrite create_host_row_run by done. simpl.
  set (new := fresh_rowid _). destruct (write_host _ _ _) as [d|] eqn:Hw; [|done].
  intros [= <- <-]. apply write_host_Ok in Hw as (_ & _ & _ & ->).
  assert (hosts (db s) !! new = None) as Hnew by apply not_elem_of_dom, fresh_rowid_fresh.
  split_and!; [done|done| |].
  - rewrite get_host_run by done. cbn [db set_hosts hosts]. rewrite lookup_insert_eq.
    unfold read_host. cbn [fst snd]. rewrite new_row_reads by done.
    cbn [mbind result_bind map_err h_id host_of_draft].
    change (tags_for _ new) with (tags_for (db s) new). by rewrite tags_for_fresh by done.
  - intros j Hj. cbn. by rewrite lookup_insert_ne.
Qed.

(** A created host reads back field for field: what the draft said, with
    the store's id and timestamps, no connections and no tags, and no other
    host is touched. *)
Theorem create_get_roundtrip n now s id s' :
  db_ok (db s) → poisoned s = false → new_host_wf n →
  create_host_row n now s = (Ok id, s') →
  hosts (db s) !! id = None ∧
  get_host id s' = (Ok (Some (host_of_draft id n now)), s') ∧
  ∀ j, j ≠ id → hosts (db s') !! j = hosts (db s) !! j.
Proof. intros Hs Hp Hn Hc. by destruct (create_get _ _ _ _ _ Hs Hp Hn Hc) as (? & _ & ?). Qed.

(** When [create] accepts a draft. *)
Lemma create_host_accepts n now s :
  db_ok (db s) → poisoned s = false → new_host_wf n →
  (∃ id s', create_host_row n now s = (Ok id, s')) ↔
  n_port n ≠ 0%Z ∧
  (∀ a j r, n_source n = SshConfig → n_source_alias n = Some a →
     hosts (db s) !! j = Some r → host_key r ≠ Some a) ∧
  references (folders (db s)) (n_folder_id n).
Proof.
  intros Hs Hp Hn. rewrite create_host_row_run by done. simpl. set (id := fresh_rowid _).
  assert (hosts (db s) !! id = None) as Hid by apply not_elem_of_dom, fresh_rowid_fresh.
  trans (∃ d, write_host id (new_row n now) (db s) = Ok d).
  { destruct (write_host _ _ _); naive_solver. }
  trans (host_check (new_row n now) ∧ host_unique (hosts (db s)) id (new_row n now) ∧
    references (folders (db s)) (n_folder_id n)).
  { setoid_rewrite write_host_Ok. naive_solver. }
  rewrite new_row_check by done. apply and_iff_compat_l, and_iff_compat_r.
  assert (host_key (new_row n now) =
    match n_source n with SshConfig => n_source_alias n | Manual => None end) as Hk.
  { unfold host_key, new_row. simpl. by destruct (n_source n). }
  unfold host_unique. rewrite Hk. split.
  - intros Hu a j r Hsrc Ha Hj. rewrite Hsrc, Ha in Hu.
    destruct (Hu j r Hj) as [->|[?|?]]; [congruence|done|done].
  - intros Hu j r Hj. right. destruct (n_source n) eqn:Hsrc; [by left|].
    destruct (n_source_alias n) as [a|]; [|by left]. right. by eapply Hu.
Qed.

Lemma update_host_row_run h now s :
  poisoned s = false →
  update_host_row h now s =
  match hosts (db s) !! h_id h with
  | Some old =>
      match write_host (h_id h) (updated_row h now old) (db s) with
      | Ok d => (Ok (), MkStore false d)
      | Err e => (Err (Sqlite e), s)
      end
  | None => (Err (NotFound EHost (h_id h)), MkStore false (db s))
  end.
Proof.
  intros Hp. unfold update_host_row. rewrite M_bind_eq. unfold lock. rewrite Hp, M_bind_eq.
  unfold execute, update_row. destruct (hosts (db s) !! h_id h) as [old|]; [|by rewrite Hp].
  rewrite Hp. by destruct (write_host _ _ _).
Qed.

(** What a successful [update] leaves behind. *)
Lemma update_get h now s s' :
  poisoned s = false → host_wf h →
  (∀ j r, hosts (db s) !! j = Some r → (r_connect_count r ≤ i64_max)%Z) →
  update_host_row h now s = (Ok (), s') →
  poisoned s' = false ∧ ∃ old, hosts (db s) !! h_id h = Some old ∧
    get_host (h_id h) s' = (Ok (Some (host_updated h old now (tags_for (db s) (h_id h)))), s') ∧
    db s' = set_hosts (<[h_id h := updated_row h now old]> (hosts (db s))) (db s).
Proof.
  intros Hp Hh Hc. rewrite update_host_row_run by done.
  destruct (hosts (db s) !! h_id h) as [old|] eqn:Hold; [|done].
  destruct (write_host _ _ _) as [d|] eqn:Hw; [|done]. intros [= <-].
  apply write_host_Ok in Hw as (_ & _ & _ & ->). split; [done|]. exists old. split_and!; [done| |done].
  rewrite get_host_run by done. cbn [db set_hosts hosts]. rewrite lookup_insert_eq.
  unfold read_host. cbn [fst snd]. rewrite updated_row_reads by eauto. done.
Qed.

(** [update] replaces the whole record: it reads back as written, except
    for what the store keeps (connection history, creation time, tags) and the
    new update time; a missing host is reported. *)
Theorem update_get_roundtrip h now s :
  db_ok (db s) → poisoned s = false → host_wf h →
  (∀ j r, hosts (db s) !! j = Some r → (r_connect_count r ≤ i64_max)%Z) →
  match update_host_row h now s with
  | (Ok _, s') =>
      ∃ old, hosts (db s) !! h_id h = Some old ∧
        get_host (h_id h) s' =
          (Ok (Some (host_updated h old now (tags_for (db s) (h_id h)))), s') ∧
        (∀ j, j ≠ h_id h → hosts (db s') !! j = hosts (db s) !! j)
  | (Err e, s') =>
      db s' = db s ∧ (e = NotFound EHost (h_id h) ↔ hosts (db s) !! h_id h = None)
  end.
Proof.
  intros Hs Hp Hh Hc. pose proof (update_get h now s) as Hok.
  destruct (update_host_row h now s) as [[[]|e] s'] eqn:Hu.
  - destruct (Hok s' Hp Hh Hc eq_refl) as (_ & old & Hold & Hg & Hdb). exists old.
    split_and!; [done..|]. intros j Hj. rewrite Hdb. cbn. by rewrite lookup_insert_ne.
  - revert Hu. rewrite update_host_row_run by done.
    destruct (hosts (db s) !! h_id h) as [old|] eqn:Hold; [|by intros [= <- <-]].
    destruct (write_host _ _ _); [done|]. by intros [= <- <-].
Qed.
End repo.

(** A store with one imported host. *)
Definition sample_draft : NewHost :=
  MkNewHost None #"web" #"web.example" 2222 #"ops" KeyFile [Agent; Password] None
    (Some #"/k") (MkOverrides None (Some 30%Z) None None None (Some false) None) None
    SshConfig (Some #"web") None None.
Definition sample_hosts : Store :=
  snd ((create_host_row (H := sqlite_max_rowid) sample_draft 7) (MkStore false empty_db)).

Lemma sample_draft_wf : new_host_wf sample_draft.
Proof.
  unfold new_host_wf, overrides_wf, opt_u32, in_u16, in_u32, u16_max, u32_max. simpl.
  split; [lia|]. split_and!; intros z; naive_solver lia.
Qed.
Lemma sample_hosts_ok : db_ok (db sample_hosts).
Proof. apply create_host_row_keeps; [apply sample_draft_wf|apply empty_db_ok]. Qed.

Lemma create_get_roundtrip_witness :
  let e := sqlite_max_rowid in
  hosts empty_db !! 1%Z = None ∧
  get_host 1 sample_hosts = (Ok (Some (host_of_draft 1 sample_draft 7)), sample_hosts) ∧
  ∀ j, j ≠ 1%Z → hosts (db sample_hosts) !! j = hosts empty_db !! j.
Proof.
  intros e. apply (create_get_roundtrip sample_draft 7 (MkStore false empty_db) 1 sample_hosts).
  - apply empty_db_ok.
  - reflexivity.
  - apply sample_draft_wf.
  - by vm_compute.
Defined.

Lemma update_get_roundtrip_witness :
  let h := host_of_draft 1 sample_draft 3 in
  match update_host_row h 9 sample_hosts with
  | (Ok _, s') =>
      ∃ old, hosts (db sample_hosts) !! 1%Z = Some old ∧
        get_host 1 s' = (Ok (Some (host_updated h old 9 (tags_for (db sample_hosts) 1))), s') ∧
        (∀ j, j ≠ 1%Z → hosts (db s') !! j = hosts (db sample_hosts) !! j)
  | (Err e, s') =>
      db s' = db sample_hosts ∧ (e = NotFound EHost 1 ↔ hosts (db sample_hosts) !! 1%Z = None)
  end.
Proof.
  intros h. apply (update_get_roundtrip h 9 sample_hosts).
  - apply sample_hosts_ok.
  - reflexivity.
  - apply sample_draft_wf.
  - apply (map_Forall_lookup (λ _ r, (r_connect_count r ≤ i64_max)%Z)).
    apply (bool_decide_unpack _). by vm_compute.
Defined.

(** * Listing *)

#[export] Instance host_le_total : Total host_le.
Proof.
  intros a b. unfold host_le.
  pose proof (str_le_total (nocase (r_name a.2)) (nocase (r_name b.2))) as Hn.
  destruct (r_last_connected_at a.2) as [x|], (r_last_connected_at b.2) as [y|]; auto.
  destruct (Z.lt_trichotomy x y) as [?|[->|?]]; destruct Hn; auto.
Qed.

#[export] Instance host_le_trans : Transitive host_le.
Proof.
  intros a b c. unfold host_le. destruct (r_last_connected_at a.2) as [x|],
    (r_last_connected_at b.2) as [y|], (r_last_connected_at c.2) as [z|]; try done.
  - intros [?|[-> ?]] [?|[-> ?]]; auto; [left; lia|]. right. split; [done|].
    by eapply str_le_trans.
  - apply str_le_trans.
Qed.

(** What a [HostFilter] promises of a row. *)
Definition accepts (f : HostFilter) (d : Db) (id : Z) (r : HostRow) : Prop :=
  (∀ q, q_query f = Some q → trim q ≠ [] →
     contains (nocase (trim q)) (nocase (r_name r)) = true ∨
     contains (nocase (trim q)) (nocase (r_hostname r)) = true ∨
     contains (nocase (trim q)) (nocase (r_username r)) = true) ∧
  (∀ folder, q_folder_id f = Some folder → r_folder_id r = Some folder) ∧
  (∀ t, t ∈ q_tag_ids f → (id, t) ∈ host_tags d).

Lemma query_clause_spec q d id r :
  forallb (λ c, run_clause d c (id, r)) (query_clause q) = true ↔
  ∀ x, q = Some x → trim x ≠ [] →
    contains (nocase (trim x)) (nocase (r_name r)) = true ∨
    contains (nocase (trim x)) (nocase (r_hostname r)) = true ∨
    contains (nocase (trim x)) (nocase (r_username r)) = true.
Proof.
  destruct q as [x|]; simpl; [|done]. unfold is_blank. destruct (trim x) as [|c w] eqn:E.
  - split; [|done]. intros _ y [= <-]. by rewrite E.
  - cbn [forallb run_clause snd]. rewrite !like_contains, andb_true_r, !orb_true_iff. split.
    + intros Hc y [= <-] _. rewrite E. tauto.
    + intros Hc. specialize (Hc x eq_refl). rewrite E in Hc. destruct Hc as [?|[?|?]]; auto.
Qed.

Lemma clauses_spec f d id r :
  forallb (λ c, run_clause d c (id, r)) (clauses f) = true ↔ accepts f d id r.
Proof.
  unfold clauses, accepts. rewrite !forallb_app, !andb_true_iff, query_clause_spec.
  apply and_iff_compat_l.
  assert (forallb (λ c, run_clause d c (id, r)) (InFolder <$> option_list (q_folder_id f)) = true ↔
    ∀ folder, q_folder_id f = Some folder → r_folder_id r = Some folder) as ->.
  { destruct (q_folder_id f) as [x|]; simpl; [|naive_solver].
    rewrite andb_true_r, bool_decide_eq_true. naive_solver. }
  apply and_iff_compat_l. rewrite forallb_forall. setoid_rewrite <- list_elem_of_In.
  setoid_rewrite list_elem_of_fmap. split.
  - intros Ht t Hin. specialize (Ht (HasTag t)). simpl in Ht. rewrite bool_decide_eq_true in Ht.
    apply Ht. eauto.
  - intros Ht c (t & -> & Hin). simpl. apply bool_decide_eq_true. by apply Ht.
Qed.

Lemma collect_Forall2 {E A B} (f : A → result E B) l :
  Forall (λ x, ∃ y, f x = Ok y) l → ∃ ys, collect f l = Ok ys ∧ Forall2 (λ x y, f x = Ok y) l ys.
Proof.
  induction 1 as [|x l [y Hy] _ (ys & Hys & Hall)]; simpl; [by exists []|].
  rewrite Hy. simpl. rewrite Hys. simpl. exists (y :: ys). split; [done|]. by constructor.
Qed.

(** What [matching] finds. *)
Lemma matching_spec `{Engine} f d :
  NoDup (matching f d) ∧ StronglySorted host_le (matching f d) ∧
  ∀ id r, (id, r) ∈ matching f d ↔ hosts d !! id = Some r ∧ accepts f d id r.
Proof.
  split_and!; [|apply (StronglySorted_merge_sort host_le)|].
  - unfold matching. rewrite merge_sort_Permutation. apply NoDup_filter. rewrite scan_perm.
    apply NoDup_map_to_list.
  - intros id r. unfold matching. rewrite merge_sort_Permutation, list_elem_of_filter, scan_perm.
    rewrite elem_of_map_to_list, Is_true_true, clauses_spec. tauto.
Qed.

Lemma collect_limited {E A B} (f : A → result E B) n l ys :
  Forall2 (λ x y, f x = Ok y) l ys → collect f (limited n l) = Ok (limited n ys).
Proof.
  assert (∀ l ys, Forall2 (λ x y, f x = Ok y) l ys → collect f l = Ok ys) as Hall.
  { induction 1 as [|x y xs zs Hx _ IH]; [done|]. simpl. rewrite Hx. simpl. by rewrite IH. }
  intros Hl. apply Hall. destruct n; [by apply Forall2_take|done].
Qed.

(** Every row the filter accepts is read, and the answer is as many of them as
    the limit allows. *)
Lemma list_hosts_run `{Engine} f s :
  db_ok (db s) → poisoned s = false →
  (∀ j r, hosts (db s) !! j = Some r → (r_connect_count r ≤ i64_max)%Z) →
  ∃ hs, Forall2 (λ kv h, read_host (db s) kv = Ok h) (matching f (db s)) hs ∧
    list_hosts f s = (Ok (limited (q_limit f) hs), s).
Proof.
  intros Hs Hp Hc. destruct (matching_spec f (db s)) as (_ & _ & Hin).
  destruct (collect_Forall2 (read_host (db s)) (matching f (db s))) as (hs & _ & Hall).
  { apply Forall_forall. intros [id r] [Hr _]%Hin. unfold read_host.
    destruct (row_ok_reads id r) as [h Hh]; [by apply (ok_rows _ Hs id)|by eapply Hc|].
    cbn [fst snd]. rewrite Hh. simpl. eauto. }
  exists hs. split; [done|]. unfold list_hosts. rewrite M_bind_eq. unfold lock.
  rewrite Hp, M_bind_eq. unfold query. by rewrite (collect_limited _ _ _ hs).
Qed.

(** [list] returns the hosts the filter accepts, all of them or, with a
    limit, the first so many: most recently connected first, never-connected
    last, then by name; every one of them reads back. *)
Theorem list_hosts_spec `{Engine} f s :
  db_ok (db s) → poisoned s = false →
  (∀ j r, hosts (db s) !! j = Some r → (r_connect_count r ≤ i64_max)%Z) →
  ∃ rows hs,
    list_hosts f s = (Ok hs, s) ∧
    Forall2 (λ kv h, read_host (db s) kv = Ok h) (limited (q_limit f) rows) hs ∧
    NoDup rows ∧ StronglySorted host_le rows ∧
    ∀ id r, (id, r) ∈ rows ↔ hosts (db s) !! id = Some r ∧ accepts f (db s) id r.
Proof.
  intros Hs Hp Hc. destruct (list_hosts_run f s Hs Hp Hc) as (hs & Hall & Hrun).
  exists (matching f (db s)), (limited (q_limit f) hs).
  split_and!; [done| |apply matching_spec..].
  destruct (q_limit f); [by apply Forall2_take|done].
Qed.

Lemma list_hosts_spec_witness :
  let e := sqlite_max_rowid in
  let f := MkFilter (Some #" WEB ") None [] (Some 5%Z) in
  ∃ rows hs,
    list_hosts f sample_hosts = (Ok hs, sample_hosts) ∧
    Forall2 (λ kv h, read_host (db sample_hosts) kv = Ok h) (limited (Some 5%Z) rows) hs ∧
    NoDup rows ∧ StronglySorted host_le rows ∧
    ∀ id r, (id, r) ∈ rows ↔ hosts (db sample_hosts) !! id = Some r ∧ accepts f (db sample_hosts) id r.
Proof.
  intros e f. apply (list_hosts_spec f sample_hosts).
  - apply sample_hosts_ok.
  - reflexivity.
  - apply (map_Forall_lookup (λ _ r, (r_connect_count r ≤ i64_max)%Z)).
    apply (bool_decide_unpack _). by vm_compute.
Defined.

(** * Tags of a host *)

Lemma insert_tags_spec id ts d d' :
  insert_tags id ts d = Ok d' ↔
  (ts ≠ [] → is_Some (hosts d !! id)) ∧ Forall (λ t, is_Some (tags d !! t)) ts ∧
  d' = set_host_tags (list_to_set (pair id <$> ts) ∪ host_tags d) d.
Proof.
  revert d. induction ts as [|t ts IH]; intros d; simpl.
  - rewrite Forall_nil. rewrite (left_id_L ∅ (∪)). destruct d; simpl. unfold set_host_tags; simpl.
    naive_solver.
  - rewrite result_bind_Ok, Forall_cons. unfold insert_host_tag. split.
    + intros (d1 & H1 & H2). case_decide as Hd; [|done]. injection H1 as <-.
      apply IH in H2 as (_ & Hts & ->). split_and!; [naive_solver..|].
      unfold set_host_tags. simpl. f_equal. set_solver.
    + intros (Hid & [Ht Hts] & ->). rewrite decide_True by naive_solver.
      eexists. split; [done|]. apply IH. split_and!; [naive_solver|done|].
      unfold set_host_tags. simpl. f_equal. set_solver.
Qed.

(** What [set_tags] does. *)
Lemma set_tags_run id ts s :
  poisoned s = false →
  let can := (ts ≠ [] → is_Some (hosts (db s) !! id)) ∧ Forall (λ t, is_Some (tags (db s) !! t)) ts in
  match set_tags id ts s with
  | (Ok _, s') =>
      can ∧ hosts (db s') = hosts (db s) ∧
      ∀ h t, (h, t) ∈ host_tags (db s') ↔
        (if decide (h = id) then t ∈ ts else (h, t) ∈ host_tags (db s))
  | (Err e, s') => ¬ can ∧ s' = s
  end.
Proof.
  intros Hp can. set (d0 := set_host_tags (filter (λ p, p.1 ≠ id) (host_tags (db s))) (db s)).
  unfold set_tags. rewrite M_bind_eq. unfold lock. rewrite Hp.
  unfold execute, replace_tags. fold d0. destruct (insert_tags id ts d0) as [d'|e] eqn:Hi; simpl.
  - apply insert_tags_spec in Hi as (Hid & Hts & ->). split_and!; [done..|].
    intros h t. cbn. rewrite elem_of_union, elem_of_list_to_set, list_elem_of_fmap, elem_of_filter.
    cbn. case_decide as Hd; [subst h|]; naive_solver.
  - split; [|done]. intros [Hid Hts].
    by rewrite (proj2 (insert_tags_spec id ts d0 _) (conj Hid (conj Hts eq_refl))) in Hi.
Qed.

Lemma set_tags_Ok id ts s s' :
  poisoned s = false → set_tags id ts s = (Ok (), s') →
  hosts (db s') = hosts (db s) ∧ poisoned s' = false ∧
  ∀ t, (id, t) ∈ host_tags (db s') ↔ t ∈ ts.
Proof.
  intros Hp Hs. pose proof (set_tags_run id ts s Hp) as Hrun. rewrite Hs in Hrun.
  destruct Hrun as (_ & Hh & Ht). split_and!; [done| |intros t; specialize (Ht id t); by case_decide].
  revert Hs. unfold set_tags. rewrite M_bind_eq. unfold lock. rewrite Hp. unfold execute.
  destruct (replace_tags _ _ _) as [[[] d]|]; simpl; [|done]. by intros [= <-].
Qed.

(** [set_tags] makes the host's tags exactly the given ones and touches
    no other host; if the host or a tag does not exist, the transaction is
    rolled back and nothing changes. *)
Theorem set_tags_spec id ts s :
  poisoned s = false →
  let can := (ts ≠ [] → is_Some (hosts (db s) !! id)) ∧ Forall (λ t, is_Some (tags (db s) !! t)) ts in
  match set_tags id ts s with
  | (Ok _, s') =>
      can ∧ hosts (db s') = hosts (db s) ∧
      ∀ h t, (h, t) ∈ host_tags (db s') ↔
        (if decide (h = id) then t ∈ ts else (h, t) ∈ host_tags (db s))
  | (Err e, s') => ¬ can ∧ s' = s
  end.
Proof. apply set_tags_run. Qed.

Lemma set_tags_spec_witness :
  let can := ([5%Z] ≠ [] → is_Some (hosts (db sample_hosts) !! 1%Z)) ∧
             Forall (λ t, is_Some (tags (db sample_hosts) !! t)) [5%Z] in
  match set_tags 1 [5%Z] sample_hosts with
  | (Ok _, s') =>
      can ∧ hosts (db s') = hosts (db sample_hosts) ∧
      ∀ h t, (h, t) ∈ host_tags (db s') ↔
        (if decide (h = 1%Z) then t ∈ [5%Z] else (h, t) ∈ host_tags (db sample_hosts))
  | (Err e, s') => ¬ can ∧ s' = sample_hosts
  end.
Proof. by apply (set_tags_spec 1 [5%Z] sample_hosts). Defined.
