(* ===== verification/Tags.v ===== *)
(** * [TagRepo]

    [core-store/src/tags.rs]. *)
From S2P Require Import Prelude Text Model Database StoreInv.

Section tags.
Context `{Engine}.

Definition tag_of (kv : Z * TagRow) : Tag :=
  MkTag kv.1 (tr_name kv.2) (tr_color kv.2) (tr_created_at kv.2).

(** ORDER BY name COLLATE NOCASE. *)
Definition tag_le (a b : Z * TagRow) : Prop :=
  str_le (nocase (tr_name a.2)) (nocase (tr_name b.2)) = true.
#[export] Instance tag_le_dec a b : Decision (tag_le a b).
Proof. unfold tag_le. apply _. Defined.

Definition list_tags : M (list Tag) :=
  lock;; query (λ d, tag_of <$> merge_sort tag_le (scan (tags d))).

(** SELECT id FROM tags WHERE name = ?1 COLLATE NOCASE. *)
Definition tag_named (name : str) (d : Db) : option TagId :=
  fst <$> find_first (λ kv, bool_decide (nocase (tr_name kv.2) = nocase name)) (scan (tags d)).

Definition insert_tag (name : str) (color : option str) (now : Z) (d : Db) :
    result sqlite_error (Z * Db) :=
  let id := fresh_rowid (dom (tags d)) in
  d ← write_tag id (MkTagRow name color now) d;
  Ok (id, d).

Definition get_or_create (name : str) (color : option str) (now : Z) : M TagId :=
  let name := trim name in
  if decide (name = []) then throw (Invalid EmptyTagName)
  else
    lock;;
    existing ← query (tag_named name);
    match existing with
    | Some id => mret id
    | None => execute (insert_tag name color now)
    end.

Definition delete_tag (id : TagId) : M () :=
  lock;;
  changed ← execute (λ d, delete_row (tags d) id delete_tag_row d);
  or_not_found ETag id changed.
End tags.

Section keeps.
Context `{Engine}.

Lemma list_tags_keeps : keeps list_tags.
Proof. unfold list_tags. keeps_steps. Qed.

Lemma get_or_create_keeps name color now : keeps (get_or_create name color now).
Proof.
  unfold get_or_create. keeps_steps. intros Hd. unfold insert_tag.
  intros (d1 & Hw & [= <- <-])%result_bind_Ok. by eapply write_tag_ok.
Qed.

Lemma delete_tag_keeps id : keeps (delete_tag id).
Proof.
  unfold delete_tag. keeps_steps. intros Hd. unfold delete_row.
  destruct (tags d !! id); [|by intros [= <- <-]]. intros [= <- <-]. by apply delete_tag_row_ok.
Qed.

Lemma scan_elem {A} (t : gmap Z A) i x : (i, x) ∈ scan t ↔ t !! i = Some x.
Proof. by rewrite scan_perm, elem_of_map_to_list. Qed.

Lemma tag_named_Some name d id :
  tag_named name d = Some id → ∃ r, tags d !! id = Some r ∧ nocase (tr_name r) = nocase name.
Proof.
  unfold tag_named. intros ([i r] & Hf & ->)%fmap_Some.
  apply find_first_Some in Hf as (l1 & l2 & Hl & Hr & _). exists r.
  apply bool_decide_eq_true in Hr. split; [|done]. apply scan_elem. rewrite Hl. set_solver.
Qed.

Lemma tag_named_None name d :
  tag_named name d = None → ∀ i r, tags d !! i = Some r → nocase (tr_name r) ≠ nocase name.
Proof.
  unfold tag_named. intros Hf%fmap_None%find_first_None i r Hr%scan_elem.
  rewrite Forall_forall in Hf. specialize (Hf _ Hr). by apply bool_decide_eq_false in Hf.
Qed.

(** With names unique, the tag found is the tag there is. *)
Lemma tag_named_unique name d id r :
  db_ok d → tags d !! id = Some r → nocase (tr_name r) = nocase name → tag_named name d = Some id.
Proof.
  intros Hd Hr Hn. destruct (tag_named name d) as [j|] eqn:E.
  - f_equal. apply tag_named_Some in E as (r' & Hr' & Hn').
    eapply (ok_tags_unique d Hd); [done..|]. by rewrite Hn', Hn.
  - destruct (tag_named_None name d E id r); done.
Qed.

Lemma get_or_create_run name color now s :
  poisoned s = false → trim name ≠ [] →
  get_or_create name color now s =
  match tag_named (trim name) (db s) with
  | Some id => (Ok id, s)
  | None =>
      let id := fresh_rowid (dom (tags (db s))) in
      let r := MkTagRow (trim name) color now in
      (Ok id, MkStore false (set_tag_table (<[id:=r]> (tags (db s))) (db s)))
  end.
Proof.
  intros Hp Hn. unfold get_or_create. rewrite decide_False by done.
  rewrite M_bind_eq. unfold lock. rewrite Hp, M_bind_eq. unfold query.
  destruct (tag_named _ _) as [id|] eqn:E; [done|].
  unfold execute, insert_tag. set (id := fresh_rowid _). set (r := MkTagRow _ _ _).
  assert (write_tag id r (db s) = Ok (set_tag_table (<[id:=r]> (tags (db s))) (db s))) as ->.
  { apply write_tag_Ok. split; [|done]. intros j rj Hj. right. simpl. by eapply tag_named_None. }
  simpl. by rewrite Hp.
Qed.

(** [get_or_create] always yields a tag of that name, and asking again
    (with any spelling that differs only in case and surrounding blanks, and
    any color) returns the same tag and changes nothing. *)
Theorem get_or_create_idempotent name color now name' color' now' s :
  db_ok (db s) → poisoned s = false → trim name ≠ [] → nocase (trim name') = nocase (trim name) →
  ∃ id s', get_or_create name color now s = (Ok id, s') ∧
    (∃ r, tags (db s') !! id = Some r ∧ nocase (tr_name r) = nocase (trim name)) ∧
    get_or_create name' color' now' s' = (Ok id, s').
Proof.
  intros Hs Hp Hn Heq.
  assert (trim name' ≠ []) as Hn'.
  { intros E. rewrite E in Heq. symmetry in Heq. by apply fmap_nil_inv in Heq. }
  pose proof (get_or_create_keeps name color now s Hs) as Hs'.
  rewrite get_or_create_run in * by done.
  destruct (tag_named (trim name) (db s)) as [id|] eqn:E.
  - exists id, s. apply tag_named_Some in E as (r & Hr & Hrn). split_and!; [done|eauto|].
    rewrite get_or_create_run by done.
    rewrite (tag_named_unique _ _ id r) by (done || by rewrite Hrn, Heq). done.
  - simpl in *. set (id := fresh_rowid _) in *. eexists id, _. split_and!; [done|..].
    + eexists. split; [apply lookup_insert_eq|done].
    + rewrite get_or_create_run by done.
      rewrite (tag_named_unique _ _ id (MkTagRow (trim name) color now)); [done|done| |done].
      apply lookup_insert_eq.
Qed.
End keeps.

Lemma get_or_create_idempotent_witness :
  let e := sqlite_max_rowid in
  ∃ id s', get_or_create #"Prod" None 1 (MkStore false empty_db) = (Ok id, s') ∧
    (∃ r, tags (db s') !! id = Some r ∧ nocase (tr_name r) = nocase (trim #"Prod")) ∧
    get_or_create #" prod " None 2 s' = (Ok id, s').
Proof.
  intros e. apply (get_or_create_idempotent #"Prod" None 1 #" prod " None 2).
  - apply empty_db_ok.
  - reflexivity.
  - by vm_compute.
  - by vm_compute.
Defined.
