(* ===== verification/Settings.v ===== *)
(** * [SettingsRepo]

    [core-store/src/settings.rs].  JSON is the class [SerdeJson]: what
    [serde_json] writes for a type it reads back. *)
From S2P Require Import Prelude Text Model Database StoreInv.

Class SerdeJson (T : Type) := {
  to_string : T → option str;
  from_str : str → option T;
  from_to_string v j : to_string v = Some j → from_str j = Some v
}.

Definition KEY_KNOWN_HOSTS_IMPORT_OFFERED : str := #"known_hosts.import_offered".
Definition KEY_HASH_KNOWN_HOSTS : str := #"known_hosts.hash".
Definition KEY_RECONNECT_ENABLED : str := #"reconnect.enabled".
Definition KEY_RECONNECT_MAX_ATTEMPTS : str := #"reconnect.max_attempts".
Definition KEY_APPEARANCE : str := #"appearance".

Section settings.
Context {T : Type} `{!SerdeJson T}.

Definition get (key : str) : M (option T) :=
  lock;;
  raw ← query (λ d, sr_value <$> settings d !! key);
  match raw with
  | Some json => v ← of_result (ok_or Json (from_str json)); mret (Some v)
  | None => mret None
  end.

(** [Ok(self.get(key).unwrap_or(None).unwrap_or(default))]: reads, never
    writes, never fails. *)
Definition get_or (key : str) (dflt : T) : M T := λ s,
  match get key s with
  | (Ok (Some v), s') => (Ok v, s')
  | (_, s') => (Ok dflt, s')
  end.

(** INSERT ... ON CONFLICT(key) DO UPDATE. *)
Definition upsert (key json : str) (now : Z) (d : Db) : result sqlite_error (() * Db) :=
  Ok ((), set_settings (<[key:=MkSettingRow json now]> (settings d)) d).

Definition set (key : str) (value : T) (now : Z) : M () :=
  json ← of_result (ok_or Json (to_string value));
  lock;;
  execute (upsert key json now).
End settings.

Definition delete_setting (key : str) : M () :=
  lock;; execute (λ d, Ok ((), set_settings (delete key (settings d)) d)).

(** SELECT key, value FROM settings ORDER BY key. *)
Definition setting_le (a b : str * str) : Prop := str_le a.1 b.1 = true.
#[export] Instance setting_le_dec a b : Decision (setting_le a b).
Proof. unfold setting_le. apply _. Defined.
Definition all_raw : M (list (str * str)) :=
  lock;; query (λ d, merge_sort setting_le (prod_map id sr_value <$> map_to_list (settings d))).

Lemma set_settings_ok t d : db_ok d → db_ok (set_settings t d).
Proof. intros H. split; apply H. Qed.

Section keeps.
Context {T : Type} `{!SerdeJson T}.

Lemma get_keeps key : keeps (get (T := T) key).
Proof. unfold get. keeps_steps. Qed.
Lemma get_or_keeps key dflt : keeps (get_or (T := T) key dflt).
Proof.
  intros s Hs. unfold get_or. pose proof (get_keeps key s Hs) as Hk.
  destruct (get key s) as [[[v|]|e] s']; done.
Qed.
Lemma set_keeps key value now : keeps (set (T := T) key value now).
Proof.
  unfold set. keeps_steps. intros Hd. unfold upsert. intros [= _ <-]. by apply set_settings_ok.
Qed.
Lemma delete_setting_keeps key : keeps (delete_setting key).
Proof. unfold delete_setting. keeps_steps. intros Hd [= _ <-]. by apply set_settings_ok. Qed.
Lemma all_raw_keeps : keeps all_raw.
Proof. unfold all_raw. keeps_steps. Qed.

(** Reads after a write of a value that serializes. *)
Lemma set_run key value now json s :
  poisoned s = false → to_string value = Some json →
  set key value now s =
  (Ok (), MkStore false (set_settings (<[key:=MkSettingRow json now]> (settings (db s))) (db s))).
Proof.
  intros Hp Hj. unfold set. rewrite Hj, M_bind_eq. simpl. rewrite M_bind_eq. unfold lock.
  rewrite Hp. unfold execute, upsert. by rewrite Hp.
Qed.

Lemma get_run key s :
  poisoned s = false →
  get (T := T) key s =
  match settings (db s) !! key with
  | Some r => match from_str (sr_value r) with Some v => (Ok (Some v), s) | None => (Err Json, s) end
  | None => (Ok None, s)
  end.
Proof.
  intros Hp. unfold get. rewrite M_bind_eq. unfold lock. rewrite Hp, M_bind_eq. unfold query.
  destruct (settings (db s) !! key) as [r|]; [|done]. cbn [fmap option_fmap option_map].
  rewrite M_bind_eq. by destruct (from_str (sr_value r)).
Qed.

(** A setting reads back as it was written, whatever the default, and
    writing it leaves every other key alone. *)
Theorem setting_roundtrip key value now json dflt s :
  poisoned s = false → to_string value = Some json →
  ∃ s', set key value now s = (Ok (), s') ∧ get key s' = (Ok (Some value), s') ∧
    get_or key dflt s' = (Ok value, s') ∧
    ∀ k, k ≠ key → get (T := T) k s' = ((get (T := T) k s).1, s').
Proof.
  intros Hp Hj. eexists. split; [by apply set_run|].
  assert (∀ s', poisoned s' = false → settings (db s') !! key = Some (MkSettingRow json now) →
    get (T := T) key s' = (Ok (Some value), s')) as Hget.
  { intros s' Hp' Hs'. rewrite get_run by done. rewrite Hs'. simpl.
    by rewrite (from_to_string value json Hj). }
  split_and!.
  - apply Hget; [done|]. apply lookup_insert_eq.
  - unfold get_or. rewrite Hget; [done|done|]. apply lookup_insert_eq.
  - intros k Hk. rewrite !get_run by done. cbn. rewrite lookup_insert_ne by done.
    destruct (settings (db s) !! k) as [r|]; [|done]. by destruct (from_str (sr_value r)).
Qed.
End keeps.

(** JSON booleans. *)
#[export] Instance json_bool : SerdeJson bool.
Proof.
  refine {|
    to_string (b : bool) := Some (if b then #"true" else #"false");
    from_str j := if decide (trim j = #"true") then Some true
                  else if decide (trim j = #"false") then Some false else None
  |}.
  intros [] j [= <-]; done.
Defined.

Lemma setting_roundtrip_witness :
  ∃ s', set KEY_HASH_KNOWN_HOSTS true 3 (MkStore false empty_db) = (Ok (), s') ∧
    get KEY_HASH_KNOWN_HOSTS s' = (Ok (Some true), s') ∧
    get_or KEY_HASH_KNOWN_HOSTS false s' = (Ok true, s') ∧
    ∀ k, k ≠ KEY_HASH_KNOWN_HOSTS →
      get (T := bool) k s' = ((get (T := bool) k (MkStore false empty_db)).1, s').
Proof.
  apply (setting_roundtrip KEY_HASH_KNOWN_HOSTS true 3 #"true" false (MkStore false empty_db));
    reflexivity.
Defined.
