(* ===== verification/Migrate.v ===== *)
(** * Schema migrations

    [core-store/src/migrate.rs], with [Store::open] and [schema_version] of
    [core-store/src/db.rs] and [app_paths] of [apps/desktop/src/lib.rs].  A connection
    is the rows of [schema_migrations] (none when the table does not exist)
    and the set of schema objects created so far.  A migration's SQL is a
    function on it that fails, as CREATE and ALTER TABLE do, when an object
    already exists; [fault] lets any statement fail for another reason (disk,
    lock), the reads of the version too, so the theorems hold on a failing disk
    as well. *)
From S2P Require Import Prelude Text Path Model Database.

Record Conn := MkConn {
  schema_migrations : option (list (Z * str * Z));
  objects : gset str
}.
Definition fresh_conn : Conn := MkConn None ∅.

(** CREATE of several objects: all or nothing inside the transaction. *)
Definition create_objects (names : list str) (c : Conn) : result sqlite_error Conn :=
  if decide (Forall (λ n, n ∉ objects c) names)
  then Ok (MkConn (schema_migrations c) (list_to_set names ∪ objects c))
  else Err StatementFailure.

(** [0001_init.sql] *)
Definition init_objects : list str :=
  [ #"schema_migrations"; #"folders"; #"folders_parent_name"; #"hosts"; #"hosts_folder";
    #"hosts_last_connected"; #"hosts_source_alias"; #"tags"; #"tags_name_nocase"; #"host_tags";
    #"host_tags_tag"; #"settings"].
Definition init_sql (c : Conn) : result sqlite_error Conn :=
  match schema_migrations c with
  | Some _ => Err StatementFailure
  | None => c ← create_objects init_objects c; Ok (MkConn (Some []) (objects c))
  end.

(** [0002_auth_fallbacks.sql] *)
Definition auth_fallbacks_sql (c : Conn) : result sqlite_error Conn :=
  if decide (#"hosts" ∈ objects c) then create_objects [ #"hosts.auth_fallbacks"] c
  else Err StatementFailure.

Definition migration : Type := Z * str * (Conn → result sqlite_error Conn).

Definition MIGRATIONS : list migration :=
  [(1%Z, #"init", init_sql); (2%Z, #"auth_fallbacks", auth_fallbacks_sql)].

Definition target_version : Z :=
  match last MIGRATIONS with Some m => m.1.1 | None => 0%Z end.

(** The statements that can fail on their own: looking the table up, reading
    the version, and a migration's transaction. *)
Inductive statement := LookUpTable | SelectVersion | Migrating (version : Z).

(** [SELECT MAX(version)], 0 over an empty table. *)
Definition max_version (rows : list (Z * str * Z)) : Z :=
  match rows with [] => 0%Z | r :: rows => foldr (λ x, Z.max x.1.1) r.1.1 rows end.
Definition select_version (fault : statement → bool) (c : Conn) : result StoreError Z :=
  match schema_migrations c with
  | Some rows => if fault SelectVersion then Err (Sqlite StatementFailure) else Ok (max_version rows)
  | None => Err (Sqlite StatementFailure)
  end.

(** A missing table is version 0. *)
Definition applied_version (fault : statement → bool) (c : Conn) : result StoreError Z :=
  if fault LookUpTable then Err (Sqlite StatementFailure)
  else match schema_migrations c with
       | None => Ok 0%Z
       | Some _ => select_version fault c
       end.

(** INSERT INTO schema_migrations; [version] is the primary key. *)
Definition record_version (v : Z) (name : str) (now : Z) (c : Conn) : result sqlite_error Conn :=
  match schema_migrations c with
  | None => Err StatementFailure
  | Some rows =>
      if decide (v ∈ ((λ r, r.1.1) <$> rows)) then Err UniqueViolation
      else Ok (MkConn (Some (rows ++ [(v, name, now)])) (objects c))
  end.

Section run.
Context (fault : statement → bool) (now : Z).

(** One transaction: on an error the connection is as before it. *)
Definition migrate_one (m : migration) (c : Conn) : result sqlite_error Conn :=
  let '(v, name, sql) := m in
  if fault (Migrating v) then Err StatementFailure
  else c ← sql c; record_version v name now c.

Fixpoint migrate_loop (current : Z) (ms : list migration) (c : Conn) :
    result StoreError () * Conn :=
  match ms with
  | [] => (Ok (), c)
  | m :: ms =>
      if (m.1.1 <=? current)%Z then migrate_loop current ms c
      else match migrate_one m c with
           | Ok c => migrate_loop current ms c
           | Err e => (Err (Sqlite e), c)
           end
  end.

Definition run (c : Conn) : result StoreError () * Conn :=
  match applied_version fault c with
  | Err e => (Err e, c)
  | Ok current =>
      if (target_version <? current)%Z then (Err (SchemaAhead current target_version), c)
      else migrate_loop current MIGRATIONS c
  end.
End run.

(** A database some run of [run] (or an earlier release's) left behind: the
    first [v] migrations, recorded. *)
Inductive at_version : Z → Conn → Prop :=
  | at_0 : at_version 0 fresh_conn
  | at_1 t1 : at_version 1
      (MkConn (Some [(1%Z, #"init", t1)]) (list_to_set init_objects))
  | at_2 t1 t2 : at_version 2
      (MkConn (Some [(1%Z, #"init", t1); (2%Z, #"auth_fallbacks", t2)])
         ({[ #"hosts.auth_fallbacks"]} ∪ list_to_set init_objects)).

Lemma init_migrates fault now :
  fault (Migrating 1) = false →
  migrate_one fault now (1%Z, #"init", init_sql) fresh_conn =
  Ok (MkConn (Some [(1%Z, #"init", now)]) (list_to_set init_objects)).
Proof.
  intros Hf. unfold migrate_one. rewrite Hf. unfold init_sql, create_objects. simpl.
  rewrite decide_True by (apply Forall_forall; set_solver). simpl. by rewrite (right_id_L ∅ (∪)).
Qed.

Lemma fallbacks_migrates fault now t1 :
  fault (Migrating 2) = false →
  migrate_one fault now (2%Z, #"auth_fallbacks", auth_fallbacks_sql)
    (MkConn (Some [(1%Z, #"init", t1)]) (list_to_set init_objects)) =
  Ok (MkConn (Some [(1%Z, #"init", t1); (2%Z, #"auth_fallbacks", now)])
        ({[ #"hosts.auth_fallbacks"]} ∪ list_to_set init_objects)).
Proof.
  intros Hf. unfold migrate_one. rewrite Hf. unfold auth_fallbacks_sql, create_objects.
  cbn [objects schema_migrations].
  rewrite decide_True by (apply elem_of_list_to_set; by apply (bool_decide_unpack _)).
  rewrite decide_True.
  2: { apply Forall_singleton. rewrite elem_of_list_to_set. by apply (bool_decide_unpack _). }
  cbn [mbind result_bind record_version schema_migrations].
  rewrite decide_False by (by apply (bool_decide_unpack _)). cbn [app objects].
  by rewrite list_to_set_singleton_L.
Qed.

Lemma migrate_faulted fault now m c : fault (Migrating m.1.1) = true → migrate_one fault now m c = Err StatementFailure.
Proof. destruct m as [[v n] sql]. simpl. by intros ->. Qed.

(** The reads of the version go through. *)
Definition readable_version (fault : statement → bool) : Prop :=
  fault LookUpTable = false ∧ fault SelectVersion = false.

Lemma at_version_applied fault v c :
  at_version v c → readable_version fault → applied_version fault c = Ok v.
Proof. intros Hv [Hl Hs]. unfold applied_version, select_version. rewrite Hl, Hs. by destruct Hv. Qed.

Lemma at_version_unread fault v c e :
  at_version v c → applied_version fault c = Err e →
  e = Sqlite StatementFailure ∧ ¬ readable_version fault.
Proof.
  intros Hv. unfold applied_version, select_version, readable_version.
  destruct (fault LookUpTable); [intros [= <-]; split; [done|by intros []]|].
  destruct (fault SelectVersion); [|by destruct Hv].
  destruct Hv; intros [= <-]; (split; [done|by intros []]).
Qed.

Lemma run_ends fault now v c :
  at_version v c →
  match run fault now c with
  | (Ok _, c') =>
      at_version target_version c' ∧ ∀ w, (v < w ≤ target_version)%Z → fault (Migrating w) = false
  | (Err e, c') =>
      e = Sqlite StatementFailure ∧
      (c' = c ∧ ¬ readable_version fault ∨
       ∃ w, at_version w c' ∧ (v ≤ w < target_version)%Z ∧ fault (Migrating (w + 1)) = true)
  end.
Proof.
  change target_version with 2%Z. intros Hv.
  assert (∀ w, (0 < w ≤ 2)%Z → w = 1%Z ∨ w = 2%Z) as H12 by lia.
  unfold run. destruct (applied_version fault c) as [current|e] eqn:Happ.
  2:{ destruct (at_version_unread fault v c e Hv Happ) as [-> Hno]. split; [done|]. by left. }
  assert (current = v) as ->.
  { revert Happ. unfold applied_version, select_version.
    destruct (fault LookUpTable); [done|]. destruct (fault SelectVersion); destruct Hv; by intros [= <-]. }
  clear Happ. destruct Hv as [|t1|t1 t2]; cbn -[migrate_one].
  - destruct (fault (Migrating 1)) eqn:F1.
    + rewrite migrate_faulted by done. split; [done|]. right. exists 0%Z. split_and!; [constructor|lia..|done].
    + rewrite init_migrates by done. destruct (fault (Migrating 2)) eqn:F2.
      * rewrite migrate_faulted by done. split; [done|]. right. exists 1%Z.
        split_and!; [constructor|lia..|done].
      * rewrite fallbacks_migrates by done. split; [constructor|].
        intros w [->| ->]%H12; done.
  - destruct (fault (Migrating 2)) eqn:F2.
    + rewrite migrate_faulted by done. split; [done|]. right. exists 1%Z. split_and!; [constructor|lia..|done].
    + rewrite fallbacks_migrates by done. split; [constructor|].
      intros w Hw. by replace w with 2%Z by lia.
  - split; [constructor|]. intros w Hw. lia.
Qed.

(** From any database a release left behind, [run] ends at a recorded
    version that its schema really has: the current one if no statement
    fails, and otherwise an error with exactly the migrations before the
    failing one applied.  It never goes back. *)
Theorem run_reaches_target fault now v c :
  at_version v c →
  match run fault now c with
  | (Ok _, c') =>
      at_version target_version c' ∧ ∀ w, (v < w ≤ target_version)%Z → fault (Migrating w) = false
  | (Err e, c') =>
      e = Sqlite StatementFailure ∧
      (c' = c ∧ ¬ readable_version fault ∨
       ∃ w, at_version w c' ∧ (v ≤ w < target_version)%Z ∧ fault (Migrating (w + 1)) = true)
  end.
Proof. apply run_ends. Qed.

Lemma run_reaches_target_witness :
  match run (λ _, false) 5 fresh_conn with
  | (Ok _, c') => at_version target_version c' ∧ ∀ w, (0 < w ≤ target_version)%Z → false = false
  | (Err e, c') =>
      e = Sqlite StatementFailure ∧
      (c' = fresh_conn ∧ ¬ readable_version (λ _, false) ∨
       ∃ w, at_version w c' ∧ (0 ≤ w < target_version)%Z ∧ false = true)
  end.
Proof. apply (run_reaches_target (λ _, false) 5 0 fresh_conn). constructor. Defined.

Lemma run_current fault now c :
  applied_version fault c = Ok target_version → run fault now c = (Ok (), c).
Proof. unfold run. change target_version with 2%Z. by intros ->. Qed.

(** A database at the target is left exactly as it is, and one written by
    a newer release is refused untouched, even if every statement could run. *)
Theorem run_no_write fault now c v :
  applied_version fault c = Ok v → (target_version ≤ v)%Z →
  run fault now c =
  (if (target_version =? v)%Z then Ok () else Err (SchemaAhead v target_version), c).
Proof.
  change target_version with 2%Z. intros Ha Hv. unfold run. change target_version with 2%Z. rewrite Ha.
  destruct (Z.ltb_spec 2 v).
  - by destruct (Z.eqb_spec 2 v); [lia|].
  - assert (v = 2%Z) as -> by lia. done.
Qed.

Lemma run_no_write_witness :
  let c := MkConn (Some [(3%Z, #"next", 0%Z)]) ∅ in
  run (λ _, false) 5 c = (Err (SchemaAhead 3 2), c).
Proof. intros c. by apply (run_no_write (λ _, false) 5 c 3). Defined.

(** * Opening the store *)

Section open.
Context (exists_dir : str → bool) (create_dir_all : str → result () ()).
Context (connection_open : str → result sqlite_error Conn) (pragmas : Conn → result sqlite_error ()).
Context (fault : statement → bool) (now : Z).

(** [Store::from_connection] *)
Definition from_connection (c : Conn) : result StoreError Conn :=
  match pragmas c with
  | Err e => Err (Sqlite e)
  | Ok () => match run fault now c with (Ok (), c) => Ok c | (Err e, _) => Err e end
  end.

(** [Store::open]: the directory is made when it is not there. *)
Definition make_parent (path : str) : result StoreError () :=
  match parent path with
  | Some dir => if exists_dir dir then Ok () else map_err (λ _, CreateDir) (create_dir_all dir)
  | None => Ok ()
  end.
Definition open (path : str) : result StoreError Conn :=
  _ ← make_parent path;
  c ← map_err Sqlite (connection_open path);
  from_connection c.
End open.

Definition schema_version (fault : statement → bool) (poisoned : bool) (c : Conn) : result StoreError Z :=
  if poisoned then Err LockPoisoned else select_version fault c.

(** The database and [known_hosts], under the app's config directory. *)
Definition app_paths (app_config_dir : result str str) : result str (str * str) :=
  match app_config_dir with
  | Err e => Err (#"could not resolve app config dir: " ++ e)
  | Ok dir => Ok (path_join dir #"tern.db", path_join dir #"known_hosts")
  end.

(** C40: a store that opens is current, and stays so: from whatever database a
    release left behind, [open] succeeds only with the schema of this binary;
    [schema_version], when it can be read, says so; and opening what it left
    again, when the pragmas and the version can be read, changes nothing, even
    on a disk that can no longer be written. *)
Theorem open_is_current exists_dir create_dir_all connection_open pragmas fault now path v c c' :
  connection_open path = Ok c → at_version v c →
  open exists_dir create_dir_all connection_open pragmas fault now path = Ok c' →
  at_version target_version c' ∧
  (∀ fault', fault' SelectVersion = false → schema_version fault' false c' = Ok target_version) ∧
  ∀ pragmas' fault' now', pragmas' c' = Ok () → readable_version fault' →
    from_connection pragmas' fault' now' c' = Ok c'.
Proof.
  intros Hc Hv. unfold open. destruct (make_parent _ _ path) as [[]|]; [|done]. simpl. rewrite Hc. simpl.
  unfold from_connection. destruct (pragmas c) as [[]|]; [|done]. pose proof (run_ends fault now v c Hv) as Hr.
  destruct (run fault now c) as [[[]|e] c1]; [|done]. destruct Hr as [Hat _]. intros [= <-].
  split; [done|]. split.
  - intros fault' Hf. unfold schema_version, select_version. rewrite Hf.
    change target_version with 2%Z in *. by inversion Hat.
  - intros pragmas' fault' now' -> Hf. by rewrite (run_current fault' now' c1 (at_version_applied _ _ _ Hat Hf)).
Qed.

Lemma open_is_current_witness :
  let c' := MkConn (Some [(1%Z, #"init", 5%Z); (2%Z, #"auth_fallbacks", 5%Z)])
              ({[ #"hosts.auth_fallbacks"]} ∪ list_to_set init_objects) in
  schema_version (λ _, false) false c' = Ok target_version ∧
  from_connection (λ _, Ok ()) (λ s, match s with Migrating _ => true | _ => false end) 9 c' = Ok c'.
Proof.
  intros c'. destruct (open_is_current (λ _, true) (λ _, Ok ()) (λ _, Ok fresh_conn) (λ _, Ok ())
    (λ _, false) 5 #"/c/tern.db" 0 fresh_conn c') as (_ & Hv & Hr); [done|constructor|by vm_compute|].
  split; [by apply Hv|by apply Hr].
Defined.
