(* ===== verification/Collection.v ===== *)
(** * What the host store promises

    The store as its callers think of it: a collection of folders, hosts and
    tags, each found by its id, a host carrying its tags, with no tables, rows,
    columns or joins.  [view] reads a database as such a collection, and [spec]
    says of every call what it may answer and what it leaves.  [StoreRefines]
    proves that the repositories do that and nothing else. *)
From S2P Require Import Prelude Text Model Database Forest StoreInv Folders Hosts Tags.

Record Collection := MkCollection {
  c_folders : gmap Z Folder;
  c_hosts : gmap Z Host;
  c_tags : gmap Z Tag
}.

Definition empty_collection : Collection := MkCollection ∅ ∅ ∅.

Definition put_hosts (t : gmap Z Host) (c : Collection) : Collection :=
  MkCollection (c_folders c) t (c_tags c).
Definition put_folders (t : gmap Z Folder) (c : Collection) : Collection :=
  MkCollection t (c_hosts c) (c_tags c).
Definition put_tags (t : gmap Z Tag) (c : Collection) : Collection :=
  MkCollection (c_folders c) (c_hosts c) t.

(** A database as a collection. *)
Definition view (d : Db) : Collection := {|
  c_folders := map_imap (λ id r, Some (folder_of (id, r))) (folders d);
  c_hosts := map_imap (λ id r, ok (read_host d (id, r))) (hosts d);
  c_tags := map_imap (λ id r, Some (tag_of (id, r))) (tags d)
|}.

(** * Calls *)

Inductive call :=
  | CreateHost (draft : NewHost) (now : Z)
  | GetHost (id : HostId)
  | ListHosts (f : HostFilter)
  | UpdateHost (h : Host) (now : Z)
  | DeleteHost (id : HostId)
  | MoveHost (id : HostId) (to : option FolderId) (now : Z)
  | SetTags (id : HostId) (ts : list TagId)
  | RecordConnection (id : HostId) (at_ : Z)
  | FindAlias (alias : str)
  | CreateFolder (parent : option FolderId) (name : str) (now : Z)
  | RenameFolder (id : FolderId) (name : str) (now : Z)
  | Reparent (id : FolderId) (to : option FolderId) (now : Z)
  | DeleteFolder (id : FolderId)
  | Tree
  | GetOrCreateTag (name : str) (color : option str) (now : Z)
  | DeleteTag (id : TagId)
  | ListTags.

Definition answer (k : call) : Type :=
  match k with
  | CreateHost _ _ | CreateFolder _ _ _ | GetOrCreateTag _ _ _ => Z
  | GetHost _ | FindAlias _ => option Host
  | ListHosts _ => list Host
  | Tree => list Folder
  | ListTags => list Tag
  | _ => ()
  end.

(** The method each call is. *)
Definition run_call `{Engine} (k : call) : M (answer k) :=
  match k with
  | CreateHost draft now => create_host_row draft now
  | GetHost id => get_host id
  | ListHosts f => list_hosts f
  | UpdateHost h now => update_host_row h now
  | DeleteHost id => delete_host id
  | MoveHost id to now => move_to_folder id to now
  | SetTags id ts => set_tags id ts
  | RecordConnection id at_ => record_connection id at_
  | FindAlias alias => find_by_source_alias alias
  | CreateFolder parent name now => create parent name now
  | RenameFolder id name now => rename id name now
  | Reparent id to now => reparent id to now
  | DeleteFolder id => delete_folder id
  | Tree => tree
  | GetOrCreateTag name color now => get_or_create name color now
  | DeleteTag id => delete_tag id
  | ListTags => list_tags
  end.

(** * What they promise *)

(** The alias an imported host answers to. *)
Definition alias_of (source : HostSource) (alias : option str) : option str :=
  match source with SshConfig => alias | Manual => None end.

Definition alias_taken (c : Collection) (id : HostId) (alias : option str) : Prop :=
  map_Exists (λ j h, j ≠ id ∧ alias ≠ None ∧ alias_of (h_source h) (h_source_alias h) = alias)
    (c_hosts c).
#[export] Instance alias_taken_dec c id a : Decision (alias_taken c id a).
Proof. unfold alias_taken. apply _. Defined.

(** Why a host may not be written. *)
Definition host_refused (c : Collection) (id : HostId) (port : Z) (alias : option str)
    (folder : option FolderId) : option sqlite_error :=
  if decide (port = 0%Z) then Some CheckViolation
  else if decide (alias_taken c id alias) then Some UniqueViolation
  else if decide (references (c_folders c) folder) then None
  else Some ForeignKeyViolation.

(** A host after an edit: what the edit says, with the history, the tags and
    the creation time it had. *)
Definition edited_host (h old : Host) (now : Z) : Host :=
  MkHost (h_id h) (h_folder_id h) (h_name h) (h_hostname h) (h_port h) (h_username h) (h_auth h)
    (h_auth_fallbacks h) (h_secret_ref h) (h_key_path h) (h_overrides h) (h_proxy_jump h)
    (h_source h) (h_source_alias h) (h_color h) (h_notes h) (h_last_connected_at old)
    (h_connect_count old) (h_created_at old) now (h_tags old).

Definition refiled (to : option FolderId) (now : Z) (h : Host) : Host :=
  MkHost (h_id h) to (h_name h) (h_hostname h) (h_port h) (h_username h) (h_auth h)
    (h_auth_fallbacks h) (h_secret_ref h) (h_key_path h) (h_overrides h) (h_proxy_jump h)
    (h_source h) (h_source_alias h) (h_color h) (h_notes h) (h_last_connected_at h)
    (h_connect_count h) (h_created_at h) now (h_tags h).

Definition connected (at_ : Z) (h : Host) : Host :=
  MkHost (h_id h) (h_folder_id h) (h_name h) (h_hostname h) (h_port h) (h_username h) (h_auth h)
    (h_auth_fallbacks h) (h_secret_ref h) (h_key_path h) (h_overrides h) (h_proxy_jump h)
    (h_source h) (h_source_alias h) (h_color h) (h_notes h) (Some at_)
    (h_connect_count h + 1) (h_created_at h) (h_updated_at h) (h_tags h).

(** A host whose folder went away. *)
Definition unfiled_host (h : Host) : Host :=
  MkHost (h_id h) None (h_name h) (h_hostname h) (h_port h) (h_username h) (h_auth h)
    (h_auth_fallbacks h) (h_secret_ref h) (h_key_path h) (h_overrides h) (h_proxy_jump h)
    (h_source h) (h_source_alias h) (h_color h) (h_notes h) (h_last_connected_at h)
    (h_connect_count h) (h_created_at h) (h_updated_at h) (h_tags h).

(** What a filter selects. *)
Definition selects (f : HostFilter) (h : Host) : Prop :=
  (∀ q, q_query f = Some q → trim q ≠ [] →
     contains (nocase (trim q)) (nocase (h_name h)) = true ∨
     contains (nocase (trim q)) (nocase (h_hostname h)) = true ∨
     contains (nocase (trim q)) (nocase (h_username h)) = true) ∧
  (∀ folder, q_folder_id f = Some folder → h_folder_id h = Some folder) ∧
  (∀ t, t ∈ q_tag_ids f → t ∈ h_tags h).

(** Most recently connected first, never connected last, then by name. *)
Definition listed_before (a b : Host) : Prop :=
  match h_last_connected_at a, h_last_connected_at b with
  | Some x, Some y => (y < x)%Z ∨ x = y ∧ str_le (nocase (h_name a)) (nocase (h_name b)) = true
  | Some _, None => True
  | None, Some _ => False
  | None, None => str_le (nocase (h_name a)) (nocase (h_name b)) = true
  end.

(** [under t id f]: [f] is [id] or lies below it. *)
Inductive under (t : gmap Z Folder) (id : FolderId) : FolderId → Prop :=
  | under_self : under t id id
  | under_child f g p : t !! f = Some g → f_parent_id g = Some p → under t id p → under t id f.

(** A sibling already has that name, up to ASCII case. *)
(** The folders a parent id has for siblings: the unique index and the query
    for the last position take [IFNULL(parent_id, -1)], so -1 is the top level
    to them, though no folder has that id. *)
Definition level (parent : option FolderId) : option FolderId :=
  if decide (parent = Some (-1)%Z) then None else parent.

Definition name_taken (c : Collection) (id : FolderId) (parent : option FolderId) (name : str) : Prop :=
  map_Exists (λ j g, j ≠ id ∧ f_parent_id g = level parent ∧ nocase (f_name g) = nocase name) (c_folders c).
#[export] Instance name_taken_dec c id p n : Decision (name_taken c id p n).
Proof. unfold name_taken. apply _. Defined.

Definition folder_refused (c : Collection) (id : FolderId) (parent : option FolderId) (name : str) :
    option sqlite_error :=
  if decide (name_taken c id parent name) then Some UniqueViolation
  else if decide (references (c_folders c) parent) then None
  else Some ForeignKeyViolation.

(** The place after the last sibling. *)
Definition last_position (c : Collection) (parent : option FolderId) (p : Z) : Prop :=
  (∀ j g, c_folders c !! j = Some g → f_parent_id g = level parent → (f_position g < p)%Z) ∧
  (p = 0%Z ∧ (∀ j g, c_folders c !! j = Some g → f_parent_id g ≠ level parent) ∨
   ∃ j g, c_folders c !! j = Some g ∧ f_parent_id g = level parent ∧ (p = f_position g + 1)%Z).

(** A call that is refused changes nothing. *)
Definition refused {A} (e : StoreError) (c c' : Collection) (r : result StoreError A) : Prop :=
  r = Err e ∧ c' = c.

(** A host that is written, or the reason it is not. *)
Definition writes {A} (why : option sqlite_error) (a : A) (c' written c : Collection)
    (r : result StoreError A) : Prop :=
  match why with
  | Some e => refused (Sqlite e) c c' r
  | None => r = Ok a ∧ c' = written
  end.

Definition spec (k : call) (c : Collection) : result StoreError (answer k) → Collection → Prop :=
  match k return result StoreError (answer k) → Collection → Prop with
  | CreateHost n now => λ r c', ∃ id,
      c_hosts c !! id = None ∧
      writes (host_refused c id (n_port n) (alias_of (n_source n) (n_source_alias n)) (n_folder_id n))
        id c' (put_hosts (<[id := host_of_draft id n now]> (c_hosts c)) c) c r
  | GetHost id => λ r c', r = Ok (c_hosts c !! id) ∧ c' = c
  | ListHosts f => λ r c', c' = c ∧ ∃ all,
      r = Ok (limited (q_limit f) all) ∧ NoDup all ∧ StronglySorted listed_before all ∧
      ∀ h, h ∈ all ↔ c_hosts c !! h_id h = Some h ∧ selects f h
  | UpdateHost h now => λ r c',
      match c_hosts c !! h_id h with
      | None => refused (NotFound EHost (h_id h)) c c' r
      | Some old =>
          writes (host_refused c (h_id h) (h_port h) (alias_of (h_source h) (h_source_alias h))
                    (h_folder_id h))
            () c' (put_hosts (<[h_id h := edited_host h old now]> (c_hosts c)) c) c r
      end
  | DeleteHost id => λ r c',
      match c_hosts c !! id with
      | None => refused (NotFound EHost id) c c' r
      | Some _ => r = Ok () ∧ c' = put_hosts (delete id (c_hosts c)) c
      end
  | MoveHost id to now => λ r c',
      match c_hosts c !! id with
      | None => refused (NotFound EHost id) c c' r
      | Some h =>
          if decide (references (c_folders c) to)
          then r = Ok () ∧ c' = put_hosts (<[id := refiled to now h]> (c_hosts c)) c
          else refused (Sqlite ForeignKeyViolation) c c' r
      end
  | SetTags id ts => λ r c',
      if decide (Forall (λ t, is_Some (c_tags c !! t)) ts ∧ (ts = [] ∨ is_Some (c_hosts c !! id)))
      then r = Ok () ∧ ∃ l, StronglySorted Z.le l ∧ NoDup l ∧ (∀ t, t ∈ l ↔ t ∈ ts) ∧
           c' = put_hosts (alter (λ h, with_tags h l) id (c_hosts c)) c
      else refused (Sqlite ForeignKeyViolation) c c' r
  | RecordConnection id at_ => λ r c',
      r = Ok () ∧ c' = put_hosts (alter (connected at_) id (c_hosts c)) c
  | FindAlias alias => λ r c', c' = c ∧
      match r with
      | Ok (Some h) =>
          c_hosts c !! h_id h = Some h ∧ alias_of (h_source h) (h_source_alias h) = Some alias
      | Ok None => ∀ id h, c_hosts c !! id = Some h →
          alias_of (h_source h) (h_source_alias h) ≠ Some alias
      | Err _ => False
      end
  | CreateFolder parent name now => λ r c',
      if decide (trim name = []) then refused (Invalid EmptyFolderName) c c' r
      else ∃ id p,
        c_folders c !! id = None ∧ last_position c parent p ∧
        writes (folder_refused c id parent (trim name)) id c'
          (put_folders (<[id := MkFolder id parent (trim name) p now now]> (c_folders c)) c) c r
  | RenameFolder id name now => λ r c',
      if decide (trim name = []) then refused (Invalid EmptyFolderName) c c' r
      else match c_folders c !! id with
      | None => refused (NotFound EFolder id) c c' r
      | Some g =>
          writes (folder_refused c id (f_parent_id g) (trim name)) () c'
            (put_folders (<[id := MkFolder id (f_parent_id g) (trim name) (f_position g)
                                    (f_created_at g) now]> (c_folders c)) c) c r
      end
  | Reparent id to now => λ r c',
      (∃ target, to = Some target ∧ under (c_folders c) id target ∧
                 refused (FolderCycle id target) c c' r) ∨
      (∀ target, to = Some target → ¬ under (c_folders c) id target) ∧
      match c_folders c !! id with
      | None => refused (NotFound EFolder id) c c' r
      | Some g =>
          writes (folder_refused c id to (f_name g)) () c'
            (put_folders (<[id := MkFolder id to (f_name g) (f_position g) (f_created_at g) now]>
                            (c_folders c)) c) c r
      end
  | DeleteFolder id => λ r c',
      match c_folders c !! id with
      | None => refused (NotFound EFolder id) c c' r
      | Some _ =>
          r = Ok () ∧ c_tags c' = c_tags c ∧
          (∀ f g, c_folders c' !! f = Some g ↔ c_folders c !! f = Some g ∧ ¬ under (c_folders c) id f) ∧
          (∀ h, c_hosts c' !! h =
             (λ x, match h_folder_id x with
                   | Some f => if decide (is_Some (c_folders c' !! f)) then x else unfiled_host x
                   | None => x
                   end) <$> c_hosts c !! h)
      end
  | Tree => λ r c', c' = c ∧ ∃ fs, r = Ok fs ∧
      fs ≡ₚ (map_to_list (c_folders c)).*2 ∧
      ∀ i g p, fs !! i = Some g → f_parent_id g = Some p →
        ∃ j g', j < i ∧ fs !! j = Some g' ∧ f_id g' = p
  | GetOrCreateTag name color now => λ r c',
      if decide (trim name = []) then refused (Invalid EmptyTagName) c c' r
      else ∃ id, r = Ok id ∧
        ((∃ t, c_tags c !! id = Some t ∧ nocase (t_name t) = nocase (trim name) ∧ c' = c) ∨
         (∀ j t, c_tags c !! j = Some t → nocase (t_name t) ≠ nocase (trim name)) ∧
         c_tags c !! id = None ∧
         c' = put_tags (<[id := MkTag id (trim name) color now]> (c_tags c)) c)
  | DeleteTag id => λ r c',
      match c_tags c !! id with
      | None => refused (NotFound ETag id) c c' r
      | Some _ =>
          r = Ok () ∧ c_folders c' = c_folders c ∧ c_tags c' = delete id (c_tags c) ∧
          (∀ h, c_hosts c' !! h =
             (λ x, with_tags x (filter (λ t, t ≠ id) (h_tags x))) <$> c_hosts c !! h)
      end
  | ListTags => λ r c', c' = c ∧ ∃ ts, r = Ok ts ∧
      ts ≡ₚ (map_to_list (c_tags c)).*2 ∧
      StronglySorted (λ a b, str_le (nocase (t_name a)) (nocase (t_name b)) = true) ts
  end.

(** * Histories

    What a caller sees of the store: its calls with their answers. *)
Definition event : Type := { k : call & result StoreError (answer k) }.

Inductive spec_history : Collection → list event → Collection → Prop :=
  | spec_nil c : spec_history c [] c
  | spec_cons c c1 c2 k r es :
      spec k c r c1 → spec_history c1 es c2 → spec_history c (existT k r :: es) c2.
