(* ===== verification/StoreRefines.v ===== *)
(** * The repositories implement the collection

    Every call, run on the tables, answers and changes what [Collection.spec]
    allows of the collection the tables stand for ([view]); so every history of
    the store is a history of the specification, with the same answers. *)
From S2P Require Import Prelude Text Model Database Forest StoreInv Folders Hosts Tags Collection.

(** What holds between two calls: the database is well formed, nobody
    panicked holding the lock, ids are positive and connection counts are
    [i64]s. *)
Record store_ok (s : Store) : Prop := {
  so_db : db_ok (db s);
  so_open : poisoned s = false;
  so_counts j r : hosts (db s) !! j = Some r → (r_connect_count r ≤ i64_max)%Z;
  so_ids f : is_Some (folders (db s) !! f) → (0 < f)%Z
}.

(** The calls the promise is about: any values of the Rust types, but no folder
    created under the very id it is about to get, which the foreign key accepts
    and after which the tree is none (see [create_self_parent]), and no host
    connected more than [i64::MAX] times. *)
Definition call_fits `{Engine} (s : Store) (k : call) : Prop :=
  match k with
  | CreateHost n _ => new_host_wf n
  | UpdateHost h _ => host_wf h
  | CreateFolder parent _ _ => parent ≠ Some (fresh_rowid (dom (folders (db s))))
  | RecordConnection id _ => ∀ r, hosts (db s) !! id = Some r → (r_connect_count r < i64_max)%Z
  | _ => True
  end.

(** * Reading a database as a collection *)

Lemma view_folder d f : c_folders (view d) !! f = (λ r, folder_of (f, r)) <$> folders d !! f.
Proof. cbn. rewrite map_lookup_imap. by destruct (folders d !! f). Qed.

Lemma view_tag d t : c_tags (view d) !! t = (λ r, tag_of (t, r)) <$> tags d !! t.
Proof. cbn. rewrite map_lookup_imap. by destruct (tags d !! t). Qed.

Lemma view_host d id : c_hosts (view d) !! id = hosts d !! id ≫= λ r, ok (read_host d (id, r)).
Proof. cbn. by rewrite map_lookup_imap. Qed.

Lemma view_references d o : references (c_folders (view d)) o ↔ references (folders d) o.
Proof. destruct o as [f|]; [|done]. unfold references. by rewrite view_folder, fmap_is_Some. Qed.

Lemma view_has_tag d t : is_Some (c_tags (view d) !! t) ↔ is_Some (tags d !! t).
Proof. by rewrite view_tag, fmap_is_Some. Qed.

(** What the columns of a row say of the host read from it. *)
Lemma row_fields id r h :
  row_to_host id r = Ok h →
  h_id h = id ∧ h_folder_id h = r_folder_id r ∧ h_name h = r_name r ∧ h_hostname h = r_hostname r ∧
  h_username h = r_username r ∧ h_last_connected_at h = r_last_connected_at r ∧
  h_connect_count h = r_connect_count r ∧ h_created_at h = r_created_at r ∧
  alias_of (h_source h) (h_source_alias h) = host_key r.
Proof.
  intros Hr. pose proof (row_reads_history id r h Hr) as (Hid & Hl & Hc & Ht & _).
  unfold row_to_host in Hr. repeat (apply result_bind_Ok in Hr as (? & ? & Hr)). injection Hr as <-.
  repeat match goal with
  | H : map_err _ (HostSource_try_from (r_source r)) = Ok _ |- _ =>
      destruct (HostSource_try_from (r_source r)) as [src|] eqn:Hs in H; [|done];
      injection H as <-
  end.
  split_and!; try done. cbn. apply HostSource_try_from_Ok in Hs. unfold host_key.
  rewrite Hs. by destruct src.
Qed.

Lemma read_host_Ok d id r h :
  read_host d (id, r) = Ok h ↔
  ∃ h0, row_to_host id r = Ok h0 ∧ h = with_tags h0 (tags_for d id).
Proof.
  unfold read_host. cbn [fst snd]. rewrite result_bind_Ok. split.
  - intros (h0 & H0 & [= <-]). exists h0. destruct (row_to_host id r) as [h1|] eqn:E; [|done].
    injection H0 as ->. split; [done|]. by destruct (row_fields id r h0 E) as [-> _].
  - intros (h0 & H0 & ->). exists h0. rewrite H0. split; [done|].
    by destruct (row_fields id r h0 H0) as [-> _].
Qed.

(** Reading only looks at the row and at the host's tags. *)
Lemma read_host_ext d d' id r :
  tags_for d' id = tags_for d id → read_host d' (id, r) = read_host d (id, r).
Proof.
  intros Ht. unfold read_host. cbn [fst snd].
  destruct (row_to_host id r) as [h|] eqn:E; [|done]. cbn.
  destruct (row_fields id r h E) as [-> _]. by rewrite Ht.
Qed.

Lemma tags_for_ext d d' id :
  (∀ t, (id, t) ∈ host_tags d' ↔ (id, t) ∈ host_tags d) → tags_for d' id = tags_for d id.
Proof.
  intros Ht. unfold tags_for. do 3 f_equal. apply set_eq. intros [i t].
  rewrite !elem_of_filter. cbn. split; intros [-> Hin]; (split; [done|]); by apply Ht.
Qed.

Lemma tags_for_sorted d id : StronglySorted Z.le (tags_for d id).
Proof. apply (StronglySorted_merge_sort Z.le). Qed.

Lemma tags_for_NoDup d id : NoDup (tags_for d id).
Proof.
  unfold tags_for. rewrite merge_sort_Permutation. apply NoDup_fmap_2_strong; [|apply NoDup_elements].
  intros [i t] [j t'] [Hi _]%elem_of_elements%elem_of_filter [Hj _]%elem_of_elements%elem_of_filter.
  cbn in *. by intros ->; subst.
Qed.

(** A sorted list without repetitions is determined by its elements. *)
Lemma sorted_set_eq (l k : list Z) :
  StronglySorted Z.le l → NoDup l → StronglySorted Z.le k → NoDup k → (∀ t, t ∈ l ↔ t ∈ k) → l = k.
Proof.
  intros Hl Hl' Hk Hk' Heq. eapply (StronglySorted_unique Z.le); [done..|].
  by apply NoDup_Permutation.
Qed.

(** The rows UPDATE and ON DELETE SET NULL leave read as the host they were,
    changed in the same place. *)
Ltac reads_alike :=
  let Hr := fresh "Hr" in
  intros Hr; unfold row_to_host in *;
  repeat (apply result_bind_Ok in Hr as (? & ? & Hr)); injection Hr as <-; cbn;
  repeat match goal with H : _ = Ok _ |- _ => rewrite H; cbn end.

Lemma moved_row_reads id r h to now :
  row_to_host id r = Ok h → row_to_host id (moved_row to now r) = Ok (refiled to now h).
Proof. by reads_alike. Qed.

Lemma unfiled_reads id r h : row_to_host id r = Ok h → row_to_host id (unfiled r) = Ok (unfiled_host h).
Proof. by reads_alike. Qed.

Lemma connected_row_reads id r h at_ :
  row_to_host id r = Ok h → (r_connect_count r < i64_max)%Z →
  row_to_host id (connected_row at_ r) = Ok (connected at_ h).
Proof.
  intros Hr Hc. revert Hr. assert (get_i64 22 (r_connect_count r) = Ok (r_connect_count r)) as Hi.
  { apply get_i64_ok. lia. }
  assert (get_i64 22 (r_connect_count r + 1) = Ok (r_connect_count r + 1)%Z) as Hi1.
  { apply get_i64_ok. lia. }
  intros Hr; unfold row_to_host in *. rewrite Hi in Hr.
  repeat (apply result_bind_Ok in Hr as (? & ? & Hr)). injection Hr as <-. cbn.
  repeat match goal with H : _ = Ok _ |- _ => rewrite H; cbn end. by simplify_eq.
Qed.

(** UPDATE of one row behind the lock, then [NotFound] when there was none. *)
Lemma update_run {A} (t : Db → gmap Z A) what id f write s :
  poisoned s = false →
  (lock;; changed ← execute (λ d, update_row (t d) id f write d); or_not_found what id changed) s =
  match t (db s) !! id with
  | None => (Err (NotFound what id), s)
  | Some r =>
      match write id (f r) (db s) with
      | Ok d => (Ok (), MkStore false d)
      | Err e => (Err (Sqlite e), s)
      end
  end.
Proof.
  intros Hp. rewrite M_bind_eq. unfold lock. rewrite Hp, M_bind_eq. unfold execute, update_row.
  destruct (t (db s) !! id) as [r|]; [|destruct s as [p d]; cbn in *; by rewrite Hp].
  rewrite Hp. by destruct (write id (f r) (db s)).
Qed.

Lemma delete_run {A} (t : Db → gmap Z A) what id del s :
  poisoned s = false →
  (lock;; changed ← execute (λ d, delete_row (t d) id del d); or_not_found what id changed) s =
  match t (db s) !! id with
  | None => (Err (NotFound what id), s)
  | Some _ => (Ok (), MkStore false (del id (db s)))
  end.
Proof.
  intros Hp. rewrite M_bind_eq. unfold lock. rewrite Hp, M_bind_eq. unfold execute, delete_row.
  destruct (t (db s) !! id) as [r|]; [by rewrite Hp|]. destruct s as [p d]. cbn in *. by rewrite Hp.
Qed.

Lemma alter_absent {A} (f : A → A) (t : gmap Z A) id : t !! id = None → alter f id t = t.
Proof.
  intros Ht. apply map_eq. intros j. destruct (decide (j = id)) as [->|Hne].
  - by rewrite lookup_alter_eq, Ht.
  - by rewrite lookup_alter_ne.
Qed.

(** A row that keeps its key may be written again, if its folder exists. *)
Lemma rewrite_host d id r r' :
  db_ok d → hosts d !! id = Some r → host_check r' → host_key r' = host_key r →
  write_host id r' d =
  if decide (references (folders d) (r_folder_id r'))
  then Ok (set_hosts (<[id:=r']> (hosts d)) d) else Err ForeignKeyViolation.
Proof.
  intros Hd Hr Hc Hk. unfold write_host. rewrite (bool_decide_eq_true_2 _ Hc). cbn [negb].
  rewrite bool_decide_eq_true_2; cbn [negb].
  - destruct (decide (references _ _)) as [Href|Href];
      [by rewrite bool_decide_eq_true_2|by rewrite bool_decide_eq_false_2].
  - intros j rj Hj. destruct (decide (host_key r' = None)) as [|Hne]; [tauto|].
    destruct (decide (host_key rj = host_key r')) as [Heq|]; [|tauto]. left.
    apply (ok_hosts_unique d Hd j id rj r Hj Hr); congruence.
Qed.

(** [set_tags] as one equation. *)
Lemma insert_tags_refused id ts d e : insert_tags id ts d = Err e → e = ForeignKeyViolation.
Proof.
  revert d. induction ts as [|t ts IH]; intros d; [done|]. cbn [insert_tags]. unfold insert_host_tag.
  case_decide; cbn; [apply IH|by intros [= <-]].
Qed.

Lemma set_tags_eq id ts s :
  poisoned s = false →
  set_tags id ts s =
  if decide (Forall (λ t, is_Some (tags (db s) !! t)) ts ∧ (ts = [] ∨ is_Some (hosts (db s) !! id)))
  then (Ok (), MkStore false (set_host_tags
         (list_to_set (pair id <$> ts) ∪ filter (λ p, p.1 ≠ id) (host_tags (db s))) (db s)))
  else (Err (Sqlite ForeignKeyViolation), s).
Proof.
  intros Hp. unfold set_tags. rewrite M_bind_eq. unfold lock. rewrite Hp. unfold execute, replace_tags.
  set (d0 := set_host_tags (filter (λ p, p.1 ≠ id) (host_tags (db s))) (db s)).
  destruct (insert_tags id ts d0) as [d'|e] eqn:Hi; cbn [mbind result_bind].
  - apply insert_tags_spec in Hi as (Hid & Hts & ->). rewrite decide_True; [by rewrite Hp|].
    split; [done|]. destruct ts; [by left|]. right. by apply Hid.
  - rewrite decide_False; [by rewrite (insert_tags_refused _ _ _ _ Hi)|]. intros [Hts Hid].
    assert (ts ≠ [] → is_Some (hosts d0 !! id)) as Hid' by (by destruct Hid).
    by rewrite (proj2 (insert_tags_spec id ts d0 _) (conj Hid' (conj Hts eq_refl))) in Hi.
Qed.

(** The order of the rows is the order of the hosts. *)
Lemma host_le_listed d a b x y :
  read_host d a = Ok x → read_host d b = Ok y → host_le a b → listed_before x y.
Proof.
  destruct a as [i r], b as [j q]. intros (x0 & Hx & ->)%read_host_Ok (y0 & Hy & ->)%read_host_Ok.
  destruct (row_fields i r x0 Hx) as (_ & _ & Hn & _ & _ & Hl & _).
  destruct (row_fields j q y0 Hy) as (_ & _ & Hn' & _ & _ & Hl' & _).
  unfold host_le, listed_before. cbn. by rewrite Hn, Hn', Hl, Hl'.
Qed.

Lemma accepts_selects f d id r h :
  read_host d (id, r) = Ok h → accepts f d id r ↔ selects f h.
Proof.
  intros (h0 & Hh & ->)%read_host_Ok.
  destruct (row_fields id r h0 Hh) as (_ & Hf & Hn & Hh' & Hu & _).
  unfold accepts, selects. cbn. rewrite Hf, Hn, Hh', Hu. by setoid_rewrite tags_for_elem.
Qed.

Lemma Forall2_sorted {A B} (R : relation A) (R' : relation B) (P : A → B → Prop) l k :
  (∀ a b x y, P a x → P b y → R a b → R' x y) →
  Forall2 P l k → StronglySorted R l → StronglySorted R' k.
Proof.
  intros HR Hlk. induction Hlk as [|a x l k Hax Hlk IH]; intros Hl; [constructor|].
  apply StronglySorted_inv in Hl as [Hl Ha]. constructor; [by apply IH|].
  apply Forall_forall. intros y [j Hy]%list_elem_of_lookup.
  destruct (Forall2_lookup_r _ _ _ _ _ Hlk Hy) as (b & Hb & Hby).
  rewrite Forall_forall in Ha. eapply HR; [done..|]. apply Ha. by eapply list_elem_of_lookup_2.
Qed.

Lemma filter_sorted {A} (R : relation A) (P : A → Prop) `{!∀ x, Decision (P x)} l :
  StronglySorted R l → StronglySorted R (filter P l).
Proof.
  induction 1 as [|x l Hl IH Hx]; [constructor|]. rewrite filter_cons. case_decide; [|done].
  constructor; [done|]. by apply Forall_filter.
Qed.

Section reads.
Context (s : Store) (Hs : store_ok s).

(** Every row is read. *)
Lemma view_reads id r :
  hosts (db s) !! id = Some r →
  ∃ h, row_to_host id r = Ok h ∧ c_hosts (view (db s)) !! id = Some (with_tags h (tags_for (db s) id)).
Proof using Hs.
  intros Hr. destruct (row_ok_reads id r) as [h Hh].
  - by eapply (ok_rows _ (so_db s Hs)).
  - by eapply (so_counts s Hs).
  - exists h. split; [done|]. rewrite view_host, Hr. cbn [mbind option_bind].
    by rewrite (proj2 (read_host_Ok (db s) id r _) (ex_intro _ h (conj Hh eq_refl))).
Qed.

Lemma view_reads_inv id h :
  c_hosts (view (db s)) !! id = Some h →
  ∃ r h0, hosts (db s) !! id = Some r ∧ row_to_host id r = Ok h0 ∧
    h = with_tags h0 (tags_for (db s) id).
Proof using Hs.
  intros Hh. destruct (hosts (db s) !! id) as [r|] eqn:Hr.
  - destruct (view_reads id r Hr) as (h0 & H0 & Hv). exists r, h0. split_and!; congruence.
  - by rewrite view_host, Hr in Hh.
Qed.

Lemma view_host_None id : c_hosts (view (db s)) !! id = None ↔ hosts (db s) !! id = None.
Proof using Hs.
  split; intros Hn; [|by rewrite view_host, Hn].
  destruct (hosts (db s) !! id) as [r|] eqn:Hr; [|done].
  destruct (view_reads id r Hr) as (h & _ & Hv). congruence.
Qed.

Lemma view_has_host id : is_Some (c_hosts (view (db s)) !! id) ↔ is_Some (hosts (db s) !! id).
Proof using Hs. rewrite <- !not_eq_None_Some. by rewrite view_host_None. Qed.

(** * Why a row may not be written *)

Lemma alias_taken_rows id r :
  alias_taken (view (db s)) id (host_key r) ↔ ¬ host_unique (hosts (db s)) id r.
Proof using Hs.
  unfold host_unique. rewrite map_not_Forall by apply _. unfold alias_taken, map_Exists. split.
  - intros (j & h & Hj & Hne & Hk & Ha).
    destruct (view_reads_inv j h Hj) as (rj & h0 & Hrj & Hread & ->). exists j, rj.
    destruct (row_fields j rj h0 Hread) as (_ & _ & _ & _ & _ & _ & _ & _ & Hkey). cbn in Ha.
    split; [done|]. rewrite Hkey in Ha. intros [?|[?|?]]; congruence.
  - intros (j & rj & Hrj & Hn). destruct (view_reads j rj Hrj) as (h0 & Hread & Hv).
    exists j, (with_tags h0 (tags_for (db s) j)). split; [done|].
    destruct (row_fields j rj h0 Hread) as (_ & _ & _ & _ & _ & _ & _ & _ & Hkey). cbn. rewrite Hkey.
    destruct (decide (host_key rj = host_key r)); naive_solver.
Qed.

Lemma write_host_view id r :
  (host_check r ↔ r_port r ≠ 0%Z) →
  write_host id r (db s) =
  match host_refused (view (db s)) id (r_port r) (host_key r) (r_folder_id r) with
  | Some e => Err e
  | None => Ok (set_hosts (<[id:=r]> (hosts (db s))) (db s))
  end.
Proof using Hs.
  intros Hc. unfold write_host, host_refused.
  rewrite (bool_decide_ext _ _ Hc). case_bool_decide as Hp; cbn [negb]; [|by rewrite decide_True by tauto].
  rewrite (decide_False (P := r_port r = 0%Z)) by done.
  case_bool_decide as Hu; cbn [negb].
  - rewrite decide_False by (rewrite alias_taken_rows; tauto).
    rewrite (bool_decide_ext _ _ (symmetry (view_references (db s) (r_folder_id r)))).
    case_bool_decide; cbn [negb]; [by rewrite decide_True|by rewrite decide_False].
  - by rewrite decide_True by (by apply alias_taken_rows).
Qed.

Lemma view_set_host id r h :
  row_to_host id r = Ok h →
  view (set_hosts (<[id:=r]> (hosts (db s))) (db s)) =
  put_hosts (<[id := with_tags h (tags_for (db s) id)]> (c_hosts (view (db s)))) (view (db s)).
Proof.
  intros Hr. unfold put_hosts. unfold view at 1. cbn [folders hosts tags set_hosts]. f_equal.
  apply map_eq. intros j. rewrite map_lookup_imap.
  destruct (decide (j = id)) as [->|Hne].
  - rewrite !lookup_insert_eq. cbn [mbind option_bind].
    rewrite (read_host_ext (db s)) by done.
    by rewrite (proj2 (read_host_Ok (db s) id r _) (ex_intro _ h (conj Hr eq_refl))).
  - rewrite !lookup_insert_ne by done. rewrite view_host.
    destruct (hosts (db s) !! j); [|done]. cbn. by rewrite (read_host_ext (db s)).
Qed.
End reads.

(** * Hosts *)
Section calls.
Context `{Engine} (s : Store) (Hs : store_ok s).

(** The promise of one call. *)
Definition keeps_promise (k : call) : Prop :=
  spec k (view (db s)) (run_call k s).1 (view (db (run_call k s).2)) ∧ store_ok (run_call k s).2.

Lemma store_eta : MkStore false (db s) = s.
Proof using Hs. destruct s as [p d]. cbn. f_equal. symmetry. apply (so_open _ Hs). Qed.

(** A method that only reads. *)
Lemma promise_read k r :
  run_call k s = (r, s) → spec k (view (db s)) r (view (db s)) → keeps_promise k.
Proof using Hs. intros Hr Hk. unfold keeps_promise. by rewrite Hr. Qed.

Lemma promise_ok k r d :
  run_call k s = (r, MkStore false d) → spec k (view (db s)) r (view d) →
  store_ok (MkStore false d) → keeps_promise k.
Proof using Type. intros Hr Hk Hd. unfold keeps_promise. by rewrite Hr. Qed.

Lemma store_ok_write_host id r d :
  write_host id r (db s) = Ok d → row_ok r → (r_connect_count r ≤ i64_max)%Z →
  store_ok (MkStore false d).
Proof using Hs.
  intros Hw Hr Hc. split; [|done|..].
  - eapply write_host_ok; [apply Hs|done..].
  - apply write_host_Ok in Hw as (_ & _ & _ & ->). cbn.
    intros j x [[_ <-]|[_ Hx]]%lookup_insert_Some; [done|]. by eapply (so_counts s Hs).
  - apply write_host_Ok in Hw as (_ & _ & _ & ->). apply (so_ids s Hs).
Qed.

Lemma new_row_key n now : host_key (new_row n now) = alias_of (n_source n) (n_source_alias n).
Proof. unfold host_key. cbn. by destruct (n_source n). Qed.
Lemma updated_row_key h now old :
  host_key (updated_row h now old) = alias_of (h_source h) (h_source_alias h).
Proof. unfold host_key. cbn. by destruct (h_source h). Qed.

Lemma create_host_promise n now : new_host_wf n → keeps_promise (CreateHost n now).
Proof using Hs.
  intros Hn. pose proof (create_host_row_run n now s (so_open s Hs)) as Hrun. cbn zeta in Hrun.
  set (id := fresh_rowid _) in Hrun.
  assert (hosts (db s) !! id = None) as Hid by apply not_elem_of_dom, fresh_rowid_fresh.
  pose proof (write_host_view s Hs id (new_row n now) (new_row_check n now Hn)) as Hw.
  rewrite new_row_key in Hw. change (r_port (new_row n now)) with (n_port n) in Hw.
  change (r_folder_id (new_row n now)) with (n_folder_id n) in Hw.
  destruct (host_refused _ _ _ _ _) as [e|] eqn:Hwhy.
  - rewrite Hw in Hrun. eapply promise_read; [exact Hrun|]. exists id.
    split; [by apply view_host_None|]. by rewrite Hwhy.
  - pose proof Hw as Hw'. rewrite Hw in Hrun. eapply promise_ok; [exact Hrun|..].
    + exists id. split; [by apply view_host_None|]. rewrite Hwhy. split; [done|].
      rewrite (view_set_host s id _ _ (new_row_reads id n now Hn)).
      by rewrite (tags_for_fresh (db s) id (so_db s Hs) Hid).
    + apply (store_ok_write_host _ _ _ Hw'); [|done]. apply new_row_ok; [done|].
      by apply write_host_Ok in Hw' as [? _].
Qed.

Lemma get_host_promise id : keeps_promise (GetHost id).
Proof using Hs.
  pose proof (get_host_run id s (so_open s Hs)) as Hrun.
  destruct (hosts (db s) !! id) as [r|] eqn:Hr.
  - destruct (view_reads s Hs id r Hr) as (h & Hh & Hv).
    rewrite (proj2 (read_host_Ok (db s) id r _) (ex_intro _ h (conj Hh eq_refl))) in Hrun.
    eapply promise_read; [exact Hrun|]. cbn [spec]. by rewrite Hv.
  - eapply promise_read; [exact Hrun|]. cbn [spec]. by rewrite (proj2 (view_host_None s Hs id)).
Qed.

Lemma update_host_promise h now : host_wf h → keeps_promise (UpdateHost h now).
Proof using Hs.
  intros Hh. pose proof (update_host_row_run h now s (so_open s Hs)) as Hrun.
  destruct (hosts (db s) !! h_id h) as [old|] eqn:Hold.
  2:{ rewrite store_eta in Hrun. eapply promise_read; [exact Hrun|]. cbn [spec].
      by rewrite (proj2 (view_host_None s Hs (h_id h))). }
  destruct (view_reads s Hs _ _ Hold) as (h0 & H0 & Hv).
  destruct (row_fields _ _ _ H0) as (_ & _ & _ & _ & _ & Hl & Hc & Ht & _).
  pose proof (so_counts s Hs _ _ Hold) as Hcount.
  pose proof (write_host_view s Hs (h_id h) _ (updated_row_check h now old Hh)) as Hw.
  rewrite updated_row_key in Hw. change (r_port (updated_row h now old)) with (h_port h) in Hw.
  change (r_folder_id (updated_row h now old)) with (h_folder_id h) in Hw.
  destruct (host_refused _ _ _ _ _) as [e|] eqn:Hwhy.
  - rewrite Hw in Hrun. eapply promise_read; [exact Hrun|]. cbn [spec]. rewrite Hv. by rewrite Hwhy.
  - pose proof Hw as Hw'. rewrite Hw in Hrun. eapply promise_ok; [exact Hrun|..].
    + cbn [spec]. rewrite Hv, Hwhy. split; [done|].
      rewrite (view_set_host s _ _ _ (updated_row_reads h old now Hh Hcount)).
      do 2 f_equal. unfold edited_host, host_updated. cbn. by rewrite Hl, Hc, Ht.
    + apply (store_ok_write_host _ _ _ Hw'); [|done]. apply updated_row_ok; [done|].
      by apply write_host_Ok in Hw' as [? _].
Qed.

(** A row written back in place, as the host [h] it now reads as. *)
Lemma rewritten id r r' h :
  hosts (db s) !! id = Some r → row_ok r → row_ok r' → host_key r' = host_key r →
  (r_connect_count r' ≤ i64_max)%Z → row_to_host id r' = Ok h →
  references (folders (db s)) (r_folder_id r') →
  let d' := set_hosts (<[id:=r']> (hosts (db s))) (db s) in
  view d' = put_hosts (<[id := with_tags h (tags_for (db s) id)]> (c_hosts (view (db s)))) (view (db s)) ∧
  store_ok (MkStore false d') ∧ write_host id r' (db s) = Ok d'.
Proof using Hs.
  intros Hr Hok Hok' Hk Hc Hread Href d'.
  assert (write_host id r' (db s) = Ok d') as Hw.
  { rewrite (rewrite_host (db s) id r r') by (try apply Hs; try done; apply Hok').
    by rewrite decide_True. }
  split_and!; [by apply view_set_host|by eapply store_ok_write_host|done].
Qed.

Lemma move_host_promise id to now : keeps_promise (MoveHost id to now).
Proof using Hs.
  pose proof (update_run hosts EHost id (moved_row to now) write_host s (so_open s Hs)) as Hrun.
  destruct (hosts (db s) !! id) as [r|] eqn:Hr.
  2:{ eapply promise_read; [exact Hrun|]. cbn [spec]. by rewrite (proj2 (view_host_None s Hs id)). }
  destruct (view_reads s Hs id r Hr) as (h & Hh & Hv).
  pose proof (ok_rows _ (so_db s Hs) id r Hr) as Hok.
  destruct (decide (references (folders (db s)) to)) as [Href|Href].
  - destruct (rewritten id r (moved_row to now r) (refiled to now h)) as (Hview & Hd & Hw);
      [done..|by apply (so_counts s Hs id r)|by apply moved_row_reads|done|].
    rewrite Hw in Hrun. eapply promise_ok; [exact Hrun| |exact Hd]. cbn [spec]. rewrite Hv.
    rewrite decide_True by (by apply view_references). by rewrite Hview.
  - rewrite (rewrite_host (db s) id r) in Hrun by (try apply Hs; try done; apply Hok).
    rewrite decide_False in Hrun by done. eapply promise_read; [exact Hrun|]. cbn [spec]. rewrite Hv.
    by rewrite decide_False by (by rewrite view_references).
Qed.

Lemma record_connection_promise id at_ :
  (∀ r, hosts (db s) !! id = Some r → (r_connect_count r < i64_max)%Z) →
  keeps_promise (RecordConnection id at_).
Proof using Hs.
  intros Hc. assert (run_call (RecordConnection id at_) s =
    match hosts (db s) !! id with
    | None => (Ok (), s)
    | Some r =>
        match write_host id (connected_row at_ r) (db s) with
        | Ok d => (Ok (), MkStore false d)
        | Err e => (Err (Sqlite e), s)
        end
    end) as Hrun.
  { cbn. unfold record_connection. rewrite M_bind_eq. unfold lock. rewrite (so_open s Hs), M_bind_eq.
    unfold execute, update_row. destruct (hosts (db s) !! id) as [r|].
    - rewrite (so_open s Hs). by destruct (write_host _ _ _).
    - by rewrite (so_open s Hs), store_eta. }
  destruct (hosts (db s) !! id) as [r|] eqn:Hr.
  - destruct (view_reads s Hs id r Hr) as (h & Hh & Hv).
    pose proof (ok_rows _ (so_db s Hs) id r Hr) as Hok. specialize (Hc r eq_refl).
    destruct (rewritten id r (connected_row at_ r) (connected at_ h)) as (Hview & Hd & Hw);
      [done..| |by apply connected_row_reads|by apply (ok_host_folder _ (so_db s Hs) id r)|].
    { cbn. lia. }
    rewrite Hw in Hrun. eapply promise_ok; [exact Hrun| |exact Hd]. cbn [spec]. rewrite Hview.
    split; [done|]. f_equal. apply map_eq. intros j. destruct (decide (j = id)) as [->|Hne].
    + by rewrite lookup_insert_eq, lookup_alter_eq, Hv.
    + by rewrite lookup_insert_ne, lookup_alter_ne.
  - eapply promise_read; [exact Hrun|]. cbn [spec]. split; [done|].
    rewrite alter_absent; [by destruct (view (db s))|by apply view_host_None].
Qed.

Lemma delete_host_promise id : keeps_promise (DeleteHost id).
Proof using Hs.
  pose proof (delete_run hosts EHost id delete_host_row s (so_open s Hs)) as Hrun.
  destruct (hosts (db s) !! id) as [r|] eqn:Hr.
  2:{ eapply promise_read; [exact Hrun|]. cbn [spec]. by rewrite (proj2 (view_host_None s Hs id)). }
  eapply promise_ok; [exact Hrun|..].
  - cbn [spec]. destruct (view_reads s Hs id r Hr) as (h & _ & ->). split; [done|].
    unfold put_hosts. unfold view at 1. cbn. f_equal. apply map_eq. intros j.
    rewrite map_lookup_imap. destruct (decide (j = id)) as [->|Hne].
    + by rewrite !lookup_delete_eq.
    + rewrite !lookup_delete_ne by done. rewrite map_lookup_imap.
      destruct (hosts (db s) !! j); [|done]. cbn. f_equal. apply read_host_ext, tags_for_ext.
      intros t. cbn. rewrite elem_of_filter. cbn. tauto.
  - split; cbn.
    + apply delete_host_row_ok, Hs.
    + done.
    + intros j x [_ Hx]%lookup_delete_Some. by eapply (so_counts s Hs).
    + apply (so_ids s Hs).
Qed.

Lemma set_tags_promise id ts : keeps_promise (SetTags id ts).
Proof using Hs.
  pose proof (set_tags_eq id ts s (so_open s Hs)) as Hrun. destruct (decide _) as [Hcan|Hcan] in Hrun.
  - set (d' := set_host_tags _ (db s)) in Hrun. destruct Hcan as [Hts Hid].
    assert (∀ h t, (h, t) ∈ host_tags d' ↔ if decide (h = id) then t ∈ ts else (h, t) ∈ host_tags (db s))
      as Hht.
    { intros h t. cbn. rewrite elem_of_union, elem_of_list_to_set, list_elem_of_fmap, elem_of_filter.
      cbn. case_decide as Hd; [subst h|]; naive_solver. }
    eapply promise_ok; [exact Hrun|..].
    + cbn [spec]. rewrite decide_True.
      2:{ split; [|by rewrite (view_has_host s Hs)]. eapply Forall_impl; [exact Hts|].
          intros t. by rewrite view_has_tag. }
      split; [done|]. exists (tags_for d' id).
      split_and!; [apply tags_for_sorted|apply tags_for_NoDup| |].
      { intros t. rewrite tags_for_elem, Hht. by rewrite decide_True. }
      unfold put_hosts. unfold view at 1. cbn [d' folders hosts tags set_host_tags]. f_equal.
      apply map_eq. intros j. rewrite map_lookup_imap. destruct (decide (j = id)) as [->|Hne].
      * rewrite lookup_alter_eq, view_host. destruct (hosts (db s) !! id) as [r|]; [|done]. cbn.
        unfold read_host. cbn [fst snd]. destruct (row_to_host id r) as [h|] eqn:Hh; [|done]. cbn.
        by destruct (row_fields id r h Hh) as [-> _].
      * rewrite lookup_alter_ne, view_host by done. destruct (hosts (db s) !! j); [|done]. cbn.
        f_equal. apply read_host_ext, tags_for_ext. intros t. rewrite Hht. by rewrite decide_False.
    + split; [|done|apply Hs..]. pose proof (set_tags_keeps id ts s (so_db s Hs)) as Hk.
      by rewrite Hrun in Hk.
  - eapply promise_read; [exact Hrun|]. cbn [spec]. rewrite decide_False; [done|].
    intros [Hts Hid]. apply Hcan. rewrite (view_has_host s Hs) in Hid. split; [|done].
    eapply Forall_impl; [exact Hts|]. intros t. by rewrite view_has_tag.
Qed.

Lemma list_hosts_promise f : keeps_promise (ListHosts f).
Proof using Hs.
  destruct (list_hosts_run f s (so_db s Hs) (so_open s Hs) (so_counts s Hs)) as (hs & Hall & Hrun).
  destruct (matching_spec f (db s)) as (Hnd & Hsort & Hin).
  eapply promise_read; [exact Hrun|]. cbn [spec]. split; [done|]. exists hs. split_and!.
  - done.
  - apply NoDup_alt. intros i j h Hi Hj.
    destruct (Forall2_lookup_r _ _ _ _ _ Hall Hi) as ([a ra] & Ha & Hra).
    destruct (Forall2_lookup_r _ _ _ _ _ Hall Hj) as ([b rb] & Hb & Hrb).
    apply (proj1 (NoDup_alt _) Hnd i j (a, ra)); [done|]. rewrite Hb. f_equal.
    pose proof (list_elem_of_lookup_2 _ _ _ Ha) as [Hra' _]%Hin.
    pose proof (list_elem_of_lookup_2 _ _ _ Hb) as [Hrb' _]%Hin.
    apply read_host_Ok in Hra as (ha & Hra & ->), Hrb as (hb & Hrb & Heq).
    destruct (row_fields a ra ha Hra) as [Ha' _], (row_fields b rb hb Hrb) as [Hb' _].
    assert (b = a) as -> by (apply (f_equal h_id) in Heq; cbn in Heq; congruence). congruence.
  - eapply Forall2_sorted; [|exact Hall|exact Hsort]. intros a b x y. apply host_le_listed.
  - intros h. split.
    + intros [i Hi]%list_elem_of_lookup.
      destruct (Forall2_lookup_r _ _ _ _ _ Hall Hi) as ([a ra] & Ha & Hra).
      pose proof (list_elem_of_lookup_2 _ _ _ Ha) as [Hra' Hacc]%Hin.
      split; [|by apply (accepts_selects f (db s) a ra)].
      pose proof Hra as (h0 & H0 & ->)%read_host_Ok. cbn [with_tags h_id].
      destruct (row_fields a ra h0 H0) as [-> _]. rewrite view_host, Hra'. cbn [mbind option_bind].
      by rewrite Hra.
    + intros [Hv Hsel]. destruct (view_reads_inv s Hs _ _ Hv) as (r & h0 & Hr & H0 & Heq).
      assert (read_host (db s) (h_id h, r) = Ok h) as Hread by (apply read_host_Ok; eauto).
      assert ((h_id h, r) ∈ matching f (db s)) as [i Hi]%list_elem_of_lookup.
      { apply Hin. split; [done|]. by apply (accepts_selects f (db s) _ r h). }
      destruct (Forall2_lookup_l _ _ _ _ _ Hall Hi) as (h' & Hh' & Hread'). rewrite Hread in Hread'.
      injection Hread' as <-. by eapply list_elem_of_lookup_2.
Qed.

Lemma find_alias_promise alias : keeps_promise (FindAlias alias).
Proof using Hs.
  set (p := λ kv : Z * HostRow, bool_decide (r_source kv.2 = #"ssh_config" ∧ r_source_alias kv.2 = Some alias)).
  assert (∀ kv, p kv = true ↔ host_key kv.2 = Some alias) as Hp.
  { intros kv. unfold p. rewrite bool_decide_eq_true. unfold host_key. case_decide; naive_solver. }
  assert (run_call (FindAlias alias) s =
    match find_first p (scan (hosts (db s))) with
    | Some kv => match read_host (db s) kv with Ok h => (Ok (Some h), s) | Err e => (Err e, s) end
    | None => (Ok None, s)
    end) as Hrun.
  { cbn. unfold find_by_source_alias. rewrite M_bind_eq. unfold lock. rewrite (so_open s Hs), M_bind_eq.
    unfold query. rewrite read_run. by destruct (find_first _ _). }
  destruct (find_first p (scan (hosts (db s)))) as [[id r]|] eqn:Hf.
  - apply find_first_Some in Hf as (l1 & l2 & Hl & Hk%Hp & _).
    assert (hosts (db s) !! id = Some r) as Hr by (apply scan_elem; rewrite Hl; set_solver).
    destruct (view_reads s Hs id r Hr) as (h & Hh & Hv).
    rewrite (proj2 (read_host_Ok (db s) id r _) (ex_intro _ h (conj Hh eq_refl))) in Hrun.
    destruct (row_fields id r h Hh) as (Hid & _ & _ & _ & _ & _ & _ & _ & Hkey).
    eapply promise_read; [exact Hrun|]. cbn [spec with_tags h_id h_source h_source_alias].
    rewrite Hid, Hkey. split_and!; [done..|]. exact Hk.
  - eapply promise_read; [exact Hrun|]. cbn [spec]. split; [done|]. intros id h Hv.
    destruct (view_reads_inv s Hs id h Hv) as (r & h0 & Hr & Hh & ->).
    destruct (row_fields id r h0 Hh) as (_ & _ & _ & _ & _ & _ & _ & _ & Hkey). cbn. rewrite Hkey.
    apply find_first_None in Hf. rewrite Forall_forall in Hf.
    specialize (Hf (id, r) (proj2 (scan_elem _ _ _) Hr)). rewrite <- not_true_iff_false, Hp in Hf. done.
Qed.

(** * Folders *)

Lemma parents_positive j r p : folders (db s) !! j = Some r → fr_parent_id r = Some p → (0 < p)%Z.
Proof using Hs.
  intros Hr Hp. apply (so_ids s Hs).
  destruct (chain_parent _ j r p (ok_forest _ (so_db s Hs)) Hr Hp) as [l Hl].
  by eapply chain_is_Some.
Qed.

(** With positive ids, [IFNULL(parent_id, -1)] tells parents apart. *)
Lemma parent_key (o o' : option Z) :
  (∀ p, o = Some p → (0 < p)%Z) → default (-1)%Z o = default (-1)%Z o' ↔ o = level o'.
Proof using Type.
  intros Ho. unfold level. destruct o as [p|], o' as [p'|]; cbn; case_decide; simplify_eq; try done.
  - specialize (Ho p eq_refl). split; [lia|done].
  - split; [by intros ->|by intros [= ->]].
  - specialize (Ho p eq_refl). split; [lia|done].
  - split; [intros <-; congruence|done].
Qed.

Lemma name_taken_rows id r :
  name_taken (view (db s)) id (fr_parent_id r) (fr_name r) ↔ ¬ folder_unique (folders (db s)) id r.
Proof using Hs.
  unfold folder_unique. rewrite map_not_Forall by apply _. unfold name_taken, map_Exists.
  assert (∀ j rj, folders (db s) !! j = Some rj →
    folder_key rj = folder_key r ↔ fr_parent_id rj = level (fr_parent_id r) ∧ nocase (fr_name rj) = nocase (fr_name r))
    as Hkey.
  { intros j rj Hj. unfold folder_key. rewrite pair_equal_spec, parent_key; [done|].
    intros p. by apply (parents_positive j rj). }
  split.
  - intros (j & g & Hj & Hne & Hp & Hn). rewrite view_folder in Hj.
    apply fmap_Some in Hj as (rj & Hj & ->). exists j, rj. split; [done|].
    intros [?|Hk]; [done|]. by apply Hk, (Hkey j rj Hj).
  - intros (j & rj & Hj & Hn). exists j, (folder_of (j, rj)). rewrite view_folder, Hj.
    split; [done|]. cbn. destruct (decide (folder_key rj = folder_key r)) as [Hk|]; [|tauto].
    apply (Hkey j rj Hj) in Hk. split; [tauto|done].
Qed.

Lemma write_folder_view id r :
  (∀ p, fr_parent_id r = Some p → p ≠ id ∨ is_Some (folders (db s) !! id)) →
  write_folder id r (db s) =
  match folder_refused (view (db s)) id (fr_parent_id r) (fr_name r) with
  | Some e => Err e
  | None => Ok (set_folders (<[id:=r]> (folders (db s))) (db s))
  end.
Proof using Hs.
  intros Hpar. unfold write_folder, folder_refused.
  assert (name_taken (view (db s)) id (fr_parent_id r) (fr_name r) ↔ ¬ folder_unique (folders (db s)) id r)
    as Hname by apply name_taken_rows.
  case_bool_decide as Hu; cbn [negb]; [|by rewrite decide_True by tauto].
  rewrite decide_False by tauto.
  assert (references (<[id:=r]> (folders (db s))) (fr_parent_id r) ↔
          references (c_folders (view (db s))) (fr_parent_id r)) as Href.
  { rewrite view_references. destruct (fr_parent_id r) as [p|]; [|done]. cbn.
    pose proof (Hpar p eq_refl) as Hid. destruct (decide (p = id)) as [->|Hne].
    - rewrite lookup_insert_eq. split; [by destruct Hid|by eexists].
    - by rewrite lookup_insert_ne. }
  rewrite (bool_decide_ext _ _ Href).
  case_bool_decide; cbn [negb]; [by rewrite decide_True|by rewrite decide_False].
Qed.

Lemma view_set_folder id r d :
  view (set_folders (<[id:=r]> (folders d)) d) =
  put_folders (<[id := folder_of (id, r)]> (c_folders (view d))) (view d).
Proof using Type.
  unfold put_folders. unfold view at 1. cbn [folders hosts tags set_folders]. f_equal.
  apply map_eq. intros j. rewrite map_lookup_imap. destruct (decide (j = id)) as [->|Hne].
  - by rewrite !lookup_insert_eq.
  - rewrite !lookup_insert_ne, view_folder by done. by destruct (folders d !! j).
Qed.

Lemma store_ok_folders t d :
  db_ok d → d = set_folders t (db s) → (∀ f, is_Some (t !! f) → (0 < f)%Z) → store_ok (MkStore false d).
Proof using Hs. intros Hd -> Ht. split; [done..|apply (so_counts s Hs)|done]. Qed.

(** A folder written at a positive id, or refused. *)
Lemma folder_written k (why : option sqlite_error) id r (a : answer k) :
  (0 < id)%Z →
  why = folder_refused (view (db s)) id (fr_parent_id r) (fr_name r) →
  (∀ p, fr_parent_id r = Some p → p ≠ id ∨ is_Some (folders (db s) !! id)) →
  run_call k s =
    match write_folder id r (db s) with
    | Ok d => (Ok a, MkStore false d)
    | Err e => (Err (Sqlite e), s)
    end →
  db_ok (db (run_call k s).2) →
  (∀ res c', writes why a c' (put_folders (<[id := folder_of (id, r)]> (c_folders (view (db s)))) (view (db s)))
     (view (db s)) res → spec k (view (db s)) res c') →
  keeps_promise k.
Proof using Hs.
  intros Hid -> Hpar Hrun Hdb Hspec. rewrite (write_folder_view id r Hpar) in Hrun.
  destruct (folder_refused _ _ _ _) as [e|].
  - eapply promise_read; [exact Hrun|]. by apply Hspec.
  - rewrite Hrun in Hdb. eapply promise_ok; [exact Hrun|..].
    + apply Hspec. split; [done|]. apply view_set_folder.
    + eapply store_ok_folders; [done..|].
      intros f [x [[<- _]|[_ Hx]]%lookup_insert_Some]; [done|]. by eapply (so_ids s Hs).
Qed.

Lemma next_position_last parent :
  last_position (view (db s)) parent (next_position parent (db s)).
Proof using Hs.
  unfold next_position.
  set (sib := filter _ (scan (folders (db s)))).
  assert (∀ j r, (j, r) ∈ sib ↔ folders (db s) !! j = Some r ∧ fr_parent_id r = level parent) as Hsib.
  { intros j r. unfold sib. rewrite list_elem_of_filter, scan_elem. cbn.
    split; [intros [Hk Hj]|intros [Hj Hk]]; first [split; [done|]|split; [|done]];
      (eapply parent_key; [intros p; by apply (parents_positive j r)|done]). }
  assert (∀ j g, c_folders (view (db s)) !! j = Some g → f_parent_id g = level parent →
    ∃ r, (j, r) ∈ sib ∧ f_position g = fr_position r) as Hview.
  { intros j g. rewrite view_folder. intros (r & Hr & ->)%fmap_Some Hp. exists r.
    by rewrite Hsib. }
  destruct ((fr_position ∘ snd) <$> sib) as [|p ps] eqn:Hps.
  - apply fmap_nil_inv in Hps. rewrite Hps in Hview. split.
    + intros j g Hj Hp. by destruct (Hview j g Hj Hp) as (r & []%elem_of_nil & _).
    + left. split; [done|]. intros j g Hj Hp.
      by destruct (Hview j g Hj Hp) as (r & []%elem_of_nil & _).
  - assert (∀ x, x ∈ p :: ps → (x ≤ foldr Z.max p ps)%Z) as Hmax.
    { clear. induction ps as [|q ps IH]; intros x; cbn.
      - intros ->%list_elem_of_singleton. lia.
      - intros [->|[->|Hx]%elem_of_cons]%elem_of_cons.
        + specialize (IH p ltac:(by left)). lia.
        + lia.
        + specialize (IH x ltac:(by right)). lia. }
    assert (foldr Z.max p ps ∈ p :: ps) as Hin.
    { clear. induction ps as [|q ps IH]; cbn; [by left|].
      destruct (Z.max_spec q (foldr Z.max p ps)) as [[_ ->]|[_ ->]]; set_solver. }
    rewrite <- Hps in Hmax, Hin. split.
    + intros j g Hj Hp. destruct (Hview j g Hj Hp) as (r & Hr & ->).
      assert (fr_position r ≤ foldr Z.max p ps)%Z; [|lia]. apply Hmax, list_elem_of_fmap.
      by exists (j, r).
    + right. apply list_elem_of_fmap in Hin as ([j r] & Hm & [Hj Hp]%Hsib). cbn in Hm.
      exists j, (folder_of (j, r)). rewrite view_folder, Hj. split_and!; [done..|]. cbn. lia.
Qed.

Lemma create_folder_promise parent name now :
  parent ≠ Some (fresh_rowid (dom (folders (db s)))) → keeps_promise (CreateFolder parent name now).
Proof using Hs.
  intros Hpar. destruct (decide (trim name = [])) as [Hn|Hn].
  { eapply promise_read; [cbn; unfold create; by rewrite decide_True|].
    cbn [spec]. by rewrite decide_True. }
  set (id := fresh_rowid (dom (folders (db s)))) in *.
  assert (folders (db s) !! id = None) as Hid by apply not_elem_of_dom, fresh_rowid_fresh.
  set (r := MkFolderRow parent (trim name) (next_position parent (db s)) now now).
  eapply (folder_written (CreateFolder parent name now) _ id r id); [apply fresh_rowid_pos|done|..].
  - cbn. intros p ->. left. intros ->. by apply Hpar.
  - cbn. unfold create. rewrite decide_False by done. rewrite !M_bind_eq. unfold lock.
    rewrite (so_open s Hs), M_bind_eq. unfold query, execute, insert_folder. fold id. fold r.
    destruct (write_folder id r (db s)); [by rewrite (so_open s Hs)|done].
  - apply create_ok; [apply Hs|]. done.
  - intros res c' Hw. cbn [spec]. rewrite decide_False by done. exists id, (next_position parent (db s)).
    split_and!; [by rewrite view_folder, Hid| |exact Hw].
    apply next_position_last.
Qed.

Lemma rename_folder_promise id name now : keeps_promise (RenameFolder id name now).
Proof using Hs.
  destruct (decide (trim name = [])) as [Hn|Hn].
  { eapply promise_read; [cbn; unfold rename; by rewrite decide_True|].
    cbn [spec]. by rewrite decide_True. }
  set (f := λ r, MkFolderRow (fr_parent_id r) (trim name) (fr_position r) (fr_created_at r) now).
  pose proof (update_run folders EFolder id f write_folder s (so_open s Hs)) as Hrun.
  set (m := (lock;; _)) in Hrun.
  assert (run_call (RenameFolder id name now) = m) as Hm
    by (cbn; unfold rename; by rewrite decide_False).
  rewrite <- Hm in Hrun. clear m Hm.
  destruct (folders (db s) !! id) as [r|] eqn:Hr.
  - eapply (folder_written _ _ id (f r)); [by eapply (so_ids s Hs)|done| |exact Hrun|..].
    + intros p Hp. right. by eexists.
    + apply rename_keeps, Hs.
    + intros res c' Hw. cbn [spec]. rewrite decide_False, view_folder, Hr by done. exact Hw.
  - eapply promise_read; [exact Hrun|]. cbn [spec]. by rewrite decide_False, view_folder, Hr.
Qed.

(** [under] is what the walks over [parent_id] compute. *)
Lemma under_chain d id x l : chain (folders d) x l → under (c_folders (view d)) id x ↔ id ∈ l.
Proof using Type.
  intros Hl. split.
  - intros Hu. revert l Hl. induction Hu as [|f g p Hf Hp Hu IH]; intros l Hl; [by eapply chain_head|].
    rewrite view_folder in Hf. apply fmap_Some in Hf as (r & Hr & ->). cbn in Hp.
    inversion Hl; simplify_eq. right. by apply IH.
  - induction Hl as [x r Hr Hp|x r p l Hr Hp Hl IH].
    + intros ->%list_elem_of_singleton. constructor.
    + intros [->|Hin]%elem_of_cons; [constructor|].
      eapply (under_child _ _ x (folder_of (x, r)) p); [by rewrite view_folder, Hr|done|by apply IH].
Qed.

Lemma in_subtree_under id x : in_subtree (folders (db s)) id x ↔ under (c_folders (view (db s))) id x.
Proof using Hs.
  destruct (folders (db s) !! x) as [r|] eqn:Hr.
  - destruct (ok_forest _ (so_db s Hs) x) as [l Hl]; [by eexists|].
    by rewrite (in_subtree_chain _ id x l Hl), (under_chain _ id x l Hl).
  - unfold in_subtree, walk_fuel. cbn [ancestors]. rewrite Hr, list_elem_of_singleton. split.
    + intros ->. constructor.
    + assert (c_folders (view (db s)) !! x = None) as Hx by (by rewrite view_folder, Hr).
      intros Hu. inversion Hu; [done|]. congruence.
Qed.

Lemma reparent_run id to now :
  (∀ target, to = Some target → ¬ in_subtree (folders (db s)) id target) →
  reparent id to now s =
  match folders (db s) !! id with
  | None => (Err (NotFound EFolder id), s)
  | Some r =>
      match write_folder id (set_parent to now r) (db s) with
      | Ok d => (Ok (), MkStore false d)
      | Err e => (Err (Sqlite e), s)
      end
  end.
Proof using Hs.
  intros Hto. pose proof (update_run folders EFolder id (set_parent to now) write_folder s (so_open s Hs))
    as Hrun.
  rewrite <- Hrun. unfold reparent. rewrite decide_False.
  2:{ intros Heq. apply (Hto id); [done|]. apply in_subtree_under. constructor. }
  rewrite !M_bind_eq. unfold lock. rewrite (so_open s Hs). destruct to as [target|]; [|done].
  rewrite !M_bind_eq. unfold query, is_descendant.
  by rewrite bool_decide_eq_false_2 by (by apply Hto).
Qed.

Lemma reparent_promise id to now : keeps_promise (Reparent id to now).
Proof using Hs.
  assert (Decision (∃ target, to = Some target ∧ in_subtree (folders (db s)) id target)) as Hdec.
  { destruct to as [target|]; [|right; naive_solver].
    destruct (decide (in_subtree (folders (db s)) id target)); [left; eauto|right; naive_solver]. }
  destruct Hdec as [(target & -> & Hin)|Hno].
  - assert (run_call (Reparent id (Some target) now) s = (Err (FolderCycle id target), s)) as Hrun.
    { cbn. unfold reparent. case_decide as Heq; [by injection Heq as ->|].
      rewrite !M_bind_eq. unfold lock. rewrite (so_open s Hs), !M_bind_eq. unfold query, is_descendant.
      by rewrite bool_decide_eq_true_2. }
    eapply promise_read; [exact Hrun|]. cbn [spec]. left. exists target.
    split_and!; [done|by apply in_subtree_under|done].
  - assert (∀ target, to = Some target → ¬ in_subtree (folders (db s)) id target) as Hto by naive_solver.
    assert (∀ target, to = Some target → ¬ under (c_folders (view (db s))) id target) as Hto'.
    { intros t Ht. rewrite <- in_subtree_under. by apply Hto. }
    pose proof (reparent_run id to now Hto) as Hrun.
    change (reparent id to now s) with (run_call (Reparent id to now) s) in Hrun.
    destruct (folders (db s) !! id) as [r|] eqn:Hr.
    + eapply (folder_written _ _ id (set_parent to now r)); [by eapply (so_ids s Hs)|done| |exact Hrun|..].
      * intros p Hp. right. by eexists.
      * apply reparent_keeps, Hs.
      * intros res c' Hw. cbn [spec]. right. split; [done|]. rewrite view_folder, Hr. exact Hw.
    + eapply promise_read; [exact Hrun|]. cbn [spec]. right. split; [done|].
      by rewrite view_folder, Hr.
Qed.

Lemma delete_folder_promise id : keeps_promise (DeleteFolder id).
Proof using Hs.
  pose proof (delete_run folders EFolder id delete_folder_row s (so_open s Hs)) as Hrun.
  destruct (folders (db s) !! id) as [r0|] eqn:Hr0.
  2:{ eapply promise_read; [exact Hrun|]. cbn [spec]. by rewrite view_folder, Hr0. }
  set (d' := delete_folder_row id (db s)) in *.
  assert (∀ f, folders d' !! f = match folders (db s) !! f with
    | Some r => if decide (in_subtree (folders (db s)) id f) then None else Some r
    | None => None end) as Hf.
  { intros f. cbn. destruct (folders (db s) !! f) as [r|] eqn:Hr.
    - case_decide as Hg; [by apply map_lookup_filter_None; right; intros x _ []|].
      by apply map_lookup_filter_Some.
    - apply map_lookup_filter_None. by left. }
  assert (∀ h, hosts d' !! h = orphan (in_subtree (folders (db s)) id) <$> hosts (db s) !! h) as Hh
    by (intros h; apply lookup_fmap).
  eapply promise_ok; [exact Hrun|..].
  - cbn [spec]. rewrite view_folder, Hr0. cbn [fmap option_fmap option_map]. split_and!; [done..| |].
    + intros f g. rewrite !view_folder, Hf, <- in_subtree_under.
      destruct (folders (db s) !! f); [|naive_solver]. case_decide; naive_solver.
    + intros h. destruct (hosts (db s) !! h) as [r|] eqn:Hr.
      2:{ by rewrite !view_host, Hh, Hr. }
      destruct (view_reads s Hs h r Hr) as (x & Hx & Hv). rewrite Hv, view_host, Hh, Hr.
      cbn [fmap option_fmap option_map mbind option_bind h_folder_id with_tags].
      destruct (row_fields h r x Hx) as (_ & -> & _).
      assert (∀ r' x', row_to_host h r' = Ok x' → ok (read_host d' (h, r')) = Some (with_tags x' (tags_for (db s) h)))
        as Hread.
      { intros r' x' Hx'. rewrite (read_host_ext (db s)) by done.
        by rewrite (proj2 (read_host_Ok (db s) h r' _) (ex_intro _ x' (conj Hx' eq_refl))). }
      unfold orphan. destruct (r_folder_id r) as [f|] eqn:Hfold; [|by apply Hread].
      pose proof (ok_host_folder _ (so_db s Hs) h r Hr) as Href. rewrite Hfold in Href.
      destruct Href as [rf Href]. rewrite view_folder, Hf, Href.
      case_decide; cbn [fmap option_fmap option_map].
      * rewrite decide_False by (by intros []). by apply (Hread (unfiled r) (unfiled_host x)), unfiled_reads.
      * rewrite decide_True by (by eexists). by apply Hread.
  - split; [by apply delete_folder_row_ok, Hs|done|..].
    + intros j r. cbn [db]. rewrite Hh. intros (r1 & Hr1 & ->)%fmap_Some.
      pose proof (so_counts s Hs j r1 Hr1).
      by destruct (orphan_spec (in_subtree (folders (db s)) id) r1) as (_ & _ & [->|(f & _ & _ & ->)]).
    + intros f. cbn [db]. rewrite Hf. destruct (folders (db s) !! f) eqn:E; [|by intros []].
      intros _. by eapply (so_ids s Hs).
Qed.

(** * Listings and tags *)

Lemma imap_values {A B} (f : Z → A → B) (t : gmap Z A) :
  (map_to_list (map_imap (λ i x, Some (f i x)) t)).*2 ≡ₚ (λ kv, f kv.1 kv.2) <$> map_to_list t.
Proof using Type.
  assert (map_to_list (map_imap (λ i x, Some (f i x)) t) ≡ₚ (λ kv, (kv.1, f kv.1 kv.2)) <$> map_to_list t)
    as ->.
  { apply NoDup_Permutation.
    - apply NoDup_map_to_list.
    - apply NoDup_fmap_2_strong; [|apply NoDup_map_to_list].
      intros [i x] [j y] Hx%elem_of_map_to_list Hy%elem_of_map_to_list. cbn. intros [= -> _]. congruence.
    - intros [i y]. rewrite elem_of_map_to_list, map_lookup_imap, list_elem_of_fmap. split.
      + intros (x & Hx & [= <-])%bind_Some. exists (i, x). by rewrite elem_of_map_to_list.
      + intros ([j x] & [= -> ->] & Hx%elem_of_map_to_list). by rewrite Hx. }
  by rewrite <- list_fmap_compose.
Qed.

Lemma tree_promise : keeps_promise Tree.
Proof using Hs.
  destruct (tree_run s (so_db s Hs) (so_open s Hs)) as (fs & Hrun & Hperm & Hpar).
  eapply promise_read; [exact Hrun|]. cbn [spec]. split; [done|]. exists fs. split_and!; [done| |done].
  rewrite Hperm. cbn [c_folders view]. rewrite (imap_values (λ i r, folder_of (i, r))).
  apply Permutation_refl'. by apply list_fmap_ext; intros ? [].
Qed.

#[local] Instance tag_le_total : Total tag_le.
Proof. intros a b. apply str_le_total. Qed.
#[local] Instance tag_le_trans : Transitive tag_le.
Proof. intros a b c. apply str_le_trans. Qed.

Lemma list_tags_promise : keeps_promise ListTags.
Proof using Hs.
  set (ts := tag_of <$> merge_sort tag_le (scan (tags (db s)))).
  assert (run_call ListTags s = (Ok ts, s)) as Hrun.
  { cbn. unfold list_tags. rewrite M_bind_eq. unfold lock. by rewrite (so_open s Hs). }
  eapply promise_read; [exact Hrun|]. cbn [spec]. split; [done|]. exists ts. split_and!; [done|..].
  - unfold ts. rewrite merge_sort_Permutation, scan_perm. cbn [c_tags view].
    rewrite (imap_values (λ i r, tag_of (i, r))).
    apply Permutation_refl'. by apply list_fmap_ext; intros ? [].
  - apply (Forall2_sorted tag_le _ (λ kv t, t = tag_of kv) (merge_sort tag_le (scan (tags (db s))))).
    + intros a b x y -> -> Hab. exact Hab.
    + unfold ts. by apply Forall2_fmap_r, Forall_Forall2_diag, Forall_true.
    + apply (StronglySorted_merge_sort tag_le).
Qed.

Lemma view_set_tag id r d :
  view (set_tag_table (<[id:=r]> (tags d)) d) =
  put_tags (<[id := tag_of (id, r)]> (c_tags (view d))) (view d).
Proof using Type.
  unfold put_tags. unfold view at 1. cbn [folders hosts tags set_tag_table]. f_equal.
  apply map_eq. intros j. rewrite map_lookup_imap. destruct (decide (j = id)) as [->|Hne].
  - by rewrite !lookup_insert_eq.
  - rewrite !lookup_insert_ne, view_tag by done. by destruct (tags d !! j).
Qed.

Lemma get_or_create_promise name color now : keeps_promise (GetOrCreateTag name color now).
Proof using Hs.
  destruct (decide (trim name = [])) as [Hn|Hn].
  { eapply promise_read; [cbn; unfold get_or_create; by rewrite decide_True|].
    cbn [spec]. by rewrite decide_True. }
  pose proof (get_or_create_run name color now s (so_open s Hs) Hn) as Hrun.
  pose proof (get_or_create_keeps name color now s (so_db s Hs)) as Hk.
  destruct (tag_named (trim name) (db s)) as [id|] eqn:Hnamed.
  - eapply promise_read; [exact Hrun|]. cbn [spec]. rewrite decide_False by done. exists id.
    split; [done|]. left. apply tag_named_Some in Hnamed as (r & Hr & Hrn). exists (tag_of (id, r)).
    by rewrite view_tag, Hr.
  - cbn zeta in Hrun. set (id := fresh_rowid _) in Hrun. rewrite Hrun in Hk.
    eapply promise_ok; [exact Hrun|..].
    + cbn [spec]. rewrite decide_False by done. exists id. split; [done|]. right.
      rewrite view_set_tag. split_and!; [|by rewrite view_tag; unfold id; rewrite (proj1 (not_elem_of_dom _ _) (fresh_rowid_fresh _))|done].
      intros j t. rewrite view_tag. intros (r & Hr & ->)%fmap_Some. by eapply tag_named_None.
    + split; [done..|apply (so_counts s Hs)|apply (so_ids s Hs)].
Qed.

Lemma delete_tag_promise id : keeps_promise (DeleteTag id).
Proof using Hs.
  pose proof (delete_run tags ETag id delete_tag_row s (so_open s Hs)) as Hrun.
  destruct (tags (db s) !! id) as [r|] eqn:Hr.
  2:{ eapply promise_read; [exact Hrun|]. cbn [spec]. by rewrite view_tag, Hr. }
  set (d' := delete_tag_row id (db s)) in *.
  assert (∀ h, tags_for d' h = filter (λ t, t ≠ id) (tags_for (db s) h)) as Htags.
  { intros h. apply sorted_set_eq; [apply tags_for_sorted|apply tags_for_NoDup|..].
    - apply filter_sorted, tags_for_sorted.
    - apply NoDup_filter, tags_for_NoDup.
    - intros t. rewrite list_elem_of_filter, !tags_for_elem. cbn. by rewrite elem_of_filter. }
  eapply promise_ok; [exact Hrun|..].
  - cbn [spec]. rewrite view_tag, Hr. cbn [fmap option_fmap option_map]. split_and!; [done..| |].
    + apply map_eq. intros j. rewrite view_tag. cbn [tags d' delete_tag_row set_tag_table set_host_tags].
      destruct (decide (j = id)) as [->|Hne]; [by rewrite !lookup_delete_eq|].
      by rewrite !lookup_delete_ne, view_tag.
    + intros h. rewrite !view_host. change (hosts d') with (hosts (db s)).
      destruct (hosts (db s) !! h) as [rh|]; [|done]. cbn [mbind option_bind].
      unfold read_host. cbn [fst snd]. destruct (row_to_host h rh) as [x|] eqn:Hx; [|done].
      cbn. destruct (row_fields h rh x Hx) as [-> _]. by rewrite Htags.
  - split; [by apply delete_tag_row_ok, Hs|done|apply (so_counts s Hs)|apply (so_ids s Hs)].
Qed.

(** One call, whichever. *)
Lemma call_promise k : call_fits s k → keeps_promise k.
Proof using Hs.
  destruct k; cbn [call_fits]; intros Hk.
  - by apply create_host_promise.
  - apply get_host_promise.
  - apply list_hosts_promise.
  - by apply update_host_promise.
  - apply delete_host_promise.
  - apply move_host_promise.
  - apply set_tags_promise.
  - by apply record_connection_promise.
  - apply find_alias_promise.
  - by apply create_folder_promise.
  - apply rename_folder_promise.
  - apply reparent_promise.
  - apply delete_folder_promise.
  - apply tree_promise.
  - apply get_or_create_promise.
  - apply delete_tag_promise.
  - apply list_tags_promise.
Qed.
End calls.

(** * Histories *)
Section histories.
Context `{Engine}.

Inductive store_history : Store → list event → Store → Prop :=
  | history_nil s : store_history s [] s
  | history_cons s s1 s2 k r es :
      call_fits s k → run_call k s = (r, s1) → store_history s1 es s2 →
      store_history s (existT k r :: es) s2.

(** C7: the repositories implement the collection: whatever calls are made of a
    store, failing ones included, their answers, errors included, and the
    collection the tables stand for afterwards are ones the specification
    allows, as long as no folder is created under the id that is about to be
    handed out and no host is connected 2^63 times ([call_fits]). *)
Theorem store_refines s es s' :
  store_ok s → store_history s es s' →
  spec_history (view (db s)) es (view (db s')) ∧ store_ok s'.
Proof.
  intros Hs Hh. induction Hh as [s|s s1 s2 k r es Hfits Hrun Hh IH]; [by split; [constructor|]|].
  destruct (call_promise s Hs k Hfits) as [Hspec Hs1]. rewrite Hrun in Hspec, Hs1.
  destruct (IH Hs1) as [Hes Hs2]. split; [|done]. by eapply spec_cons.
Qed.
End histories.

Lemma store_ok_new : store_ok (MkStore false empty_db).
Proof.
  split; [apply empty_db_ok|done|intros j r|intros f]; cbn; rewrite lookup_empty; [done|by intros []].
Qed.

(** A folder, a host in it, a tag on it; then the folder is deleted. *)
Definition sample_calls : list call :=
  [CreateFolder None #"prod" 1;
   CreateHost (MkNewHost (Some 1%Z) #"web" #"web.example" 22 #"ops" Agent [] None None
     overrides_default None Manual None None None) 2;
   GetOrCreateTag #" EU " None 3; SetTags 1 [1%Z]; DeleteFolder 1; GetHost 1; DeleteTag 7].

Fixpoint run_calls `{Engine} (ks : list call) (s : Store) : list event * Store :=
  match ks with
  | [] => ([], s)
  | k :: ks =>
      let '(r, s1) := run_call k s in
      let '(es, s2) := run_calls ks s1 in (existT k r :: es, s2)
  end.

Lemma store_history_run `{Engine} ks s :
  Forall (λ k, ∀ s, call_fits s k) ks → store_history s (run_calls ks s).1 (run_calls ks s).2.
Proof.
  intros Hks. revert s. induction Hks as [|k ks Hk _ IH]; intros s; [constructor|]. cbn [run_calls].
  destruct (run_call k s) as [r s1] eqn:Hrun. specialize (IH s1).
  destruct (run_calls ks s1) as [es s2]. by econstructor.
Qed.

Lemma sample_calls_fit : Forall (λ k, ∀ s, call_fits (H := sqlite_max_rowid) s k) sample_calls.
Proof.
  repeat (apply Forall_cons_2; [intros s|]); [done| |done..].
  unfold call_fits, new_host_wf, overrides_wf, opt_u32, in_u16, u16_max. cbn.
  split; [lia|]. by split_and!.
Qed.

Lemma store_refines_witness :
  let e := sqlite_max_rowid in
  let s0 := MkStore false empty_db in
  let es := (run_calls sample_calls s0).1 in
  let s' := (run_calls sample_calls s0).2 in
  length es = 7 ∧
  ((λ h, (h_folder_id h, h_tags h)) <$> c_hosts (view (db s')) !! 1%Z) = Some (None, [1%Z]) ∧
  spec_history empty_collection es (view (db s')) ∧ store_ok s'.
Proof.
  intros e s0 es s'. split; [by vm_compute|]. split; [by vm_compute|].
  apply (store_refines s0 es s'); [apply store_ok_new|apply store_history_run, sample_calls_fit].
Defined.
