(* ===== verification/StoreSteps.v ===== *)
(** * Histories of the store

    Every sequence of repository calls, as a step relation: one constructor
    per method that can write, with arguments its Rust types allow.  The
    lock makes each call atomic, so concurrent callers interleave whole calls
    and their histories are these sequences. *)
From S2P Require Import Prelude Text Model Database Forest StoreInv Folders Hosts Tags Settings.
From S2P Require Import Collection StoreRefines.

Section steps.
Context `{Engine}.

(** Two calls are left out: a folder created under the very id it is about to
    get, which the foreign key accepts (see [create_self_parent]; a parent that
    does not exist otherwise is a step, and refused), and a connection to a host
    already connected [i64::MAX] times. *)
Inductive store_step (s : Store) : Store → Prop :=
  | step_create_folder parent name now :
      parent ≠ Some (fresh_rowid (dom (folders (db s)))) → store_step s (create parent name now s).2
  | step_rename_folder id name now : store_step s (rename id name now s).2
  | step_reparent id to now : store_step s (reparent id to now s).2
  | step_delete_folder id : store_step s (delete_folder id s).2
  | step_create_host n now : new_host_wf n → store_step s (create_host_row n now s).2
  | step_update_host h now : host_wf h → store_step s (update_host_row h now s).2
  | step_delete_host id : store_step s (delete_host id s).2
  | step_move_host id to now : store_step s (move_to_folder id to now s).2
  | step_set_tags id ts : store_step s (set_tags id ts s).2
  | step_record_connection id at_ :
      (∀ r, hosts (db s) !! id = Some r → (r_connect_count r < i64_max)%Z) →
      store_step s (record_connection id at_ s).2
  | step_tag name color now : store_step s (get_or_create name color now s).2
  | step_delete_tag id : store_step s (delete_tag id s).2
  | step_set T (J : SerdeJson T) key (value : T) now : store_step s (set key value now s).2
  | step_delete_setting key : store_step s (delete_setting key s).2.

(** Settings are in no other table's way. *)
Lemma store_ok_settings s s' :
  store_ok s → db_ok (db s') → poisoned s' = false → folders (db s') = folders (db s) →
  hosts (db s') = hosts (db s) → store_ok s'.
Proof. intros [_ _ Hc Hi] Hd Hp Hf Hh. split; [done..|by rewrite Hh|by rewrite Hf]. Qed.

Lemma store_step_ok s s' : store_ok s → store_step s s' → store_ok s'.
Proof.
  intros Hs Hstep. pose proof (call_promise s Hs) as Hk. unfold keeps_promise in Hk.
  destruct Hstep as [parent name now Hp|id name now|id to now|id|n now Hn|h now Hh|id|id to now|id ts|
    id at_ Hc|name color now|id|T J key value now|key].
  - by apply (Hk (CreateFolder parent name now)).
  - by apply (Hk (RenameFolder id name now)).
  - by apply (Hk (Reparent id to now)).
  - by apply (Hk (DeleteFolder id)).
  - by apply (Hk (CreateHost n now)).
  - by apply (Hk (UpdateHost h now)).
  - by apply (Hk (DeleteHost id)).
  - by apply (Hk (MoveHost id to now)).
  - by apply (Hk (SetTags id ts)).
  - by apply (Hk (RecordConnection id at_)).
  - by apply (Hk (GetOrCreateTag name color now)).
  - by apply (Hk (DeleteTag id)).
  - destruct (to_string value) as [json|] eqn:Hj.
    + apply (store_ok_settings s); [done|apply set_keeps; exact (so_db s Hs)|..];
        by rewrite (set_run key value now json s (so_open s Hs) Hj).
    + assert ((set key value now s).2 = s) as -> by (unfold set; by rewrite M_bind_eq, Hj). done.
  - apply (store_ok_settings s); [done|apply delete_setting_keeps; exact (so_db s Hs)|..];
      unfold delete_setting; rewrite M_bind_eq; unfold lock; rewrite (so_open s Hs); [apply Hs|done..].
Qed.

(** C6: after any sequence of repository calls on a new store, failing ones
    included, but for the two calls [store_step] leaves out, the database
    satisfies its constraints and the two facts SQL cannot state: the folders
    form a forest, and every host row reads back as a host. *)
Theorem store_invariant s :
  steps store_step (MkStore false empty_db) s →
  db_ok (db s) ∧ ∀ id r, hosts (db s) !! id = Some r → ∃ h, read_host (db s) (id, r) = Ok h.
Proof.
  intros Hs. assert (store_ok s) as Hok
    by (refine (steps_invariant store_step store_ok _ _ store_step_ok store_ok_new Hs)).
  split; [apply Hok|]. intros id r Hr.
  destruct (row_ok_reads id r) as [h Hh]; [by eapply ok_rows, Hr; apply Hok|by eapply so_counts|].
  unfold read_host. cbn. rewrite Hh. by eexists.
Qed.
End steps.

(** A folder under a parent that is not there is refused. *)
Lemma store_invariant_witness :
  let e := sqlite_max_rowid in
  let s1 := (create None #"prod" 1 (MkStore false empty_db)).2 in
  let s2 := (create (Some 1%Z) #"eu" 2 s1).2 in
  let s3 := (reparent 1 (Some 2%Z) 3 s2).2 in
  let s4 := (create (Some 9%Z) #"us" 4 s3).2 in
  let s5 := (create_host_row sample_draft 5 s4).2 in
  let s6 := (record_connection 1 6 s5).2 in
  s4 = s3 ∧ size (folders (db s3)) = 2 ∧ size (hosts (db s6)) = 1 ∧
  db_ok (db s6) ∧ (∀ id r, hosts (db s6) !! id = Some r → ∃ h, read_host (db s6) (id, r) = Ok h).
Proof.
  intros e s1 s2 s3 s4 s5 s6. split; [by vm_compute|]. split; [by vm_compute|].
  split; [by vm_compute|].
  apply store_invariant. eapply steps_snoc; [|apply step_record_connection].
  2:{ intros r Hr. assert (r_connect_count <$> hosts (db s5) !! 1%Z = Some 0%Z) as Hc by (by vm_compute).
      rewrite Hr in Hc. by injection Hc as ->. }
  eapply steps_snoc; [|apply step_create_host, sample_draft_wf].
  eapply steps_snoc; [|by apply step_create_folder; vm_compute].
  eapply steps_snoc; [|apply step_reparent].
  eapply steps_snoc; [|by apply step_create_folder; vm_compute].
  eapply steps_snoc; [apply steps_refl|]. by apply step_create_folder.
Defined.
