(* ===== verification/SshImport.v ===== *)
(** * Importing an OpenSSH config

    [core-store/src/ssh_config/mod.rs]: [scan] previews, [apply] upserts by
    alias.  [apply] is not one transaction: each row is its own call into the
    store, and the first error ends the loop with the rows before it written.
    [now] stands for the clock, read once per row. *)
From S2P Require Import Prelude Text Lex Path SshParse Model Database Forest StoreInv Hosts.

Inductive Disposition := New | Update.

Record Candidate := MkCandidate {
  c_alias : str;
  c_hostname : str;
  c_port : Z;
  c_username : str;
  c_auth : AuthKind;
  c_key_path : option str;
  c_proxy_jump : option str;
  c_overrides : HostOverrides;
  c_disposition : Disposition
}.

Record Scan := MkScan {
  sc_source : str;
  sc_candidates : list Candidate;
  sc_warnings : list Warning
}.

Record ImportOutcome := MkOutcome {
  created : nat;
  updated : nat
}.

Definition default_path `{FileSystem} : str :=
  match home with
  | None => #".ssh/config"
  | Some h => path_join h #".ssh/config"
  end.

(** The candidate of an alias, given its resolved stanza and whether a
    previous import of it exists. *)
Definition candidate_of (alias : str) (resolved : Stanza) (exists_ : bool) : Candidate := {|
  c_alias := alias;
  c_hostname := default alias (hostname resolved);
  c_port := default 22%Z (port resolved);
  c_username := default [] (user resolved);
  c_auth := match identity_file resolved with Some _ => KeyFile | None => Agent end;
  c_key_path := identity_file resolved;
  c_proxy_jump := proxy_jump resolved;
  c_overrides := MkOverrides None (server_alive_interval resolved) None (connect_timeout resolved)
                   None None None;
  c_disposition := if exists_ then Update else New
|}.

(** [existing] with the file's values; [name] is left alone. *)
Definition merge (existing : Host) (c : Candidate) : Host :=
  MkHost (h_id existing) (h_folder_id existing) (h_name existing) (c_hostname c) (c_port c)
    (c_username c) (c_auth c) (h_auth_fallbacks existing) (h_secret_ref existing) (c_key_path c)
    (c_overrides c) (c_proxy_jump c) (h_source existing) (h_source_alias existing)
    (h_color existing) (h_notes existing) (h_last_connected_at existing)
    (h_connect_count existing) (h_created_at existing) (h_updated_at existing) (h_tags existing).

Definition draft_of (c : Candidate) : NewHost :=
  MkNewHost None (c_alias c) (c_hostname c) (c_port c) (c_username c) (c_auth c) [] None
    (c_key_path c) (c_overrides c) (c_proxy_jump c) SshConfig (Some (c_alias c)) None None.

Section import.
Context `{Engine}.

Fixpoint scan_loop (parsed : ParsedConfig) (names : list str) : M (list Candidate) :=
  match names with
  | [] => mret []
  | alias :: names =>
      existing ← find_by_source_alias alias;
      rest ← scan_loop parsed names;
      mret (candidate_of alias (resolve parsed alias)
              (match existing with Some _ => true | None => false end) :: rest)
  end.

Definition scan_config `{FileSystem, Lowercase} (path : str) : M Scan :=
  let parsed := parse_file path in
  candidates ← scan_loop parsed (aliases parsed);
  mret (MkScan path candidates (warnings parsed)).

(** The body of [apply]'s loop: was the row created? *)
Definition apply_one (now : Z) (c : Candidate) : M bool :=
  existing ← find_by_source_alias (c_alias c);
  match existing with
  | Some existing => update_host_row (merge existing c) now;; mret false
  | None => create_host_row (draft_of c) now;; mret true
  end.

Fixpoint apply_loop (now : Z) (outcome : ImportOutcome) (chosen : list Candidate) :
    M ImportOutcome :=
  match chosen with
  | [] => mret outcome
  | c :: chosen =>
      new ← apply_one now c;
      apply_loop now
        (if (new : bool) then MkOutcome (S (created outcome)) (updated outcome)
         else MkOutcome (created outcome) (S (updated outcome))) chosen
  end.

Definition apply_import (now : Z) (chosen : list Candidate) : M ImportOutcome :=
  apply_loop now (MkOutcome 0 0) chosen.
End import.

(** The widths of a candidate's fields. *)
Definition candidate_wf (c : Candidate) : Prop := in_u16 (c_port c) ∧ overrides_wf (c_overrides c).

(** Rows read back: no counter has left [i64]. *)
Definition readable (d : Db) : Prop :=
  ∀ j r, hosts d !! j = Some r → (r_connect_count r ≤ i64_max)%Z.

(** The row of an imported alias. *)
Definition imported (d : Db) (alias : str) (id : Z) (r : HostRow) : Prop :=
  hosts d !! id = Some r ∧ host_key r = Some alias.

(** What a re-import leaves of a row. *)
Definition same_user_data (r r' : HostRow) : Prop :=
  r_name r' = r_name r ∧ r_folder_id r' = r_folder_id r ∧ r_secret_ref r' = r_secret_ref r ∧
  r_color r' = r_color r ∧ r_notes r' = r_notes r ∧ r_source r' = r_source r ∧
  r_source_alias r' = r_source_alias r ∧ r_last_connected_at r' = r_last_connected_at r ∧
  r_connect_count r' = r_connect_count r ∧ r_created_at r' = r_created_at r ∧
  decode_auth_fallbacks (r_auth_fallbacks r') = decode_auth_fallbacks (r_auth_fallbacks r).

(** The connection part of a host is the candidate's, and of a row. *)
Definition carries (c : Candidate) (h : Host) : Prop :=
  h_hostname h = c_hostname c ∧ h_port h = c_port c ∧ h_username h = c_username c ∧
  h_auth h = c_auth c ∧ h_key_path h = c_key_path c ∧ h_overrides h = c_overrides c ∧
  h_proxy_jump h = c_proxy_jump c.

Definition row_carries (c : Candidate) (r : HostRow) : Prop :=
  r_hostname r = c_hostname c ∧ r_port r = c_port c ∧ r_username r = c_username c ∧
  r_auth_method r = AuthKind_as_str (c_auth c) ∧ r_key_path r = c_key_path c ∧
  r_proxy_jump r = c_proxy_jump c ∧ r_term r = o_term (c_overrides c) ∧
  r_keepalive_secs r = o_keepalive_secs (c_overrides c) ∧
  r_keepalive_max r = o_keepalive_max (c_overrides c) ∧
  r_connect_timeout_secs r = o_connect_timeout_secs (c_overrides c) ∧
  r_window_size r = o_window_size (c_overrides c) ∧
  r_reconnect_enabled r = bool_to_i64 <$> o_reconnect_enabled (c_overrides c) ∧
  r_reconnect_max_attempts r = o_reconnect_max_attempts (c_overrides c).

Lemma row_carries_reads c id r h :
  candidate_wf c → row_carries c r → row_to_host id r = Ok h → carries c h.
Proof.
  intros (Hp & ? & ? & ? & ? & ?) (Hh & Hpo & Hu & Ha & Hk & Hj & Ht & Hks & Hkm & Hct & Hw & Hre & Hrm).
  unfold row_to_host. rewrite Hpo, Ha, Hks, Hkm, Hct, Hw, Hre, Hrm, get_u16_ok by done. cbn [result_bind mbind].
  rewrite AuthKind_roundtrip, !get_opt_u32_ok by done. simpl. rewrite bool_column.
  destruct (HostSource_try_from _); [|done]. simpl. destruct (get_i64 _ _); [|done]. intros [= <-].
  unfold carries. simpl. split_and!; try done. rewrite Ht. by destruct (c_overrides c).
Qed.

Lemma host_key_Some r a :
  host_key r = Some a ↔ r_source r = #"ssh_config" ∧ r_source_alias r = Some a.
Proof. unfold host_key. case_decide; naive_solver. Qed.

Lemma row_to_host_fields id r h :
  row_to_host id r = Ok h →
  h_id h = id ∧ h_name h = r_name r ∧ h_folder_id h = r_folder_id r ∧
  h_secret_ref h = r_secret_ref r ∧ h_color h = r_color r ∧ h_notes h = r_notes r ∧
  HostSource_as_str (h_source h) = r_source r ∧ h_source_alias h = r_source_alias r ∧
  h_auth_fallbacks h = decode_auth_fallbacks (r_auth_fallbacks r).
Proof.
  unfold row_to_host. intros Hr.
  repeat (apply result_bind_Ok in Hr as (? & ? & Hr)). injection Hr as <-. simpl.
  split_and!; try done. destruct (HostSource_try_from (r_source r)) eqn:E; [|done].
  simplify_eq/=. symmetry. by apply HostSource_try_from_Ok.
Qed.

Section apply.
Context `{Engine}.

Lemma find_spec alias s :
  db_ok (db s) → poisoned s = false → readable (db s) →
  (∃ id r h, imported (db s) alias id r ∧ read_host (db s) (id, r) = Ok h ∧
     find_by_source_alias alias s = (Ok (Some h), s)) ∨
  ((∀ id r, ¬ imported (db s) alias id r) ∧ find_by_source_alias alias s = (Ok None, s)).
Proof.
  intros Hs Hp Hr. unfold find_by_source_alias. rewrite M_bind_eq. unfold lock.
  rewrite Hp, M_bind_eq. unfold query. rewrite read_run. destruct (find_first _ _) as [[id r]|] eqn:E.
  - left. apply find_first_Some in E as (l1 & l2 & Hl & Hk & _). apply bool_decide_eq_true in Hk.
    assert (hosts (db s) !! id = Some r) as Hid.
    { apply elem_of_map_to_list. rewrite <- scan_perm, Hl. set_solver. }
    destruct (row_ok_reads id r) as [h Hh]; [by apply (ok_rows _ Hs id)|by eapply Hr|].
    assert (read_host (db s) (id, r) = Ok (with_tags h (tags_for (db s) (h_id h)))) as Hrd.
    { unfold read_host. cbn [fst snd]. by rewrite Hh. }
    exists id, r. eexists. split_and!; [split; [done|by apply host_key_Some]|exact Hrd|].
    simpl. by rewrite Hrd.
  - right. split; [|done]. intros id r [Hid Hk%host_key_Some].
    apply find_first_None in E. rewrite Forall_forall in E. specialize (E (id, r)).
    rewrite bool_decide_eq_false in E. apply E; [|done].
    rewrite scan_perm. by apply elem_of_map_to_list.
Qed.

(** What one row of an import did, when it succeeded. *)
Definition row_imported (now : Z) (c : Candidate) (new : bool) (s s' : Store) : Prop :=
  ∃ id r', db s' = set_hosts (<[id:=r']> (hosts (db s))) (db s) ∧
    host_key r' = Some (c_alias c) ∧ (r_connect_count r' ≤ i64_max)%Z ∧ row_carries c r' ∧
    (if new then hosts (db s) !! id = None ∧ same_user_data (new_row (draft_of c) now) r' ∧
                 ∀ j r, ¬ imported (db s) (c_alias c) j r
     else ∃ r, imported (db s) (c_alias c) id r ∧ same_user_data r r').

Lemma merge_wf h c : candidate_wf c → host_wf (merge h c).
Proof. done. Qed.

Lemma update_imported now c s id r h :
  db_ok (db s) → poisoned s = false → readable (db s) → candidate_wf c →
  imported (db s) (c_alias c) id r → read_host (db s) (id, r) = Ok h →
  match (update_host_row (merge h c) now;; mret false) s with
  | (Ok new, s') => poisoned s' = false ∧ c_port c ≠ 0%Z ∧ row_imported now c new s s'
  | (Err e, s') => s' = s ∧ e = Sqlite CheckViolation ∧ c_port c = 0%Z
  end.
Proof.
  intros Hs Hp Hr Hc [Hid Hk] Hh. unfold read_host in Hh. cbn [fst snd] in Hh.
  apply result_bind_Ok in Hh as (h0 & Hh0 & [= <-]).
  destruct (row_to_host id r) as [h0'|] eqn:E; [|done]. injection Hh0 as ->.
  apply row_to_host_fields in E as (Hhid & Hn & Hf & Hsr & Hco & Hno & Hsrc & Hal & Hfb).
  set (h := with_tags h0 _). set (r' := updated_row (merge h c) now r).
  assert (host_key r' = Some (c_alias c)) as Hk'.
  { apply host_key_Some in Hk as [Hk1 Hk2]. apply host_key_Some. simpl.
    by rewrite Hsrc, Hal. }
  rewrite M_bind_eq, update_host_row_run by done. cbn [h_id merge h with_tags]. rewrite Hhid, Hid.
  fold h. fold r'. destruct (decide (c_port c = 0%Z)) as [H0|H0].
  - assert (write_host id r' (db s) = Err CheckViolation) as ->; [|done].
    unfold write_host. rewrite bool_decide_false; [done|].
    unfold r'. rewrite updated_row_check by done. simpl. by intros [].
  - assert (write_host id r' (db s) = Ok (set_hosts (<[id:=r']> (hosts (db s))) (db s))) as ->.
    { apply write_host_Ok. split_and!; [|..|done].
      - unfold r'. by rewrite updated_row_check.
      - intros j rj Hj. destruct (decide (host_key rj = host_key r')) as [Heq|]; [|by auto].
        left. eapply (ok_hosts_unique _ Hs); [done..| |]; congruence.
      - simpl. rewrite Hf. by eapply (ok_host_folder _ Hs). }
    cbn. split; [done|]. split; [done|]. exists id, r'.
    split_and!; [done|done|exact (Hr id r Hid)|by unfold row_carries|].
    exists r. split; [done|]. unfold same_user_data, r'; simpl. by rewrite fallbacks_roundtrip, Hfb.
Qed.

Lemma create_imported now c s :
  db_ok (db s) → poisoned s = false → candidate_wf c →
  (∀ id r, ¬ imported (db s) (c_alias c) id r) →
  match (create_host_row (draft_of c) now;; mret true) s with
  | (Ok new, s') => poisoned s' = false ∧ c_port c ≠ 0%Z ∧ row_imported now c new s s'
  | (Err e, s') => s' = s ∧ e = Sqlite CheckViolation ∧ c_port c = 0%Z
  end.
Proof.
  intros Hs Hp Hc Hno. rewrite M_bind_eq, create_host_row_run by done. cbv zeta.
  set (id := fresh_rowid _). set (r' := new_row (draft_of c) now).
  assert (hosts (db s) !! id = None) as Hid by apply not_elem_of_dom, fresh_rowid_fresh.
  destruct (decide (c_port c = 0%Z)) as [H0|H0].
  - assert (write_host id r' (db s) = Err CheckViolation) as ->; [|done].
    unfold write_host. rewrite bool_decide_false; [done|].
    unfold r'. rewrite new_row_check by done. simpl. by intros [].
  - assert (write_host id r' (db s) = Ok (set_hosts (<[id:=r']> (hosts (db s))) (db s))) as ->.
    { apply write_host_Ok. split_and!; [|..|done|done].
      - unfold r'. by rewrite new_row_check.
      - intros j rj Hj. right. right. intros Heq. apply (Hno j rj). by split; [|rewrite Heq]. }
    cbn. split; [done|]. split; [done|]. exists id, r'.
    split_and!; [done|done|done|by unfold row_carries|done|by unfold same_user_data|done].
Qed.

(** One row of an import: it succeeds unless the port is 0. *)
Lemma apply_one_spec now c s :
  db_ok (db s) → poisoned s = false → readable (db s) → candidate_wf c →
  match apply_one now c s with
  | (Ok new, s') => poisoned s' = false ∧ c_port c ≠ 0%Z ∧ row_imported now c new s s'
  | (Err e, s') => s' = s ∧ e = Sqlite CheckViolation ∧ c_port c = 0%Z
  end.
Proof.
  intros Hs Hp Hr Hc. unfold apply_one. rewrite M_bind_eq.
  destruct (find_spec (c_alias c) s Hs Hp Hr) as [(id & r & h & Hi & Hh & ->)|[Hno ->]].
  - by eapply update_imported.
  - by apply create_imported.
Qed.

Lemma apply_one_keeps now c : candidate_wf c → keeps (apply_one now c).
Proof.
  intros Hc. unfold apply_one. apply keeps_bind; [apply find_by_source_alias_keeps|].
  intros [h|]; (apply keeps_bind; [|intros; apply keeps_ret]).
  - by apply update_host_row_keeps.
  - by apply create_host_row_keeps.
Qed.

Lemma row_imported_readable now c new s s' :
  readable (db s) → row_imported now c new s s' → readable (db s').
Proof.
  intros Hr (id & r' & Hd & _ & Hc & _ & _) j rj. rewrite Hd. cbn.
  intros [[<- <-]|[_ Hj]]%lookup_insert_Some; [done|]. by eapply Hr.
Qed.
End apply.

(** * The whole import *)

(** What an import may do to the hosts that were there: nothing to hosts the
    user made by hand, and to imported ones nothing of the user's own. *)
Definition respects (s s' : Store) : Prop :=
  folders (db s') = folders (db s) ∧ host_tags (db s') = host_tags (db s) ∧
  ∀ j r, hosts (db s) !! j = Some r →
    ∃ r', hosts (db s') !! j = Some r' ∧ same_user_data r r' ∧ (host_key r = None → r' = r).

Lemma same_user_data_refl r : same_user_data r r.
Proof. by unfold same_user_data. Qed.

#[export] Instance respects_preorder : PreOrder respects.
Proof.
  split.
  - intros s. split_and!; [done..|]. intros j r Hj. exists r. auto using same_user_data_refl.
  - intros s1 s2 s3 (Hf & Ht & H12) (Hf' & Ht' & H23). split_and!; [congruence..|].
    intros j r Hj. destruct (H12 j r Hj) as (r' & Hj' & Hs & Hk).
    destruct (H23 j r' Hj') as (r'' & Hj'' & Hs' & Hk'). exists r''. split_and!; [done|..].
    + unfold same_user_data in *. intuition congruence.
    + intros Hn. rewrite Hk' by (by rewrite Hk). by apply Hk.
Qed.

Lemma row_imported_respects now c new s s' : row_imported now c new s s' → respects s s'.
Proof.
  intros (id & r' & Hd & _ & _ & _ & Hnew). unfold respects. rewrite Hd. split_and!; [done..|].
  intros j r Hj. cbn. destruct (decide (j = id)) as [->|Hne].
  - rewrite lookup_insert_eq. destruct new; [destruct Hnew; congruence|].
    destruct Hnew as (r0 & [Hr0 Hk] & Hs). simplify_eq. exists r'. split_and!; [done..|congruence].
  - rewrite lookup_insert_ne by done. exists r. auto using same_user_data_refl.
Qed.

(** An alias stays imported. *)
Lemma respects_imported s s' alias id r :
  respects s s' → imported (db s) alias id r → ∃ r', imported (db s') alias id r'.
Proof.
  intros (_ & _ & H) [Hid Hk]. destruct (H id r Hid) as (r' & Hr' & Hs & _). exists r'.
  split; [done|]. apply host_key_Some in Hk. apply host_key_Some.
  unfold same_user_data in Hs. intuition congruence.
Qed.

Section whole.
Context `{Engine}.

(** The hypotheses an import step needs of a store, and keeps. *)
Definition importable (s : Store) : Prop := db_ok (db s) ∧ poisoned s = false ∧ readable (db s).

Lemma apply_one_importable now c s new s' :
  importable s → candidate_wf c → apply_one now c s = (Ok new, s') →
  importable s' ∧ c_port c ≠ 0%Z ∧ row_imported now c new s s' ∧ respects s s'.
Proof.
  intros (Hs & Hp & Hr) Hc Ha. pose proof (apply_one_spec now c s Hs Hp Hr Hc) as Hsp.
  pose proof (apply_one_keeps now c Hc s Hs) as Hk. rewrite Ha in Hsp, Hk.
  destruct Hsp as (Hp' & H0 & Hi). split.
  - split_and!; [done|done|by eapply row_imported_readable].
  - split_and!; [done|done|by eapply row_imported_respects].
Qed.

(** What importing [done] in order makes of a store: for each alias the last
    candidate's values, in the row kept for it; new rows only for candidates,
    with the alias as their name; every other row as it was. *)
Definition last_of (c : Candidate) (done : list Candidate) : Prop :=
  ∃ l1 l2, done = l1 ++ c :: l2 ∧ c_alias c ∉ c_alias <$> l2.

Record applied (now : Z) (done : list Candidate) (s s' : Store) : Prop := {
  ap_written c : last_of c done → ∃ id r, imported (db s') (c_alias c) id r ∧ row_carries c r;
  ap_new id r :
    hosts (db s') !! id = Some r → hosts (db s) !! id = None →
    ∃ c, c ∈ done ∧ same_user_data (new_row (draft_of c) now) r;
  ap_others id r :
    hosts (db s) !! id = Some r → host_key r ∉ Some <$> (c_alias <$> done) →
    hosts (db s') !! id = Some r;
  ap_respects : respects s s'
}.

Lemma applied_nil now s : applied now [] s s.
Proof. split; [|congruence|done..]. by intros c ([|??] & ? & ? & _). Qed.

Lemma same_user_data_key r r' : same_user_data r r' → host_key r' = host_key r.
Proof. unfold same_user_data, host_key. intros (_ & _ & _ & _ & _ & -> & -> & _). done. Qed.

Lemma same_user_data_trans r1 r2 r3 : same_user_data r1 r2 → same_user_data r2 r3 → same_user_data r1 r3.
Proof. unfold same_user_data. intuition congruence. Qed.

Lemma applied_cons now c new done s s1 s' :
  row_imported now c new s s1 → applied now done s1 s' → applied now (c :: done) s s'.
Proof.
  intros Hi [Hw Hn Ho Hre]. pose proof (row_imported_respects _ _ _ _ _ Hi) as Hre1.
  destruct Hi as (id & r' & Hd & Hk & _ & Hc & Hnew).
  assert (hosts (db s1) = <[id := r']> (hosts (db s))) as Hs1 by (by rewrite Hd). split.
  - intros c' (l1 & l2 & Hl & Hlast). destruct l1 as [|c0 l1]; injection Hl as <- Hl.
    + exists id, r'. split; [|done]. split; [|done]. apply Ho; [by rewrite Hs1, lookup_insert_eq|].
      rewrite Hk. intros (a & [= <-] & Ha)%list_elem_of_fmap. by rewrite Hl in Ha.
    + apply Hw. by exists l1, l2.
  - intros j r Hr Hnone. destruct (decide (j = id)) as [->|Hne].
    + destruct Hre as (_ & _ & Hre). destruct (Hre id r') as (r2 & Hr2 & Hs & _);
        [by rewrite Hs1, lookup_insert_eq|]. simplify_eq.
      destruct new; [destruct Hnew as (_ & Hu & _)|by destruct Hnew as (r0 & [Hr0 _] & _); congruence].
      exists c. split; [by left|by eapply same_user_data_trans].
    + destruct (Hn j r Hr) as (c' & Hin & Hu); [by rewrite Hs1, lookup_insert_ne|].
      exists c'. split; [by right|done].
  - intros j r Hr Hnot. cbn [fmap list_fmap] in Hnot. apply not_elem_of_cons in Hnot as [Hne Hnot].
    apply Ho; [|done]. rewrite Hs1, lookup_insert_ne; [done|]. intros ->. destruct new.
    + destruct Hnew as [Hnone _]. congruence.
    + destruct Hnew as (r0 & [Hr0 Hk0] & _). congruence.
  - by etrans.
Qed.

(** Every candidate's alias has a row. *)
Lemma last_of_alias a done : a ∈ c_alias <$> done → ∃ c, c_alias c = a ∧ last_of c done.
Proof.
  induction done as [|c0 done IH]; [by intros []%elem_of_nil|]. cbn [fmap list_fmap].
  intros Hin. destruct (decide (a ∈ c_alias <$> done)) as [Hd|Hno].
  - destruct (IH Hd) as (c & Hc & l1 & l2 & -> & Hl). exists c. split; [done|]. by exists (c0 :: l1), l2.
  - apply elem_of_cons in Hin as [->|?]; [|done]. exists c0. split; [done|]. by exists [], done.
Qed.

Lemma applied_all now done s s' c :
  applied now done s s' → c ∈ done → ∃ id r, imported (db s') (c_alias c) id r.
Proof.
  intros Ha Hin. destruct (last_of_alias (c_alias c) done) as (c' & <- & Hl);
    [by apply list_elem_of_fmap; exists c|].
  destruct (ap_written _ _ _ _ Ha c' Hl) as (id & r & Hi & _). by exists id, r.
Qed.

(** The hosts the rows read back as. *)
Lemma applied_reads now done s s' c :
  importable s' → candidate_wf c → applied now done s s' → last_of c done →
  ∃ id h, get_host id s' = (Ok (Some h), s') ∧ h_source_alias h = Some (c_alias c) ∧ carries c h.
Proof.
  intros (Hs & Hp & Hr) Hc Ha Hlast. destruct (ap_written _ _ _ _ Ha c Hlast) as (id & r & [Hid Hk] & Hcar).
  destruct (row_ok_reads id r) as [h Hh]; [by eapply ok_rows|by eapply Hr|].
  pose proof (row_carries_reads c id r h Hc Hcar Hh) as Hch.
  apply row_to_host_fields in Hh as Hf. destruct Hf as (_ & _ & _ & _ & _ & _ & _ & Hal & _).
  apply host_key_Some in Hk as [_ Hk]. exists id, (with_tags h (tags_for (db s') (h_id h))).
  split; [|by rewrite <- Hk]. rewrite get_host_run by done. rewrite Hid. unfold read_host. cbn [fst snd].
  by rewrite Hh.
Qed.

Lemma row_imported_size now c new s s' :
  row_imported now c new s s' →
  size (hosts (db s')) = (if new then 1 else 0) + size (hosts (db s)).
Proof.
  intros (id & r' & Hd & _ & _ & _ & Hnew). rewrite Hd. cbn. destruct new.
  - apply map_size_insert_None. by destruct Hnew.
  - destruct Hnew as (r & [Hr _] & _). by apply map_size_insert_Some.
Qed.

Lemma apply_loop_spec now o chosen s :
  importable s → Forall candidate_wf chosen →
  ∃ done rest r s', apply_loop now o chosen s = (r, s') ∧ chosen = done ++ rest ∧
    Forall (λ c, c_port c ≠ 0%Z) done ∧ importable s' ∧ applied now done s s' ∧
    match r with
    | Ok o' =>
        rest = [] ∧ created o' + updated o' = created o + updated o + length done ∧
        size (hosts (db s')) + created o = size (hosts (db s)) + created o'
    | Err e => e = Sqlite CheckViolation ∧ c_port <$> head rest = Some 0%Z
    end.
Proof.
  revert o s. induction chosen as [|c chosen IH]; intros o s Hs Hall.
  { exists [], [], (Ok o), s. split_and!; [done..|apply applied_nil|done|cbn; lia|lia]. }
  apply Forall_cons in Hall as [Hc Hall]. cbn [apply_loop]. rewrite M_bind_eq.
  pose proof (apply_one_spec now c s) as Hsp. destruct (apply_one now c s) as [[new|e] s1] eqn:E.
  - destruct (apply_one_importable now c s new s1) as (Hs1 & Hport & Hi & _); [done..|].
    destruct (IH (if new then MkOutcome (S (created o)) (updated o)
      else MkOutcome (created o) (S (updated o))) s1 Hs1 Hall)
      as (done & rest & r & s' & -> & -> & Hports & Hs' & Ha & Hr).
    exists (c :: done), rest, r, s'. split_and!; [done|done|by constructor|done|by eapply applied_cons|].
    destruct r as [o'|e]; [|done]. destruct Hr as (-> & Hcount & Hsize). split_and!; [done|..].
    + rewrite Hcount. destruct new; simpl; lia.
    + apply row_imported_size in Hi. destruct new; cbn in *; lia.
  - destruct Hs as (?&?&?). destruct Hsp as (-> & -> & Hz); [done..|].
    exists [], (c :: chosen), (Err (Sqlite CheckViolation)), s.
    split_and!; [done..|apply applied_nil|done|by rewrite <- Hz].
Qed.

(** C18: an import of well-formed candidates writes them in order up to the
    first one with port 0, at which it stops with a constraint violation, or
    all of them, counting those created and those updated.  The last candidate
    written for an alias reads back as a host of that alias with its hostname,
    port, user, authentication, key, overrides and jump host; a row that is new
    is one for a candidate, named by its alias; hosts of no alias written are
    as they were, and those of one keep their name, folder, color, notes,
    secret reference, fallbacks, tags and history. *)
Theorem apply_import_spec now chosen s :
  importable s → Forall candidate_wf chosen →
  ∃ done rest r s', apply_import now chosen s = (r, s') ∧ chosen = done ++ rest ∧
    Forall (λ c, c_port c ≠ 0%Z) done ∧ applied now done s s' ∧
    (∀ c, last_of c done →
       ∃ id h, get_host id s' = (Ok (Some h), s') ∧ h_source_alias h = Some (c_alias c) ∧ carries c h) ∧
    match r with
    | Ok o =>
        rest = [] ∧ created o + updated o = length chosen ∧
        size (hosts (db s')) = size (hosts (db s)) + created o
    | Err e => e = Sqlite CheckViolation ∧ c_port <$> head rest = Some 0%Z
    end.
Proof.
  intros Hs Hc. destruct (apply_loop_spec now (MkOutcome 0 0) chosen s Hs Hc)
    as (done & rest & r & s' & Hrun & -> & Hports & Hs' & Ha & Hr).
  exists done, rest, r, s'. split_and!; [done..| |].
  - intros c Hlast. eapply applied_reads; [done| |done..]. destruct Hlast as (l1 & l2 & -> & _).
    rewrite Forall_app, Forall_app, Forall_cons in Hc. by apply Hc.
  - destruct r as [o|e]; [|done]. destruct Hr as (-> & Hcount & Hsize). rewrite app_nil_r. cbn in *.
    split_and!; [done|done|lia].
Qed.

(** On rows that are all there, every step is an update. *)
Lemma apply_loop_updates now o chosen s :
  importable s → Forall candidate_wf chosen → Forall (λ c, c_port c ≠ 0%Z) chosen →
  (∀ c, c ∈ chosen → ∃ id r, imported (db s) (c_alias c) id r) →
  ∃ s', apply_loop now o chosen s =
          (Ok (MkOutcome (created o) (updated o + length chosen)), s') ∧
        dom (hosts (db s')) = dom (hosts (db s)).
Proof.
  revert o s. induction chosen as [|c chosen IH]; intros o s Hs Hwf Hport Himp.
  { exists s. destruct o. simpl. by rewrite Nat.add_0_r. }
  apply Forall_cons in Hwf as [Hc Hwf], Hport as [Hz Hport].
  pose proof Hs as (Hs1 & Hs2 & Hs3). pose proof (apply_one_spec now c s Hs1 Hs2 Hs3 Hc) as Hsp.
  cbn [apply_loop]. rewrite M_bind_eq. destruct (apply_one now c s) as [[new|e] s1] eqn:E.
  2: { destruct Hsp as (_ & _ & ?). done. }
  destruct (apply_one_importable now c s new s1 Hs Hc E) as (Hi1 & _ & Hi & Hre).
  destruct Hi as (id & r' & Hd & Hk & _ & _ & Hnew). destruct (Himp c) as (j & r & Hj); [by left|].
  destruct new; [destruct Hnew as (_ & _ & Hno); by destruct (Hno j r)|].
  destruct Hnew as (r0 & [Hr0 _] & _).
  destruct (IH (MkOutcome (created o) (S (updated o))) s1) as (s' & -> & Hdom); [done..| |].
  { intros c' Hc'. destruct (Himp c') as (i & ri & Hi'); [by right|].
    destruct (respects_imported s s1 _ _ _ Hre Hi') as [ri' Hri]. eauto. }
  exists s'. split; [simpl; by rewrite Nat.add_succ_r|]. rewrite Hdom, Hd. cbn.
  apply dom_insert_lookup_L. by eexists.
Qed.

(** C32: importing is idempotent by alias: applying the same candidates again
    creates nothing, updates all of them, and leaves the same set of hosts. *)
Theorem import_idempotent now now' chosen s o s1 :
  importable s → Forall candidate_wf chosen → apply_import now chosen s = (Ok o, s1) →
  ∃ s2, apply_import now' chosen s1 = (Ok (MkOutcome 0 (length chosen)), s2) ∧
    dom (hosts (db s2)) = dom (hosts (db s1)).
Proof.
  intros Hs Hc Ha. destruct (apply_loop_spec now (MkOutcome 0 0) chosen s Hs Hc)
    as (done & rest & r & s' & Hrun & -> & Hports & Hs' & Hap & Hr).
  unfold apply_import in *. rewrite Ha in Hrun. injection Hrun as <- <-. destruct Hr as (-> & _).
  rewrite app_nil_r in *. apply (apply_loop_updates now' (MkOutcome 0 0) done s1); [done..|].
  intros c Hin. by eapply applied_all.
Qed.

(** One candidate with port 0, which the parser accepts, makes the import
    stop there: none of the candidates after it is written. *)
Theorem port_zero_aborts now c rest s :
  importable s → candidate_wf c → c_port c = 0%Z →
  apply_import now (c :: rest) s = (Err (Sqlite CheckViolation), s).
Proof.
  intros (Hs & Hp & Hr) Hc Hz. pose proof (apply_one_spec now c s Hs Hp Hr Hc) as Hsp.
  unfold apply_import. cbn [apply_loop]. rewrite M_bind_eq.
  destruct (apply_one now c s) as [[new|e] s']; [by destruct Hsp as (_ & ? & _)|].
  by destruct Hsp as (-> & -> & _).
Qed.

(** * The preview *)

Lemma scan_loop_run parsed names s :
  importable s →
  ∃ cs, scan_loop parsed names s = (Ok cs, s) ∧
    Forall2 (λ alias c,
      (c = candidate_of alias (resolve parsed alias) true ∧ ∃ id r, imported (db s) alias id r) ∨
      (c = candidate_of alias (resolve parsed alias) false ∧ ∀ id r, ¬ imported (db s) alias id r))
      names cs.
Proof.
  intros (Hs & Hp & Hr). induction names as [|a names (cs & Hcs & Hall)]; [by exists []|].
  cbn [scan_loop]. rewrite M_bind_eq.
  destruct (find_spec a s Hs Hp Hr) as [(id & r & h & Hi & Hh & ->)|[Hno ->]];
    rewrite M_bind_eq, Hcs; eexists; (split; [done|]); constructor; eauto 6.
Qed.

(** [scan] writes nothing and offers one candidate per concrete alias of
    the file, with the values resolved for it; the row says [Update] exactly
    when an earlier import of the alias is stored, and never proposes password
    authentication. *)
Theorem scan_config_spec `{FileSystem, Lowercase} path s :
  importable s →
  let parsed := parse_file path in
  ∃ sc, scan_config path s = (Ok sc, s) ∧ sc_warnings sc = warnings parsed ∧
    Forall2 (λ alias c,
      ∃ known : bool, c = candidate_of alias (resolve parsed alias) known ∧
        c_auth c ≠ Password ∧
        (known = true ↔ ∃ id r, imported (db s) alias id r))
      (aliases parsed) (sc_candidates sc).
Proof.
  intros Hs parsed. destruct (scan_loop_run parsed (aliases parsed) s Hs) as (cs & Hcs & Hall).
  exists (MkScan path cs (warnings parsed)). split_and!; [|done|].
  - unfold scan_config. fold parsed. by rewrite M_bind_eq, Hcs.
  - simpl. eapply Forall2_impl; [exact Hall|]. intros alias c [[-> Hi]|[-> Hno]].
    + exists true. split_and!; [done| |naive_solver]. simpl. by case_match.
    + exists false. split_and!; [done| |naive_solver]. simpl. by case_match.
Qed.
End whole.

(** A config file with a port the database refuses. *)
Definition sample_config : FileSystem :=
  disk [(#"/c", #"Host a
Port 0
Host b
User ops
IdentityFile /k")] (λ _, None) None.
Definition sample_candidates : list Candidate :=
  let fs := sample_config in
  let e := sqlite_max_rowid in
  match scan_config #"/c" (MkStore false empty_db) with
  | (Ok sc, _) => sc_candidates sc
  | (Err _, _) => []
  end.

Lemma empty_importable : importable (MkStore false empty_db).
Proof. split_and!; [apply empty_db_ok|done|]. intros j r Hj. simpl in Hj. by rewrite lookup_empty in Hj. Qed.

Lemma sample_candidates_eq :
  sample_candidates =
  [MkCandidate #"a" #"a" 0 [] Agent None None overrides_default New;
   MkCandidate #"b" #"b" 22 #"ops" KeyFile (Some #"/k") None overrides_default New].
Proof. by vm_compute. Qed.

Lemma sample_candidates_wf : Forall candidate_wf sample_candidates.
Proof.
  rewrite sample_candidates_eq. unfold candidate_wf, overrides_wf, opt_u32, in_u16, u16_max.
  repeat constructor; simpl; (lia || done).
Qed.

Lemma port_zero_aborts_witness :
  let e := sqlite_max_rowid in
  apply_import 1 sample_candidates (MkStore false empty_db) =
  (Err (Sqlite CheckViolation), MkStore false empty_db).
Proof.
  intros e. rewrite sample_candidates_eq. apply port_zero_aborts.
  - apply empty_importable.
  - pose proof sample_candidates_wf as Hc. rewrite sample_candidates_eq in Hc.
    by apply Forall_cons in Hc as [Hc _].
  - reflexivity.
Defined.

(** Two updates of one alias and a new one, then a port that is refused. *)
Definition import_candidates : list Candidate :=
  [MkCandidate #"b" #"b.example" 22 #"ops" KeyFile (Some #"/k") None overrides_default New;
   MkCandidate #"b" #"b.internal" 2222 #"root" Agent None (Some #"jump")
     (MkOverrides None (Some 15%Z) None None None (Some true) None) New;
   MkCandidate #"a" #"a" 0 [] Agent None None overrides_default New;
   MkCandidate #"c" #"c" 22 [] Agent None None overrides_default New].

Lemma apply_import_spec_witness :
  let e := sqlite_max_rowid in
  let s := MkStore false empty_db in
  (match apply_import 1 import_candidates s with
   | (r, s') => (r, (λ r, (r_hostname r, r_port r)) <$> hosts (db s') !! 1%Z)
   end = (Err (Sqlite CheckViolation), Some (#"b.internal", 2222%Z))) ∧
  ∃ done rest r s', apply_import 1 import_candidates s = (r, s') ∧ import_candidates = done ++ rest ∧
    Forall (λ c, c_port c ≠ 0%Z) done ∧ applied 1 done s s' ∧
    (∀ c, last_of c done →
       ∃ id h, get_host id s' = (Ok (Some h), s') ∧ h_source_alias h = Some (c_alias c) ∧ carries c h) ∧
    match r with
    | Ok o =>
        rest = [] ∧ created o + updated o = length import_candidates ∧
        size (hosts (db s')) = size (hosts (db s)) + created o
    | Err e => e = Sqlite CheckViolation ∧ c_port <$> head rest = Some 0%Z
    end.
Proof.
  intros e s. split; [by vm_compute|]. apply (apply_import_spec 1 import_candidates s).
  - apply empty_importable.
  - unfold import_candidates, candidate_wf, overrides_wf, opt_u32, in_u32, in_u16, u16_max, u32_max.
    repeat apply Forall_cons_2; simpl; [..|done]; (split; [lia|]); split_and!; intros z [= <-]; lia.
Defined.

Lemma import_idempotent_witness :
  let e := sqlite_max_rowid in
  let s1 := (apply_import 1 (drop 1 sample_candidates) (MkStore false empty_db)).2 in
  ∃ s2, apply_import 2 (drop 1 sample_candidates) s1 =
          (Ok (MkOutcome 0 (length (drop 1 sample_candidates))), s2) ∧
    dom (hosts (db s2)) = dom (hosts (db s1)).
Proof.
  intros e s1.
  apply (import_idempotent 1 2 (drop 1 sample_candidates) (MkStore false empty_db) (MkOutcome 1 0) s1).
  - apply empty_importable.
  - apply Forall_drop, sample_candidates_wf.
  - by vm_compute.
Defined.

Lemma scan_config_spec_witness :
  let fs := sample_config in
  let e := sqlite_max_rowid in
  let s := MkStore false empty_db in
  let parsed := parse_file #"/c" in
  ∃ sc, scan_config #"/c" s = (Ok sc, s) ∧ sc_warnings sc = warnings parsed ∧
    Forall2 (λ alias c,
      ∃ known : bool, c = candidate_of alias (resolve parsed alias) known ∧
        c_auth c ≠ Password ∧
        (known = true ↔ ∃ id r, imported (db s) alias id r))
      (aliases parsed) (sc_candidates sc).
Proof. intros fs e s. apply (scan_config_spec #"/c" s), empty_importable. Defined.
