(* ===== verification/KnownHosts.v ===== *)
(** * Tern's [known_hosts] file

    [core-ssh/src/known_hosts.rs].  The file on disk is a [file_state]; a
    [disk] says how a write to it ends: done, refused before the file is
    touched, or cut short, with a part of the text in the file.  Key
    and entry parsing is the [ssh-key] crate's: the class [SshKeys] has its
    operations, [SshKeysLaws] what its documentation says of lines of the
    shapes this file writes.  HMAC-SHA1, base64 and the random salt are
    parameters too; nothing below depends on what they compute. *)
From S2P Require Import Prelude Text Glob.

Inductive KnownHostsError := Io | Encode.

Inductive Marker := CertAuthority | Revoked.
#[export] Instance Marker_eq_dec : EqDecision Marker.
Proof. solve_decision. Defined.

Inductive HostPatterns :=
  | Patterns (l : list str)
  | HashedName (salt hash : list N).

Record entry (K : Type) := MkEntry {
  marker : option Marker;
  host_patterns : HostPatterns;
  public_key : K
}.
Arguments MkEntry {K}.
Arguments marker {K}.
Arguments host_patterns {K}.
Arguments public_key {K}.

Class SshKeys := {
  PublicKey : Type;
  key_data : PublicKey → list N;
  algorithm : PublicKey → str;
  fingerprint : PublicKey → str;
  to_openssh : PublicKey → option str;
  parse_line : str → option (option Marker * HostPatterns * PublicKey);
  patterns_to_string : HostPatterns → str;
  hmac_sha1 : list N → str → list N;
  base64 : list N → str
}.

Inductive HostKeyVerdict :=
  | Trusted
  | Unknown
  | Changed (line : nat) (recorded_algorithm recorded_fingerprint : str)
  | VRevoked (line : nat).
#[export] Instance HostKeyVerdict_eq_dec : EqDecision HostKeyVerdict.
Proof. solve_decision. Defined.

Record ImportReport := MkReport {
  total : nat;
  imported_lines : nat;
  duplicates : nat;
  skipped_cert_authority : nat;
  malformed : nat
}.
Definition report_default : ImportReport := MkReport 0 0 0 0 0.

Record KnownHostEntry := MkKnownHostEntry {
  e_line : nat;
  e_patterns : str;
  e_algorithm : str;
  e_fingerprint : str;
  e_marker : option str;
  e_hashed : bool
}.

(** What is at the file's path. *)
Inductive file_state :=
  | Absent
  | Unreadable
  | Contents (text : str).

Definition read (file : file_state) : result KnownHostsError str :=
  match file with
  | Contents s => Ok s
  | Absent => Ok []
  | Unreadable => Err Io
  end.

(** How a write ends. *)
Inductive disk := DWrites | DRefuses | DCuts (n : nat) (whole : bool).

Definition match_target (host : str) (port : Z) : str :=
  if (port =? 22)%Z then host else #"[" ++ host ++ #"]:" ++ show_Z port.

Definition host_glob_match (pattern value : str) : bool := glob_match pattern value.

Definition ends_newline (s : str) : bool := ends_with [newline] s.

(** [!existing.is_empty() && !existing.ends_with('\n')] *)
Definition needs_newline (s : str) : bool :=
  match s with [] => false | _ => negb (ends_newline s) end.

Abbreviation Entry := (entry PublicKey) (only parsing).

Section known_hosts.
Context `{SshKeys}.

Definition parse_entry (line : str) : option Entry :=
  let trimmed := trim line in
  if decide (trimmed = []) then None
  else if starts_with #"#" trimmed then None
  else (λ '(m, ps, k), MkEntry m ps k) <$> parse_line trimmed.

(** Line number, from 1, paired with each entry that parses. *)
Definition parsed_entries (contents : str) : list (nat * Entry) :=
  omap (λ '(idx, line), (λ e, (idx + 1, e)) <$> parse_entry line) (enumerate (lines contents)).

(** The loop body of [patterns_match]: [None] is [return false]. *)
Definition pattern_step (target host : str) (matched : bool) (pattern : str) : option bool :=
  match strip_prefix #"!" pattern with
  | Some negated =>
      if host_glob_match negated target || host_glob_match negated host then None else Some matched
  | None =>
      Some (if host_glob_match pattern target || host_glob_match pattern host then true else matched)
  end.
Fixpoint patterns_loop (target host : str) (matched : bool) (l : list str) : bool :=
  match l with
  | [] => matched
  | p :: l =>
      match pattern_step target host matched p with
      | Some matched => patterns_loop target host matched l
      | None => false
      end
  end.
Definition patterns_match (ps : HostPatterns) (target host : str) : bool :=
  match ps with
  | HashedName salt hash => bool_decide (hmac_sha1 salt target = hash)
  | Patterns l => patterns_loop target host false l
  end.

(** The loop of [verify]. *)
Fixpoint verify_loop (target host : str) (key : PublicKey) (changed : option HostKeyVerdict)
    (entries : list (nat * Entry)) : HostKeyVerdict :=
  match entries with
  | [] => default Unknown changed
  | (line_no, entry) :: entries =>
      if negb (patterns_match (host_patterns entry) target host)
      then verify_loop target host key changed entries
      else match marker entry with
           | Some Revoked => VRevoked line_no
           | Some CertAuthority => verify_loop target host key changed entries
           | None =>
               if decide (key_data (public_key entry) = key_data key) then Trusted
               else
                 let recorded_alg := algorithm (public_key entry) in
                 let changed :=
                   match changed with
                   | None =>
                       if decide (recorded_alg = algorithm key)
                       then Some (Changed line_no recorded_alg (fingerprint (public_key entry)))
                       else None
                   | Some _ => changed
                   end in
                 verify_loop target host key changed entries
           end
  end.

Definition verify (file : file_state) (host : str) (port : Z) (key : PublicKey) :
    result KnownHostsError HostKeyVerdict :=
  contents ← read file;
  Ok (verify_loop (match_target host port) host key None (parsed_entries contents)).

(** [salt]: the 20 bytes the OS filled in, or [None] when its generator is
    not available. *)
Definition hash_pattern (salt : option (list N)) (target : str) : str :=
  match salt with
  | None => target
  | Some salt => #"|1|" ++ base64 salt ++ #"|" ++ base64 (hmac_sha1 salt target)
  end.

Definition openssh_key_part (key : PublicKey) : result KnownHostsError str :=
  match to_openssh key with
  | None => Err Encode
  | Some line =>
      match split_whitespace line with
      | alg :: data :: _ => Ok (alg ++ #" " ++ data)
      | _ => Err Encode
      end
  end.

(** A file of which only the first [n] characters of [text] were written after
    [kept]; the cut may fall inside a character, and then nothing reads it. *)
Definition cut_short (kept text : str) (n : nat) (whole : bool) : file_state :=
  if whole then Contents (kept ++ take n text) else Unreadable.

(** Opening for append, and [write_all]. *)
Definition append_file (d : disk) (existing text : str) (file : file_state) :
    result KnownHostsError () * file_state :=
  match d with
  | DWrites => (Ok (), Contents (existing ++ text))
  | DRefuses => (Err Io, file)
  | DCuts n whole => (Err Io, cut_short existing text n whole)
  end.

(** [std::fs::write]: the file is emptied, then written. *)
Definition write_file (d : disk) (text : str) (file : file_state) :
    result KnownHostsError () * file_state :=
  match d with
  | DWrites => (Ok (), Contents text)
  | DRefuses => (Err Io, file)
  | DCuts n whole => (Err Io, cut_short [] text n whole)
  end.

Definition learn (d : disk) (salt : option (list N)) (host : str) (port : Z)
    (key : PublicKey) (hashed : bool) (file : file_state) :
    result KnownHostsError () * file_state :=
  let target := match_target host port in
  let pattern := if hashed then hash_pattern salt target else target in
  match openssh_key_part key with
  | Err e => (Err e, file)
  | Ok key_part =>
      match read file with
      | Err e => (Err e, file)
      | Ok existing =>
          let line := (if needs_newline existing then [newline] else []) ++
                      pattern ++ #" " ++ key_part ++ [newline] in
          append_file d existing line file
      end
  end.

(** Does the line hold an entry for the target? *)
Definition line_matches (target host : str) (line : str) : bool :=
  match parse_entry line with
  | Some entry => patterns_match (host_patterns entry) target host
  | None => false
  end.

(** The loop of [remove]: what is kept, and how many lines are not. *)
Fixpoint remove_loop (target host : str) (ls : list str) (kept : str) (removed : nat) : str * nat :=
  match ls with
  | [] => (kept, removed)
  | line :: ls =>
      if line_matches target host line
      then remove_loop target host ls kept (S removed)
      else remove_loop target host ls (kept ++ line ++ [newline]) removed
  end.

Definition remove (d : disk) (host : str) (port : Z) (file : file_state) :
    result KnownHostsError nat * file_state :=
  match read file with
  | Err e => (Err e, file)
  | Ok contents =>
      let '(kept, removed) := remove_loop (match_target host port) host (lines contents) [] 0 in
      if (0 <? removed) then
        match write_file d kept file with
        | (Ok _, file) => (Ok removed, file)
        | (Err e, file) => (Err e, file)
        end
      else (Ok removed, file)
  end.

Definition patterns_display (ps : HostPatterns) : str :=
  match ps with
  | Patterns l => join #"," l
  | HashedName _ _ => #"(hashed)"
  end.

Definition marker_as_str (m : Marker) : str :=
  match m with CertAuthority => #"@cert-authority" | Revoked => #"@revoked" end.

Definition entries (file : file_state) : result KnownHostsError (list KnownHostEntry) :=
  contents ← read file;
  Ok ((λ '(line, entry), {|
        e_line := line;
        e_patterns := patterns_display (host_patterns entry);
        e_algorithm := algorithm (public_key entry);
        e_fingerprint := fingerprint (public_key entry);
        e_marker := marker_as_str <$> marker entry;
        e_hashed := match host_patterns entry with HashedName _ _ => true | Patterns _ => false end
      |}) <$> parsed_entries contents).

Definition entry_identity (entry : Entry) : str :=
  patterns_to_string (host_patterns entry) ++ #"|" ++ algorithm (public_key entry) ++ #"|" ++
  fingerprint (public_key entry).

(** The locals of [import_from]'s loop. *)
Record importing := Importing {
  known : list str;
  report : ImportReport;
  appended : str
}.

Definition import_line (st : importing) (line : str) : importing :=
  let trimmed := trim line in
  if decide (trimmed = []) then st
  else if starts_with #"#" trimmed then st
  else
    let r := report st in
    match parse_entry line with
    | None =>
        Importing (known st) (MkReport (S (total r)) (imported_lines r) (duplicates r)
          (skipped_cert_authority r) (S (malformed r))) (appended st)
    | Some entry =>
        if decide (marker entry = Some CertAuthority) then
          Importing (known st) (MkReport (S (total r)) (imported_lines r) (duplicates r)
            (S (skipped_cert_authority r)) (malformed r)) (appended st)
        else
          let identity := entry_identity entry in
          if decide (identity ∈ known st) then
            Importing (known st) (MkReport (S (total r)) (imported_lines r) (S (duplicates r))
              (skipped_cert_authority r) (malformed r)) (appended st)
          else
            Importing (known st ++ [identity]) (MkReport (S (total r)) (S (imported_lines r))
              (duplicates r) (skipped_cert_authority r) (malformed r))
              (appended st ++ trimmed ++ [newline])
    end.

Definition identities (contents : str) : list str :=
  omap (λ l, entry_identity <$> parse_entry l) (lines contents).

Definition import_from (d : disk) (source file : file_state) :
    result KnownHostsError ImportReport * file_state :=
  match source with
  | Absent => (Ok report_default, file)
  | Unreadable => (Err Io, file)
  | Contents incoming =>
      match read file with
      | Err e => (Err e, file)
      | Ok existing =>
          let st := foldl import_line (Importing (identities existing) report_default [])
                      (lines incoming) in
          match appended st with
          | [] => (Ok (report st), file)
          | _ =>
              let out := existing ++ (if needs_newline existing then [newline] else []) ++
                         appended st in
              match write_file d out file with
              | (Ok _, file) => (Ok (report st), file)
              | (Err e, file) => (Err e, file)
              end
          end
      end
  end.
End known_hosts.

(** A pattern that is one host name, written as is: no blanks, no commas or
    glob characters, and not a marker, comment, negation or hash. *)
Definition plain_name (s : str) : bool :=
  match s with
  | [] => false
  | c :: _ =>
      negb (bool_decide (c ∈ [ch "@"; ch "#"; ch "|"; ch "!"])) &&
      forallb (λ c, negb (is_whitespace c) && negb (bool_decide (c ∈ [ch ","; star; question]))) s
  end.

(** What [ssh-key] does with the two kinds of line [learn] writes: the entry
    has no marker, the patterns as written (or the hash), and the key; and a
    line that breaks off is no entry, because the encoding of a key says how
    long it is. *)
Class SshKeysLaws `{SshKeys} := {
  parse_plain pat key part :
    plain_name pat = true → openssh_key_part key = Ok part →
    ∃ k, parse_line (pat ++ #" " ++ part) = Some (None, Patterns [pat], k) ∧
      key_data k = key_data key;
  parse_hashed salt hash key part :
    openssh_key_part key = Ok part →
    ∃ k, parse_line (#"|1|" ++ base64 salt ++ #"|" ++ base64 hash ++ #" " ++ part) =
           Some (None, HashedName salt hash, k) ∧
      key_data k = key_data key;
  parse_cut hashed salt target key part t :
    plain_name target = true → openssh_key_part key = Ok part →
    let line := (if (hashed : bool) then hash_pattern salt target else target) ++ #" " ++ part in
    t `prefix_of` line → t ≠ line → parse_line t = None;
  base64_no_blank bytes : Forall (λ c, is_whitespace c = false) (base64 bytes)
}.

(** Three keys and a parser for their lines, to run the definitions on. *)
Inductive sample_key := KeyA | KeyB | KeyRsa.
Definition sample_openssh (k : sample_key) : str :=
  match k with
  | KeyA => #"ssh-ed25519 AAAA"
  | KeyB => #"ssh-ed25519 BBBB"
  | KeyRsa => #"ssh-rsa CCCC"
  end.
Definition sample_parse_key (s : str) : option sample_key :=
  find_first (λ k, bool_decide (sample_openssh k = s)) [KeyA; KeyB; KeyRsa].
Definition sample_base64 (bytes : list N) : str := N.add 200000 <$> bytes.
Definition sample_unbase64 (s : str) : list N := (λ c, c - 200000)%N <$> s.
Definition sample_patterns (s : str) : option HostPatterns :=
  match strip_prefix #"|1|" s with
  | Some rest =>
      (λ '(salt, hash), HashedName (sample_unbase64 salt) (sample_unbase64 hash)) <$>
        split_once (ch "|") rest
  | None => Some (Patterns (split_char (ch ",") s))
  end.
Definition sample_body (m : option Marker) (s : str) :
    option (option Marker * HostPatterns * sample_key) :=
  '(pats, key) ← split_once (ch " ") s;
  ps ← sample_patterns pats;
  k ← sample_parse_key key;
  Some (m, ps, k).
Definition sample_parse_line (s : str) : option (option Marker * HostPatterns * sample_key) :=
  match split_once (ch " ") s with
  | Some (w, rest) =>
      if decide (w = #"@revoked") then sample_body (Some Revoked) rest
      else if decide (w = #"@cert-authority") then sample_body (Some CertAuthority) rest
      else sample_body None s
  | None => None
  end.
#[export] Instance sample_keys : SshKeys := {|
  PublicKey := sample_key;
  key_data k := sample_openssh k;
  algorithm k := match k with KeyRsa => #"ssh-rsa" | _ => #"ssh-ed25519" end;
  fingerprint k := #"SHA256:" ++ sample_openssh k;
  to_openssh k := Some (sample_openssh k);
  parse_line := sample_parse_line;
  patterns_to_string ps :=
    match ps with
    | Patterns l => join #"," l
    | HashedName salt hash => #"|1|" ++ sample_base64 salt ++ #"|" ++ sample_base64 hash
    end;
  hmac_sha1 salt message := salt ++ message;
  base64 := sample_base64
|}.

(** * The verdict *)
Section verdict.
Context `{SshKeys}.
Implicit Types (es : list (nat * Entry)) (key : PublicKey).

Definition entry_matches (target host : str) (e : nat * Entry) : bool :=
  patterns_match (host_patterns e.2) target host.

(** An entry that settles the verdict when the loop reaches it. *)
Definition decisive key (e : nat * Entry) : bool :=
  match marker e.2 with
  | Some Revoked => true
  | Some CertAuthority => false
  | None => bool_decide (key_data (public_key e.2) = key_data key)
  end.

(** An entry that records another key of the offered algorithm. *)
Definition conflicting key (e : nat * Entry) : bool :=
  match marker e.2 with
  | Some _ => false
  | None => bool_decide (algorithm (public_key e.2) = algorithm key)
  end.

Definition verdict_of key (matching : list (nat * Entry)) : HostKeyVerdict :=
  match find_first (decisive key) matching with
  | Some (n, e) => match marker e with Some _ => VRevoked n | None => Trusted end
  | None =>
      match find_first (conflicting key) matching with
      | Some (n, e) => Changed n (algorithm (public_key e)) (fingerprint (public_key e))
      | None => Unknown
      end
  end.

Lemma verify_loop_spec target host key changed es :
  let ms := filter (λ e, entry_matches target host e = true) es in
  verify_loop target host key changed es =
  match find_first (decisive key) ms with
  | Some _ => verdict_of key ms
  | None => match changed with Some v => v | None => verdict_of key ms end
  end.
Proof.
  simpl. revert changed. induction es as [|[n e] es IH]; intros changed.
  { by destruct changed. }
  cbn [verify_loop].
  change (patterns_match (host_patterns e) target host) with (entry_matches target host (n, e)).
  destruct (entry_matches target host (n, e)) eqn:Hm; cbn [negb].
  2: { rewrite filter_cons_False by congruence. apply IH. }
  rewrite filter_cons_True by done. unfold verdict_of. cbn [find_first].
  assert (decisive key (n, e) = match marker e with
    | Some Revoked => true | Some CertAuthority => false
    | None => bool_decide (key_data (public_key e) = key_data key) end) as -> by done.
  assert (conflicting key (n, e) = match marker e with
    | Some _ => false | None => bool_decide (algorithm (public_key e) = algorithm key) end)
    as -> by done.
  destruct (marker e) as [[]|] eqn:Hmk.
  - rewrite IH. done.
  - by rewrite Hmk.
  - case_bool_decide as Hk; [rewrite decide_True by done; by rewrite Hmk|].
    rewrite decide_False by done. rewrite IH. unfold verdict_of.
    destruct (find_first (decisive key) _) as [[n' e']|] eqn:Ef; [done|].
    destruct changed as [v|]; [done|].
    case_decide as Ha; [by rewrite bool_decide_true|by rewrite bool_decide_false].
Qed.

Lemma verify_run file host port key text :
  read file = Ok text →
  verify file host port key =
  Ok (verdict_of key (filter (λ e, entry_matches (match_target host port) host e = true)
        (parsed_entries text))).
Proof.
  intros Hr. unfold verify. rewrite Hr. cbn [mbind result_bind]. rewrite verify_loop_spec.
  cbv zeta. by destruct (find_first (decisive key) _).
Qed.

(** A line that revokes the host, and one that records exactly the key. *)
Definition line_revokes (e : nat * Entry) : bool := bool_decide (marker e.2 = Some Revoked).
Definition line_records key (e : nat * Entry) : bool :=
  bool_decide (marker e.2 = None ∧ key_data (public_key e.2) = key_data key).

(** What the file's documentation asks of the lines for a host, in no order: a
    revoked one refuses regardless of anything else; failing that, one that
    records the key trusts it; failing that, another key of the same algorithm
    is a changed key; and otherwise this is first contact. *)
Definition documented_verdict key (matching : list (nat * Entry)) : HostKeyVerdict :=
  match find_first line_revokes matching with
  | Some (n, _) => VRevoked n
  | None =>
      if existsb (line_records key) matching then Trusted
      else match find_first (conflicting key) matching with
           | Some (n, e) => Changed n (algorithm (public_key e)) (fingerprint (public_key e))
           | None => Unknown
           end
  end.

(** No line records the key ahead of a line that revokes the host. *)
Fixpoint revocations_lead key (matching : list (nat * Entry)) : bool :=
  match matching with
  | [] => true
  | e :: rest =>
      if line_records key e then forallb (λ e, negb (line_revokes e)) rest
      else revocations_lead key rest
  end.

Lemma decisive_split key e : decisive key e = line_revokes e || line_records key e.
Proof.
  destruct e as [n e]. unfold decisive, line_revokes, line_records. cbn [snd].
  destruct (marker e) as [[]|]; repeat case_bool_decide; naive_solver.
Qed.

Lemma find_first_none {A} (p : A → bool) (l : list A) :
  forallb (λ x, negb (p x)) l = true → find_first p l = None.
Proof.
  rewrite find_first_None, forallb_forall, Forall_forall. intros Hl x Hx%list_elem_of_In.
  by apply negb_true_iff, Hl.
Qed.

(** With the revocations ahead, going through the lines in order gives the
    verdict that takes them all together. *)
Lemma verdict_documented key ms :
  revocations_lead key ms = true → verdict_of key ms = documented_verdict key ms.
Proof.
  unfold verdict_of, documented_verdict.
  enough (revocations_lead key ms = true →
    match find_first (decisive key) ms with
    | Some (n, e) => find_first line_revokes ms = (match marker e with Some _ => Some (n, e) | None => None end) ∧
        (marker e = None → existsb (line_records key) ms = true)
    | None => find_first line_revokes ms = None ∧ existsb (line_records key) ms = false
    end) as Hfirst.
  { intros Hms. specialize (Hfirst Hms). destruct (find_first (decisive key) ms) as [[n e]|].
    - destruct Hfirst as [-> Hrec]. destruct (marker e); [done|]. by rewrite Hrec.
    - by destruct Hfirst as [-> ->]. }
  induction ms as [|[n e] ms IH]; [done|]. cbn [find_first revocations_lead existsb].
  rewrite decisive_split. destruct (line_revokes (n, e)) eqn:Hrv.
  { intros _. apply bool_decide_eq_true in Hrv. cbn [snd orb] in *. by rewrite Hrv. }
  destruct (line_records key (n, e)) eqn:Hrc; cbn [orb].
  - apply bool_decide_eq_true in Hrc as [Hm _]. cbn [snd] in Hm. rewrite Hm.
    intros Hrest. split; [by apply find_first_none|done].
  - apply IH.
Qed.

(** C3: a host key is judged as documented: in a file where no line that
    records the offered key stands ahead of an [@revoked] line for the host
    ([revoked_after_trusted] is the other order), a revoked line refuses the
    host regardless of anything else, else the very key on file is [Trusted],
    else the first line with another key of the same algorithm makes it
    [Changed], else it is [Unknown].  Certificate authority lines never count. *)
Theorem verify_as_documented file host port key text :
  read file = Ok text →
  let ms := filter (λ e, entry_matches (match_target host port) host e = true) (parsed_entries text) in
  revocations_lead key ms = true →
  verify file host port key = Ok (documented_verdict key ms).
Proof. intros Hr ms Hms. by rewrite (verify_run _ _ _ _ text), verdict_documented. Qed.

(** A verdict of [Trusted] needs the very key on file. *)
Lemma trusted_recorded key ms :
  verdict_of key ms = Trusted →
  ∃ n e, (n, e) ∈ ms ∧ marker e = None ∧ key_data (public_key e) = key_data key.
Proof.
  unfold verdict_of. destruct (find_first (decisive key) ms) as [[n e]|] eqn:Ef.
  - apply find_first_Some in Ef as (l1 & l2 & -> & Hd & _). intros Hv.
    exists n, e. unfold decisive in Hd. cbn [snd] in Hd. destruct (marker e) as [[]|]; [done..|].
    split_and!; [set_solver|done|]. by apply bool_decide_eq_true in Hd.
  - by destruct (find_first (conflicting key) ms) as [[n e]|].
Qed.

(** A key recorded on an earlier line wins over a later [@revoked] line. *)
Lemma verdict_trusted_first key l1 n e l2 :
  Forall (λ e, decisive key e = false) l1 → marker e = None →
  key_data (public_key e) = key_data key → verdict_of key (l1 ++ (n, e) :: l2) = Trusted.
Proof.
  intros Hl1 Hm Hk. unfold verdict_of.
  assert (find_first (decisive key) (l1 ++ (n, e) :: l2) = Some (n, e)) as ->; [|by rewrite Hm].
  apply find_first_Some. exists l1, l2. split_and!; [done| |done].
  unfold decisive. cbn [snd]. rewrite Hm. by apply bool_decide_eq_true.
Qed.
End verdict.

(** A line that records the offered key decides the verdict even when a
    later line revokes the host: [@revoked] short-circuits only the lines
    after it. *)
Theorem revoked_after_trusted `{SshKeys} file host port key text l1 n e l2 n' e' l3 :
  read file = Ok text →
  filter (λ e, entry_matches (match_target host port) host e = true) (parsed_entries text) =
    l1 ++ (n, e) :: l2 ++ (n', e') :: l3 →
  Forall (λ e, decisive key e = false) l1 → marker e = None →
  key_data (public_key e) = key_data key → marker e' = Some Revoked →
  verify file host port key = Ok Trusted.
Proof.
  intros Hr Hf Hl1 Hm Hk Hrev. by rewrite (verify_run file host port key text Hr), Hf,
    verdict_trusted_first.
Qed.

(** * Lines and entries *)
Section lines.
Context `{SshKeys}.

Lemma parse_entry_trim l l' : trim l = trim l' → parse_entry l = parse_entry l'.
Proof. intros Ht. unfold parse_entry. by rewrite Ht. Qed.

(** The entries of a list of lines numbered from [n + 1]. *)
Definition entries_from (n : nat) (ls : list str) : list (nat * Entry) :=
  omap (λ '(idx, line), (λ e, (idx + 1, e)) <$> parse_entry line) (enumerate_from n ls).

Lemma entries_from_app n ls ls' :
  entries_from n (ls ++ ls') = entries_from n ls ++ entries_from (n + length ls) ls'.
Proof. unfold entries_from. by rewrite enumerate_from_app, omap_app. Qed.

Lemma entries_from_trim n ls ls' :
  Forall2 (λ l l', trim l = trim l') ls ls' → entries_from n ls = entries_from n ls'.
Proof.
  intros Hall. revert n. induction Hall as [|l l' ls ls' Hl _ IH]; intros n; [done|].
  unfold entries_from in *. cbn. rewrite (parse_entry_trim l l' Hl), IH. done.
Qed.

Lemma entries_from_elem n ls k e :
  (k, e) ∈ entries_from n ls → ∃ l, l ∈ ls ∧ parse_entry l = Some e.
Proof.
  unfold entries_from. intros ([i l] & Hin & Hp)%list_elem_of_omap.
  apply fmap_Some in Hp as (e' & Hp & [= _ <-]). exists l. split; [|done].
  apply enumerate_from_elem in Hin as [_ Hin]. by eapply list_elem_of_lookup_2.
Qed.

(** Completing the last line with a newline changes no entry. *)
Lemma lines_complete s :
  Forall2 (λ l l', trim l = trim l')
    (lines (s ++ (if needs_newline s then [newline] else []))) (lines s).
Proof.
  destruct (needs_newline s) eqn:Hn; [|by rewrite app_nil_r; apply Forall_Forall2_diag, Forall_true].
  destruct (last_line_split s) as (a & b & -> & Ha & Hb).
  assert (b ≠ []) as Hne.
  { intros ->. rewrite app_nil_r in Hn. destruct Ha as [Ha| ->]; [|done].
    unfold needs_newline, ends_newline in Hn. rewrite Ha in Hn. by destruct a. }
  rewrite <- (assoc_L (++)), (lines_app a (b ++ _)), (lines_app a b) by done. apply Forall2_app.
  { by apply Forall_Forall2_diag, Forall_true. }
  rewrite lines_last_nl, lines_last by done. constructor; [|done]. apply trim_strip_line_ending.
Qed.

Lemma parsed_entries_eq text : parsed_entries text = entries_from 0 (lines text).
Proof. done. Qed.

Lemma complete_ends s :
  let s' := s ++ (if needs_newline s then [newline] else []) in
  ends_with [newline] s' = true ∨ s' = [].
Proof.
  simpl. destruct (needs_newline s) eqn:Hn.
  - left. apply ends_with_spec. eauto.
  - rewrite app_nil_r. destruct s as [|c s]; [by right|left]. unfold needs_newline in Hn.
    by apply negb_false_iff in Hn.
Qed.

(** Appending complete lines to a file keeps its entries, in place, and adds
    those of the new lines. *)
Lemma parsed_entries_append s new :
  parsed_entries (s ++ (if needs_newline s then [newline] else []) ++ new) =
  parsed_entries s ++ entries_from (length (lines s)) (lines new).
Proof.
  rewrite (assoc_L (++)), !parsed_entries_eq, lines_app by apply complete_ends.
  pose proof (lines_complete s) as Hc. rewrite entries_from_app, (entries_from_trim _ _ _ Hc).
  by rewrite (Forall2_length _ _ _ Hc).
Qed.
End lines.

(** * Learning a key *)
Section learn.
Context `{SshKeysLaws}.

Lemma split_ws_go_fields cur s :
  Forall (λ c, is_whitespace c = false) cur →
  Forall (λ f, f ≠ [] ∧ Forall (λ c, is_whitespace c = false) f) (split_ws_go cur s).
Proof.
  revert cur. induction s as [|c s IH]; intros cur Hcur; simpl.
  - destruct cur as [|d cur]; [constructor|]. constructor; [|constructor]. split.
    + rewrite reverse_cons. by intros [_ ?]%app_nil.
    + by apply Forall_reverse.
  - destruct (is_whitespace c) eqn:Hc.
    + destruct cur as [|d cur]; [by apply IH|]. constructor; [|by apply IH]. split.
      * rewrite reverse_cons. by intros [_ ?]%app_nil.
      * by apply Forall_reverse.
    + apply IH. by constructor.
Qed.

(** The key part of a line: blank only between its two fields. *)
Lemma key_part_shape key part :
  openssh_key_part key = Ok part →
  ∃ alg data c, part = alg ++ #" " ++ data ++ [c] ∧
    Forall (λ c, is_whitespace c = false) alg ∧ Forall (λ c, is_whitespace c = false) (data ++ [c]).
Proof.
  unfold openssh_key_part. destruct (to_openssh key) as [line|]; [|done].
  pose proof (split_ws_go_fields [] line) as Hf. unfold split_whitespace.
  destruct (split_ws_go [] line) as [|alg [|data rest]]; [done..|]. intros [= <-].
  apply Forall_cons in Hf as [[_ Ha] Hf]; [|constructor]. apply Forall_cons in Hf as [[Hne Hd] _].
  destruct (exists_last Hne) as (data' & c & ->). by exists alg, data', c.
Qed.

Lemma not_blank_no_newline s : Forall (λ c, is_whitespace c = false) s → newline ∉ s.
Proof. rewrite Forall_forall. by intros Hs Hin%Hs. Qed.

Lemma plain_name_spec s :
  plain_name s = true →
  (∃ c s', s = c :: s' ∧ c ∉ [ch "@"; ch "#"; ch "|"; ch "!"]) ∧
  Forall (λ c, is_whitespace c = false) s ∧ (star ∉ s) ∧ ch "," ∉ s.
Proof.
  unfold plain_name. destruct s as [|c s]; [done|].
  rewrite andb_true_iff, negb_true_iff, bool_decide_eq_false.
  intros [Hc Hall]. split; [eauto|]. rewrite forallb_forall in Hall. rewrite Forall_forall.
  split_and!; [intros d Hd%list_elem_of_In|intros Hin%list_elem_of_In..].
  - specialize (Hall d Hd). by apply andb_true_iff in Hall as [Hw%negb_true_iff _].
  - specialize (Hall star Hin). apply andb_true_iff in Hall as [_ Hs]. by vm_compute in Hs.
  - specialize (Hall _ Hin). apply andb_true_iff in Hall as [_ Hs]. by vm_compute in Hs.
Qed.

Lemma trim_line c s d :
  is_whitespace c = false → is_whitespace d = false → trim (c :: s ++ [d]) = c :: s ++ [d].
Proof.
  intros Hc Hd. unfold trim. rewrite trim_start_id by done.
  by apply (trim_end_id (c :: s) d).
Qed.

(** The pattern [learn] writes, plain or hashed, and what [ssh-key] makes of
    its line. *)
Lemma learned_pattern (hashed : bool) (salt : option (list N)) target host key part :
  plain_name target = true → openssh_key_part key = Ok part →
  let pattern := if hashed then hash_pattern salt target else target in
  ∃ c s, pattern = c :: s ∧ is_whitespace c = false ∧ c ≠ ch "#" ∧
    Forall (λ c, is_whitespace c = false) s ∧
    ∃ ps k, parse_line (pattern ++ #" " ++ part) = Some (None, ps, k) ∧
      key_data k = key_data key ∧ patterns_match ps target host = true.
Proof.
  intros Ht Hpart pattern.
  destruct (plain_name_spec target Ht) as ((tc & ts & Hts & Htc) & Hws & Hstar & _).
  assert (pattern = target ∨ ∃ sl, pattern = hash_pattern (Some sl) target) as [->|[sl ->]].
  { unfold pattern. destruct hashed, salt; eauto. }
  - exists tc, ts. rewrite Hts in Hws. apply Forall_cons in Hws as [Hw Hws].
    split_and!; [done|done|set_solver|done|].
    destruct (parse_plain target key part Ht Hpart) as (k & Hk & Hkd).
    exists (Patterns [target]), k. split_and!; [done|done|]. simpl. unfold pattern_step.
    assert (strip_prefix #"!" target = None) as ->.
    { rewrite Hts. cbn [lit strip_prefix]. destruct (N.eqb_spec (ch "!") tc); [set_solver|done]. }
    assert (host_glob_match target target = true) as ->; [|done].
    apply glob_match_star_free; [done|]. apply matches_refl.
  - exists (ch "|"), (#"1|" ++ base64 sl ++ #"|" ++ base64 (hmac_sha1 sl target)).
    split_and!; [done|done|done| |].
    + rewrite !Forall_app. split_and!; try apply base64_no_blank; by repeat constructor.
    + destruct (parse_hashed sl (hmac_sha1 sl target) key part Hpart) as (k & Hk & Hkd).
      exists (HashedName sl (hmac_sha1 sl target)), k. split_and!; [|done|].
      * unfold hash_pattern. rewrite <- Hk. f_equal. by rewrite <- !(assoc_L (++)).
      * simpl. by apply bool_decide_eq_true.
Qed.

(** The line [learn] writes parses as the entry it means. *)
Lemma learned_line (hashed : bool) (salt : option (list N)) target host key part :
  plain_name target = true → openssh_key_part key = Ok part →
  let pattern := if hashed then hash_pattern salt target else target in
  ∃ e, parse_entry (pattern ++ #" " ++ part) = Some e ∧ (newline ∉ pattern ++ #" " ++ part) ∧
    ends_cr (pattern ++ #" " ++ part) = false ∧
    marker e = None ∧ key_data (public_key e) = key_data key ∧
    patterns_match (host_patterns e) target host = true.
Proof.
  intros Ht Hpart pattern. destruct (key_part_shape key part Hpart) as (alg & data & d & Hp & Ha & Hd).
  destruct (plain_name_spec target Ht) as ((tc & ts & Hts & Htc) & Hws & Hstar & _).
  assert (∃ c s, pattern = c :: s ∧ is_whitespace c = false ∧ c ≠ ch "#" ∧
    Forall (λ c, is_whitespace c = false) s ∧
    ∃ ps k, parse_line (pattern ++ #" " ++ part) = Some (None, ps, k) ∧
      key_data k = key_data key ∧ patterns_match ps target host = true)
    as (c & s & Hps & Hc & Hhash & Hs & ps & k & Hparse & Hkey & Hmatch).
  { by apply learned_pattern. }
  assert (is_whitespace d = false) as Hdw by (apply Forall_app in Hd as [_ Hd]; by inversion Hd).
  assert (pattern ++ #" " ++ part = c :: (s ++ #" " ++ alg ++ #" " ++ data) ++ [d]) as Hline.
  { rewrite Hps, Hp. rewrite <- app_comm_cons. f_equal. by rewrite <- !(assoc_L (++)). }
  exists (MkEntry None ps k). split_and!; try done.
  - unfold parse_entry.
    assert (trim (pattern ++ #" " ++ part) = pattern ++ #" " ++ part) as ->
      by (rewrite Hline; by apply trim_line).
    rewrite decide_False by (by rewrite Hline). rewrite Hparse.
    assert (starts_with #"#" (pattern ++ #" " ++ part) = false) as ->; [|done].
    rewrite Hline. unfold starts_with. cbn [lit strip_prefix].
    by destruct (N.eqb_spec (ch "#") c).
  - rewrite Hps, Hp. apply not_blank_no_newline in Hs, Ha, Hd. intros Hin.
    rewrite <- app_comm_cons, elem_of_cons, !elem_of_app in Hin. rewrite elem_of_app in Hd.
    destruct Hin as [Hcn|[?|[Hsp|[?|[Hsp|?]]]]];
      [by subst c|tauto|by apply list_elem_of_singleton in Hsp|tauto|
       by apply list_elem_of_singleton in Hsp|tauto].
  - destruct (ends_cr _) eqn:Hcr; [|done]. exfalso. apply ends_with_spec in Hcr as [t Hcr].
    rewrite Hline, app_comm_cons in Hcr. apply app_inj_tail in Hcr as [_ ->]. done.
Qed.

(** A line that breaks off anywhere is no entry. *)
Lemma learned_line_cut (hashed : bool) (salt : option (list N)) target key part t :
  plain_name target = true → openssh_key_part key = Ok part →
  let line := (if hashed then hash_pattern salt target else target) ++ #" " ++ part in
  t `prefix_of` line → t ≠ line → parse_entry t = None.
Proof.
  intros Ht Hpart line Hpre Hne. destruct t as [|c t]; [done|].
  destruct (learned_pattern hashed salt target [] key part Ht Hpart)
    as (c' & s & Hps & Hc & Hhash & _).
  assert (c = c') as ->.
  { destruct Hpre as [k Hk]. unfold line in Hk. rewrite Hps in Hk. by injection Hk. }
  assert (trim (c' :: t) `prefix_of` c' :: t) as Htrim
    by (unfold trim; rewrite trim_start_id by done; apply trim_end_prefix).
  unfold parse_entry. case_decide; [done|]. destruct (starts_with _ _); [done|].
  rewrite (parse_cut hashed salt target key part) by (first [done|by etrans|
    intros Heq; apply Hne; apply (anti_symm prefix); [done|by rewrite Heq in Htrim]]). done.
Qed.
End learn.

(** * What [learn], [remove] and [import_from] do to the verdicts *)
Section operations.
Context `{SshKeys}.

(** An entry for the offered key, after all the others. *)
Lemma verdict_snoc key ms n e :
  marker e = None → key_data (public_key e) = key_data key →
  verdict_of key (ms ++ [(n, e)]) =
  match verdict_of key ms with VRevoked m => VRevoked m | _ => Trusted end.
Proof.
  intros Hm Hk. unfold verdict_of at 2. destruct (find_first (decisive key) ms) as [[n' e']|] eqn:Ef.
  - unfold verdict_of. apply find_first_Some in Ef as (l1 & l2 & -> & Hd & Hl1).
    assert (find_first (decisive key) ((l1 ++ (n', e') :: l2) ++ [(n, e)]) = Some (n', e')) as ->.
    { apply find_first_Some. exists l1, (l2 ++ [(n, e)]). by rewrite <- (assoc_L (++)). }
    by destruct (marker e').
  - apply find_first_None in Ef. rewrite (verdict_trusted_first key ms n e []) by done.
    by destruct (find_first (conflicting key) ms) as [[]|].
Qed.
End operations.

(** What [learn] leaves in the file. *)
Lemma learn_entry `{SshKeysLaws} salt host port key hashed file file' text :
  read file = Ok text → plain_name (match_target host port) = true →
  learn DWrites salt host port key hashed file = (Ok (), file') →
  ∃ text' n e, read file' = Ok text' ∧ parsed_entries text' = parsed_entries text ++ [(n, e)] ∧
    marker e = None ∧ key_data (public_key e) = key_data key ∧
    patterns_match (host_patterns e) (match_target host port) host = true.
Proof.
  intros Hr Hplain. unfold learn. destruct (openssh_key_part key) as [part|] eqn:Hpart; [|done].
  rewrite Hr. unfold write_file. intros Hfile%(f_equal snd). cbn [snd] in Hfile. subst file'.
  set (target := match_target host port) in *.
  set (pattern := if hashed then hash_pattern salt target else target).
  destruct (learned_line hashed salt target host key part Hplain Hpart)
    as (e & He & Hnl & Hcr & Hm & Hk & Hmatch). fold pattern in He, Hnl, Hcr.
  assert (lines (pattern ++ #" " ++ part ++ [newline]) = [pattern ++ #" " ++ part]) as Hl.
  { rewrite !(assoc_L (++)), lines_last_nl by (by rewrite <- (assoc_L (++))).
    rewrite strip_line_ending_nl; by rewrite <- (assoc_L (++)). }
  eexists _, (length (lines text) + 1), e. split_and!; [done| |done..].
  rewrite parsed_entries_append, Hl. unfold entries_from. cbn [enumerate_from omap list_omap].
  by rewrite He.
Qed.

(** The part of the line that a cut leaves is nothing, or all but the newline. *)
Lemma learned_part `{SshKeysLaws} hashed salt target host key part text t :
  plain_name target = true → openssh_key_part key = Ok part →
  t `prefix_of` ((if (hashed : bool) then hash_pattern salt target else target) ++ #" " ++ part) ++ [newline] →
  let text' := text ++ (if needs_newline text then [newline] else []) ++ t in
  parsed_entries text' = parsed_entries text ∨
  ∃ n e, parsed_entries text' = parsed_entries text ++ [(n, e)] ∧ marker e = None ∧
    key_data (public_key e) = key_data key ∧ patterns_match (host_patterns e) target host = true.
Proof.
  intros Hplain Hpart Hpre text'. set (line := _ ++ #" " ++ part) in *.
  destruct (learned_line hashed salt target host key part Hplain Hpart)
    as (e & He & Hnl & Hcr & Hm & Hk & Hmatch). fold line in He, Hnl, Hcr.
  assert (∀ l, lines t = [l] → parse_entry l = Some e →
    parsed_entries text' = parsed_entries text ++ [(length (lines text) + 1, e)]) as Hwhole.
  { intros l Hl Hle. unfold text'. rewrite parsed_entries_append, Hl. unfold entries_from.
    cbn [enumerate_from omap list_omap]. by rewrite Hle. }
  apply prefix_snoc in Hpre as [->|Hpre].
  { right. exists (length (lines text) + 1), e. split_and!; [|done..]. apply (Hwhole line); [|done].
    by rewrite lines_last_nl, strip_line_ending_nl. }
  destruct (decide (t = line)) as [->|Hne].
  { right. exists (length (lines text) + 1), e. split_and!; [|done..]. apply (Hwhole line); [|done].
    apply lines_last; [done|]. intros Hnil. rewrite Hnil in He. done. }
  left. unfold text'. rewrite parsed_entries_append. destruct t as [|c t]; [by rewrite app_nil_r|].
  assert (newline ∉ c :: t) as Hnl' by (intros Hin; apply Hnl; by eapply elem_of_prefix).
  rewrite (lines_last (c :: t)) by done.
  unfold entries_from. cbn [enumerate_from omap list_omap].
  rewrite (learned_line_cut hashed salt target key part) by done. by rewrite app_nil_r.
Qed.

(** A [learn] that is cut short: the file cannot be read, or nothing was learned,
    or all of it was. *)
Lemma learn_cut `{SshKeysLaws} n whole salt host port key hashed file r file' text :
  read file = Ok text → plain_name (match_target host port) = true → is_ok (openssh_key_part key) = true →
  learn (DCuts n whole) salt host port key hashed file = (r, file') →
  r = Err Io ∧ (file' = Unreadable ∨ ∃ text', file' = Contents text' ∧
    (parsed_entries text' = parsed_entries text ∨
     ∃ n e, parsed_entries text' = parsed_entries text ++ [(n, e)] ∧ marker e = None ∧
       key_data (public_key e) = key_data key ∧
       patterns_match (host_patterns e) (match_target host port) host = true)).
Proof.
  intros Hr Hplain. unfold learn. destruct (openssh_key_part key) as [part|] eqn:Hpart; [|done].
  rewrite Hr. intros _ [= <- <-]. split; [done|]. destruct whole; [right|by left].
  eexists. split; [done|]. set (target := match_target host port) in *.
  pose proof (learned_part hashed salt target host key part text) as Hl.
  match goal with |- context [take n ?x] =>
    assert (x = (if needs_newline text then [newline] else []) ++
      ((if hashed then hash_pattern salt target else target) ++ #" " ++ part) ++ [newline]) as ->
      by (by rewrite <- !(assoc_L (++))) end.
  set (line := _ ++ #" " ++ part) in *.
  assert (take n (line ++ [newline]) `prefix_of` line ++ [newline]) as Hpre
    by (eexists; symmetry; apply take_drop).
  destruct (needs_newline text); cbn [app]; [|by apply Hl].
  destruct n as [|n]; [left; by rewrite app_nil_r|]. apply Hl; [done..|].
  eexists. symmetry. apply take_drop.
Qed.

(** How the host then verifies. *)
Lemma learn_appends `{SshKeysLaws} salt host port key hashed file file' text :
  read file = Ok text → plain_name (match_target host port) = true →
  learn DWrites salt host port key hashed file = (Ok (), file') →
  ∃ old, verify file host port key = Ok old ∧
    verify file' host port key = Ok (match old with VRevoked n => VRevoked n | _ => Trusted end) ∧
    ∃ text' new, read file' = Ok text' ∧ parsed_entries text' = parsed_entries text ++ [new].
Proof.
  intros Hr Hplain Hl.
  destruct (learn_entry salt host port key hashed file file' text Hr Hplain Hl)
    as (text' & n & e & Hr' & Hpe & Hm & Hk & Hmatch).
  eexists. split; [by apply verify_run|]. split; [|by eauto].
  rewrite (verify_run file' host port key text') by done.
  rewrite Hpe, filter_app, filter_cons_True, filter_nil by done. by rewrite verdict_snoc.
Qed.

(** C22: after a key was written down for a host whose name is no pattern, the
    host verifies as [Trusted] with it, hashed or not, on any port, unless a line
    already revoked the host; every line that was in the file still stands where
    it stood. *)
Theorem learn_then_trusted `{SshKeysLaws} salt host port key hashed file file' text :
  read file = Ok text → plain_name (match_target host port) = true →
  learn DWrites salt host port key hashed file = (Ok (), file') →
  ∃ old, verify file host port key = Ok old ∧
    verify file' host port key = Ok (match old with VRevoked n => VRevoked n | _ => Trusted end) ∧
    ∃ text' new, read file' = Ok text' ∧ parsed_entries text' = parsed_entries text ++ [new].
Proof. apply learn_appends. Qed.

Lemma sample_unbase64_base64 bytes : sample_unbase64 (sample_base64 bytes) = bytes.
Proof.
  unfold sample_unbase64, sample_base64. induction bytes as [|b bs IH]; [done|].
  cbn [fmap list_fmap]. f_equal; [lia|apply IH].
Qed.

Lemma sample_base64_ge c bytes : c ∈ sample_base64 bytes → (200000 ≤ c)%N.
Proof. intros (x & -> & _)%list_elem_of_fmap. lia. Qed.

Lemma sample_patterns_hashed salt hash :
  sample_patterns (#"|1|" ++ sample_base64 salt ++ #"|" ++ sample_base64 hash) =
  Some (HashedName salt hash).
Proof.
  unfold sample_patterns.
  assert (strip_prefix #"|1|" (#"|1|" ++ sample_base64 salt ++ #"|" ++ sample_base64 hash) =
    Some (sample_base64 salt ++ #"|" ++ sample_base64 hash)) as -> by (by apply strip_prefix_Some).
  change (sample_base64 salt ++ #"|" ++ sample_base64 hash)
    with (sample_base64 salt ++ ch "|" :: sample_base64 hash).
  rewrite split_once_app by (intros Hin%sample_base64_ge; by vm_compute in Hin).
  cbn [fmap option_fmap option_map]. by rewrite !sample_unbase64_base64.
Qed.

Lemma sample_parse_openssh k : sample_parse_key (sample_openssh k) = Some k.
Proof. by destruct k. Qed.

(** Every line the sample parser is asked about: a first word without blanks
    that is not a marker, then a key. *)
Lemma sample_parse_word pat ps (key : sample_key) :
  ch " " ∉ pat → starts_with #"@" pat = false → sample_patterns pat = Some ps →
  sample_parse_line (pat ++ #" " ++ sample_openssh key) = Some (None, ps, key).
Proof.
  intros Hsp Hat Hps. unfold sample_parse_line.
  change (pat ++ #" " ++ sample_openssh key) with (pat ++ ch " " :: sample_openssh key).
  rewrite split_once_app by done.
  rewrite !decide_False by (intros ->; by vm_compute in Hat).
  unfold sample_body. rewrite split_once_app by done. cbn [mbind option_bind]. rewrite Hps.
  cbn [mbind option_bind]. by rewrite sample_parse_openssh.
Qed.

Lemma sample_key_part (key : PublicKey) part :
  openssh_key_part key = Ok part → part = sample_openssh key.
Proof. destruct key; by intros [= <-]. Qed.

(** The first word of a learned line: no blank in it, and no marker. *)
Lemma sample_plain_word target :
  plain_name target = true → (ch " " ∉ target) ∧ starts_with #"@" target = false ∧
    sample_patterns target = Some (Patterns [target]).
Proof.
  intros Hp. destruct (plain_name_spec target Hp) as ((c & s & -> & Hc) & Hws & _ & Hcomma). split_and!.
  - intros Hin. rewrite Forall_forall in Hws. apply Hws in Hin. by vm_compute in Hin.
  - unfold starts_with. cbn [lit strip_prefix]. destruct (N.eqb_spec (ch "@") c); [set_solver|done].
  - unfold sample_patterns. cbn [lit strip_prefix].
    destruct (N.eqb_spec (ch "|") c); [set_solver|]. by rewrite split_char_no_sep.
Qed.

Lemma sample_hashed_word salt hash :
  let pat := #"|1|" ++ sample_base64 salt ++ #"|" ++ sample_base64 hash in
  (ch " " ∉ pat) ∧ starts_with #"@" pat = false ∧ sample_patterns pat = Some (HashedName salt hash).
Proof.
  intros pat. split_and!; [|done|apply sample_patterns_hashed].
  unfold pat. rewrite !elem_of_app. intros [Hin|[Hin|[Hin|Hin]]];
    first [apply sample_base64_ge in Hin; by vm_compute in Hin|
           by apply (bool_decide_eq_true (_ ∈ _)) in Hin].
Qed.

Lemma sample_key_cut (k : sample_key) s :
  s `prefix_of` sample_openssh k → s ≠ sample_openssh k → sample_parse_key s = None.
Proof.
  intros [r Hr] Hne. assert (s = take (length s) (sample_openssh k)) as Hs by (by rewrite Hr, take_app_length).
  assert (length s < length (sample_openssh k)) as Hlen.
  { rewrite Hr, length_app. destruct r; [by rewrite app_nil_r in Hr; destruct Hne|cbn; lia]. }
  rewrite Hs. clear Hs Hr Hne. revert Hlen. generalize (length s). intros n Hn.
  destruct k; cbn in Hn; do 16 (destruct n as [|n]; [first [by vm_compute|lia]|]); lia.
Qed.

(** A line that breaks off in its first word, or in its key. *)
Lemma sample_line_cut pat (key : sample_key) t :
  ch " " ∉ pat → starts_with #"@" pat = false →
  t `prefix_of` pat ++ #" " ++ sample_openssh key → t ≠ pat ++ #" " ++ sample_openssh key →
  sample_parse_line t = None.
Proof.
  intros Hsp Hat [r Hr] Hne. symmetry in Hr. apply app_eq_app in Hr as [l [[-> Hl]|[-> Hl]]].
  - destruct l as [|c s].
    { unfold sample_parse_line. by rewrite app_nil_r, (proj2 (split_once_None _ _) Hsp). }
    cbn [app lit] in Hl. injection Hl as <- Hl.
    assert (sample_parse_key s = None) as Hk.
    { apply (sample_key_cut key); [by exists r|]. intros ->. by apply Hne. }
    unfold sample_parse_line. rewrite split_once_app by done.
    rewrite !decide_False by (intros ->; by vm_compute in Hat).
    unfold sample_body. rewrite split_once_app by done. cbn [mbind option_bind].
    destruct (sample_patterns pat); [|done]. cbn [mbind option_bind]. by rewrite Hk.
  - unfold sample_parse_line. rewrite (proj2 (split_once_None _ t)); [done|]. set_solver.
Qed.

#[export] Instance sample_laws : SshKeysLaws.
Proof.
  split.
  - intros pat key part Hp ->%sample_key_part. exists key. split; [|done].
    destruct (sample_plain_word pat Hp) as (? & ? & ?). by apply sample_parse_word.
  - intros salt hash key part ->%sample_key_part. exists key. split; [|done].
    destruct (sample_hashed_word salt hash) as (H1 & H2 & H3).
    pose proof (sample_parse_word _ _ key H1 H2 H3) as Hp. rewrite <- !(assoc_L (++)) in Hp. exact Hp.
  - intros hashed salt target key part t Hp ->%sample_key_part line.
    assert ((ch " " ∉ (if hashed then hash_pattern salt target else target)) ∧
      starts_with #"@" (if hashed then hash_pattern salt target else target) = false) as [H1 H2].
    { destruct (sample_plain_word target Hp) as (? & ? & _). destruct hashed, salt as [sl|]; try done.
      by destruct (sample_hashed_word sl (sl ++ target)) as (? & ? & _). }
    by apply sample_line_cut.
  - intros bytes. apply Forall_forall. intros c Hc%sample_base64_ge.
    destruct (is_whitespace c) eqn:Hw; [|done]. unfold is_whitespace in Hw.
    rewrite !orb_true_iff, !andb_true_iff, !N.leb_le, !N.eqb_eq in Hw. lia.
Qed.

(** * Removing a host *)
Section remove.
Context `{SshKeys}.

Lemma remove_loop_spec target host ls kept n :
  remove_loop target host ls kept n =
  (kept ++ concat ((λ l, l ++ [newline]) <$> filter (λ l, line_matches target host l = false) ls),
   n + length (filter (λ l, line_matches target host l = true) ls)).
Proof.
  revert kept n. induction ls as [|l ls IH]; intros kept n; [by rewrite app_nil_r, Nat.add_0_r|].
  cbn [remove_loop]. destruct (line_matches target host l) eqn:E; rewrite IH.
  - rewrite filter_cons_False, filter_cons_True by congruence. simpl. f_equal. lia.
  - rewrite filter_cons_True, filter_cons_False by congruence. cbn [fmap list_fmap concat].
    by rewrite <- !(assoc_L (++)).
Qed.

Lemma entries_from_snd n (ls : list str) : (entries_from n ls).*2 = omap parse_entry ls.
Proof.
  revert n. induction ls as [|l ls IH]; intros n; [done|]. unfold entries_from in *.
  cbn [enumerate_from omap list_omap]. destruct (parse_entry l); cbn; by rewrite IH.
Qed.

(** Kept lines carry exactly the entries that do not match. *)
Lemma kept_entries target host (ls : list str) :
  omap parse_entry (filter (λ l, line_matches target host l = false) ls) =
  filter (λ e, patterns_match (host_patterns e) target host = false) (omap parse_entry ls).
Proof.
  induction ls as [|l ls IH]; [done|]. cbn [omap list_omap].
  destruct (parse_entry l) as [e|] eqn:E.
  - destruct (patterns_match (host_patterns e) target host) eqn:Em.
    + rewrite filter_cons_False by (unfold line_matches; rewrite E; congruence).
      by rewrite filter_cons_False by congruence.
    + rewrite filter_cons_True by (unfold line_matches; by rewrite E).
      rewrite filter_cons_True by done. cbn [omap list_omap]. by rewrite E, IH.
  - rewrite filter_cons_True by (unfold line_matches; by rewrite E). cbn [omap list_omap].
    by rewrite E.
Qed.

Lemma matching_lines target host (ls : list str) :
  length (filter (λ l, line_matches target host l = true) ls) =
  length (filter (λ e, patterns_match (host_patterns e) target host = true) (omap parse_entry ls)).
Proof.
  induction ls as [|l ls IH]; [done|]. cbn [omap list_omap].
  destruct (parse_entry l) as [e|] eqn:E.
  - destruct (patterns_match (host_patterns e) target host) eqn:Em.
    + rewrite filter_cons_True by (unfold line_matches; by rewrite E).
      rewrite filter_cons_True by done. simpl. by rewrite IH.
    + rewrite filter_cons_False by (unfold line_matches; rewrite E; congruence).
      by rewrite filter_cons_False by congruence.
  - by rewrite filter_cons_False by (unfold line_matches; by rewrite E).
Qed.

(** No entry for the host: first contact. *)
Lemma verdict_no_match key target host text :
  Forall (λ e, patterns_match (host_patterns e) target host = false) (parsed_entries text).*2 →
  verdict_of key (filter (λ e, entry_matches target host e = true) (parsed_entries text)) = Unknown.
Proof.
  intros Hall. assert (filter (λ e, entry_matches target host e = true) (parsed_entries text) = [])
    as ->; [|done].
  apply elem_of_nil_inv. intros e [Hm He]%list_elem_of_filter. rewrite Forall_forall in Hall.
  unfold entry_matches in Hm. rewrite Hall in Hm; [done|]. apply list_elem_of_fmap. eauto.
Qed.

(** What [remove] writes back: the entries that do not match, in order. *)
Lemma kept_text_entries target host text :
  (parsed_entries (concat ((λ l, l ++ [newline]) <$>
     filter (λ l, line_matches target host l = false) (lines text)))).*2 =
  filter (λ e, patterns_match (host_patterns e) target host = false) (parsed_entries text).*2.
Proof.
  rewrite !parsed_entries_eq, lines_concat_nl, !entries_from_snd, <- kept_entries.
  - induction (filter _ (lines text)) as [|l ls IH]; [done|]. cbn [fmap list_fmap omap list_omap].
    rewrite (parse_entry_trim _ _ (trim_strip_line_ending l)), IH. done.
  - apply Forall_filter, lines_no_newline.
Qed.

(** Removing a host leaves exactly the entries that are not for it, says
    how many went, and makes the host first contact again for every key. *)
Theorem remove_then_unknown host port file n file' text :
  read file = Ok text → remove DWrites host port file = (Ok n, file') →
  (∀ key, verify file' host port key = Ok Unknown) ∧
  n = length (filter (λ e, patterns_match (host_patterns e) (match_target host port) host = true)
        (parsed_entries text).*2) ∧
  ∃ text', read file' = Ok text' ∧
    (parsed_entries text').*2 =
    filter (λ e, patterns_match (host_patterns e) (match_target host port) host = false)
      (parsed_entries text).*2.
Proof.
  intros Hr. unfold remove. rewrite Hr, remove_loop_spec. cbn [app Nat.add].
  set (target := match_target host port).
  set (kept := concat _). set (m := length _).
  assert (m = length (filter (λ e, patterns_match (host_patterns e) target host = true)
    (parsed_entries text).*2)) as Hm.
  { unfold m. by rewrite matching_lines, parsed_entries_eq, entries_from_snd. }
  intros Hrem. assert (n = m) as -> by (destruct (Nat.ltb_spec 0 m); by simplify_eq/=).
  assert (∃ text', read file' = Ok text' ∧ (parsed_entries text').*2 =
    filter (λ e, patterns_match (host_patterns e) target host = false) (parsed_entries text).*2)
    as (text' & Hr' & Hp').
  { destruct (Nat.ltb_spec 0 m) as [Hpos|Hz]; simplify_eq/=.
    - exists kept. split; [done|]. apply kept_text_entries.
    - exists text. split; [done|]. symmetry. apply list_filter_all. intros e He.
      destruct (patterns_match _ _ _) eqn:Epm; [|done]. exfalso.
      assert (e ∈ filter (λ e, patterns_match (host_patterns e) target host = true)
        (parsed_entries text).*2) as Hin by (by apply list_elem_of_filter).
      destruct (filter _ (parsed_entries text).*2); [by apply elem_of_nil in Hin|]. simpl in Hm. lia. }
  split; [|split; [done|by eauto]]. intros key. rewrite (verify_run _ _ _ _ text') by done.
  f_equal. apply verdict_no_match. fold target. rewrite Hp'. apply Forall_forall.
  by intros e [? _]%list_elem_of_filter.
Qed.
End remove.

(** * Importing another file *)
Section importing.
Context `{SshKeys}.

(** The identity an incoming line is compared by: certificate authorities and
    lines that do not parse have none. *)
Definition line_identity (line : str) : option str :=
  match parse_entry line with
  | Some e => if decide (marker e = Some CertAuthority) then None else Some (entry_identity e)
  | None => None
  end.

Definition balanced (r : ImportReport) : Prop :=
  total r = imported_lines r + duplicates r + skipped_cert_authority r + malformed r.

(** What the loop has done: [ts] are the lines it appends. *)
Record import_inv (known0 : list str) (ts : list str) (st : importing) : Prop := {
  inv_balanced : balanced (report st);
  inv_known : known st = known0 ++ omap line_identity ts;
  inv_appended : appended st = concat ((λ t, t ++ [newline]) <$> ts);
  inv_lines : Forall (λ t, (newline ∉ t) ∧ is_Some (line_identity t)) ts;
  inv_count : imported_lines (report st) = length ts
}.

Lemma line_identity_trim l : line_identity (trim l) = line_identity l.
Proof. unfold line_identity. by rewrite (parse_entry_trim _ l (trim_idem l)). Qed.

Lemma import_line_inv known0 ts st l :
  newline ∉ l → import_inv known0 ts st →
  ∃ ts', import_inv known0 ts' (import_line st l) ∧ ts `prefix_of` ts' ∧
    ∀ i, line_identity l = Some i → i ∈ known (import_line st l).
Proof.
  intros Hnl [Hb Hk Ha Hl Hc]. unfold import_line.
  assert (trim l = [] ∨ starts_with #"#" (trim l) = true → line_identity l = None) as Hnone.
  { intros Hd. unfold line_identity, parse_entry. case_decide; [done|].
    destruct Hd as [?| ->]; done. }
  case_decide as Hempty; [exists ts; split_and!; [done|done|rewrite Hnone by auto; done]|].
  destruct (starts_with #"#" (trim l)) eqn:Hhash;
    [exists ts; split_and!; [done|done|rewrite Hnone by auto; done]|].
  unfold balanced in Hb. pose proof (line_identity_trim l) as Htrim. unfold line_identity in *.
  destruct (parse_entry l) as [e|] eqn:Hp.
  2: { exists ts. split_and!; [|done|done]. split; simpl; try done. unfold balanced. simpl. lia. }
  destruct (decide (marker e = Some CertAuthority)) as [Hca|Hca].
  { exists ts. split_and!; [|done|done]. split; simpl; try done. unfold balanced. simpl. lia. }
  destruct (decide (entry_identity e ∈ known st)) as [Hin|Hin].
  - exists ts. split_and!; [|done|by intros i [= <-]]. split; simpl; try done.
    unfold balanced. simpl. lia.
  - exists (ts ++ [trim l]). split_and!; [|by eexists|].
    + split; simpl.
      * unfold balanced. simpl. lia.
      * rewrite omap_app, Hk. cbn [omap list_omap]. unfold line_identity.
        rewrite Htrim. by rewrite (assoc_L (++)).
      * rewrite fmap_app, concat_app, Ha. simpl. by rewrite app_nil_r.
      * apply Forall_app. split; [done|]. constructor; [|constructor]. split.
        -- intros Hc'%trim_elem. done.
        -- unfold line_identity. rewrite Htrim. by eexists.
      * rewrite length_app, Hc. simpl. lia.
    + intros i [= <-]. simpl. set_solver.
Qed.

Lemma import_loop_inv known0 ts st ls :
  Forall (λ l, newline ∉ l) ls → import_inv known0 ts st →
  ∃ ts', import_inv known0 ts' (foldl import_line st ls) ∧ ts `prefix_of` ts' ∧
    ∀ l i, l ∈ ls → line_identity l = Some i → i ∈ known (foldl import_line st ls).
Proof.
  intros Hls. revert ts st. induction Hls as [|l ls Hl _ IH]; intros ts st Hst.
  { exists ts. split_and!; [done|done|set_solver]. }
  destruct (import_line_inv known0 ts st l Hl Hst) as (ts1 & H1 & Hpre & Hin).
  cbn [foldl]. destruct (IH ts1 _ H1) as (ts2 & H2 & Hpre2 & Hin2).
  exists ts2. split_and!; [done|by etrans|].
  intros l' i [->|Hl']%elem_of_cons Hi; [|by eapply Hin2].
  specialize (Hin i Hi). rewrite (inv_known _ _ _ H1) in Hin. rewrite (inv_known _ _ _ H2).
  destruct Hpre2 as [k ->]. rewrite omap_app. set_solver.
Qed.

(** Lines whose identity is already known are only counted. *)
Lemma import_loop_known st ls :
  (∀ l i, l ∈ ls → line_identity l = Some i → i ∈ known st) →
  let st' := foldl import_line st ls in
  known st' = known st ∧ appended st' = appended st ∧
  imported_lines (report st') = imported_lines (report st).
Proof.
  revert st. induction ls as [|l ls IH]; intros st Hall; [done|]. cbn [foldl].
  assert (known (import_line st l) = known st ∧ appended (import_line st l) = appended st ∧
    imported_lines (report (import_line st l)) = imported_lines (report st)) as (Hk & Ha & Hi).
  { specialize (Hall l). unfold import_line. case_decide; [done|].
    destruct (starts_with #"#" (trim l)); [done|]. unfold line_identity in Hall.
    destruct (parse_entry l) as [e|]; [|done]. case_decide; [done|].
    rewrite decide_True; [done|]. apply Hall; [by left|done]. }
  specialize (IH (import_line st l)). cbv zeta in IH. rewrite Hk, Ha, Hi in IH.
  apply IH. intros l' i Hl'. apply Hall. by right.
Qed.

Lemma identities_elem text : identities text = (entry_identity <$> (parsed_entries text).*2).
Proof.
  unfold identities. rewrite parsed_entries_eq, entries_from_snd.
  induction (lines text) as [|l ls IH]; [done|]. cbn [omap list_omap].
  destruct (parse_entry l); cbn; by rewrite IH.
Qed.

(** The appended lines parse, one entry each, with the identities recorded. *)
Lemma appended_entries n (ts : list str) :
  Forall (λ t, (newline ∉ t) ∧ is_Some (line_identity t)) ts →
  let es := entries_from n (lines (concat ((λ t, t ++ [newline]) <$> ts))) in
  length es = length ts ∧ entry_identity <$> es.*2 = omap line_identity ts.
Proof.
  intros Hts. simpl. rewrite lines_concat_nl by (eapply Forall_impl; [exact Hts|]; by intros t [? _]).
  assert (∀ t i, line_identity t = Some i →
    ∃ e, parse_entry (strip_line_ending (t ++ [newline])) = Some e ∧ entry_identity e = i) as Hp.
  { intros t i Hi. rewrite (parse_entry_trim _ t) by apply trim_strip_line_ending.
    unfold line_identity in Hi. destruct (parse_entry t) as [e|]; [|done].
    case_decide; simplify_eq; eauto. }
  rewrite <- (length_fmap snd (entries_from _ _)), entries_from_snd.
  induction Hts as [|t ts [_ [i Hi]] _ [IH1 IH2]]; [done|].
  destruct (Hp t i Hi) as (e & He & Hei). cbn [fmap list_fmap omap list_omap].
  rewrite He, Hi. cbn. by rewrite IH1, IH2, Hei.
Qed.

Lemma import_loop_start incoming text :
  ∃ ts, import_inv (identities text) ts
    (foldl import_line (Importing (identities text) report_default []) (lines incoming)) ∧
    ∀ l i, l ∈ lines incoming → line_identity l = Some i →
      i ∈ identities text ++ omap line_identity ts.
Proof.
  destruct (import_loop_inv (identities text) [] (Importing (identities text) report_default [])
    (lines incoming)) as (ts & Hinv & _ & Hin).
  - apply lines_no_newline.
  - split; simpl; try done. by rewrite app_nil_r.
  - exists ts. split; [done|]. intros l i Hl Hi. rewrite <- (inv_known _ _ _ Hinv). by eapply Hin.
Qed.

(** An import accounts for every line it considers, keeps every entry the
    file had, in place, and adds one entry per line it reports as imported;
    importing the same source again adds nothing. *)
Theorem known_hosts_import incoming file text r file' :
  read file = Ok text → import_from DWrites (Contents incoming) file = (Ok r, file') →
  balanced r ∧
  (∃ text' extra, read file' = Ok text' ∧ parsed_entries text' = parsed_entries text ++ extra ∧
     length extra = imported_lines r) ∧
  ∃ r', import_from DWrites (Contents incoming) file' = (Ok r', file') ∧ imported_lines r' = 0.
Proof.
  intros Hr. unfold import_from at 1. rewrite Hr. cbv zeta.
  destruct (import_loop_start incoming text) as (ts & Hinv & Hin). revert Hinv.
  set (st := foldl import_line _ _). intros Hinv Himp.
  assert (∃ text' extra, read file' = Ok text' ∧ parsed_entries text' = parsed_entries text ++ extra ∧
    length extra = length ts ∧ entry_identity <$> extra.*2 = omap line_identity ts ∧ r = report st)
    as (text' & extra & Hr' & Hp' & Hlen & Hids & ->).
  { rewrite (inv_appended _ _ _ Hinv) in Himp. destruct ts as [|t ts].
    - simpl in Himp. simplify_eq. exists text, []. rewrite app_nil_r. done.
    - assert (∃ c s, concat ((λ t, t ++ [newline]) <$> t :: ts) = c :: s) as (c & s & Hcs).
      { simpl. destruct t; simpl; eauto. }
      destruct (appended_entries (length (lines text)) (t :: ts) (inv_lines _ _ _ Hinv)) as [Hl1 Hl2].
      rewrite Hcs in Himp. rewrite <- Hcs in Himp. unfold write_file in Himp. simplify_eq.
      eexists _, _. split; [done|]. split; [apply parsed_entries_append|]. done. }
  split_and!.
  - apply Hinv.
  - exists text', extra. rewrite (inv_count _ _ _ Hinv). done.
  - unfold import_from. rewrite Hr'. cbv zeta.
    destruct (import_loop_known (Importing (identities text') report_default []) (lines incoming))
      as (_ & Ha & Hi).
    { cbn [known]. rewrite identities_elem, Hp', !fmap_app, Hids, <- identities_elem. exact Hin. }
    rewrite Ha. cbn [appended]. eexists. split; [done|]. by rewrite Hi.
Qed.

(** The comparison ignores the marker, so an incoming [@revoked] line for
    a key the file already trusts under the same patterns is counted as a
    duplicate and dropped: the revocation does not come across. *)
Theorem revoked_import_dropped line e text e0 n :
  parse_entry line = Some e → marker e = Some Revoked → newline ∉ line →
  (n, e0) ∈ parsed_entries text → entry_identity e0 = entry_identity e →
  import_from DWrites (Contents line) (Contents text) =
  (Ok (MkReport 1 0 1 0 0), Contents text).
Proof.
  intros Hp Hm Hnl Hin Heq. unfold import_from. cbn [read].
  assert (line ≠ []) as Hne by (intros ->; done).
  rewrite lines_last by done. cbn [foldl].
  assert (import_line (Importing (identities text) report_default []) line =
    Importing (identities text) (MkReport 1 0 1 0 0) []) as ->; [|done].
  unfold import_line. pose proof Hp as Hp'. unfold parse_entry in Hp'.
  destruct (decide (trim line = [])); [done|].
  destruct (starts_with #"#" (trim line)); [done|]. rewrite Hp.
  rewrite decide_False by congruence. rewrite decide_True; [done|]. cbn [known].
  rewrite identities_elem, <- Heq. apply list_elem_of_fmap. exists e0. split; [done|].
  apply list_elem_of_fmap. by exists (n, e0).
Qed.
End importing.

(** * The properties on a concrete file *)

(** One key on file for the host, and a later line that revokes it. *)
Definition sample_file : str := #"web ssh-ed25519 AAAA
@revoked web ssh-ed25519 AAAA
old ssh-rsa CCCC".

Definition sample_entry (m : option Marker) (p : str) (k : sample_key) : entry sample_key :=
  MkEntry m (Patterns [p]) k.

Lemma sample_file_entries :
  parsed_entries sample_file =
  [(1, sample_entry None #"web" KeyA); (2, sample_entry (Some Revoked) #"web" KeyA);
   (3, sample_entry None #"old" KeyRsa)].
Proof. vm_compute. reflexivity. Qed.

(** Revoked, and recorded under another key of the algorithm meanwhile. *)
Definition revoked_file : str := #"web ssh-rsa CCCC
@revoked web ssh-ed25519 BBBB
web ssh-ed25519 AAAA".

Lemma verify_as_documented_witness :
  verify (Contents revoked_file) #"web" 22 KeyA = Ok (VRevoked 2) ∧
  verify (Contents sample_file) #"old" 22 KeyRsa = Ok Trusted.
Proof.
  split.
  - rewrite (verify_as_documented (H := sample_keys) (Contents revoked_file) #"web" 22 KeyA revoked_file);
      by vm_compute.
  - rewrite (verify_as_documented (H := sample_keys) (Contents sample_file) #"old" 22 KeyRsa sample_file);
      by vm_compute.
Defined.

Lemma revoked_after_trusted_witness : verify (Contents sample_file) #"web" 22 KeyA = Ok Trusted.
Proof.
  apply (revoked_after_trusted (H := sample_keys) (Contents sample_file) #"web" 22 KeyA sample_file
    [] 1 (sample_entry None #"web" KeyA) [] 2 (sample_entry (Some Revoked) #"web" KeyA) []).
  - reflexivity.
  - rewrite sample_file_entries. by vm_compute.
  - constructor.
  - reflexivity.
  - reflexivity.
  - reflexivity.
Defined.

Lemma learn_then_trusted_witness :
  let file := Contents sample_file in
  let file' := (learn DWrites (Some [7%N]) #"new" 2222 KeyB true file).2 in
  ∃ old, verify file #"new" 2222 KeyB = Ok old ∧
    verify file' #"new" 2222 KeyB = Ok (match old with VRevoked n => VRevoked n | _ => Trusted end) ∧
    ∃ text' new, read file' = Ok text' ∧ parsed_entries text' = parsed_entries sample_file ++ [new].
Proof.
  intros file file'.
  apply (learn_then_trusted (H := sample_keys) (Some [7%N]) #"new" 2222 KeyB true file file' sample_file); by vm_compute.
Defined.

Lemma remove_then_unknown_witness :
  let file' := (remove DWrites #"web" 22 (Contents sample_file)).2 in
  (∀ key, verify file' #"web" 22 key = Ok Unknown) ∧
  2 = length (filter (λ e, patterns_match (host_patterns e) (match_target #"web" 22) #"web" = true)
        (parsed_entries sample_file).*2) ∧
  ∃ text', read file' = Ok text' ∧
    (parsed_entries text').*2 =
    filter (λ e, patterns_match (host_patterns e) (match_target #"web" 22) #"web" = false)
      (parsed_entries sample_file).*2.
Proof.
  intros file'.
  apply (remove_then_unknown (H := sample_keys) #"web" 22 (Contents sample_file) 2 file' sample_file); by vm_compute.
Defined.

Lemma known_hosts_import_witness :
  let src := #"# from ~/.ssh
other,alias ssh-ed25519 BBBB me@laptop
web ssh-ed25519 AAAA" in
  let r := MkReport 2 0 1 0 1 in
  balanced r ∧
  (∃ text' extra, read (Contents sample_file) = Ok text' ∧
     parsed_entries text' = parsed_entries sample_file ++ extra ∧ length extra = imported_lines r) ∧
  ∃ r', import_from DWrites (Contents src) (Contents sample_file) = (Ok r', Contents sample_file) ∧
    imported_lines r' = 0.
Proof.
  intros src r.
  apply (known_hosts_import (H := sample_keys) src (Contents sample_file) sample_file r (Contents sample_file));
    by vm_compute.
Defined.

Lemma revoked_import_dropped_witness :
  import_from DWrites (Contents #"@revoked web ssh-ed25519 AAAA")
    (Contents #"web ssh-ed25519 AAAA") =
  (Ok (MkReport 1 0 1 0 0), Contents #"web ssh-ed25519 AAAA").
Proof.
  apply (revoked_import_dropped (H := sample_keys) #"@revoked web ssh-ed25519 AAAA"
    (sample_entry (Some Revoked) #"web" KeyA) #"web ssh-ed25519 AAAA"
    (sample_entry None #"web" KeyA) 1).
  - by vm_compute.
  - reflexivity.
  - by apply (bool_decide_unpack _).
  - by apply list_elem_of_singleton.
  - reflexivity.
Defined.
