(* ===== verification/TrustBook.v ===== *)
(** * Who is trusted, and since when

    Tern's [known_hosts] as those who use it think of it: a book of entries in
    order, with no lines, comments, blanks, hashes or line endings.
    [trust_spec] says what every operation of [KnownHostsFile] answers and does
    to the book; [trust_refines] proves that the operations on the file do that,
    whatever the file holds, and [trusted_since] follows a trusted key back to
    the operation that let it in. *)
From S2P Require Import Prelude Text KnownHosts.

(** * The book *)
Section book.
Context `{SshKeys}.

Abbreviation book := (list (entry PublicKey)) (only parsing).

(** The book a file holds, if it can be read. *)
Definition book_of (file : file_state) : option book :=
  (λ text, (parsed_entries text).*2) <$> ok (read file).

Definition is_for (host : str) (port : Z) (e : entry PublicKey) : Prop :=
  patterns_match (host_patterns e) (match_target host port) host = true.
#[export] Instance is_for_dec host port e : Decision (is_for host port e).
Proof. unfold is_for. apply _. Defined.

(** The verdict, without line numbers. *)
Inductive judgement := JTrusted | JUnknown | JChanged (algorithm fingerprint : str) | JRevoked.

Definition judgement_of (v : HostKeyVerdict) : judgement :=
  match v with
  | Trusted => JTrusted
  | Unknown => JUnknown
  | Changed _ a f => JChanged a f
  | VRevoked _ => JRevoked
  end.

Definition records (key : PublicKey) (e : entry PublicKey) : bool :=
  bool_decide (marker e = None ∧ key_data (public_key e) = key_data key).
Definition revokes (e : entry PublicKey) : bool := bool_decide (marker e = Some Revoked).
Definition rivals (key : PublicKey) (e : entry PublicKey) : bool :=
  bool_decide (marker e = None ∧ algorithm (public_key e) = algorithm key).

(** The first entry that is revoked or records the key decides; failing that,
    the first that records another key of its kind. *)
Definition judge (key : PublicKey) (es : book) : judgement :=
  match find_first (λ e, revokes e || records key e) es with
  | Some e => if revokes e then JRevoked else JTrusted
  | None =>
      match find_first (rivals key) es with
      | Some e => JChanged (algorithm (public_key e)) (fingerprint (public_key e))
      | None => JUnknown
      end
  end.

(** The judgement the documentation asks for, which takes the entries in no
    order, and when going through them in order gives it: no entry that records
    the key stands ahead of a revoked one. *)
Definition documented (key : PublicKey) (es : book) : judgement :=
  if existsb revokes es then JRevoked
  else if existsb (records key) es then JTrusted
  else match find_first (rivals key) es with
       | Some e => JChanged (algorithm (public_key e)) (fingerprint (public_key e))
       | None => JUnknown
       end.
Fixpoint revoked_ahead (key : PublicKey) (es : book) : bool :=
  match es with
  | [] => true
  | e :: es => if records key e then negb (existsb revokes es) else revoked_ahead key es
  end.

(** A revoked entry behind one that records the key may be seen or not. *)
Definition judged (key : PublicKey) (es : book) (j : judgement) : Prop :=
  if revoked_ahead key es then j = documented key es else j = JTrusted ∨ j = JRevoked.

(** The entries an import adds: no authorities, and nothing the book or an
    earlier line of the import already has. *)
Fixpoint admit_from (known : list str) (es : book) : book :=
  match es with
  | [] => []
  | e :: es =>
      if decide (marker e = Some CertAuthority ∨ entry_identity e ∈ known)
      then admit_from known es
      else e :: admit_from (known ++ [entry_identity e]) es
  end.

(** * Operations *)

(** A [disk] is what becomes of the write.  [TEdited] is anybody else replacing
    the file. *)
Inductive trust_call :=
  | TVerify (host : str) (port : Z) (key : PublicKey)
  | TLearn (d : disk) (salt : option (list N)) (host : str) (port : Z) (key : PublicKey)
      (hashed : bool)
  | TRemove (d : disk) (host : str) (port : Z)
  | TImport (d : disk) (source : file_state)
  | TEdited (file : file_state).

Definition trust_answer (k : trust_call) : Type :=
  match k with
  | TVerify _ _ _ => HostKeyVerdict
  | TRemove _ _ _ => nat
  | TImport _ _ => ImportReport
  | _ => ()
  end.

Definition run_trust (k : trust_call) (file : file_state) :
    result KnownHostsError (trust_answer k) * file_state :=
  match k with
  | TVerify host port key => (verify file host port key, file)
  | TLearn d salt host port key hashed => learn d salt host port key hashed file
  | TRemove d host port => remove d host port file
  | TImport d source => import_from d source file
  | TEdited file' => (Ok (), file')
  end.

(** A host is learned under the name it was dialled by, which is not itself a
    pattern, a marker or a comment. *)
Definition trust_fits (k : trust_call) : Prop :=
  match k with
  | TLearn _ _ host port _ _ => plain_name (match_target host port) = true
  | _ => True
  end.

(** * What they promise *)

Definition failed {A} (r : result KnownHostsError A) (e : KnownHostsError) (b b' : option book) : Prop :=
  r = Err e ∧ b' = b.

(** A book of which the disk took only the beginning: it cannot be read, or it
    holds the first entries, and then at most one that is what is left of a
    line. *)
Definition broken_off (es : book) (b' : option book) : Prop :=
  b' = None ∨ ∃ kept rest, b' = Some (kept ++ rest) ∧ kept `prefix_of` es ∧ length rest ≤ 1.

(** The book [b] is replaced by [es], as far as the disk goes along. *)
Definition replaced {A} (d : disk) (r : result KnownHostsError A) (b b' : option book) (es : book)
    (answer : A → Prop) : Prop :=
  match d with
  | DWrites => b' = Some es ∧ ∃ a, r = Ok a ∧ answer a
  | DRefuses => failed r Io b b'
  | DCuts _ _ => r = Err Io ∧ broken_off es b'
  end.

(** An entry for the key was added, for the host. *)
Definition added (host : str) (port : Z) (key : PublicKey) (es : book) (b' : option book) : Prop :=
  ∃ e, b' = Some (es ++ [e]) ∧ records key e = true ∧ is_for host port e.

Definition trust_spec (k : trust_call) (b : option book) :
    result KnownHostsError (trust_answer k) → option book → Prop :=
  match k return result KnownHostsError (trust_answer k) → option book → Prop with
  | TVerify host port key => λ r b',
      match b with
      | None => failed r Io b b'
      | Some es => b' = b ∧ ∃ v, r = Ok v ∧ judged key (filter (is_for host port) es) (judgement_of v)
      end
  | TLearn d _ host port key _ => λ r b',
      match openssh_key_part key, b with
      | Err e, _ => failed r e b b'
      | Ok _, None => failed r Io b b'
      | Ok _, Some es =>
          match d with
          | DWrites => r = Ok () ∧ added host port key es b'
          | DRefuses => failed r Io b b'
          | DCuts _ _ => r = Err Io ∧ (b' = None ∨ b' = b ∨ added host port key es b')
          end
      end
  | TRemove d host port => λ r b',
      match b with
      | None => failed r Io b b'
      | Some es =>
          let gone := filter (is_for host port) es in
          if decide (gone = []) then r = Ok 0 ∧ b' = b
          else replaced d r b b' (filter (λ e, ¬ is_for host port e) es) (λ n, n = length gone)
      end
  | TImport d source => λ r b',
      match source, b with
      | Absent, _ => r = Ok report_default ∧ b' = b
      | Unreadable, _ | _, None => failed r Io b b'
      | Contents incoming, Some es =>
          let new := admit_from (entry_identity <$> es) (parsed_entries incoming).*2 in
          replaced (if decide (new = []) then DWrites else d) r b b' (es ++ new)
            (λ report, balanced report ∧ imported_lines report = length new)
      end
  | TEdited file => λ r b', b' = book_of file
  end.
End book.

(** * The file keeps the promise *)
Section facts.
Context `{SshKeys}.
Implicit Types (es : list (entry PublicKey)) (key : PublicKey).

Lemma book_of_read file text :
  read file = Ok text → book_of file = Some (parsed_entries text).*2.
Proof. intros Hr. unfold book_of. by rewrite Hr. Qed.

Lemma book_of_None file e : read file = Err e → book_of file = None ∧ e = Io.
Proof. intros Hr. unfold book_of. rewrite Hr. split; [done|]. destruct file; by simplify_eq/=. Qed.

Lemma find_first_snd {A B} (p : A * B → bool) (q : B → bool) (l : list (A * B)) :
  (∀ x, p x = q x.2) → find_first q l.*2 = snd <$> find_first p l.
Proof.
  intros Hpq. induction l as [|x l IH]; [done|]. cbn [fmap list_fmap find_first].
  rewrite <- Hpq. by destruct (p x).
Qed.

Lemma filter_snd {A B} (P : A * B → Prop) (Q : B → Prop) `{!∀ x, Decision (P x), !∀ x, Decision (Q x)}
    (l : list (A * B)) : (∀ x, P x ↔ Q x.2) → (filter P l).*2 = filter Q l.*2.
Proof.
  intros HPQ. induction l as [|x l IH]; [done|]. cbn [fmap list_fmap].
  destruct (decide (P x)) as [Hx|Hx]; pose proof Hx as Hq; rewrite HPQ in Hq.
  - rewrite (filter_cons_True P), (filter_cons_True Q) by done. cbn [fmap list_fmap]. by rewrite IH.
  - by rewrite (filter_cons_False P), (filter_cons_False Q).
Qed.

(** The loop over numbered lines judges as the book does. *)
Lemma judge_verdict key (ms : list (nat * entry PublicKey)) :
  judgement_of (verdict_of key ms) = judge key ms.*2.
Proof.
  assert (∀ e : nat * entry PublicKey, decisive key e = revokes e.2 || records key e.2) as Hd.
  { intros [n e]. unfold decisive, revokes, records. cbn [snd].
    destruct (marker e) as [[]|]; repeat case_bool_decide; naive_solver. }
  assert (∀ e : nat * entry PublicKey, conflicting key e = rivals key e.2) as Hc.
  { intros [n e]. unfold conflicting, rivals. cbn [snd].
    destruct (marker e) as [[]|]; repeat case_bool_decide; naive_solver. }
  unfold judge. rewrite (find_first_snd (decisive key) _ _ Hd), (find_first_snd (conflicting key) _ _ Hc).
  unfold verdict_of. destruct (find_first (decisive key) ms) as [[n e]|] eqn:Ef.
  - cbn. apply find_first_Some in Ef as (_ & _ & _ & Hde & _). unfold decisive in Hde. cbn [snd] in Hde.
    unfold revokes. by destruct (marker e) as [[]|].
  - by destruct (find_first (conflicting key) ms) as [[n e]|].
Qed.

Lemma documented_judge key es : revoked_ahead key es = true → judge key es = documented key es.
Proof.
  unfold judge, documented.
  enough (revoked_ahead key es = true →
    match find_first (λ e, revokes e || records key e) es with
    | Some e => existsb revokes es = revokes e ∧ (revokes e = false → existsb (records key) es = true)
    | None => existsb revokes es = false ∧ existsb (records key) es = false
    end) as Hfirst.
  { intros Hes. specialize (Hfirst Hes). destruct (find_first _ es) as [e|].
    - destruct Hfirst as [-> Hrec]. destruct (revokes e); [done|]. by rewrite Hrec.
    - by destruct Hfirst as [-> ->]. }
  induction es as [|e es IH]; [done|]. cbn [revoked_ahead find_first existsb].
  destruct (revokes e) eqn:Hrv; cbn [orb]; [by rewrite Hrv|].
  destruct (records key e) eqn:Hrc; cbn [orb]; [|exact IH].
  intros ->%negb_true_iff. by rewrite Hrv.
Qed.

(** Going through the entries in order gives an allowed judgement. *)
Lemma judge_judged key es : judged key es (judge key es).
Proof.
  unfold judged. destruct (revoked_ahead key es) eqn:Hes; [by apply documented_judge|].
  unfold judge. destruct (find_first _ es) as [e|] eqn:Ef; [destruct (revokes e); auto|].
  exfalso. apply find_first_None in Ef. induction Ef as [|e es He _ IH]; [done|].
  apply orb_false_iff in He as [_ He]. cbn [revoked_ahead] in Hes. rewrite He in Hes. by apply IH.
Qed.

Lemma records_true key e : records key e = true ↔ marker e = None ∧ key_data (public_key e) = key_data key.
Proof. unfold records. by rewrite bool_decide_eq_true. Qed.

Lemma admit_from_elem known es e : e ∈ admit_from known es → e ∈ es.
Proof.
  revert known. induction es as [|x es IH]; intros known; [done|]. cbn [admit_from].
  case_decide; [intros Hin; right; by eapply IH|]. rewrite elem_of_cons.
  intros [->|Hin]; [by left|right; by eapply IH].
Qed.

(** What the loop of [import_from] has appended. *)
Lemma import_loop_admits ls st :
  Forall (λ l, newline ∉ l) ls →
  ∃ ts, Forall (λ t, newline ∉ t) ts ∧
    appended (foldl import_line st ls) = appended st ++ concat ((λ t, t ++ [newline]) <$> ts) ∧
    omap parse_entry ts = admit_from (known st) (omap parse_entry ls) ∧
    length ts = length (omap parse_entry ts).
Proof.
  intros Hls. revert st. induction Hls as [|l ls Hl _ IH]; intros st.
  { exists []. split_and!; [constructor|by rewrite app_nil_r|done..]. }
  cbn [foldl]. destruct (IH (import_line st l)) as (ts & Hnl & Happ & Hes & Hlen). clear IH.
  rewrite Happ. clear Happ. cbn [omap list_omap]. unfold import_line in *.
  assert (trim l = [] ∨ starts_with #"#" (trim l) = true → parse_entry l = None) as Hnone.
  { intros Hd. unfold parse_entry. case_decide; [done|]. destruct Hd as [?| ->]; done. }
  destruct (decide (trim l = [])) as [Hempty|Hempty].
  { exists ts. rewrite Hnone by auto. done. }
  destruct (starts_with #"#" (trim l)) eqn:Hhash.
  { exists ts. rewrite Hnone by auto. done. }
  destruct (parse_entry l) as [e|] eqn:Hp; [|by exists ts].
  cbn [admit_from]. destruct (decide (marker e = Some CertAuthority)) as [Hca|Hca].
  { exists ts. rewrite decide_True by (by left). done. }
  destruct (decide (entry_identity e ∈ known st)) as [Hin|Hin].
  { exists ts. rewrite decide_True by (by right). done. }
  rewrite decide_False by tauto. exists (trim l :: ts). cbn [known appended] in *.
  assert (parse_entry (trim l) = Some e) as Hpt by (by rewrite (parse_entry_trim _ l (trim_idem l))).
  split_and!.
  - constructor; [|done]. by intros Hc%trim_elem.
  - cbn. by rewrite <- !(assoc_L (++)).
  - cbn [omap list_omap]. by rewrite Hpt, Hes.
  - cbn [omap list_omap]. rewrite Hpt. cbn. by rewrite Hlen.
Qed.

Lemma omap_parse_lines (ts : list str) :
  Forall (λ t, newline ∉ t) ts →
  omap parse_entry (lines (concat ((λ t, t ++ [newline]) <$> ts))) = omap parse_entry ts.
Proof.
  intros Hts. rewrite lines_concat_nl by done. clear Hts.
  induction ts as [|t ts IH]; [done|]. cbn [fmap list_fmap omap list_omap].
  by rewrite (parse_entry_trim _ t (trim_strip_line_ending t)), IH.
Qed.

Lemma parsed_omap text : (parsed_entries text).*2 = omap parse_entry (lines text).
Proof. by rewrite parsed_entries_eq, entries_from_snd. Qed.

(** What is left of a text holds its first entries and at most one more. *)
Lemma book_cut_short text n whole :
  broken_off (parsed_entries text).*2 (book_of (cut_short [] text n whole)).
Proof.
  destruct whole; [right|by left]. cbn [app cut_short]. unfold book_of. cbn [read ok fmap option_fmap option_map].
  destruct (last_line_split (take n text)) as (a & b & Hab & Ha & Hb).
  exists (omap parse_entry (lines a)), (omap parse_entry (lines b)).
  rewrite !parsed_omap, Hab, lines_app, omap_app by done. split_and!; [done| |].
  - rewrite <- (take_drop n text) at 1. rewrite Hab, <- (assoc_L (++)), lines_app, omap_app by done. by eexists.
  - destruct b as [|c b]; [cbn; lia|]. rewrite lines_last by done. cbn [omap list_omap].
    destruct (parse_entry (c :: b)); cbn; lia.
Qed.
End facts.

Section refines.
Context `{SshKeysLaws}.

Abbreviation kept k file :=
  (trust_spec k (book_of file) (run_trust k file).1 (book_of (run_trust k file).2)) (only parsing).

Lemma verify_judges host port key file text :
  read file = Ok text → ∃ v, verify file host port key = Ok v ∧
    judgement_of v = judge key (filter (is_for host port) (parsed_entries text).*2).
Proof.
  intros Hr. eexists. split; [by apply verify_run|]. rewrite judge_verdict. f_equal. by apply filter_snd.
Qed.

Lemma verify_unread host port key file e : read file = Err e → verify file host port key = Err e.
Proof. unfold verify. by intros ->. Qed.

Lemma verify_kept host port key file : kept (TVerify host port key) file.
Proof.
  cbn [run_trust fst snd trust_spec]. destruct (read file) as [text|e] eqn:Hr.
  - rewrite (book_of_read file text Hr). split; [done|].
    destruct (verify_judges host port key file text Hr) as (v & Hv & Hj). exists v. split; [done|].
    rewrite Hj. apply judge_judged.
  - destruct (book_of_None file e Hr) as [Hb ->]. rewrite Hb. split; [by apply verify_unread|done].
Qed.

Lemma learn_kept d salt host port key hashed file :
  plain_name (match_target host port) = true → kept (TLearn d salt host port key hashed) file.
Proof.
  intros Hplain. cbn [run_trust trust_spec].
  destruct (learn d salt host port key hashed file) as [r file'] eqn:Hl. cbn [fst snd].
  pose proof Hl as Hrun. unfold learn in Hrun.
  destruct (openssh_key_part key) as [part|e] eqn:Hpart; [|by injection Hrun as <- <-].
  destruct (read file) as [text|e] eqn:Hr.
  2:{ destruct (book_of_None file e Hr) as [Hb ->]. rewrite Hb. by injection Hrun as <- <-. }
  rewrite (book_of_read file text Hr). unfold append_file in Hrun.
  assert (∀ (text' : str) (n : nat) (e : entry PublicKey),
    parsed_entries text' = parsed_entries text ++ [(n, e)] → marker e = None →
    key_data (public_key e) = key_data key → patterns_match (host_patterns e) (match_target host port) host = true →
    added host port key (parsed_entries text).*2 (Some (parsed_entries text').*2)) as Hadded.
  { intros text' n e Hp Hm Hk Hmatch. exists e. by rewrite Hp, fmap_app, records_true. }
  destruct d as [| |n whole]; [|by injection Hrun as <- <-; split; [|by apply book_of_read]|].
  - assert (r = Ok ()) as -> by (by injection Hrun). split; [done|].
    destruct (learn_entry salt host port key hashed file file' text Hr Hplain Hl)
      as (text' & n & e & Hr' & Hp & Hm & Hk & Hmatch).
    rewrite (book_of_read file' text' Hr'). by eapply Hadded.
  - apply (learn_cut n whole salt host port key hashed file r file' text) in Hl as [-> Hfile];
      [|done|done|by rewrite Hpart]. split; [done|].
    destruct Hfile as [->|(text' & -> & [Hp|(m & e & Hp & Hm & Hk & Hmatch)])]; [by left|..]; right.
    + left. unfold book_of. cbn. by rewrite Hp.
    + right. by eapply Hadded.
Qed.

Lemma remove_kept d host port file : kept (TRemove d host port) file.
Proof.
  cbn [run_trust trust_spec]. unfold remove. destruct (read file) as [text|e] eqn:Hr.
  2:{ destruct (book_of_None file e Hr) as [Hb ->]. by rewrite Hb. }
  rewrite (book_of_read file text Hr), remove_loop_spec. cbn [app Nat.add].
  set (target := match_target host port). set (text' := concat _).
  assert (length (filter (λ l, line_matches target host l = true) (lines text)) =
    length (filter (is_for host port) (parsed_entries text).*2)) as Hlen
    by (by rewrite matching_lines, parsed_omap).
  assert ((parsed_entries text').*2 = filter (λ e, ¬ is_for host port e) (parsed_entries text).*2) as Hkept.
  { unfold text'. rewrite kept_text_entries. apply list_filter_iff. intros e. unfold is_for. fold target.
    by destruct (patterns_match _ _ _). }
  rewrite Hlen, <- Hkept. set (gone := filter (is_for host port) _) in *.
  destruct (Nat.ltb_spec 0 (length gone)) as [Hpos|Hz].
  - rewrite decide_False by (intros Hg; rewrite Hg in Hpos; cbn in Hpos; lia).
    unfold write_file. destruct d as [| |n whole]; cbn [fst snd replaced].
    + split; [by apply book_of_read|by exists (length gone)].
    + split; [done|by apply book_of_read].
    + split; [done|apply book_cut_short].
  - assert (gone = []) as Hg by (destruct gone; [done|cbn in Hz; lia]).
    rewrite decide_True by done. cbn [fst snd]. rewrite Hg. split; [done|by apply book_of_read].
Qed.

(** What an import appends to a text, and counts. *)
Lemma import_appends incoming text :
  let st := foldl import_line (Importing (identities text) report_default []) (lines incoming) in
  let new := admit_from (entry_identity <$> (parsed_entries text).*2) (parsed_entries incoming).*2 in
  (appended st = [] ↔ new = []) ∧ balanced (report st) ∧ imported_lines (report st) = length new ∧
  (parsed_entries (text ++ (if needs_newline text then [newline] else []) ++ appended st)).*2 =
    (parsed_entries text).*2 ++ new.
Proof.
  intros st new.
  destruct (import_loop_start incoming text) as (ts0 & Hinv & _). fold st in Hinv.
  destruct (import_loop_admits (lines incoming) (Importing (identities text) report_default [])
    (lines_no_newline incoming)) as (ts & Hnl & Happ & Hes & Hlen).
  fold st in Happ. cbn [known appended app] in Happ, Hes.
  rewrite identities_elem, <- parsed_omap in Hes. fold new in Hes.
  split_and!; [|apply Hinv| |].
  - rewrite Happ, <- Hes. destruct ts as [|t ts]; [done|]. split; [by destruct t|].
    intros Hnil. by rewrite Hnil in Hlen.
  - rewrite (inv_count _ _ _ Hinv). rewrite (inv_appended _ _ _ Hinv) in Happ.
    pose proof (inv_lines _ _ _ Hinv) as Hl0.
    assert (Forall (λ t, newline ∉ t) ts0) as Hnl0
      by (eapply Forall_impl; [exact Hl0|]; by intros t [? _]).
    apply (f_equal (λ x, omap parse_entry (lines x))) in Happ.
    rewrite !omap_parse_lines in Happ by done. rewrite <- Hes, <- Happ. clear -Hl0.
    induction Hl0 as [|t ts0 [_ [i Hi]] _ IH]; [done|]. cbn [omap list_omap].
    unfold line_identity in Hi. destruct (parse_entry t); [|done]. cbn. by rewrite IH.
  - rewrite parsed_entries_append, fmap_app. f_equal.
    by rewrite entries_from_snd, Happ, omap_parse_lines, Hes.
Qed.

Lemma import_kept d source file : kept (TImport d source) file.
Proof.
  cbn [run_trust trust_spec]. unfold import_from. destruct source as [| |incoming]; [done|done|].
  destruct (read file) as [text|e] eqn:Hr.
  2:{ destruct (book_of_None file e Hr) as [Hb ->]. by rewrite Hb. }
  rewrite (book_of_read file text Hr). cbv zeta.
  pose proof (import_appends incoming text) as (Hnil & Hbal & Hcount & Hbook). cbv zeta in *.
  set (st := foldl import_line _ _) in *. set (new := admit_from _ _) in *.
  destruct (appended st) as [|c out] eqn:Happ.
  - assert (new = []) as Hnew by (by apply Hnil). rewrite decide_True by done. cbn [fst snd replaced].
    rewrite Hnew, app_nil_r. split; [by apply book_of_read|]. exists (report st). by rewrite Hcount, Hnew.
  - rewrite decide_False by (intros Hnew; by apply Hnil in Hnew). rewrite <- Hbook.
    unfold write_file. destruct d as [| |n whole]; cbn [fst snd replaced].
    + split; [by apply book_of_read|by exists (report st)].
    + split; [done|by apply book_of_read].
    + split; [done|apply book_cut_short].
Qed.

Lemma trust_kept k file : trust_fits k → kept k file.
Proof.
  destruct k; intros Hk.
  - apply verify_kept.
  - by apply learn_kept.
  - apply remove_kept.
  - apply import_kept.
  - done.
Qed.
End refines.

(** * Histories of the file *)
Section histories.
Context `{SshKeysLaws}.

Definition trust_event : Type := { k : trust_call & result KnownHostsError (trust_answer k) }.

Inductive file_history : file_state → list trust_event → file_state → Prop :=
  | file_nil f : file_history f [] f
  | file_cons f f1 f2 k r es :
      trust_fits k → run_trust k f = (r, f1) → file_history f1 es f2 →
      file_history f (existT k r :: es) f2.

Inductive book_history : option (list (entry PublicKey)) → list trust_event →
    option (list (entry PublicKey)) → Prop :=
  | book_nil b : book_history b [] b
  | book_cons b b1 b2 k r es :
      trust_spec k b r b1 → book_history b1 es b2 → book_history b (existT k r :: es) b2.

Lemma file_history_kept f es f' : file_history f es f' → book_history (book_of f) es (book_of f').
Proof.
  induction 1 as [f|f f1 f2 k r es Hk Hrun _ IH]; [constructor|].
  pose proof (trust_kept k f Hk) as Hspec. rewrite Hrun in Hspec. by eapply book_cons.
Qed.

(** C21: the file implements the book: whatever is verified, removed, imported
    or edited, and whatever key is learned for a host whose name is no pattern,
    with writes that the disk refuses or cuts short in between, every answer is
    one the book allows, and the file holds the book it then is: the new one,
    the old one, or, where a write was cut short, what is left of it. *)
Theorem trust_refines f es f' :
  file_history f es f' → book_history (book_of f) es (book_of f').
Proof. apply file_history_kept. Qed.

(** * Where trust comes from *)

Definition is_cut (d : disk) : bool := match d with DCuts _ _ => true | _ => false end.

(** The event put the entry in the book.  A removal or an import that the disk
    cut short may leave the beginning of a line, whatever that reads as. *)
Definition introduces (ev : trust_event) (e : entry PublicKey) : Prop :=
  match ev with
  | existT (TLearn d _ host port key _) r =>
      (r = Ok () ∨ is_cut d = true) ∧ records key e = true ∧ is_for host port e
  | existT (TImport d (Contents text)) r =>
      is_ok r = true ∧ e ∈ (parsed_entries text).*2 ∨ is_ok r = false ∧ is_cut d = true
  | existT (TRemove d _ _) r => is_ok r = false ∧ is_cut d = true
  | existT (TEdited (Contents text)) _ => e ∈ (parsed_entries text).*2
  | _ => False
  end.

(** The event took it out, if it was there. *)
Definition withdraws (ev : trust_event) (e : entry PublicKey) : Prop :=
  match ev with
  | existT (TRemove _ host port) r => is_ok r = true ∧ is_for host port e
  | existT (TEdited _) _ => True
  | _ => False
  end.

Abbreviation traced b ev e := (introduces ev e ∨ ∃ es, b = Some es ∧ e ∈ es ∧ ¬ withdraws ev e) (only parsing).

Lemma learn_origin d salt host port key hashed b r es1 e :
  trust_spec (TLearn d salt host port key hashed) b r (Some es1) → e ∈ es1 →
  traced b (existT (TLearn d salt host port key hashed) r) e.
Proof.
  cbn [trust_spec]. intros Hspec He. destruct (openssh_key_part key) as [part|err].
  2:{ destruct Hspec as [_ <-]. right. naive_solver. }
  destruct b as [es|]; [|by destruct Hspec as [_ ?]].
  assert (∀ r, (r = Ok () ∨ is_cut d = true) → added host port key es (Some es1) →
    traced (Some es) (existT (TLearn d salt host port key hashed) r) e) as Hadded.
  { intros r0 Hr (e' & [= ->] & Hrec & Hfor).
    apply elem_of_app in He as [He| ->%list_elem_of_singleton]; [right; naive_solver|by left]. }
  destruct d.
  - destruct Hspec as [-> Ha]. by apply Hadded; [left|].
  - destruct Hspec as [_ [= ->]]. right. naive_solver.
  - destruct Hspec as [-> [?|[[= ->]|Ha]]]; [done|right; naive_solver|]. by apply Hadded; [right|].
Qed.

Lemma remove_origin d host port b r es1 e :
  trust_spec (TRemove d host port) b r (Some es1) → e ∈ es1 →
  traced b (existT (TRemove d host port) r) e.
Proof.
  cbn [trust_spec]. intros Hspec He. destruct b as [es|]; [|by destruct Hspec as [_ ?]]. revert Hspec.
  case_decide as Hgone.
  { intros [-> [= ->]]. right. exists es. split_and!; [done..|]. intros [_ Hfor].
    assert (e ∈ filter (is_for host port) es) as Hin by (by apply list_elem_of_filter).
    rewrite Hgone in Hin. by apply elem_of_nil in Hin. }
  destruct d; cbn [replaced].
  - intros ([= ->] & _). apply list_elem_of_filter in He as [Hnot He]. right. exists es. naive_solver.
  - intros [-> [= ->]]. right. exists es. split_and!; [done..|]. by intros [? _].
  - intros [-> _]. by left.
Qed.

Lemma import_origin d source b r es1 e :
  trust_spec (TImport d source) b r (Some es1) → e ∈ es1 → traced b (existT (TImport d source) r) e.
Proof.
  cbn [trust_spec]. intros Hspec He. destruct source as [| |incoming];
    [destruct Hspec as [_ <-]; right; naive_solver..|].
  destruct b as [es|]; [|by destruct Hspec as [_ ?]]. revert Hspec. set (new := admit_from _ _).
  assert (∀ r, is_ok r = true → es1 = es ++ new →
    traced (Some es) (existT (TImport d (Contents incoming)) r) e) as Hwhole.
  { intros r0 Hr ->. apply elem_of_app in He as [He|He]; [right; naive_solver|]. left. left.
    split; [done|]. by eapply admit_from_elem. }
  case_decide; [|destruct d]; cbn [replaced].
  - intros ([= ->] & report & -> & _). by apply Hwhole.
  - intros ([= ->] & report & -> & _). by apply Hwhole.
  - intros [_ [= ->]]. right. naive_solver.
  - intros [-> _]. left. by right.
Qed.

Lemma entry_origin k b r es1 e :
  trust_spec k b r (Some es1) → e ∈ es1 → traced b (existT k r) e.
Proof.
  destruct k as [host port key|d salt host port key hashed|d host port|d source|file]; intros Hspec He.
  - cbn [trust_spec] in Hspec. destruct b as [es|]; [|by destruct Hspec as [_ ?]].
    destruct Hspec as [[= ->] _]. right. naive_solver.
  - by eapply learn_origin.
  - by eapply remove_origin.
  - by eapply import_origin.
  - left. revert Hspec. cbn [trust_spec]. unfold book_of. cbn [introduces].
    destruct file as [| |text]; cbn [read ok fmap option_fmap option_map].
    + intros [= ->]. by apply elem_of_nil in He.
    + done.
    + by intros [= ->].
Qed.

Lemma entry_history b evs b' es' e :
  book_history b evs b' → b' = Some es' → e ∈ es' →
  (∃ es, b = Some es ∧ e ∈ es ∧ Forall (λ ev, ¬ withdraws ev e) evs) ∨
  (∃ evs1 ev evs2, evs = evs1 ++ ev :: evs2 ∧ introduces ev e ∧ Forall (λ ev, ¬ withdraws ev e) evs2).
Proof.
  intros Hh. revert es'. induction Hh as [b|b b1 b2 k r evs Hspec Hh IH]; intros es' Heq He.
  { left. subst b. eauto. }
  destruct (IH es' Heq He) as [(es & -> & He' & Hall)|(evs1 & ev & evs2 & -> & Hin & Hall)].
  - destruct (entry_origin k b r es e Hspec He') as [Hin|(es0 & -> & He0 & Hnot)].
    + right. by exists [], (existT k r), evs.
    + left. exists es0. split_and!; [done..|by constructor].
  - right. by exists (existT k r :: evs1), ev, evs2.
Qed.

End histories.

(** Learning one host, importing another, removing the first and learning it
    again under another key, at the third attempt: the disk refuses the first
    and cuts the second short. *)
Definition sample_trust : list (@trust_call sample_keys) :=
  [TLearn DWrites (Some [7%N]) #"web" 22 KeyA true; TImport DWrites (Contents #"old ssh-rsa CCCC
@cert-authority * ssh-ed25519 BBBB"); TVerify #"web" 22 KeyA; TRemove DWrites #"web" 22;
   TVerify #"web" 22 KeyA; TLearn DRefuses None #"web" 22 KeyB false;
   TLearn (DCuts 9 true) None #"web" 22 KeyB false; TLearn DWrites None #"web" 22 KeyB false].

Fixpoint run_trusts `{SshKeys} (ks : list trust_call) (f : file_state) : list trust_event * file_state :=
  match ks with
  | [] => ([], f)
  | k :: ks =>
      let '(r, f1) := run_trust k f in
      let '(es, f2) := run_trusts ks f1 in (existT k r :: es, f2)
  end.

Lemma file_history_run `{SshKeysLaws} ks f :
  Forall trust_fits ks → file_history f (run_trusts ks f).1 (run_trusts ks f).2.
Proof.
  intros Hks. revert f. induction Hks as [|k ks Hk _ IH]; intros f; [constructor|]. cbn [run_trusts].
  destruct (run_trust k f) as [r f1] eqn:Hrun. specialize (IH f1).
  destruct (run_trusts ks f1) as [es f2]. by econstructor.
Qed.

Lemma sample_trust_fits : Forall trust_fits sample_trust.
Proof. repeat (apply Forall_cons_2; [first [done|by vm_compute]|]). constructor. Qed.

Lemma trust_refines_witness :
  let evs := (run_trusts sample_trust Absent).1 in
  let file := (run_trusts sample_trust Absent).2 in
  file = Contents #"old ssh-rsa CCCC
web ssh-e
web ssh-ed25519 BBBB
" ∧
  book_history (Some []) evs
    (Some [sample_entry None #"old" KeyRsa; sample_entry None #"web" KeyB]).
Proof.
  intros evs file. assert (file = Contents #"old ssh-rsa CCCC
web ssh-e
web ssh-ed25519 BBBB
") as Hfile by (by vm_compute). split; [done|].
  assert (book_of file = Some [sample_entry None #"old" KeyRsa; sample_entry None #"web" KeyB]) as <-
    by (rewrite Hfile; by vm_compute).
  apply (trust_refines Absent evs file). apply file_history_run, sample_trust_fits.
Defined.

