(* ===== verification/TermStream.v ===== *)
(** * Output coalescing

    [term-stream/src/lib.rs].  The [async] loop of [coalesce] is a state
    machine: between two suspension points it is in a [co_state], and what
    wakes it is an [event] ([input.recv] yields a chunk or the end of input, or
    the tick deadline passes).  An event carries the time the loop reads from
    the clock ([Instant], in nanoseconds) and whether the consumer of [output]
    still exists when a frame is sent; waiting for room in the bounded channel
    is time passing between two events.  Bytes are [N]s below 256. *)
From S2P Require Import Prelude.

Record CoalescerConfig := MkCoalescer {
  max_frame : nat;
  tick : Z
}.

(** [CoalescerConfig::default]: 128 KiB, 8 ms. *)
Definition coalescer_default : CoalescerConfig := MkCoalescer (Z.to_nat (128 * 1024)) 8000000.

Record StreamStats := MkStats {
  bytes_in : Z;
  newlines_in : Z;
  frames_out : Z;
  bytes_out : Z;
  max_frame_bytes : Z;
  pause_count : Z;
  paused_ms : Z
}.
Definition stats_new : StreamStats := MkStats 0 0 0 0 0 0 0.

(** [StreamStats::reset] *)
Definition reset (st : StreamStats) : StreamStats := stats_new.

Definition count_newlines (chunk : list N) : Z := Z.of_nat (length (filter (λ b, b = 10%N) chunk)).

Definition record_in (chunk : list N) (st : StreamStats) : StreamStats :=
  let newlines := count_newlines chunk in
  MkStats (wrap64 (bytes_in st + Z.of_nat (length chunk)))
    (if (0 <? newlines)%Z then wrap64 (newlines_in st + newlines) else newlines_in st)
    (frames_out st) (bytes_out st) (max_frame_bytes st) (pause_count st) (paused_ms st).

Definition record_out (frame_len : nat) (st : StreamStats) : StreamStats :=
  MkStats (bytes_in st) (newlines_in st) (wrap64 (frames_out st + 1))
    (wrap64 (bytes_out st + Z.of_nat frame_len)) (Z.max (max_frame_bytes st) (Z.of_nat frame_len))
    (pause_count st) (paused_ms st).

(** The locals of [coalesce], what it has sent, and whether it has returned. *)
Record co_state := Co {
  buf : list N;
  last_flush : Z;
  stats : StreamStats;
  sent : list (list N);
  returned : bool
}.

(** [last_flush = Instant::now() - cfg.tick] *)
Definition co_init (cfg : CoalescerConfig) (now : Z) (st : StreamStats) : co_state :=
  Co [] (now - tick cfg) st [] false.

Inductive event :=
  | Chunk (chunk : list N) (now : Z) (alive : bool)
  | Deadline (now : Z) (alive : bool)
  | Closed (alive : bool).

(** The [flush!] macro. *)
Definition flush (now : Z) (alive : bool) (s : co_state) : co_state :=
  match buf s with
  | [] => s
  | frame =>
      let st := record_out (length frame) (stats s) in
      if alive then Co [] now st (sent s ++ [frame]) (returned s)
      else Co [] now st (sent s) true
  end.

(** [stats.record_in(&chunk); buf.extend_from_slice(&chunk)] *)
Definition absorb_chunk (chunk : list N) (s : co_state) : co_state :=
  Co (buf s ++ chunk) (last_flush s) (record_in chunk (stats s)) (sent s) (returned s).

(** After the loop: ship what is left; a consumer that is gone is ignored. *)
Definition finish (alive : bool) (s : co_state) : co_state :=
  match buf s with
  | [] => Co [] (last_flush s) (stats s) (sent s) true
  | frame =>
      Co [] (last_flush s) (record_out (length frame) (stats s))
        (if alive then sent s ++ [frame] else sent s) true
  end.

(** One turn of the loop; [None] when the loop is not waiting for the event. *)
Definition co_step (cfg : CoalescerConfig) (s : co_state) (e : event) : option co_state :=
  if returned s then None
  else match e with
       | Chunk chunk now alive =>
           let s' := absorb_chunk chunk s in
           match buf s with
           | [] =>
               if bool_decide (max_frame cfg ≤ length (buf s')) ||
                  (tick cfg <=? now - last_flush s')%Z
               then Some (flush now alive s') else Some s'
           | _ =>
               if bool_decide (max_frame cfg ≤ length (buf s'))
               then Some (flush now alive s') else Some s'
           end
       | Deadline now alive =>
           match buf s with
           | [] => None
           | _ => if (last_flush s + tick cfg <=? now)%Z then Some (flush now alive s) else None
           end
       | Closed alive => Some (finish alive s)
       end.

(** A run: the events in the order they happen. *)
Fixpoint co_run (cfg : CoalescerConfig) (s : co_state) (es : list event) : option co_state :=
  match es with
  | [] => Some s
  | e :: es => match co_step cfg s e with Some s => co_run cfg s es | None => None end
  end.

(** The input of a run, and whether its consumer stayed to the end. *)
Definition chunk_of (e : event) : list N := match e with Chunk c _ _ => c | _ => [] end.
Definition event_alive (e : event) : bool :=
  match e with Chunk _ _ a | Deadline _ a | Closed a => a end.
Definition input_of (es : list event) : list N := concat (chunk_of <$> es).

(** * What a step does to the bytes *)

(** [gone]: the consumer left before some send. *)
Record co_inv (cfg : CoalescerConfig) (L : nat) (gone : bool) (input : list N) (s : co_state) : Prop := {
  inv_bytes : concat (sent s) ++ buf s = input ∨
              returned s = true ∧ gone = true ∧ ∃ lost, concat (sent s) ++ lost = input;
  inv_nonempty : Forall (λ f, f ≠ []) (sent s);
  inv_frame : Forall (λ f, length f ≤ Nat.pred (max_frame cfg) + L) (sent s);
  inv_buf : buf s = [] ∨ length (buf s) < max_frame cfg;
  inv_done : returned s = true → buf s = []
}.

Lemma co_inv_init cfg L now st : co_inv cfg L false [] (co_init cfg now st).
Proof. split; simpl; auto. Qed.

Lemma co_inv_flush cfg L gone input s now alive :
  concat (sent s) ++ buf s = input → Forall (λ f, f ≠ []) (sent s) →
  Forall (λ f, length f ≤ Nat.pred (max_frame cfg) + L) (sent s) →
  length (buf s) ≤ Nat.pred (max_frame cfg) + L → returned s = false →
  co_inv cfg L (gone || negb alive) input (flush now alive s).
Proof.
  intros Hb Hn Hf Hl Hr. unfold flush. destruct (buf s) as [|b bs] eqn:E.
  { split; rewrite ?E; auto. }
  destruct alive; split; simpl; auto.
  - left. rewrite concat_app. simpl. by rewrite !app_nil_r.
  - apply Forall_app. split; [done|]. by constructor.
  - apply Forall_app. split; [done|]. by constructor.
  - right. rewrite orb_true_r. split_and!; [done..|]. by eexists.
Qed.

Lemma co_step_inv cfg L gone input s e s' :
  co_inv cfg L gone input s → length (chunk_of e) ≤ L → co_step cfg s e = Some s' →
  co_inv cfg L (gone || negb (event_alive e)) (input ++ chunk_of e) s'.
Proof.
  intros [Hb Hn Hf Hbuf Hd] HL. unfold co_step. destruct (returned s) eqn:Hr; [done|].
  destruct Hb as [Hb|[? _]]; [|done].
  destruct e as [chunk now alive|now alive|alive]; simpl in *.
  - set (s1 := absorb_chunk chunk s).
    assert (concat (sent s1) ++ buf s1 = input ++ chunk) as Hb1
      by (unfold s1; simpl; by rewrite (assoc_L (++)), Hb).
    assert (length (buf s1) ≤ Nat.pred (max_frame cfg) + L) as Hl1.
    { unfold s1. simpl. rewrite length_app. destruct Hbuf as [->|]; simpl; lia. }
    assert (co_inv cfg L (gone || negb alive) (input ++ chunk) (flush now alive s1)) as Hflush
      by (by apply co_inv_flush).
    assert (¬ max_frame cfg ≤ length (buf s1) → co_inv cfg L (gone || negb alive) (input ++ chunk) s1) as Hkeep.
    { intros Hlt. split; simpl; auto; [|by rewrite Hr]. right. unfold s1 in Hlt. simpl in Hlt. lia. }
    destruct (decide (max_frame cfg ≤ length (buf s1))) as [Hge|Hge].
    + rewrite bool_decide_true by done. destruct (buf s); simpl; by intros [= <-].
    + rewrite bool_decide_false by done. specialize (Hkeep Hge).
      destruct (buf s); simpl; [|by intros [= <-]]. by destruct (_ <=? _)%Z; intros [= <-].
  - rewrite app_nil_r. destruct (buf s) as [|b bs] eqn:E; [done|].
    case_match; [|done]. intros [= <-]. apply co_inv_flush; rewrite ?E; auto.
    destruct Hbuf; [done|lia].
  - rewrite app_nil_r. intros [= <-]. unfold finish. destruct (buf s) as [|b bs] eqn:E.
    { split; simpl; auto. }
    split; simpl; auto.
    + destruct alive; [left|right; rewrite orb_true_r; split_and!; [done..|by eexists]].
      rewrite concat_app. simpl. by rewrite !app_nil_r.
    + destruct alive; [|done]. apply Forall_app. split; [done|]. by constructor.
    + destruct alive; [|done]. apply Forall_app. split; [done|]. constructor; [|done].
      destruct Hbuf as [?|Hbuf]; [done|]. lia.
Qed.

Lemma co_run_inv cfg L gone input s es s' :
  co_inv cfg L gone input s → Forall (λ e, length (chunk_of e) ≤ L) es → co_run cfg s es = Some s' →
  co_inv cfg L (gone || existsb (negb ∘ event_alive) es) (input ++ input_of es) s'.
Proof.
  revert gone input s. induction es as [|e es IH]; intros gone input s Hs Hes; simpl.
  - intros [= <-]. by rewrite app_nil_r, orb_false_r.
  - apply Forall_cons in Hes as [He Hes]. destruct (co_step cfg s e) as [s1|] eqn:E; [|done].
    intros Hrun. unfold input_of. simpl. rewrite (assoc_L (++)), orb_assoc. eapply IH; [|done..].
    by eapply co_step_inv.
Qed.

Lemma all_alive es : Forall (λ e, event_alive e = true) es → existsb (negb ∘ event_alive) es = false.
Proof. induction 1 as [|e es He _ IH]; simpl; [done|]. by rewrite He. Qed.

(** C20: while its consumer stays, the coalescer loses, reorders and invents
    nothing: the frames sent so far, followed by what is pending, are the bytes
    received, and when it returns nothing is pending.  No frame is empty, and
    none exceeds the threshold by more than one chunk. *)
Theorem coalesce_preserves cfg now st es s L :
  co_run cfg (co_init cfg now st) es = Some s →
  Forall (λ e, event_alive e = true) es → Forall (λ e, length (chunk_of e) ≤ L) es →
  concat (sent s) ++ buf s = input_of es ∧ (returned s = true → buf s = []) ∧
  Forall (λ f, f ≠ [] ∧ length f ≤ Nat.pred (max_frame cfg) + L) (sent s).
Proof.
  intros Hrun Ha HL.
  destruct (co_run_inv cfg L false [] _ es s (co_inv_init cfg L now st) HL Hrun) as [Hb Hn Hf Hbuf Hd].
  rewrite all_alive in Hb by done. destruct Hb as [Hb|(_ & ? & _)]; [|done].
  split_and!; [done|done|]. by apply Forall_and.
Qed.

(** * Statistics *)

Definition stats_inv (st0 : StreamStats) (input : list N) (frames : list (list N)) (st : StreamStats) :
    Prop :=
  bytes_in st = wrap64 (bytes_in st0 + Z.of_nat (length input)) ∧
  newlines_in st = wrap64 (newlines_in st0 + count_newlines input) ∧
  frames_out st = wrap64 (frames_out st0 + Z.of_nat (length frames)) ∧
  bytes_out st = wrap64 (bytes_out st0 + Z.of_nat (length (concat frames))) ∧
  max_frame_bytes st = foldr (λ f, Z.max (Z.of_nat (length f))) (max_frame_bytes st0) frames.

Lemma record_in_inv st0 input frames st chunk :
  stats_inv st0 input frames st → stats_inv st0 (input ++ chunk) frames (record_in chunk st).
Proof.
  intros (H1 & H2 & H3 & H4 & H5). unfold stats_inv, record_in. simpl. split_and!; try done.
  - rewrite H1, wrap64_add, length_app. f_equal. lia.
  - unfold count_newlines in *. rewrite filter_app, length_app.
    destruct (Z.ltb_spec 0 (Z.of_nat (length (filter (λ b, b = 10%N) chunk)))).
    + rewrite H2, wrap64_add. f_equal. lia.
    + rewrite H2. f_equal. lia.
Qed.

Lemma record_out_inv st0 input frames st frame :
  stats_inv st0 input frames st →
  stats_inv st0 input (frames ++ [frame]) (record_out (length frame) st).
Proof.
  intros (H1 & H2 & H3 & H4 & H5). unfold stats_inv, record_out. simpl. split_and!; try done.
  - rewrite H3, wrap64_add, length_app. simpl. f_equal. lia.
  - rewrite H4, wrap64_add, concat_app, length_app. simpl. rewrite app_nil_r. f_equal. lia.
  - rewrite H5, foldr_app. simpl. clear.
    induction frames as [|f fs IH]; simpl; [lia|]. rewrite <- IH. lia.
Qed.

Lemma flush_stats st0 input now s :
  stats_inv st0 input (sent s) (stats s) →
  stats_inv st0 input (sent (flush now true s)) (stats (flush now true s)).
Proof.
  intros Hs. unfold flush. destruct (buf s); [done|]. by apply record_out_inv.
Qed.

Lemma co_step_stats cfg st0 input s e s' :
  stats_inv st0 input (sent s) (stats s) → event_alive e = true → co_step cfg s e = Some s' →
  stats_inv st0 (input ++ chunk_of e) (sent s') (stats s').
Proof.
  intros Hs Ha. unfold co_step. destruct (returned s); [done|].
  destruct e as [chunk now alive|now alive|alive]; simpl in *; subst alive.
  - assert (stats_inv st0 (input ++ chunk) (sent (absorb_chunk chunk s)) (stats (absorb_chunk chunk s)))
      as H1 by (by apply record_in_inv).
    repeat case_match; intros [= <-]; try done; by apply flush_stats.
  - rewrite app_nil_r. repeat case_match; intros [= <-]. by apply flush_stats.
  - rewrite app_nil_r. intros [= <-]. unfold finish. destruct (buf s); [done|].
    by apply record_out_inv.
Qed.

Lemma stats_inv_new : stats_inv stats_new [] [] stats_new.
Proof. by vm_compute. Qed.

(** The counters are the truth, modulo 2^64: bytes and newlines received,
    frames and bytes sent, and the length of the longest frame. *)
Theorem stats_accurate cfg now es s :
  co_run cfg (co_init cfg now stats_new) es = Some s →
  Forall (λ e, event_alive e = true) es →
  stats_inv stats_new (input_of es) (sent s) (stats s).
Proof.
  intros Hrun Ha. assert (∀ input s0, stats_inv stats_new input (sent s0) (stats s0) →
    co_run cfg s0 es = Some s → stats_inv stats_new (input ++ input_of es) (sent s) (stats s)) as Hl.
  { clear Hrun. induction Ha as [|e es He _ IH]; intros input s0 H0; simpl.
    - intros [= <-]. by rewrite app_nil_r.
    - destruct (co_step cfg s0 e) as [s1|] eqn:E; [|done]. intros Hrun.
      unfold input_of. simpl. rewrite (assoc_L (++)). eapply IH; [|done].
      by eapply co_step_stats. }
  by apply (Hl [] (co_init cfg now stats_new)), Hrun; apply stats_inv_new.
Qed.

(** Pending data never waits long: when a chunk stays pending, the flush
    deadline the loop then waits for is at most one tick away, and a chunk that
    arrives a tick or more after the last flush is sent in the same turn. *)
Theorem coalesce_latency cfg s chunk now alive s' :
  buf s = [] → chunk ≠ [] → co_step cfg s (Chunk chunk now alive) = Some s' →
  match buf s' with
  | [] => alive = true → sent s' = sent s ++ [chunk]
  | _ => (now < last_flush s' + tick cfg ∧ last_flush s' = last_flush s)%Z ∧ sent s' = sent s
  end.
Proof.
  intros Hb Hc. unfold co_step. destruct (returned s); [done|]. rewrite Hb. simpl. rewrite Hb. simpl.
  assert (∀ s1, Some (flush now alive (absorb_chunk chunk s)) = Some s1 →
    buf s1 = [] ∧ (alive = true → sent s1 = sent s ++ [chunk])) as Hfl.
  { intros s1 [= <-]. unfold flush, absorb_chunk. simpl. rewrite Hb. simpl.
    destruct chunk; [done|]. by destruct alive. }
  case_bool_decide; simpl.
  { intros [-> ?]%Hfl. done. }
  destruct (Z.leb_spec (tick cfg) (now - last_flush s)).
  { intros [-> ?]%Hfl. done. }
  intros [= <-]. simpl. rewrite Hb. simpl. destruct chunk; [done|]. split; [lia|done].
Qed.

(** * On a concrete run *)
Definition sample_cfg : CoalescerConfig := MkCoalescer 4 8.
Definition sample_events : list event :=
  [Chunk [1%N] 0 true; Chunk [2%N; 10%N] 3 true; Chunk [4%N; 5%N; 6%N] 4 true; Chunk [7%N] 5 true;
   Deadline 13 true; Chunk [8%N] 14 true; Closed true].

Lemma coalesce_preserves_witness :
  ∃ s, co_run sample_cfg (co_init sample_cfg 0 stats_new) sample_events = Some s ∧
    sent s = [[1%N]; [2%N; 10%N; 4%N; 5%N; 6%N]; [7%N]; [8%N]] ∧
    concat (sent s) ++ buf s = input_of sample_events ∧ (returned s = true → buf s = []) ∧
    Forall (λ f, f ≠ [] ∧ length f ≤ Nat.pred (max_frame sample_cfg) + 3) (sent s).
Proof.
  eexists. split; [reflexivity|]. split; [reflexivity|].
  apply (coalesce_preserves sample_cfg 0 stats_new sample_events _ 3); [reflexivity|..];
    apply (bool_decide_unpack _); by vm_compute.
Defined.

Lemma stats_accurate_witness :
  ∃ s, co_run sample_cfg (co_init sample_cfg 0 stats_new) sample_events = Some s ∧
    stats_inv stats_new (input_of sample_events) (sent s) (stats s).
Proof.
  eexists. split; [reflexivity|].
  apply (stats_accurate sample_cfg 0 sample_events); [reflexivity|].
  apply (bool_decide_unpack _). by vm_compute.
Defined.

Lemma coalesce_latency_witness :
  let s := Co [] 0 stats_new [] false in
  let s' := Co [1%N] 0 (record_in [1%N] stats_new) [] false in
  match buf s' with
  | [] => true = true → sent s' = sent s ++ [[1%N]]
  | _ => (3 < last_flush s' + tick sample_cfg ∧ last_flush s' = last_flush s)%Z ∧ sent s' = sent s
  end.
Proof. intros s s'. by apply (coalesce_latency sample_cfg s [1%N] 3 true s'). Defined.
