(* ===== verification/F64.v ===== *)
(** * The f64 arithmetic of the reconnect delay

    IEEE double rounding on non-negative rationals, as far as
    [Duration::mul_f64] needs it: [fl q] is the double nearest to [q], ties to
    even.  No value here comes near the overflow threshold (durations are below
    2^64 seconds and fractions at most 1), so infinities only occur as inputs. *)
From Stdlib Require Import QArith Qround Qpower Qabs Lqa.
From S2P Require Import Prelude.

Definition pow2 (k : Z) : Q := Qpower (inject_Z 2) k.

(** The integer nearest to [q], ties to even. *)
Definition rne (q : Q) : Z :=
  let f := Qfloor q in
  let r := (q - inject_Z f)%Q in
  match (r ?= (1#2))%Q with
  | Lt => f
  | Gt => (f + 1)%Z
  | Eq => if Z.even f then f else (f + 1)%Z
  end.

(** The binary exponent of a positive rational: [2^k <= q < 2^(k+1)]. *)
Definition expo (q : Q) : Z :=
  let k := (Z.log2 (Qnum q) - Z.log2 (Zpos (Qden q)))%Z in
  if Qle_bool (pow2 k) q then k else (k - 1)%Z.

(** The exponent of the last bit of the double nearest to [q]. *)
Definition ulp_exp (q : Q) : Z := Z.max (expo q - 52) (-1074).

Definition fl (q : Q) : Q :=
  if Qle_bool q 0 then 0%Q
  else (inject_Z (rne (q / pow2 (ulp_exp q))) * pow2 (ulp_exp q))%Q.

(** An [f64] a caller can hand over. *)
Inductive f64 :=
  | Finite (q : Q)
  | Infinite
  | NaN.

(** * Powers of two *)
Lemma pow2_pos k : (0 < pow2 k)%Q.
Proof. unfold pow2. apply Qpower_0_lt. reflexivity. Qed.

Lemma pow2_add a b : (pow2 (a + b) == pow2 a * pow2 b)%Q.
Proof. unfold pow2. apply Qpower_plus. discriminate. Qed.

Lemma pow2_1 : (pow2 1 == 2)%Q.
Proof. reflexivity. Qed.

Lemma pow2_Z k : (0 ≤ k)%Z → (pow2 k == inject_Z (2 ^ k))%Q.
Proof. intros Hk. unfold pow2. symmetry. by apply Zpower_Qpower. Qed.

Lemma pow2_le a b : (a ≤ b)%Z → (pow2 a <= pow2 b)%Q.
Proof.
  intros Hab. replace b with (a + (b - a))%Z by lia. rewrite pow2_add.
  assert (1 <= pow2 (b - a))%Q as H1.
  { rewrite pow2_Z by lia. change 1%Q with (inject_Z 1). rewrite <- Zle_Qle.
    assert (0 < 2 ^ (b - a))%Z by (apply Z.pow_pos_nonneg; lia). lia. }
  pose proof (pow2_pos a). nra.
Qed.

(** * Rounding to an integer *)
Lemma rne_floor q : rne q = Qfloor q ∨ rne q = (Qfloor q + 1)%Z.
Proof. unfold rne. destruct (_ ?= _)%Q; auto. destruct (Z.even _); auto. Qed.

Lemma rne_error q : (Qabs (inject_Z (rne q) - q) <= 1#2)%Q.
Proof.
  pose proof (Qfloor_le q) as H1. pose proof (Qlt_floor q) as H2.
  rewrite inject_Z_plus in H2. change (inject_Z 1) with 1%Q in H2.
  apply Qabs_Qle_condition. unfold rne.
  destruct (Qcompare_spec (q - inject_Z (Qfloor q)) (1#2)) as [H|H|H].
  - destruct (Z.even _); rewrite ?inject_Z_plus; change (inject_Z 1) with 1%Q; lra.
  - lra.
  - rewrite inject_Z_plus. change (inject_Z 1) with 1%Q. lra.
Qed.

(** Rounding does not cross an integer. *)
Lemma rne_le_int q n : (q <= inject_Z n)%Q → (rne q ≤ n)%Z.
Proof.
  intros Hq. pose proof (rne_error q) as [H1 H2]%Qabs_Qle_condition.
  assert (inject_Z (rne q) < inject_Z (n + 1))%Q as H.
  { rewrite inject_Z_plus. change (inject_Z 1) with 1%Q. lra. }
  rewrite <- Zlt_Qlt in H. lia.
Qed.

Lemma rne_nonneg q : (0 <= q)%Q → (0 ≤ rne q)%Z.
Proof.
  intros Hq. pose proof (rne_error q) as [H1 H2]%Qabs_Qle_condition.
  assert (inject_Z (-1) < inject_Z (rne q))%Q as H.
  { change (inject_Z (-1)) with (-1)%Q. lra. }
  rewrite <- Zlt_Qlt in H. lia.
Qed.

(** * The exponent *)
Lemma expo_bounds q : (0 < q)%Q → (pow2 (expo q) <= q < pow2 (expo q + 1))%Q.
Proof.
  destruct q as [n d]. intros Hq. assert (0 < n)%Z as Hn by (unfold Qlt in Hq; simpl in Hq; lia).
  unfold expo. cbn [Qnum Qden]. set (a := Z.log2 n). set (b := Z.log2 (Zpos d)).
  destruct (Z.log2_spec n Hn) as [Ha1 Ha2]. destruct (Z.log2_spec (Zpos d)) as [Hb1 Hb2]; [lia|].
  fold a in Ha1, Ha2. fold b in Hb1, Hb2.
  assert (0 ≤ a)%Z as Ha0 by apply Z.log2_nonneg. assert (0 ≤ b)%Z as Hb0 by apply Z.log2_nonneg.
  assert (pow2 a <= inject_Z n < pow2 (a + 1))%Q as [A1 A2].
  { rewrite !pow2_Z by lia. rewrite <- Zle_Qle, <- Zlt_Qlt. lia. }
  assert (pow2 b <= inject_Z (Zpos d) < pow2 (b + 1))%Q as [B1 B2].
  { rewrite !pow2_Z by lia. rewrite <- Zle_Qle, <- Zlt_Qlt. lia. }
  assert ((n # d) * inject_Z (Zpos d) == inject_Z n)%Q as Hnd.
  { unfold Qeq. simpl. lia. }
  set (q := n # d) in *. set (D := inject_Z (Zpos d)) in *. set (N := inject_Z n) in *.
  pose proof (pow2_pos a). pose proof (pow2_pos b). pose proof (pow2_pos (a - b)).
  assert (pow2 a == pow2 (a - b) * pow2 b)%Q as Hab.
  { rewrite <- pow2_add. by replace (a - b + b)%Z with a by lia. }
  rewrite (pow2_add a 1), pow2_1 in A2. rewrite (pow2_add b 1), pow2_1 in B2.
  assert (q < pow2 (a - b + 1))%Q as Hup.
  { rewrite pow2_add, pow2_1. nra. }
  assert (pow2 (a - b - 1) <= q)%Q as Hlow.
  { assert (pow2 (a - b) == pow2 (a - b - 1) * 2)%Q as Hh.
    { rewrite <- pow2_1, <- pow2_add. by replace (a - b - 1 + 1)%Z with (a - b)%Z by lia. }
    pose proof (pow2_pos (a - b - 1)). nra. }
  destruct (Qle_bool (pow2 (a - b)) q) eqn:E.
  - apply Qle_bool_iff in E. done.
  - split; [done|]. replace (a - b - 1 + 1)%Z with (a - b)%Z by lia.
    apply Qnot_le_lt. intros Hle%Qle_bool_iff. congruence.
Qed.

Lemma expo_lt q k : (0 < q)%Q → (q < pow2 k)%Q → (expo q < k)%Z.
Proof.
  intros Hq Hk. destruct (expo_bounds q Hq) as [H1 _].
  destruct (Z.lt_ge_cases (expo q) k) as [|Hge]; [done|]. pose proof (pow2_le k (expo q) Hge). lra.
Qed.

(** * Rounding to a double *)

(** The values of doubles. *)
Definition representable (x : Q) : Prop :=
  ∃ M E, (0 ≤ M ≤ 2 ^ 53)%Z ∧ (-1074 ≤ E)%Z ∧ (x == inject_Z M * pow2 E)%Q.

Lemma scaled q e : (q == q / pow2 e * pow2 e)%Q.
Proof. field. pose proof (pow2_pos e). lra. Qed.

Lemma fl_pos_eq q :
  (0 < q)%Q → fl q = (inject_Z (rne (q / pow2 (ulp_exp q))) * pow2 (ulp_exp q))%Q.
Proof.
  intros Hq. unfold fl. destruct (Qle_bool q 0) eqn:E; [|done]. apply Qle_bool_iff in E. lra.
Qed.

Lemma fl_nonpos q : (q <= 0)%Q → fl q = 0%Q.
Proof. intros Hq%Qle_bool_iff. unfold fl. by rewrite Hq. Qed.

Lemma ulp_exp_range q : (expo q - 52 ≤ ulp_exp q ∧ -1074 ≤ ulp_exp q)%Z.
Proof. unfold ulp_exp. lia. Qed.

Lemma fl_representable q : representable (fl q).
Proof.
  destruct (Qlt_le_dec 0 q) as [Hq|Hq].
  2: { rewrite fl_nonpos by done. exists 0%Z, 0%Z. split_and!; [lia|lia|lia|reflexivity]. }
  rewrite fl_pos_eq by done. set (e := ulp_exp q). pose proof (ulp_exp_range q) as [He1 He2]. fold e in He1, He2.
  exists (rne (q / pow2 e)), e. pose proof (pow2_pos e) as Hpe. pose proof (scaled q e) as Hs.
  destruct (expo_bounds q Hq) as [_ Hup].
  split_and!; [|..|done|reflexivity].
  - apply rne_nonneg. nra.
  - apply rne_le_int.
    assert (pow2 (expo q + 1) <= pow2 (53 + e))%Q as Hle by (apply pow2_le; lia).
    assert (pow2 53 == inject_Z (2 ^ 53))%Q as H53 by (apply pow2_Z; lia).
    rewrite (pow2_add 53 e), H53 in Hle.
    set (u := (q / pow2 e)%Q) in *. nra.
Qed.

(** Rounding does not cross a double. *)
Lemma fl_le q x : representable x → (q <= x)%Q → (fl q <= x)%Q.
Proof.
  intros (M & E & HM & HE & Hx) Hqx. pose proof (pow2_pos E) as HpE.
  assert (0 <= inject_Z M)%Q as HM0. { change 0%Q with (inject_Z 0). rewrite <- Zle_Qle. lia. }
  destruct (Qlt_le_dec 0 q) as [Hq|Hq]; [|rewrite fl_nonpos by done; nra].
  rewrite fl_pos_eq by done. set (e := ulp_exp q). pose proof (pow2_pos e) as Hpe.
  pose proof (scaled q e) as Hs. destruct (expo_bounds q Hq) as [Hlow _].
  destruct (Z.le_gt_cases e E) as [HeE|HeE].
  - assert (pow2 E == inject_Z (2 ^ (E - e)) * pow2 e)%Q as HE2.
    { rewrite <- pow2_Z, <- pow2_add by lia. by replace (E - e + e)%Z with E by lia. }
    assert (rne (q / pow2 e) ≤ M * 2 ^ (E - e))%Z as Hr.
    { apply rne_le_int. rewrite inject_Z_mult. nra. }
    rewrite Zle_Qle, inject_Z_mult in Hr. nra.
  - assert (e = (expo q - 52)%Z) as He by (unfold e, ulp_exp in *; lia).
    assert (inject_Z M <= pow2 53)%Q as HM53.
    { rewrite pow2_Z by lia. rewrite <- Zle_Qle. lia. }
    assert (pow2 (53 + E) <= pow2 (expo q))%Q as Hle by (apply pow2_le; lia).
    rewrite pow2_add in Hle.
    assert (pow2 (expo q) == inject_Z (2 ^ 52) * pow2 e)%Q as Hexp.
    { rewrite <- pow2_Z, <- pow2_add by lia. by replace (52 + e)%Z with (expo q) by lia. }
    assert (rne (q / pow2 e) ≤ 2 ^ 52)%Z as Hr. { apply rne_le_int. nra. }
    rewrite Zle_Qle in Hr. nra.
Qed.

Lemma fl_nonneg q : (0 <= fl q)%Q.
Proof.
  destruct (Qlt_le_dec 0 q) as [Hq|Hq]; [|by rewrite fl_nonpos].
  rewrite fl_pos_eq by done. set (e := ulp_exp q). pose proof (pow2_pos e).
  pose proof (scaled q e) as Hs.
  assert (0 ≤ rne (q / pow2 e))%Z as Hr by (apply rne_nonneg; nra).
  rewrite Zle_Qle in Hr. change (inject_Z 0) with 0%Q in Hr. nra.
Qed.

(** The error is half a unit in the last place. *)
Lemma fl_error q k :
  (0 <= q)%Q → (q < pow2 k)%Q → (-1020 ≤ k)%Z → (Qabs (fl q - q) <= (1#2) * pow2 (k - 53))%Q.
Proof.
  intros Hq0 Hqk Hk. pose proof (pow2_pos (k - 53)) as Hpk.
  destruct (Qlt_le_dec 0 q) as [Hq|Hq].
  2: { rewrite fl_nonpos by done. apply Qabs_Qle_condition. lra. }
  rewrite fl_pos_eq by done. set (e := ulp_exp q). pose proof (pow2_pos e) as Hpe.
  pose proof (scaled q e) as Hs. pose proof (expo_lt q k Hq Hqk) as Hexp.
  assert (pow2 e <= pow2 (k - 53))%Q as Hle. { apply pow2_le. unfold e, ulp_exp. lia. }
  pose proof (rne_error (q / pow2 e)) as [H1 H2]%Qabs_Qle_condition.
  set (R := inject_Z (rne (q / pow2 e))) in *. set (u := (q / pow2 e)%Q) in *.
  apply Qabs_Qle_condition. split; nra.
Qed.

Lemma rne_int q n : (q == inject_Z n)%Q → rne q = n.
Proof.
  intros Hq. pose proof (rne_error q) as [H1 H2]%Qabs_Qle_condition.
  assert (inject_Z (n + -1) < inject_Z (rne q) < inject_Z (n + 1))%Q as [Hl Hu].
  { rewrite !inject_Z_plus. change (inject_Z (-1)) with (-1)%Q. change (inject_Z 1) with 1%Q. lra. }
  rewrite <- Zlt_Qlt in Hl, Hu. lia.
Qed.

(** A double rounds to itself. *)
Lemma fl_fix x : representable x → (0 < x)%Q → (fl x == x)%Q.
Proof.
  intros (M & E & HM & HE & Hx) Hpos. pose proof (pow2_pos E) as HpE.
  rewrite fl_pos_eq by done. set (e := ulp_exp x). pose proof (pow2_pos e) as Hpe.
  pose proof (scaled x e) as Hs. destruct (expo_bounds x Hpos) as [Hlow _].
  assert (∃ n, x == inject_Z n * pow2 e)%Q as [n Hn].
  { destruct (Z.le_gt_cases e E) as [HeE|HeE].
    - exists (M * 2 ^ (E - e))%Z. rewrite Hx, inject_Z_mult, <- Qmult_assoc.
      by rewrite <- pow2_Z, <- pow2_add, Z.sub_add by lia.
    - assert (e = (expo x - 52)%Z) as He by (unfold e, ulp_exp in *; lia). exists (2 ^ 52)%Z.
      rewrite <- pow2_Z, <- pow2_add by lia. replace (52 + e)%Z with (expo x) by lia.
      assert (inject_Z M <= pow2 53)%Q as HM53 by (rewrite pow2_Z, <- Zle_Qle by lia; lia).
      assert (pow2 (53 + E) <= pow2 (expo x))%Q as Hle by (apply pow2_le; lia).
      rewrite pow2_add in Hle. apply Qle_antisym; [|done]. nra. }
  rewrite (rne_int _ n), <- Hn; [done|]. rewrite Hn. field. lra.
Qed.
