(* ===== verification/Reconnect.v ===== *)
(** * Reconnect policy

    [apps/desktop/src/reconnect.rs], and [rand01] of [commands.rs].  A
    [Duration] is its nanoseconds in [Z], between 0 and [DURATION_MAX]; the
    jitter goes through the f64 model of [F64]. *)
From Stdlib Require Import QArith Qround Qpower Qabs Lqa.
From S2P Require Import Prelude F64.

(** [Duration::saturating_mul], [as_secs_f64], [from_secs_f64], [mul_f64]. *)
Definition saturating_mul (d : Z) (n : Z) : Z := Z.min (d * n) DURATION_MAX.
Definition as_secs_f64 (d : Z) : Q :=
  fl (fl (inject_Z (d / 1000000000)) +
      fl (inject_Z (d mod 1000000000) / inject_Z 1000000000)).
Definition from_secs_f64 (x : Q) : Z := rne (x * inject_Z 1000000000).
Definition mul_f64 (d : Z) (f : Q) : Z := from_secs_f64 (fl (f * as_secs_f64 d)).

(** [u32::saturating_sub(1)], [u32::saturating_pow]. *)
Definition saturating_pred (n : Z) : Z := Z.max (n - 1) 0.
Definition saturating_pow (base e : Z) : Z := Z.min (base ^ e) u32_max.

Record Backoff := MkBackoff {
  base : Z;
  cap : Z;
  factor : Z
}.
Definition BACKOFF_DEFAULT : Backoff := MkBackoff 500000000 30000000000 2.

(** [rand01.clamp(0.0, 1.0)] if finite, else 0. *)
Definition clamp01 (r : f64) : Q :=
  match r with
  | Finite q => if Qle_bool q 0 then 0%Q else if Qle_bool 1 q then 1%Q else q
  | Infinite | NaN => 0%Q
  end.

Definition ceiling (b : Backoff) (attempt : Z) : Z :=
  let steps := saturating_pred attempt in
  let mult := saturating_pow (factor b) steps in
  Z.min (saturating_mul (base b) mult) (cap b).

Definition delay (b : Backoff) (attempt : Z) (rand01 : f64) : Z :=
  mul_f64 (ceiling b attempt) (clamp01 rand01).

Inductive PumpEnd :=
  | Exited (code : option Z)
  | Dropped.

Inductive Decision :=
  | Exit (code : option Z)
  | Reconnect (attempt delay : Z)
  | GiveUp.

Record ReconnectPolicy := MkPolicy {
  enabled : bool;
  max_attempts : Z;
  backoff : Backoff
}.
Definition POLICY_DEFAULT : ReconnectPolicy := MkPolicy true 10 BACKOFF_DEFAULT.
Definition POLICY_OFF : ReconnectPolicy := MkPolicy false 0 BACKOFF_DEFAULT.

Definition reconnect_or_give_up (p : ReconnectPolicy) (attempt : Z) (rand01 : f64) : Decision :=
  if negb (enabled p) then GiveUp
  else if ((max_attempts p =? 0) || (max_attempts p <? attempt))%Z then GiveUp
  else Reconnect attempt (delay (backoff p) attempt rand01).

Definition decide_end (p : ReconnectPolicy) (pump_end : PumpEnd) (attempt : Z) (rand01 : f64) :
    Decision :=
  match pump_end with
  | Exited code => Exit code
  | Dropped => reconnect_or_give_up p attempt rand01
  end.

(** [attempt + 1] on [u32]: it wraps (or panics, in a checked build) at the
    top, which an attempt below [max_attempts] never reaches. *)
Definition after_failed_attempt (p : ReconnectPolicy) (attempt : Z) (retryable : bool)
    (rand01 : f64) : Decision :=
  if negb retryable then GiveUp
  else reconnect_or_give_up p ((attempt + 1) mod 2 ^ 32) rand01.

(** [rand01()]: the top 53 bits of 8 random bytes; 0 when there are none. *)
Definition rand01 (bytes : option Z) : f64 :=
  match bytes with
  | None => Finite 0
  | Some n => Finite (inject_Z (Z.shiftr n 11) / inject_Z (2 ^ 53))
  end.

(** * The delay stays below its ceiling *)

Lemma clamp01_range r : (0 <= clamp01 r <= 1)%Q.
Proof.
  destruct r as [q| |]; simpl; [|lra..]. destruct (Qle_bool q 0) eqn:E0; [lra|].
  destruct (Qle_bool 1 q) eqn:E1; [lra|]. split.
  - apply Qnot_lt_le. intros Hlt. assert (Qle_bool q 0 = true) by (apply Qle_bool_iff; lra). congruence.
  - apply Qnot_lt_le. intros Hlt. assert (Qle_bool 1 q = true) by (apply Qle_bool_iff; lra). congruence.
Qed.

(** Seconds and nanoseconds of a duration below 2^21 seconds. *)
Lemma duration_parts d :
  (0 ≤ d < 2 ^ 21 * 1000000000)%Z →
  (0 <= inject_Z (d / 1000000000) <= pow2 21)%Q ∧
  (0 <= inject_Z (d mod 1000000000) / inject_Z 1000000000 < 1)%Q ∧
  (inject_Z d == inject_Z 1000000000 *
     (inject_Z (d / 1000000000) + inject_Z (d mod 1000000000) / inject_Z 1000000000))%Q.
Proof.
  intros Hd. pose proof (Z_div_mod_eq_full d 1000000000) as Heq.
  pose proof (Z.mod_pos_bound d 1000000000) as Hm.
  assert (0 ≤ d / 1000000000 ≤ 2 ^ 21)%Z as Hq.
  { split; [apply Z.div_pos; lia|]. apply Z.div_le_upper_bound; lia. }
  set (s := (d / 1000000000)%Z) in *. set (n := (d mod 1000000000)%Z) in *.
  split_and!.
  - change 0%Q with (inject_Z 0). rewrite <- Zle_Qle. lia.
  - rewrite pow2_Z by lia. rewrite <- Zle_Qle. lia.
  - apply Qle_shift_div_l; [reflexivity|]. change (0 * inject_Z 1000000000)%Q with 0%Q.
    change 0%Q with (inject_Z 0). rewrite <- Zle_Qle. lia.
  - apply Qlt_shift_div_r; [reflexivity|]. rewrite Qmult_1_l. rewrite <- Zlt_Qlt. lia.
  - rewrite Heq, inject_Z_plus, inject_Z_mult. field.
Qed.

(** Converting such a duration to f64 seconds is off by less than half a
    nanosecond. *)
Lemma as_secs_f64_error d :
  (0 ≤ d < 2 ^ 21 * 1000000000)%Z →
  (inject_Z d - (1#2) < as_secs_f64 d * inject_Z 1000000000 < inject_Z d + (1#2))%Q.
Proof.
  intros Hd. destruct (duration_parts d Hd) as ([Hs0 Hs1] & [Hn0 Hn1] & Heq).
  unfold as_secs_f64. set (s := inject_Z (d / 1000000000)) in *.
  set (n := (inject_Z (d mod 1000000000) / inject_Z 1000000000)%Q) in *.
  assert (pow2 21 == 2097152)%Q as H21 by reflexivity.
  assert (pow2 22 == 4194304)%Q as H22 by reflexivity.
  assert (pow2 1 == 2)%Q as H1 by reflexivity.
  destruct (proj1 (Qabs_Qle_condition _ _) (fl_error s 22 ltac:(lra) ltac:(lra) ltac:(lia))) as [Es' Es].
  destruct (proj1 (Qabs_Qle_condition _ _) (fl_error n 1 ltac:(lra) ltac:(lra) ltac:(lia))) as [En' En].
  assert (pow2 (22 - 53) == 1#2147483648)%Q as U1 by reflexivity.
  assert (pow2 (1 - 53) == 1#4503599627370496)%Q as U2 by reflexivity.
  rewrite U1 in Es, Es'. rewrite U2 in En, En'.
  pose proof (fl_nonneg s). pose proof (fl_nonneg n).
  destruct (proj1 (Qabs_Qle_condition _ _)
    (fl_error (fl s + fl n) 22 ltac:(lra) ltac:(lra) ltac:(lia))) as [Ex' Ex].
  rewrite U1 in Ex, Ex'. change (inject_Z 1000000000) with 1000000000%Q in *. lra.
Qed.

Lemma mul_f64_le d f :
  (0 ≤ d < 2 ^ 21 * 1000000000)%Z → (0 <= f <= 1)%Q → (0 ≤ mul_f64 d f ≤ d)%Z.
Proof.
  intros Hd [Hf0 Hf1]. unfold mul_f64, from_secs_f64.
  destruct (as_secs_f64_error d Hd) as [_ Herr].
  assert (0 <= as_secs_f64 d)%Q as Hx0 by apply fl_nonneg.
  assert (fl (f * as_secs_f64 d) <= as_secs_f64 d)%Q as Hle.
  { apply fl_le; [apply fl_representable|]. nra. }
  pose proof (fl_nonneg (f * as_secs_f64 d)) as Hp0. set (p := fl (f * as_secs_f64 d)) in *.
  change (inject_Z 1000000000) with 1000000000%Q in *. split.
  - apply rne_nonneg. lra.
  - pose proof (rne_error (p * 1000000000)) as [_ H2]%Qabs_Qle_condition.
    assert (inject_Z (rne (p * 1000000000)) < inject_Z (d + 1))%Q as H.
    { rewrite inject_Z_plus. change (inject_Z 1) with 1%Q. lra. }
    rewrite <- Zlt_Qlt in H. lia.
Qed.

(** A fraction of 1 leaves a duration as it is. *)
Lemma mul_f64_one d : (0 ≤ d < 2 ^ 21 * 1000000000)%Z → mul_f64 d 1 = d.
Proof.
  intros Hd. destruct (as_secs_f64_error d Hd) as [Hlow Hup]. unfold mul_f64, from_secs_f64.
  set (x := as_secs_f64 d) in *.
  assert ((1 * x)%Q = x) as -> by (destruct x as [n q]; unfold Qmult; simpl; by rewrite Z.mul_1_l).
  assert (fl x == x)%Q as Hfl.
  { destruct (Qlt_le_dec 0 x) as [Hx|Hx]; [by apply fl_fix; [apply fl_representable|]|].
    rewrite fl_nonpos by done. apply Qle_antisym; [apply fl_nonneg|done]. }
  pose proof (rne_error (fl x * inject_Z 1000000000)) as [H1 H2]%Qabs_Qle_condition.
  set (n := rne _) in *. rewrite Hfl in H1, H2.
  assert (inject_Z (d + -1) < inject_Z n < inject_Z (d + 1))%Q as [Hl Hu].
  { rewrite !inject_Z_plus. change (inject_Z (-1)) with (-1)%Q. change (inject_Z 1) with 1%Q. lra. }
  rewrite <- Zlt_Qlt in Hl, Hu. lia.
Qed.

(** Where the cap is within what a [u32] multiplier reaches, saturation does
    not show. *)
Lemma ceiling_exponential b attempt :
  (0 ≤ base b)%Z → (0 ≤ cap b ≤ base b * u32_max)%Z → (cap b ≤ DURATION_MAX)%Z → (0 ≤ factor b)%Z →
  (1 ≤ attempt)%Z → ceiling b attempt = Z.min (base b * factor b ^ (attempt - 1)) (cap b).
Proof.
  intros Hb Hc Hm Hf Ha. unfold ceiling, saturating_mul, saturating_pow, saturating_pred.
  rewrite Z.max_l by lia. set (m := (factor b ^ (attempt - 1))%Z).
  assert (0 ≤ m)%Z by (by apply Z.pow_nonneg). nia.
Qed.

Lemma ceiling_range b attempt :
  (0 ≤ base b)%Z → (0 ≤ cap b)%Z → (0 ≤ factor b)%Z → (0 ≤ ceiling b attempt ≤ cap b)%Z.
Proof.
  intros Hb Hc Hf. unfold ceiling, saturating_mul, saturating_pow, DURATION_MAX, u64_max, u32_max.
  assert (0 ≤ factor b ^ saturating_pred attempt)%Z by (by apply Z.pow_nonneg). nia.
Qed.

(** C28: whatever jitter a caller hands over (negative, above 1, infinite or
    NaN included), the delay before an attempt lies between zero and the
    exponential ceiling, which never exceeds the cap: f64 rounding cannot push
    it past, for any cap up to 2^21 seconds (24 days).  A jitter of 1 gives
    exactly the ceiling, and the ceiling is exactly the base times the factor to
    the power of the attempts before, or the cap: the saturating arithmetic does
    not show, if the cap is within 2^32 - 1 times the base. *)
Theorem delay_bounded b attempt r :
  (0 ≤ base b)%Z → (0 ≤ cap b < 2 ^ 21 * 1000000000)%Z → (0 ≤ factor b)%Z →
  (0 ≤ delay b attempt r ≤ ceiling b attempt)%Z ∧ (ceiling b attempt ≤ cap b)%Z ∧
  delay b attempt (Finite 1) = ceiling b attempt ∧
  ((1 ≤ attempt)%Z → (cap b ≤ base b * u32_max)%Z →
   ceiling b attempt = Z.min (base b * factor b ^ (attempt - 1)) (cap b)).
Proof.
  intros Hb Hc Hf. pose proof (ceiling_range b attempt Hb ltac:(lia) Hf) as Hr.
  split_and!; [apply mul_f64_le; [lia|apply clamp01_range]..|lia| |].
  - unfold delay. change (clamp01 (Finite 1)) with 1%Q. apply mul_f64_one. lia.
  - intros Ha Hu. apply ceiling_exponential; [lia|lia| |lia|lia].
    unfold DURATION_MAX, u64_max. lia.
Qed.

Lemma delay_bounded_witness :
  (0 ≤ delay BACKOFF_DEFAULT 4 NaN ≤ ceiling BACKOFF_DEFAULT 4)%Z ∧
  (ceiling BACKOFF_DEFAULT 4 ≤ 30000000000)%Z ∧
  delay BACKOFF_DEFAULT 4 (Finite 1) = ceiling BACKOFF_DEFAULT 4 ∧
  ceiling BACKOFF_DEFAULT 4 = 4000000000%Z.
Proof.
  destruct (delay_bounded BACKOFF_DEFAULT 4 NaN) as (H1 & H2 & H3 & H4); [simpl; lia..|].
  split; [exact H1|]. split; [exact H2|]. split; [exact H3|].
  rewrite H4; [reflexivity|lia|unfold u32_max; simpl; lia].
Defined.

Example delay_1 : delay BACKOFF_DEFAULT 1 (Finite 1) = 500000000%Z.
Proof. vm_compute. reflexivity. Qed.
Example delay_10 : delay BACKOFF_DEFAULT 10 (Finite 1) = 30000000000%Z.
Proof. vm_compute. reflexivity. Qed.
Example delay_2_clamped : delay BACKOFF_DEFAULT 2 (Finite 5) = 1000000000%Z.
Proof. vm_compute. reflexivity. Qed.

Lemma rand01_range bytes q :
  (∀ n, bytes = Some n → 0 ≤ n < 2 ^ 64)%Z → rand01 bytes = Finite q → (0 <= q < 1)%Q.
Proof.
  intros Hn. destruct bytes as [n|]; simpl; intros [= <-]; [|lra].
  specialize (Hn n eq_refl). assert (0 ≤ Z.shiftr n 11 < 2 ^ 53)%Z as Hs.
  { rewrite Z.shiftr_div_pow2 by lia. split; [apply Z.div_pos; lia|]. apply Z.div_lt_upper_bound; lia. }
  split.
  - apply Qle_shift_div_l; [reflexivity|]. rewrite Qmult_0_l. change 0%Q with (inject_Z 0).
    rewrite <- Zle_Qle. lia.
  - apply Qlt_shift_div_r; [reflexivity|]. rewrite Qmult_1_l, <- Zlt_Qlt. lia.
Qed.

(** * Decisions *)

Lemma reconnect_inv p attempt r a d :
  reconnect_or_give_up p attempt r = Reconnect a d →
  a = attempt ∧ enabled p = true ∧ (a ≤ max_attempts p)%Z ∧ max_attempts p ≠ 0%Z ∧
  d = delay (backoff p) a r.
Proof.
  unfold reconnect_or_give_up. destruct (enabled p); [|done]. simpl.
  destruct (Z.eqb_spec (max_attempts p) 0); [done|].
  destruct (Z.ltb_spec (max_attempts p) attempt); [done|]. simpl. by intros [= <- <-].
Qed.

Lemma reconnect_no_exit p attempt r code : reconnect_or_give_up p attempt r ≠ Exit code.
Proof. unfold reconnect_or_give_up. by repeat case_match. Qed.

(** A policy with 0 attempts, which its field documents as unlimited, never
    reconnects. *)
Theorem zero_attempts_gives_up p attempt r retryable :
  max_attempts p = 0%Z →
  decide_end p Dropped attempt r = GiveUp ∧ after_failed_attempt p attempt retryable r = GiveUp.
Proof.
  intros Hm. unfold decide_end, after_failed_attempt, reconnect_or_give_up. rewrite Hm. simpl.
  destruct (enabled p), retryable; done.
Qed.
