(* ===== verification/Supervise.v ===== *)
(** * The session supervisor

    [supervise] of [apps/desktop/src/commands.rs], as a state machine: between
    two suspension points the task is in a [phase], and what wakes it is an
    [input]: the shell's output channel yields or ends, the user closes the
    tab, the backoff sleep ends, or a reconnect attempt returns.  The record
    keeps what the task sent, oldest first: [emitted] on the session's event
    channel, [fed] to the coalescer, [unpaused] on the pause watch; [conn] is
    the transport behind the shared [Conn].  A transport is an opaque value.
    Jitter is an argument of the inputs that make the code draw it. *)
From S2P Require Import Prelude F64 Reconnect.

(** The [SessionEvent]s the supervisor sends; a reason is kept as the message
    of the error it came from, [None] being the initial "connection lost". *)
Inductive sup_event (E : Type) :=
  | EvExited (code : option Z)
  | EvDisconnected (reason : option E)
  | EvReconnecting (attempt max_attempts delay_ms : Z)
  | EvConnected.
Arguments EvExited {E}.
Arguments EvDisconnected {E}.
Arguments EvReconnecting {E}.
Arguments EvConnected {E}.

(** [millis_u64] *)
Definition millis_u64 (d : Z) : Z := Z.min (d / 1000000) u64_max.

Inductive phase (E : Type) :=
  | Pumping
  | Sleeping (attempt delay : Z) (reason : option E)
  | Attempting (attempt : Z) (reason : option E)
  | Ended.
Arguments Pumping {E}.
Arguments Sleeping {E}.
Arguments Attempting {E}.
Arguments Ended {E}.

Record sup (E T : Type) := Sup {
  ph : phase E;
  emitted : list (sup_event E);
  fed : list (list N);
  conn : T;
  unpaused : list bool
}.
Arguments Sup {E T}.
Arguments ph {E T}.
Arguments emitted {E T}.
Arguments fed {E T}.
Arguments conn {E T}.
Arguments unpaused {E T}.

Definition sup_init {E T} (t : T) : sup E T := Sup Pumping [] [] t [].

(** What wakes the task.  [OutChunk]: a chunk, and whether the coalescer still
    takes it.  [OutEnded]: the channel ended, with the exit status the shell
    reported, whether the transport is closed, and whether the shutdown watch
    is set by then. *)
Inductive input (E T : Type) :=
  | OutChunk (c : list N) (consumer_alive : bool)
  | OutEnded (shutdown : bool) (status : option Z) (closed : bool) (r : f64)
  | Shutdown
  | SleepDone (shutdown : bool)
  | AttemptOk (established : T)
  | AttemptFailed (retryable : bool) (message : E) (r : f64).
Arguments OutChunk {E T}.
Arguments OutEnded {E T}.
Arguments Shutdown {E T}.
Arguments SleepDone {E T}.
Arguments AttemptOk {E T}.
Arguments AttemptFailed {E T}.

Section supervise.
Context {E T : Type} (policy : ReconnectPolicy) (has_reconnector : bool).

Definition emit (e : sup_event E) (p : phase E) (s : sup E T) : sup E T :=
  Sup p (emitted s ++ [e]) (fed s) (conn s) (unpaused s).
Definition go (p : phase E) (s : sup E T) : sup E T :=
  Sup p (emitted s) (fed s) (conn s) (unpaused s).

(** The match on [decision]. *)
Definition follow (decision : Decision) (reason : option E) (s : sup E T) : sup E T :=
  match decision with
  | Reconnect attempt delay =>
      emit (EvReconnecting attempt (max_attempts policy) (millis_u64 delay))
        (Sleeping attempt delay reason) s
  | GiveUp => emit (EvDisconnected reason) Ended s
  | Exit code => emit (EvExited code) Ended s
  end.

(** [let end = match out.exit_status()...] *)
Definition pump_end (status : option Z) (closed : bool) : PumpEnd :=
  match status with
  | Some code => Exited (Some code)
  | None => if closed then Dropped else Exited None
  end.

(** One turn; [None] when the task is not waiting for the input. *)
Definition sup_step (s : sup E T) (i : input E T) : option (sup E T) :=
  match ph s, i with
  | Pumping, OutChunk c alive =>
      Some (if (alive : bool) then Sup Pumping (emitted s) (fed s ++ [c]) (conn s) (unpaused s)
            else go Ended s)
  | Pumping, Shutdown => Some (go Ended s)
  | Pumping, OutEnded shutdown status closed r =>
      if (shutdown : bool) then Some (go Ended s)
      else match pump_end status closed with
           | Exited code => Some (emit (EvExited code) Ended s)
           | Dropped =>
               if has_reconnector then Some (follow (decide_end policy Dropped 1 r) None s)
               else Some (emit (EvDisconnected None) Ended s)
           end
  | Sleeping attempt _ reason, Shutdown => Some (go Ended s)
  | Sleeping attempt _ reason, SleepDone shutdown =>
      Some (go (if (shutdown : bool) then Ended else Attempting attempt reason) s)
  | Attempting attempt _, AttemptOk established =>
      Some (Sup Pumping (emitted s ++ [EvConnected]) (fed s) established (unpaused s ++ [false]))
  | Attempting attempt _, AttemptFailed retryable message r =>
      Some (follow (after_failed_attempt policy attempt retryable r) (Some message) s)
  | _, _ => None
  end.

Inductive sup_steps_to (s : sup E T) : sup E T → Prop :=
  | sup_one i s' : sup_step s i = Some s' → sup_steps_to s s'.

(** A run over a list of inputs. *)
Definition run (l : list (input E T)) (s : sup E T) : option (sup E T) :=
  foldl (λ o i, s ← o; sup_step s i) (Some s) l.

Lemma run_none l : foldl (λ o i, s ← o; sup_step s i) None l = None.
Proof. induction l; [done|]. simpl. done. Qed.

Lemma run_steps l s s' : run l s = Some s' → steps sup_steps_to s s'.
Proof.
  unfold run. induction l as [|i l IH] using rev_ind in s' |- *.
  - intros [= <-]. apply steps_refl.
  - rewrite foldl_app. simpl. intros (s1 & H1 & H2)%bind_Some.
    eapply steps_snoc; [by apply IH|]. by econstructor.
Qed.

(** The protocol the webview relies on: attempts of an outage count 1, 2, ...
    up to the maximum, [Connected] ends the outage, and nothing follows
    [Exited] or [Disconnected].  [Some n]: live, [n] attempts into an outage. *)
Definition pace (st : option (option Z)) (e : sup_event E) : option (option Z) :=
  match st with
  | Some (Some n) =>
      match e with
      | EvReconnecting a m _ =>
          if ((a =? n + 1) && (a <=? max_attempts policy) && (m =? max_attempts policy))%Z
          then Some (Some a) else None
      | EvConnected => if (n =? 0)%Z then None else Some (Some 0%Z)
      | EvExited _ => if (n =? 0)%Z then Some None else None
      | EvDisconnected _ => Some None
      end
  | _ => None
  end.
Definition paced (es : list (sup_event E)) : option (option Z) := foldl pace (Some (Some 0%Z)) es.

Lemma paced_snoc es e : paced (es ++ [e]) = pace (paced es) e.
Proof. unfold paced. by rewrite foldl_app. Qed.

(** The events sent so far follow the protocol, and the phase agrees. *)
Definition sup_inv (s : sup E T) : Prop :=
  match ph s with
  | Pumping => paced (emitted s) = Some (Some 0%Z)
  | Sleeping a _ _ | Attempting a _ =>
      paced (emitted s) = Some (Some a) ∧ (1 ≤ a ≤ max_attempts policy)%Z
  | Ended => is_Some (paced (emitted s))
  end.

Lemma follow_inv n attempt r reason s :
  paced (emitted s) = Some (Some n) → attempt = (n + 1)%Z → (0 ≤ n)%Z →
  sup_inv (follow (reconnect_or_give_up policy attempt r) reason s).
Proof.
  intros Hp -> Hn. unfold follow. destruct (reconnect_or_give_up _ _ _) as [code|a d|] eqn:Er.
  - by apply reconnect_no_exit in Er.
  - apply reconnect_inv in Er as (-> & _ & Hle & _ & _). unfold sup_inv, emit. simpl.
    rewrite paced_snoc, Hp. simpl. rewrite Z.eqb_refl. simpl.
    assert ((n + 1 <=? max_attempts policy) = true)%Z as -> by (by apply Z.leb_le).
    rewrite Z.eqb_refl. simpl. split; [done|lia].
  - unfold sup_inv, emit. simpl. rewrite paced_snoc, Hp. simpl. by eexists.
Qed.

Lemma sup_step_inv s i s' :
  (max_attempts policy < u32_max)%Z → sup_inv s → sup_step s i = Some s' → sup_inv s'.
Proof.
  intros Hmax Hs. unfold sup_step, sup_inv in Hs |- *. destruct (ph s) as [|a d reason|a reason|] eqn:Hph.
  - destruct i as [c alive|sh status closed r| | | |]; try done.
    + intros [= <-]. destruct alive; simpl; [done|]. rewrite Hs. by eexists.
    + destruct sh; [intros [= <-]; simpl; rewrite Hs; by eexists|].
      destruct (pump_end status closed) as [code|].
      * intros [= <-]. simpl. rewrite paced_snoc, Hs. simpl. by eexists.
      * destruct has_reconnector; intros [= <-].
        -- by apply (follow_inv 0).
        -- simpl. rewrite paced_snoc, Hs. simpl. by eexists.
    + intros [= <-]. simpl. rewrite Hs. by eexists.
  - destruct Hs as [Hp Ha]. destruct i as [| | |sh| |]; try done; intros [= <-]; simpl;
      [rewrite Hp; by eexists|].
    destruct sh; simpl; [rewrite Hp; by eexists|done].
  - destruct Hs as [Hp Ha]. destruct i as [| | | | |retry msg r]; try done; intros [= <-].
    + simpl. rewrite paced_snoc, Hp. simpl. destruct (Z.eqb_spec a 0); [lia|done].
    + unfold after_failed_attempt. destruct retry; simpl.
      * apply (follow_inv a); [done| |lia]. rewrite Z.mod_small; [done|]. unfold u32_max in Hmax. lia.
      * rewrite paced_snoc, Hp. simpl. by eexists.
  - by destruct i.
Qed.


(** C24: what must not be retried is not: a shell that exited (with a status,
    or without one on an open transport), a failure that is not retryable, a
    closed tab, and any drop when the policy is off or there is nothing to
    reconnect with, all end the supervisor at once, with the transport left as
    it was and at most one event. *)
Theorem supervise_stops s i s' :
  sup_step s i = Some s' →
  match i with
  | OutEnded false (Some _) _ _ | OutEnded false None false _ | AttemptFailed false _ _ => True
  | OutEnded false None true _ => enabled policy = false ∨ has_reconnector = false
  | OutEnded true _ _ _ | Shutdown | SleepDone true => True
  | _ => False
  end →
  ph s' = Ended ∧ conn s' = conn s ∧ length (emitted s') ≤ S (length (emitted s)) ∧
  ∀ j, sup_step s' j = None.
Proof.
  intros Hstep Hi.
  assert (ph s' = Ended ∧ conn s' = conn s ∧ length (emitted s') ≤ S (length (emitted s)))
    as (Hph & Hsw & Hlen); [|split_and!; [done..|]; intros j; unfold sup_step; by rewrite Hph].
  revert Hstep. unfold sup_step, follow, after_failed_attempt, decide_end, pump_end.
  destruct (ph s), i as [|[] [] [] ?| |[]| |[]]; try done; simpl;
    try (intros [= <-]; simpl; rewrite ?length_app; simpl; split_and!; (done || lia)).
  destruct Hi as [He| ->].
  - destruct has_reconnector; intros [= <-]; unfold reconnect_or_give_up;
      rewrite ?He; simpl; rewrite length_app; simpl; split_and!; (done || lia).
  - intros [= <-]. simpl. rewrite length_app. simpl. split_and!; (done || lia).
Qed.
End supervise.

(** * On concrete runs *)
Definition sample_run : list (input nat nat) :=
  [OutEnded false None true (rand01 (Some (2 ^ 63)%Z)); SleepDone false; AttemptOk 1;
   OutChunk [104%N] true; OutEnded false None true (rand01 (Some (2 ^ 63)%Z)); SleepDone false;
   AttemptFailed false 7 NaN].
Definition sample_end : sup nat nat := Sup Ended
  [EvReconnecting 1 10 250; EvConnected; EvReconnecting 1 10 250; EvDisconnected (Some 7)]
  [[104%N]] 1 [false].


Lemma supervise_stops_witness :
  let s := Sup (E := nat) (Attempting 2 None) [] [] 0 [] in
  let s' := Sup (E := nat) Ended [EvDisconnected (Some 7)] [] 0 [] in
  ph s' = Ended ∧ conn s' = conn s ∧ length (emitted s') ≤ S (length (emitted s)) ∧
  ∀ j, sup_step POLICY_DEFAULT true s' j = None.
Proof.
  intros s s'. by apply (supervise_stops POLICY_DEFAULT true s (AttemptFailed false 7 NaN) s').
Defined.
