(* ===== verification/Vault.v ===== *)
(** * The OS keyring

    [core-vault/src/lib.rs] and [os_keyring.rs].  The [keyring] crate is the
    class [Keyring]: its credential store is an opaque state, and
    [KeyringLaws] says what the crate documents of it (a secret that was set is
    read back, a deleted one is gone, other accounts are left alone). *)
From S2P Require Import Prelude Text.

(** [keyring::Error]: no such entry, or anything else with its message. *)
Inductive keyring_error := NoEntry | KrOther (message : str).

Class Keyring := {
  kr : Type;
  kr_entry : str → str → option keyring_error;
  kr_get : str → str → kr → result keyring_error str;
  kr_set : str → str → str → kr → result keyring_error () * kr;
  kr_get_bytes : str → str → kr → result keyring_error (list N);
  kr_set_bytes : str → str → list N → kr → result keyring_error () * kr;
  kr_delete : str → str → kr → result keyring_error () * kr
}.

Inductive VaultError := VNotFound | VStore (reason : str).

Definition vault_error_from (err : keyring_error) : VaultError :=
  match err with
  | NoEntry => VNotFound
  | KrOther other => VStore other
  end.

Record OsKeyring := MkOsKeyring { service : str }.

Inductive KeyringAvailability := Available | Unavailable (reason : str).
Definition PROBE_ACCOUNT : str := #"__tern_backend_probe".

Definition is_available (a : KeyringAvailability) : bool :=
  match a with Available => true | Unavailable _ => false end.

Section keyring.
Context `{!Keyring}.

(** A keyring operation: an outcome, and the credential store after it. *)
Definition K (A : Type) : Type := kr → result VaultError A * kr.

(** [Entry::new(&self.service, account).map_err(VaultError::from)?] *)
Definition with_entry {A} (k : OsKeyring) (account : str) (f : K A) : K A := λ s,
  match kr_entry (service k) account with
  | Some e => (Err (vault_error_from e), s)
  | None => f s
  end.

Definition set_password (k : OsKeyring) (account password : str) : K () :=
  with_entry k account (λ s,
    let '(r, s') := kr_set (service k) account password s in (map_err vault_error_from r, s')).

Definition get_password (k : OsKeyring) (account : str) : K str :=
  with_entry k account (λ s, (map_err vault_error_from (kr_get (service k) account s), s)).

Definition set_secret_bytes (k : OsKeyring) (account : str) (secret : list N) : K () :=
  with_entry k account (λ s,
    let '(r, s') := kr_set_bytes (service k) account secret s in (map_err vault_error_from r, s')).

Definition get_secret_bytes (k : OsKeyring) (account : str) : K (list N) :=
  with_entry k account (λ s, (map_err vault_error_from (kr_get_bytes (service k) account s), s)).

Definition delete_credential (k : OsKeyring) (account : str) : K () :=
  with_entry k account (λ s,
    let '(r, s') := kr_delete (service k) account s in (map_err vault_error_from r, s')).

(** The probe is a read, so the credential store comes back as it was. *)
Definition availability (k : OsKeyring) : kr → KeyringAvailability * kr := λ s,
  match get_password k PROBE_ACCOUNT s with
  | (Ok _, s') | (Err VNotFound, s') => (Available, s')
  | (Err (VStore reason), s') => (Unavailable reason, s')
  end.

(** What the crate documents. *)
Class KeyringLaws := {
  kr_get_set sv a p s s' : kr_set sv a p s = (Ok (), s') → kr_get sv a s' = Ok p;
  kr_get_set_ne sv a p s b : b ≠ a → kr_get sv b (kr_set sv a p s).2 = kr_get sv b s;
  kr_set_err sv a p s e s' : kr_set sv a p s = (Err e, s') → s' = s;
  kr_get_deleted sv a s s' : kr_delete sv a s = (Ok (), s') → kr_get sv a s' = Err NoEntry;
  kr_get_no_entry sv a s s' : kr_delete sv a s = (Err NoEntry, s') → kr_get sv a s' = Err NoEntry;
  kr_get_delete_ne sv a s b : b ≠ a → kr_get sv b (kr_delete sv a s).2 = kr_get sv b s
}.
End keyring.

(** A credential store that works: a map of secrets. *)
Definition map_keyring : Keyring := {|
  kr := gmap (str * str) str;
  kr_entry _ _ := None;
  kr_get sv a s := ok_or NoEntry (s !! (sv, a));
  kr_set sv a p s := (Ok (), <[(sv, a) := p]> s);
  kr_get_bytes sv a s := ok_or NoEntry (s !! (sv, a));
  kr_set_bytes sv a p s := (Ok (), <[(sv, a) := p]> s);
  kr_delete sv a s :=
    match s !! (sv, a) with
    | Some _ => (Ok (), delete (sv, a) s)
    | None => (Err NoEntry, s)
    end
|}.

Lemma map_keyring_laws : @KeyringLaws map_keyring.
Proof.
  split; simpl.
  - intros sv a p s s' [= <-]. by rewrite lookup_insert_eq.
  - intros sv a p s b Hb. by rewrite lookup_insert_ne by congruence.
  - done.
  - intros sv a s s'. destruct (s !! _); [|done]. intros [= <-]. by rewrite lookup_delete_eq.
  - intros sv a s s'. destruct (s !! _) eqn:Es; [done|]. intros [= <-]. by rewrite Es.
  - intros sv a s b Hb. destruct (s !! _); simpl; [|done]. by rewrite lookup_delete_ne by congruence.
Qed.
