(* ===== verification/Auth.v ===== *)
(** * From a stored host to the transport's configuration

    [core-ssh/src/config.rs] ([AuthMethod], [SessionConfig]),
    [apps/desktop/src/auth.rs] (which keyring account, which chain) and
    [apps/desktop/src/session_cfg.rs] (overrides over defaults).  A [Secret] is
    its text: that it is wiped on drop is not modelled.  Durations are
    nanoseconds. *)
From S2P Require Import Prelude Text Model Vault.

Inductive AuthMethod :=
  | MPassword (secret : str)
  | MKeyFile (path : str) (passphrase : option str)
  | MAgent.
#[export] Instance AuthMethod_eq_dec : EqDecision AuthMethod.
Proof. solve_decision. Defined.

Definition method_password (secret : str) : AuthMethod := MPassword secret.
Definition key_file (path : str) (passphrase : option str) : AuthMethod := MKeyFile path passphrase.

(** [impl Debug for AuthMethod]; how a path is quoted is an argument. *)
Definition debug_method (quote : str → str) (m : AuthMethod) : str :=
  match m with
  | MPassword _ => #"Password(<redacted>)"
  | MKeyFile path passphrase =>
      #"KeyFile { path: " ++ quote path ++ #", passphrase: " ++
      match passphrase with
      | Some _ => #"Some(" ++ quote #"<redacted>" ++ #")"
      | None => #"None"
      end ++ #" }"
  | MAgent => #"Agent"
  end.

Record SessionConfig := MkSession {
  s_host : str;
  s_port : Z;
  s_username : str;
  s_auth : list AuthMethod;
  s_term : str;
  s_keepalive_interval : option Z;
  s_keepalive_max : Z;
  s_connect_timeout : Z;
  s_window_size : Z;
  s_channel_buffer_size : Z
}.

Definition from_secs (secs : Z) : Z := secs * 1000000000.

Definition config_new (host username : str) (auth : AuthMethod) : SessionConfig :=
  MkSession host 22 username [auth] #"xterm-256color" (Some (from_secs 15)) 3 (from_secs 10)
    (512 * 1024) 16.

(** [for_host]: the defaults, the host's overrides, the request's window. *)
Definition for_host (host : Host) (auth : list AuthMethod) (req_window : option Z) : SessionConfig :=
  let cfg := config_new (h_hostname host) (h_username host) MAgent in
  let o := h_overrides host in
  {| s_host := s_host cfg;
     s_port := h_port host;
     s_username := s_username cfg;
     s_auth := auth;
     s_term := default (s_term cfg) (o_term o);
     s_keepalive_interval :=
       match o_keepalive_secs o with
       | Some secs => if (secs =? 0)%Z then None else Some (from_secs secs)
       | None => s_keepalive_interval cfg
       end;
     s_keepalive_max := default (s_keepalive_max cfg) (o_keepalive_max o);
     s_connect_timeout :=
       match o_connect_timeout_secs o with
       | Some secs => from_secs secs
       | None => s_connect_timeout cfg
       end;
     s_window_size :=
       match req_window with
       | Some window => window
       | None => default (s_window_size cfg) (o_window_size o)
       end;
     s_channel_buffer_size := s_channel_buffer_size cfg |}.

Definition KEYRING_SERVICE : str := #"io.github.fllaa.tern".
Definition password_account (host_id : HostId) : str := #"host/" ++ show_Z host_id ++ #"/password".
Definition passphrase_account (host_id : HostId) : str := #"host/" ++ show_Z host_id ++ #"/passphrase".

Definition account_of_kind (host_id : HostId) (kind : AuthKind) : option str :=
  match kind with
  | Password => Some (password_account host_id)
  | KeyFile => Some (passphrase_account host_id)
  | Agent => None
  end.

(** The first credentialed method of the chain decides the account. *)
Definition account_for (host : Host) : option str :=
  find_map (account_of_kind (h_id host)) (h_auth host :: h_auth_fallbacks host).

Definition keyring : OsKeyring := MkOsKeyring KEYRING_SERVICE.

Record ResolvedAuth := MkResolved {
  methods : list AuthMethod;
  degraded : option str
}.

Section auth.
Context `{!Keyring}.

Definition stored_secret (host : Host) : kr → option str * kr := λ s,
  match account_for host with
  | Some account => let '(r, s') := get_password keyring account s in (ok r, s')
  | None => (None, s)
  end.

Definition set_secret (account secret : str) : K () := set_password keyring account secret.

Definition clear_secret (account : str) : K () := λ s,
  match delete_credential keyring account s with
  | (Ok (), s') | (Err VNotFound, s') => (Ok (), s')
  | (Err e, s') => (Err e, s')
  end.

Definition keyring_availability : kr → KeyringAvailability * kr := availability keyring.

(** The note of a credential store that could not be asked. *)
Definition unreadable_note (reason : str) : str :=
  #"a credential is saved for this host but the credential store could not be read (" ++
  reason ++ #"); connecting without it".

Definition read_secret (account : str) : kr → option str * option str * kr := λ s,
  match get_password keyring account s with
  | (Ok secret, s') => (Some secret, None, s')
  | (Err VNotFound, s') => (None, None, s')
  | (Err (VStore reason), s') => (None, Some (unreadable_note reason), s')
  end.

(** The closure [build] of [auth_for_host]. *)
Definition build_method (host : Host) (stored : option str) (kind : AuthKind) : AuthMethod :=
  match kind with
  | Agent => MAgent
  | Password => method_password (default [] stored)
  | KeyFile => key_file (default [] (h_key_path host)) stored
  end.

Definition auth_for_host (host : Host) : kr → ResolvedAuth * kr := λ s,
  let '(stored, degraded, s') :=
    match h_secret_ref host with
    | None => (None, None, s)
    | Some account => read_secret account s
    end in
  (MkResolved
     (build_method host stored (h_auth host) ::
      (build_method host stored <$> filter (λ k, k ≠ h_auth host) (h_auth_fallbacks host)))
     degraded, s').
End auth.

(** * Accounts *)

Definition kind_of_method (m : AuthMethod) : AuthKind :=
  match m with MPassword _ => Password | MKeyFile _ _ => KeyFile | MAgent => Agent end.

(** The method with its secret blanked, keeping whether there is one. *)
Definition erase_secret (m : AuthMethod) : AuthMethod :=
  match m with
  | MPassword _ => MPassword []
  | MKeyFile path passphrase => MKeyFile path ((λ _, []) <$> passphrase)
  | MAgent => MAgent
  end.

#[export] Instance password_account_inj : Inj (=) (=) password_account.
Proof.
  intros i j Hij. unfold password_account in Hij.
  apply app_inv_head, app_inv_tail in Hij. by apply (inj show_Z).
Qed.
#[export] Instance passphrase_account_inj : Inj (=) (=) passphrase_account.
Proof.
  intros i j Hij. unfold passphrase_account in Hij.
  apply app_inv_head, app_inv_tail in Hij. by apply (inj show_Z).
Qed.

Lemma accounts_disjoint i j : password_account i ≠ passphrase_account j.
Proof. intros Hij%(f_equal last). unfold password_account, passphrase_account in Hij.
  by rewrite !last_app in Hij. Qed.

Lemma account_of_kind_inj i j k1 k2 a :
  account_of_kind i k1 = Some a → account_of_kind j k2 = Some a → i = j ∧ k1 = k2.
Proof.
  unfold account_of_kind. destruct k1, k2; try done; intros <- H; apply (inj Some) in H.
  - split; [|done]. symmetry. by apply (inj passphrase_account).
  - by apply accounts_disjoint in H.
  - symmetry in H. by apply accounts_disjoint in H.
  - split; [|done]. symmetry. by apply (inj password_account).
Qed.

Lemma account_for_kind host a :
  account_for host = Some a →
  ∃ k, k ∈ h_auth host :: h_auth_fallbacks host ∧ account_of_kind (h_id host) k = Some a.
Proof. intros (l1 & k & l2 & Hl & Hk & _)%find_map_Some. exists k. split; [rewrite Hl; set_solver|done]. Qed.

(** A keyring account belongs to one host and one kind of credential: two
    hosts never share one, so saving a secret for a host cannot replace
    another's. *)
Theorem accounts_are_private h1 h2 a :
  account_for h1 = Some a → account_for h2 = Some a → h_id h1 = h_id h2.
Proof.
  intros (k1 & _ & H1)%account_for_kind (k2 & _ & H2)%account_for_kind.
  by destruct (account_of_kind_inj _ _ _ _ _ H1 H2).
Qed.

(** [Debug] of an auth method does not depend on its secret: methods that
    differ in nothing else print the same text, so a log line cannot tell one
    password from another. *)
Theorem debug_redacts quote m1 m2 :
  erase_secret m1 = erase_secret m2 → debug_method quote m1 = debug_method quote m2.
Proof. destruct m1 as [|? []|], m2 as [|? []|]; simpl; intros ?; by simplify_eq. Qed.

(** * The chain *)
Section chain.
Context `{!Keyring}.

(** The secret the keyring gives for the host's [secret_ref], if any. *)
Definition saved_secret (host : Host) (s : kr) : option str :=
  account ← h_secret_ref host; ok (get_password keyring account s).1.

Lemma get_password_state k account s : (get_password k account s).2 = s.
Proof. unfold get_password, with_entry. by destruct (kr_entry _ _). Qed.

Lemma read_secret_spec account s :
  ∃ note, read_secret account s = (ok (get_password keyring account s).1, note, s) ∧
    (is_Some note ↔ ∃ reason, (get_password keyring account s).1 = Err (VStore reason)).
Proof.
  unfold read_secret. pose proof (get_password_state keyring account s) as Hs.
  destruct (get_password keyring account s) as [[secret|[|reason]] s']; simpl in *; subst s'.
  - exists None. split; [done|]. split; [by intros []|by intros []].
  - exists None. split; [done|]. split; [by intros []|by intros []].
  - eexists. split; [done|]. split; eauto.
Qed.

Lemma auth_for_host_methods host s :
  ∃ note, auth_for_host host s =
    (MkResolved (build_method host (saved_secret host s) <$>
       h_auth host :: filter (λ k, k ≠ h_auth host) (h_auth_fallbacks host)) note, s) ∧
    (is_Some note ↔ ∃ account reason, h_secret_ref host = Some account ∧
       (get_password keyring account s).1 = Err (VStore reason)).
Proof.
  unfold auth_for_host, saved_secret. destruct (h_secret_ref host) as [account|].
  - destruct (read_secret_spec account s) as (note & -> & Hn). exists note. split; [done|].
    rewrite Hn. split; [intros [r Hr]; by eauto|intros (a & r & [= <-] & Hr); by eauto].
  - exists None. split; [done|]. split; [by intros []|by intros (? & ? & ? & _)].
Qed.

Lemma kind_of_build host stored k : kind_of_method (build_method host stored k) = k.
Proof. by destruct k. Qed.

(** The chain handed to the transport is the host's primary method and
    then its fallbacks in order, the primary not tried twice; each password is
    the secret the keyring holds under [secret_ref] (blank if there is none);
    the note is set exactly when the credential store failed to answer; and
    reading changes nothing in the keyring. *)
Theorem auth_for_host_chain host s :
  let r := auth_for_host host s in
  kind_of_method <$> methods r.1 =
    h_auth host :: filter (λ k, k ≠ h_auth host) (h_auth_fallbacks host) ∧
  (∀ p, MPassword p ∈ methods r.1 → p = default [] (saved_secret host s)) ∧
  (∀ path p, MKeyFile path p ∈ methods r.1 →
     path = default [] (h_key_path host) ∧ p = saved_secret host s) ∧
  (is_Some (degraded r.1) ↔ ∃ account reason, h_secret_ref host = Some account ∧
     (get_password keyring account s).1 = Err (VStore reason)) ∧
  r.2 = s.
Proof.
  destruct (auth_for_host_methods host s) as (note & -> & Hn). cbn [fst snd methods degraded].
  split_and!; [| | |done|done].
  - rewrite <-list_fmap_compose. etrans; [apply (list_fmap_ext _ id); intros; apply kind_of_build|apply list_fmap_id].
  - intros p (k & Hk & _)%list_elem_of_fmap. destruct k; try discriminate Hk. by injection Hk.
  - intros path p (k & Hk & _)%list_elem_of_fmap. destruct k; try discriminate Hk. by injection Hk.
Qed.

(** One secret serves the whole chain: on a host that tries a key file and then
    a password, the key's passphrase is sent to the server as the password. *)
Theorem passphrase_sent_as_password host s account secret :
  h_auth host = KeyFile → h_auth_fallbacks host = [Password] →
  h_secret_ref host = Some account → (get_password keyring account s).1 = Ok secret →
  methods (auth_for_host host s).1 =
    [MKeyFile (default [] (h_key_path host)) (Some secret); MPassword secret].
Proof.
  intros Ha Hf Hs Hg. destruct (auth_for_host_methods host s) as (note & -> & _).
  unfold saved_secret. rewrite Ha, Hf, Hs. simpl. by rewrite Hg.
Qed.
End chain.

(** * On concrete hosts *)
Definition sample_host (id : Z) (auth : AuthKind) (fallbacks : list AuthKind) : Host :=
  MkHost id None #"web" #"web.example.com" 22 #"deploy" auth fallbacks
    (account_of_kind id auth) (Some #"/k") overrides_default None Manual None None None None 0 0 0 [].

Lemma accounts_are_private_witness :
  let h1 := sample_host 12 Agent [Password] in
  let h2 := sample_host 12 Password [KeyFile] in
  account_for h1 = Some #"host/12/password" ∧ h_id h1 = h_id h2.
Proof.
  intros h1 h2. split; [reflexivity|].
  apply (accounts_are_private h1 h2 #"host/12/password"); reflexivity.
Defined.

Lemma debug_redacts_witness :
  debug_method id (MPassword #"hunter2") = debug_method id (MPassword #"correct horse").
Proof. by apply debug_redacts. Defined.
