(* ===== verification/Session.v ===== *)
(** * Connecting and authenticating

    [core-ssh/src/error.rs] and [session.rs].  The SSH transport ([russh]), the
    agent and the disk a key is read from are the class [Transport]: opaque
    operations on a world [W], which stands for the connection, the agent and
    what the server makes of them.  [connect] is modelled as the loop around
    the pinned connect future: each turn of [tokio::time::timeout] ends with
    the future's result or with an elapsed timeout. *)
From S2P Require Import Prelude Text Model Vault Auth.

(** [russh::Error]: whether it is [UnknownKey], and its message. *)
Record russh_error := MkRussh { unknown_key : bool; russh_message : str }.

Inductive SshError :=
  | ConnectTimeout (after : Z)
  | HostKeyRejected
  | AuthFailed (detail : str)
  | AgentFailed (detail : str)
  | KeyLoad (detail : str)
  | Protocol (e : russh_error)
  | SshIo (message : str)
  | NotConnected.

Definition is_retryable (e : SshError) : bool :=
  match e with
  | ConnectTimeout _ | SshIo _ | Protocol _ => true
  | HostKeyRejected | AuthFailed _ | AgentFailed _ | KeyLoad _ | NotConnected => false
  end.

(** [Display], from the [#[error]] attributes; [Debug] of a [Duration] is an
    argument. *)
Definition display_error (debug_duration : Z → str) (e : SshError) : str :=
  match e with
  | ConnectTimeout d => #"connect timed out after " ++ debug_duration d
  | HostKeyRejected => #"host key rejected"
  | AuthFailed detail => #"authentication failed: " ++ detail
  | AgentFailed detail => #"ssh-agent: " ++ detail
  | KeyLoad detail => #"could not load key: " ++ detail
  | Protocol e => russh_message e
  | SshIo message => message
  | NotConnected => #"not connected"
  end.

Inductive MethodKind := KindPassword | KindPublicKey | KindOther (name : str).
#[export] Instance MethodKind_eq_dec : EqDecision MethodKind.
Proof. solve_decision. Defined.

(** [AuthResult]; a [MethodSet] is the list of what may still succeed. *)
Inductive AuthResult := AuthSuccess | AuthFailure (remaining_methods : list MethodKind).

Inductive agent_identity (PK : Type) := IdPublicKey (key : PK) | IdCertificate.
Arguments IdPublicKey {PK}.
Arguments IdCertificate {PK}.

Class Transport := {
  W : Type;
  SecretKey : Type;
  AgentKey : Type;
  HashAlg : Type;
  authenticate_password : str → str → W → result russh_error AuthResult * W;
  load_secret_key : str → option str → W → result str SecretKey;
  best_supported_rsa_hash : W → result russh_error (option (option HashAlg)) * W;
  authenticate_publickey : str → SecretKey → option HashAlg → W → result russh_error AuthResult * W;
  connect_env : W → result str () * W;
  request_identities : W → result str (list (agent_identity AgentKey)) * W;
  agent_key_algorithm : AgentKey → str;
  authenticate_publickey_with :
    str → AgentKey → option HashAlg → W → result str AuthResult * W;
  debug_duration : Z → str
}.

Definition method_kind (m : AuthMethod) : MethodKind :=
  match m with
  | MPassword _ => KindPassword
  | MKeyFile _ _ | MAgent => KindPublicKey
  end.

Definition method_label (m : AuthMethod) : str :=
  match m with
  | MPassword _ => #"password"
  | MKeyFile path _ => #"key " ++ path
  | MAgent => #"agent"
  end.

Section session.
Context `{!Transport}.

(** [connect_agent] (the unix one) *)
Definition connect_agent (w : W) : result SshError () * W :=
  let '(r, w') := connect_env w in (map_err AgentFailed r, w').

(** The identity loop of [authenticate_with_agent]. *)
Fixpoint offer_identities (user : str) (hash : option HashAlg) (last : option AuthResult)
    (last_error : str) (ids : list (agent_identity AgentKey)) (w : W) :
    result SshError AuthResult * W :=
  match ids with
  | [] => (ok_or (AgentFailed last_error) last, w)
  | IdCertificate :: ids => offer_identities user hash last last_error ids w
  | IdPublicKey key :: ids =>
      match authenticate_publickey_with user key hash w with
      | (Ok AuthSuccess, w') => (Ok AuthSuccess, w')
      | (Ok failure, w') => offer_identities user hash (Some failure) last_error ids w'
      | (Err e, w') =>
          offer_identities user hash last (agent_key_algorithm key ++ #": " ++ e) ids w'
      end
  end.

Definition authenticate_with_agent (user : str) (w : W) : result SshError AuthResult * W :=
  match connect_agent w with
  | (Err e, w) => (Err e, w)
  | (Ok (), w) =>
      match request_identities w with
      | (Err e, w) => (Err (AgentFailed e), w)
      | (Ok [], w) => (Err (AgentFailed #"no identities loaded"), w)
      | (Ok ids, w) =>
          match best_supported_rsa_hash w with
          | (Err e, w) => (Err (Protocol e), w)
          | (Ok hash, w) =>
              offer_identities user (mjoin hash) None #"no usable identities" ids w
          end
      end
  end.

Definition try_method (user : str) (m : AuthMethod) (w : W) : result SshError AuthResult * W :=
  match m with
  | MPassword password =>
      let '(r, w') := authenticate_password user password w in (map_err Protocol r, w')
  | MKeyFile path passphrase =>
      match load_secret_key path passphrase w with
      | Err e => (Err (KeyLoad e), w)
      | Ok key =>
          match best_supported_rsa_hash w with
          | (Err e, w) => (Err (Protocol e), w)
          | (Ok hash, w) =>
              let '(r, w') := authenticate_publickey user key (mjoin hash) w in
              (map_err Protocol r, w')
          end
      end
  | MAgent => authenticate_with_agent user w
  end.

(** [remaining] is known, not empty, and does not have the method. *)
Definition ruled_out (offered : option (list MethodKind)) (m : AuthMethod) : bool :=
  match offered with
  | Some remaining =>
      match remaining with [] => false | _ => negb (bool_decide (method_kind m ∈ remaining)) end
  | None => false
  end.

Definition auth_detail (attempts : list str) : str :=
  match attempts with
  | [] => #"no authentication methods configured"
  | _ => join #"; " attempts
  end.

Fixpoint auth_loop (user : str) (offered : option (list MethodKind)) (attempts : list str)
    (ms : list AuthMethod) (w : W) : result SshError () * W :=
  match ms with
  | [] => (Err (AuthFailed (auth_detail attempts)), w)
  | m :: ms =>
      let label := method_label m in
      if ruled_out offered m
      then auth_loop user offered (attempts ++ [label ++ #": not offered by server"]) ms w
      else match try_method user m w with
           | (Ok AuthSuccess, w') => (Ok (), w')
           | (Ok (AuthFailure remaining_methods), w') =>
               auth_loop user (Some remaining_methods) (attempts ++ [label ++ #": rejected"]) ms w'
           | (Err e, w') =>
               auth_loop user offered
                 (attempts ++ [label ++ #": " ++ display_error debug_duration e]) ms w'
           end
  end.

Definition authenticate (cfg : SessionConfig) (w : W) : result SshError () * W :=
  auth_loop (s_username cfg) None [] (s_auth cfg) w.

(** * The connect loop *)

Definition MAX_HOST_KEY_WAIT : Z := from_secs 180.

(** One turn of [tokio::time::timeout(cfg.connect_timeout, &mut connect)]: the
    future's result, or elapsed with what [awaiting_user] held then. *)
Inductive poll := Resolved (r : result SshError W) | Elapsed (awaiting_user : bool).

Definition map_connect_error (e : SshError) : SshError :=
  match e with
  | Protocol e => if unknown_key e then HostKeyRejected else Protocol e
  | other => other
  end.

(** [None]: still waiting after these turns. *)
Fixpoint connect_loop (timeout user_waited : Z) (polls : list poll) : option (result SshError W) :=
  match polls with
  | [] => None
  | Resolved r :: _ => Some (map_err map_connect_error r)
  | Elapsed awaiting :: polls =>
      if (awaiting && (user_waited <? MAX_HOST_KEY_WAIT)%Z)%bool
      then connect_loop timeout (Z.min (user_waited + timeout) DURATION_MAX) polls
      else Some (Err (ConnectTimeout timeout))
  end.

(** [SshSession::connect] *)
Definition connect (cfg : SessionConfig) (polls : list poll) : option (result SshError W) :=
  r ← connect_loop (s_connect_timeout cfg) 0 polls;
  match r with
  | Ok handle =>
      match authenticate cfg handle with
      | (Ok (), handle) => Some (Ok handle)
      | (Err e, _) => Some (Err e)
      end
  | Err e => Some (Err e)
  end.

(** * What the chain does *)

(** What became of one method of the chain. *)
Inductive verdict := Skipped | Accepted | Rejected (remaining : list MethodKind) | Local (e : SshError).

(** The line it leaves in the failure message. *)
Definition attempt_line (a : AuthMethod * verdict) : str :=
  method_label a.1 ++
  match a.2 with
  | Skipped => #": not offered by server"
  | Accepted => []
  | Rejected _ => #": rejected"
  | Local e => #": " ++ display_error debug_duration e
  end.

(** The abstract chain: methods in order, up to the first the server accepts;
    one the server has ruled out is passed over, one that fails locally does
    not stop the chain. *)
Inductive tries (user : str) :
    option (list MethodKind) → W → list AuthMethod → list (AuthMethod * verdict) → W → Prop :=
  | tries_end offered w : tries user offered w [] [] w
  | tries_skip remaining w m ms tr w' :
      remaining ≠ [] → method_kind m ∉ remaining →
      tries user (Some remaining) w ms tr w' →
      tries user (Some remaining) w (m :: ms) ((m, Skipped) :: tr) w'
  | tries_accept offered w m ms w' :
      (∀ remaining, offered = Some remaining → remaining ≠ [] → method_kind m ∈ remaining) →
      try_method user m w = (Ok AuthSuccess, w') →
      tries user offered w (m :: ms) [(m, Accepted)] w'
  | tries_reject offered w m remaining ms w1 tr w' :
      (∀ remaining, offered = Some remaining → remaining ≠ [] → method_kind m ∈ remaining) →
      try_method user m w = (Ok (AuthFailure remaining), w1) →
      tries user (Some remaining) w1 ms tr w' →
      tries user offered w (m :: ms) ((m, Rejected remaining) :: tr) w'
  | tries_local offered w m e ms w1 tr w' :
      (∀ remaining, offered = Some remaining → remaining ≠ [] → method_kind m ∈ remaining) →
      try_method user m w = (Err e, w1) →
      tries user offered w1 ms tr w' →
      tries user offered w (m :: ms) ((m, Local e) :: tr) w'.

Definition accepted (a : AuthMethod * verdict) : Prop := a.2 = Accepted.

Lemma ruled_out_spec offered m :
  if ruled_out offered m
  then ∃ remaining, offered = Some remaining ∧ remaining ≠ [] ∧ (method_kind m ∉ remaining)
  else ∀ remaining, offered = Some remaining → remaining ≠ [] → method_kind m ∈ remaining.
Proof.
  unfold ruled_out. destruct offered as [[|k ks]|]; [by intros ? [= <-]| |done].
  destruct (bool_decide_reflect (method_kind m ∈ k :: ks)); simpl; [by intros ? [= <-] _|].
  by eexists.
Qed.

Lemma auth_loop_tries user offered attempts ms w r w' :
  auth_loop user offered attempts ms w = (r, w') →
  ∃ tr, tries user offered w ms tr w' ∧
    ((r = Ok () ∧ ∃ m tr', tr = tr' ++ [(m, Accepted)]) ∨
     (r = Err (AuthFailed (auth_detail (attempts ++ (attempt_line <$> tr)))) ∧
      tr.*1 = ms ∧ Forall (λ a, ¬ accepted a) tr)).
Proof.
  revert offered attempts w. induction ms as [|m ms IH]; intros offered attempts w; simpl.
  { intros [= <- <-]. exists []. split; [constructor|]. right. by rewrite app_nil_r. }
  assert (∀ v tr offered' w1, v ≠ Accepted →
    (tries user offered' w1 ms tr w' → tries user offered w (m :: ms) ((m, v) :: tr) w') →
    tries user offered' w1 ms tr w' ∧
    ((r = Ok () ∧ ∃ m tr', tr = tr' ++ [(m, Accepted)]) ∨
     (r = Err (AuthFailed (auth_detail
        ((attempts ++ [attempt_line (m, v)]) ++ (attempt_line <$> tr)))) ∧
      tr.*1 = ms ∧ Forall (λ a, ¬ accepted a) tr)) →
    ∃ tr, tries user offered w (m :: ms) tr w' ∧
    ((r = Ok () ∧ ∃ m tr', tr = tr' ++ [(m, Accepted)]) ∨
     (r = Err (AuthFailed (auth_detail (attempts ++ (attempt_line <$> tr)))) ∧
      tr.*1 = m :: ms ∧ Forall (λ a, ¬ accepted a) tr))) as Hstep.
  { intros v tr offered' w1 Hv Ht [Htr [[-> (m' & tr' & ->)]|(-> & Hms & Hall)]].
    - eexists. split; [by apply Ht|]. left. split; [done|]. by exists m', ((m, v) :: tr').
    - eexists. split; [by apply Ht|]. right. rewrite <-app_assoc. simpl.
      split_and!; [done|by f_equal|by constructor]. }
  pose proof (ruled_out_spec offered m) as Hro. destruct (ruled_out offered m).
  - destruct Hro as (remaining & -> & Hne & Hk). intros (tr & Htr)%IH.
    apply (Hstep Skipped tr (Some remaining) w); [done|by intros; constructor|done].
  - destruct (try_method user m w) as [[[|remaining]|e] w1] eqn:Htry.
    + intros [= <- <-]. eexists. split; [by eapply tries_accept|]. left. split; [done|]. by exists m, [].
    + intros (tr & Htr)%IH. apply (Hstep (Rejected remaining) tr (Some remaining) w1); [done| |done].
      by intros; eapply tries_reject.
    + intros (tr & Htr)%IH. apply (Hstep (Local e) tr offered w1); [done| |done].
      by intros; eapply tries_local.
Qed.

(** C17: [authenticate] walks the chain in order and stops at the first method
    the server accepts; a method the server has ruled out is passed over and a
    local failure does not stop it; when none is accepted the error names every
    method of the chain, in order, with what became of it. *)
Theorem authenticate_refines cfg w r w' :
  authenticate cfg w = (r, w') →
  ∃ tr, tries (s_username cfg) None w (s_auth cfg) tr w' ∧
    ((r = Ok () ∧ ∃ m tr', tr = tr' ++ [(m, Accepted)]) ∨
     (r = Err (AuthFailed (auth_detail (attempt_line <$> tr))) ∧
      tr.*1 = s_auth cfg ∧ Forall (λ a, ¬ accepted a) tr)).
Proof. apply auth_loop_tries. Qed.

(** * Waiting for the user *)

(** With [k] turns behind it, the loop re-arms [n] more times. *)
Lemma connect_loop_rearms timeout polls k n :
  (0 ≤ timeout)%Z → n = 0 ∨ (Z.of_nat (k + n - 1) * timeout < MAX_HOST_KEY_WAIT)%Z →
  connect_loop timeout (Z.min (Z.of_nat k * timeout) DURATION_MAX)
    (replicate n (Elapsed true) ++ polls) =
  connect_loop timeout (Z.min (Z.of_nat (k + n) * timeout) DURATION_MAX) polls.
Proof.
  intros Ht. revert k. induction n as [|n IH]; intros k Hb; simpl.
  { do 2 f_equal. lia. }
  assert ((Z.of_nat k * timeout < MAX_HOST_KEY_WAIT)%Z) as Hk.
  { destruct Hb as [|Hb]; [done|]. eapply Z.le_lt_trans; [|exact Hb].
    apply Z.mul_le_mono_nonneg_r; lia. }
  assert ((Z.min (Z.of_nat k * timeout) DURATION_MAX <? MAX_HOST_KEY_WAIT)%Z = true) as ->
    by (apply Z.ltb_lt; lia).
  assert (Z.min (Z.min (Z.of_nat k * timeout) DURATION_MAX + timeout) DURATION_MAX =
    Z.min (Z.of_nat (S k) * timeout) DURATION_MAX) as -> by lia.
  rewrite IH; [do 2 f_equal; lia|].
  destruct n; [by left|right]. destruct Hb as [|Hb]; [done|]. eapply Z.le_lt_trans; [|exact Hb].
  apply Z.mul_le_mono_nonneg_r; lia.
Qed.

Lemma connect_loop_capped timeout rest n k :
  (0 ≤ timeout)%Z → (MAX_HOST_KEY_WAIT ≤ Z.of_nat (k + n) * timeout)%Z →
  connect_loop timeout (Z.min (Z.of_nat k * timeout) DURATION_MAX)
    (replicate (S n) (Elapsed true) ++ rest) = Some (Err (ConnectTimeout timeout)).
Proof.
  intros Ht. revert k. induction n as [|n IH]; intros k Hcap.
  - rewrite Nat.add_0_r in Hcap. cbn [replicate app connect_loop].
    by rewrite (proj2 (Z.ltb_ge _ _)) by (apply Z.min_glb; [lia|done]).
  - cbn [replicate app connect_loop]. destruct (Z.ltb_spec (Z.min (Z.of_nat k * timeout) DURATION_MAX)
      MAX_HOST_KEY_WAIT) as [_|_]; [|done].
    assert (Z.min (Z.min (Z.of_nat k * timeout) DURATION_MAX + timeout) DURATION_MAX =
      Z.min (Z.of_nat (S k) * timeout) DURATION_MAX) as -> by lia.
    apply IH. by replace (S k + n) with (k + S n) by lia.
Qed.

(** C36: the connect timeout bounds the network and not the user: while the
    user is deciding, an elapsed timeout is re-armed, and an answer that comes
    before the cap completes the connect; a handshake that hangs fails at the
    first expiry; and a prompt nobody answers fails once the re-armed timeouts
    add up to the cap.  Timeouts of zero never do: there an unanswered prompt
    is waited for without end (see [zero_timeout_never_gives_up]). *)
Theorem connect_waits_for_user timeout n r rest :
  (0 ≤ timeout)%Z →
  (n = 0 ∨ (Z.of_nat (n - 1) * timeout < MAX_HOST_KEY_WAIT)%Z →
    connect_loop timeout 0 (replicate n (Elapsed true) ++ Resolved r :: rest) =
      Some (map_err map_connect_error r) ∧
    connect_loop timeout 0 (replicate n (Elapsed true) ++ Elapsed false :: rest) =
      Some (Err (ConnectTimeout timeout))) ∧
  ((MAX_HOST_KEY_WAIT ≤ Z.of_nat n * timeout)%Z →
    connect_loop timeout 0 (replicate (S n) (Elapsed true) ++ rest) =
      Some (Err (ConnectTimeout timeout))).
Proof.
  intros Ht. split.
  - intros Hn. pose proof (λ p, connect_loop_rearms timeout p 0 n) as Hloop.
    change (Z.min (Z.of_nat 0 * timeout) DURATION_MAX) with 0%Z in Hloop.
    rewrite !Hloop by (done || lia). done.
  - intros Hcap. apply (connect_loop_capped timeout rest n 0); [lia|done].
Qed.

(** A connect timeout of zero re-arms without end while the prompt is up. *)
Theorem zero_timeout_never_gives_up n : connect_loop 0 0 (replicate n (Elapsed true)) = None.
Proof. induction n as [|n IH]; [done|exact IH]. Qed.

(** Credential and trust failures are never retried: whatever
    [authenticate] fails with, and a host key the callback refused, is not
    retryable, so the supervisor does not try again. *)
Theorem auth_failure_not_retryable cfg polls handle e :
  (connect_loop (s_connect_timeout cfg) 0 polls = Some (Ok handle) ∨
   ∃ re rest n, polls = replicate n (Elapsed true) ++ Resolved (Err (Protocol re)) :: rest ∧
     unknown_key re = true ∧ (Z.of_nat n * s_connect_timeout cfg < MAX_HOST_KEY_WAIT)%Z ∧
     (0 ≤ s_connect_timeout cfg)%Z) →
  connect cfg polls = Some (Err e) → is_retryable e = false.
Proof.
  unfold connect. intros [->|(re & rest & n & -> & Hre & Hn & Ht)]; simpl.
  - destruct (authenticate cfg handle) as [[[]|e'] w'] eqn:Ha; intros [= <-].
    apply auth_loop_tries in Ha as (tr & _ & [[? _]|([= ->] & _)]); done.
  - pose proof (connect_loop_rearms (s_connect_timeout cfg)
      (Resolved (Err (Protocol re)) :: rest) 0 n Ht) as Hloop.
    change (Z.min (Z.of_nat 0 * s_connect_timeout cfg) DURATION_MAX) with 0%Z in Hloop.
    rewrite Hloop; [|destruct n; [by left|right]; eapply Z.le_lt_trans; [|exact Hn];
      apply Z.mul_le_mono_nonneg_r; lia].
    simpl. rewrite Hre. by intros [= <-].
Qed.
End session.

(** * On a concrete server *)

(** A server that takes one password and offers nothing else; no agent runs and
    no key loads.  The world counts the attempts the server saw. *)
Definition sample_transport : Transport := {|
  W := nat;
  SecretKey := Empty_set;
  AgentKey := Empty_set;
  HashAlg := Empty_set;
  authenticate_password _ p w :=
    (Ok (if decide (p = #"pw") then AuthSuccess else AuthFailure [KindPassword]), S w);
  load_secret_key _ _ _ := Err #"no such file";
  best_supported_rsa_hash w := (Ok None, w);
  authenticate_publickey _ k _ w := match k with end;
  connect_env w := (Err #"not running", w);
  request_identities w := (Ok [], w);
  agent_key_algorithm k := match k with end;
  authenticate_publickey_with _ k _ w := match k with end;
  debug_duration _ := #"10s"
|}.

Definition answer (w : nat) : @poll sample_transport := @Resolved sample_transport (Ok w).

Definition sample_session (auth : list AuthMethod) : SessionConfig :=
  MkSession #"web" 22 #"deploy" auth #"xterm" None 3 (from_secs 10) 1024 16.

Lemma authenticate_refines_witness :
  let cfg := sample_session [MAgent; MPassword #"no"; MKeyFile #"k" None; MPassword #"pw"] in
  @authenticate sample_transport cfg 0 = (Ok (), 2) ∧
  ∃ tr, @tries sample_transport (s_username cfg) None 0 (s_auth cfg) tr 2 ∧
    ((@Ok SshError () () = Ok () ∧ ∃ m tr', tr = tr' ++ [(m, Accepted)]) ∨
     (Ok () = Err (AuthFailed (auth_detail (@attempt_line sample_transport <$> tr))) ∧
      tr.*1 = s_auth cfg ∧ Forall (λ a, ¬ accepted a) tr)).
Proof.
  intros cfg. assert (@authenticate sample_transport cfg 0 = (Ok (), 2)) as Ha by reflexivity.
  split; [exact Ha|]. exact (@authenticate_refines sample_transport cfg 0 (Ok ()) 2 Ha).
Defined.

Lemma connect_waits_for_user_witness :
  @connect_loop sample_transport (from_secs 10) 0 (replicate 18 (Elapsed true) ++ [answer 7]) =
    Some (Ok 7) ∧
  @connect_loop sample_transport (from_secs 10) 0 (replicate 19 (Elapsed true) ++ []) =
    Some (Err (ConnectTimeout (from_secs 10))).
Proof.
  destruct (@connect_waits_for_user sample_transport (from_secs 10) 18 (Ok 7) [])
    as [Hanswer Hcap]; [done|].
  split; [apply Hanswer; by right|by apply Hcap].
Defined.

Lemma auth_failure_not_retryable_witness :
  let e := AuthFailed #"password: rejected; key k: not offered by server" in
  let cfg := sample_session [MPassword #"no"; MKeyFile #"k" None] in
  @connect sample_transport cfg [answer 0] = Some (Err e) ∧ is_retryable e = false.
Proof.
  intros e cfg. assert (@connect sample_transport cfg [answer 0] = Some (Err e)) as Hc
    by reflexivity.
  split; [exact Hc|].
  apply (@auth_failure_not_retryable sample_transport cfg [answer 0] 0 e); [by left|exact Hc].
Defined.
