(* ===== verification/Shell.v ===== *)
(** * The output pump of a shell

    The task [open_shell] of [core-ssh/src/session.rs] spawns, as a state
    machine.  Its inputs are what can happen between two suspension points:
    the pause watch changes or loses its sender, or the channel delivers a
    message ([None] when it is gone), with whether the consumer of the output
    queue is still there.  [sent] is what went into the queue, oldest first;
    [exit_code] is what the task reports when it ends. *)
From S2P Require Import Prelude.

Definition OUTPUT_QUEUE_DEPTH : nat := 32.

Inductive ChannelMsg :=
  | Data (data : list N)
  | ExtendedData (data : list N) (ext : Z)
  | ExitStatus (exit_status : Z)
  | Close
  | OtherMsg.

Record pump := Pump {
  paused : bool;
  pause_gone : bool;
  exit_code : option Z;
  sent : list (list N);
  ended : bool
}.

Definition pump_init : pump := Pump false false None [] false.

Inductive pump_input :=
  | SetPause (b : bool)
  | DropPause
  | Deliver (msg : option ChannelMsg) (consumer_alive : bool).

Definition pump_end_now (s : pump) : pump :=
  Pump (paused s) (pause_gone s) (exit_code s) (sent s) true.

(** The match on [msg]. *)
Definition on_msg (msg : option ChannelMsg) (alive : bool) (s : pump) : pump :=
  match msg with
  | Some (Data data) | Some (ExtendedData data _) =>
      if alive then Pump (paused s) (pause_gone s) (exit_code s) (sent s ++ [data]) false
      else pump_end_now s
  | Some (ExitStatus status) => Pump (paused s) (pause_gone s) (Some status) (sent s) false
  | Some Close | None => pump_end_now s
  | Some OtherMsg => s
  end.

(** One turn; [None] when the task is not waiting for the input: it has ended,
    the watch has no sender to change it, or it is paused and does not read. *)
Definition pump_step (s : pump) (i : pump_input) : option pump :=
  if ended s then None
  else match i with
       | SetPause b =>
           if pause_gone s then None else Some (Pump b false (exit_code s) (sent s) false)
       | DropPause =>
           if pause_gone s then None
           else if paused s then Some (Pump true true (exit_code s) (sent s) true)
           else Some (Pump false true (exit_code s) (sent s) false)
       | Deliver msg alive => if paused s then None else Some (on_msg msg alive s)
       end.

Definition pump_run (l : list pump_input) (s : pump) : option pump :=
  foldl (λ o i, s ← o; pump_step s i) (Some s) l.

(** [ShellOutput::exit_status]: what the pump reported, once it ended. *)
Definition exit_status (s : pump) : option (option Z) := if ended s then Some (exit_code s) else None.

(** What an input brings. *)
Definition data_of (i : pump_input) : option (list N) :=
  match i with
  | Deliver (Some (Data d)) true | Deliver (Some (ExtendedData d _)) true => Some d
  | _ => None
  end.
Definition status_of (i : pump_input) : option Z :=
  match i with Deliver (Some (ExitStatus n)) _ => Some n | _ => None end.

Lemma pump_step_spec s i s' :
  pump_step s i = Some s' →
  sent s' = sent s ++ option_list (data_of i) ∧
  exit_code s' = match status_of i with Some n => Some n | None => exit_code s end.
Proof.
  unfold pump_step. destruct (ended s); [done|].
  destruct i as [b| |msg alive]; simpl; repeat case_match; intros; simplify_eq/=;
    rewrite ?app_nil_r; try done.
  all: destruct msg as [[]|]; simpl; repeat case_match; simplify_eq/=; rewrite ?app_nil_r; done.
Qed.

(** The pump neither loses, repeats nor reorders output: what it queued is
    the data the channel delivered, in order, whatever pauses came between; the
    exit status it reports is the last one the server sent; and while paused it
    takes no message at all, which is what makes the sender stop. *)
Theorem pump_delivers l s :
  pump_run l pump_init = Some s →
  sent s = omap data_of l ∧ exit_code s = last (omap status_of l) ∧
  (paused s = true → ∀ msg alive, pump_step s (Deliver msg alive) = None).
Proof.
  intros Hrun. split_and!.
  3: { intros Hp msg alive. unfold pump_step. rewrite Hp. by destruct (ended s). }
  all: revert s Hrun; unfold pump_run; induction l as [|i l IH] using rev_ind; intros s;
    [by intros [= <-]|]; rewrite foldl_app; simpl; intros (s1 & H1 & H2)%bind_Some;
    apply IH in H1; apply pump_step_spec in H2 as [Hs He];
    rewrite omap_app; simpl.
  - rewrite Hs, H1. by destruct (data_of i).
  - rewrite He, H1. destruct (status_of i); simpl; [by rewrite last_snoc|by rewrite app_nil_r].
Qed.

Lemma pump_delivers_witness :
  let l := [Deliver (Some (Data [104%N])) true; SetPause true; SetPause false;
            Deliver (Some (ExitStatus 0)) true; Deliver (Some (ExtendedData [105%N] 1)) true;
            Deliver None true] in
  let s := Pump false false (Some 0%Z) [[104%N]; [105%N]] true in
  pump_run l pump_init = Some s ∧ sent s = omap data_of l ∧ exit_code s = last (omap status_of l) ∧
  (paused s = true → ∀ msg alive, pump_step s (Deliver msg alive) = None).
Proof. intros l s. split; [reflexivity|]. by apply (pump_delivers l s). Defined.
