(* ===== verification/Pty.v ===== *)
(** * Local shells

    [core-pty/src/lib.rs].  The pseudo-terminal of the operating system
    ([portable_pty]) is the class [PtySystem].  A running [LocalPty] is three
    threads around two bounded queues, as a state machine: each operation below
    is what one thread (or a caller) does between two points where it can block,
    and [None] says that it is blocked there or has ended.  The history fields
    ([taken], [received], [accepted], [written]) keep what went past, oldest
    first. *)
From S2P Require Import Prelude Text.

Definition OUTPUT_QUEUE_DEPTH : nat := 32.
Definition INPUT_QUEUE_DEPTH : nat := 16.
Definition READ_CHUNK : nat := N.to_nat 8192.

Inductive PtyError := PtyFailed (message : str) | WriterClosed | PtyIo (message : str).

Record PtyConfig := MkPtyConfig {
  program : option str;
  args : list str;
  cwd : option str;
  pty_cols : Z;
  pty_rows : Z
}.
Definition login_shell (cols rows : Z) : PtyConfig := MkPtyConfig None [] None cols rows.

(** * Starting *)

Inductive platform := MacOS | OtherUnix | Windows.

(** [default_shell]: [shell_var] is [SHELL], [path_has] whether a directory of
    [PATH] holds the program. *)
Definition default_shell (os : platform) (shell_var : option str) (path_has : str → bool) :
    str * list str :=
  match os with
  | MacOS => (default #"/bin/zsh" shell_var, [ #"-l"])
  | OtherUnix => (default #"/bin/bash" shell_var, [])
  | Windows =>
      match find_first path_has [ #"pwsh.exe"; #"powershell.exe"] with
      | Some candidate => (candidate, [])
      | None => (#"cmd.exe", [])
      end
  end.

Record PtySize := MkPtySize { size_rows : Z; size_cols : Z; pixel_width : Z; pixel_height : Z }.

(** [CommandBuilder], as far as it is filled in. *)
Record command := MkCommand {
  cmd_program : str;
  cmd_args : list str;
  cmd_env : list (str * str);
  cmd_cwd : option str
}.

(** [portable_pty]: errors are their text, [os] the machine's state. *)
Class PtySystem := {
  os : Type;
  PtyPair : Type;
  Master : Type;
  Child : Type;
  openpty : PtySize → os → result str PtyPair * os;
  pair_master : PtyPair → Master;
  spawn_command : PtyPair → command → os → result str Child * os;
  try_clone_reader : Master → os → result str () * os;
  take_writer : Master → os → result str () * os;
  master_resize : Master → PtySize → os → result str () * os;
  master_get_size : Master → os → result str PtySize
}.

(** The command [spawn] runs. *)
Definition command_of (shell : str * list str) (cfg : PtyConfig) : command :=
  let '(prog, argv) := match program cfg with Some p => (p, args cfg) | None => shell end in
  MkCommand prog argv [(#"TERM", #"xterm-256color")] (cwd cfg).

Definition pty_size (cols rows : Z) : PtySize := MkPtySize rows cols 0 0.

Section spawn.
Context `{!PtySystem}.

(** [LocalPty::spawn], up to its three threads. *)
Definition spawn (shell : str * list str) (cfg : PtyConfig) (s : os) :
    result PtyError (Master * Child) * os :=
  match openpty (pty_size (pty_cols cfg) (pty_rows cfg)) s with
  | (Err e, s) => (Err (PtyFailed e), s)
  | (Ok pr, s) =>
      match spawn_command pr (command_of shell cfg) s with
      | (Err e, s) => (Err (PtyFailed e), s)
      | (Ok child, s) =>
          match try_clone_reader (pair_master pr) s with
          | (Err e, s) => (Err (PtyFailed e), s)
          | (Ok (), s) =>
              match take_writer (pair_master pr) s with
              | (Err e, s) => (Err (PtyFailed e), s)
              | (Ok (), s) => (Ok (pair_master pr, child), s)
              end
          end
      end
  end.

(** [LocalPty::resize]; [PtyControl::resize] takes a lock around it. *)
Definition resize (m : Master) (cols rows : Z) (s : os) : result PtyError () * os :=
  let '(r, s) := master_resize m (pty_size cols rows) s in (map_err PtyFailed r, s).
Definition control_resize (poisoned : bool) (m : Master) (cols rows : Z) (s : os) :
    result PtyError () * os :=
  if poisoned then (Err (PtyFailed #"poisoned"), s) else resize m cols rows s.

Definition size (m : Master) (s : os) : result PtyError (Z * Z) :=
  size ← map_err PtyFailed (master_get_size m s); Ok (size_cols size, size_rows size).
End spawn.

(** * Running *)

(** The reader thread: in [read], in [blocking_send], or past its loop. *)
Inductive reader_state := Reading | Sending (chunk : list N) | ReaderDone.

Record pty := MkPty {
  reader : reader_state;
  output : list (list N);
  consumer : bool;
  input_q : list (list N);
  controls : bool;
  writer_done : bool;
  exit : option Z;
  taken : list (list N);
  received : list (list N);
  accepted : list (list N);
  written : list (list N)
}.
Definition pty_init : pty := MkPty Reading [] true [] true false None [] [] [] [].

(** [Read::read] returned: bytes (none at the end of file), or an error. *)
Definition reader_read (r : result str (list N)) (s : pty) : option pty :=
  match reader s with
  | Reading =>
      match r with
      | Ok [] | Err _ =>
          Some (MkPty ReaderDone (output s) (consumer s) (input_q s) (controls s) (writer_done s)
                  (exit s) (taken s) (received s) (accepted s) (written s))
      | Ok chunk =>
          if decide (length chunk ≤ READ_CHUNK) then
            Some (MkPty (Sending chunk) (output s) (consumer s) (input_q s) (controls s)
                    (writer_done s) (exit s) (taken s ++ [chunk]) (received s) (accepted s) (written s))
          else None
      end
  | _ => None
  end.

(** [blocking_send] returned. *)
Definition reader_send (s : pty) : option pty :=
  match reader s with
  | Sending chunk =>
      if consumer s then
        if decide (length (output s) < OUTPUT_QUEUE_DEPTH) then
          Some (MkPty Reading (output s ++ [chunk]) true (input_q s) (controls s) (writer_done s)
                  (exit s) (taken s) (received s) (accepted s) (written s))
        else None
      else Some (MkPty ReaderDone (output s) false (input_q s) (controls s) (writer_done s)
                   (exit s) (taken s) (received s) (accepted s) (written s))
  | _ => None
  end.

(** [recv]: a chunk, or [None] once the PTY closed. *)
Definition recv (s : pty) : option (option (list N) * pty) :=
  if consumer s then
    match output s with
    | chunk :: rest =>
        Some (Some chunk,
              MkPty (reader s) rest true (input_q s) (controls s) (writer_done s) (exit s) (taken s)
                (received s ++ [chunk]) (accepted s) (written s))
    | [] => match reader s with ReaderDone => Some (None, s) | _ => None end
    end
  else None.

(** The consumer is dropped, with what is in its queue. *)
Definition drop_output (s : pty) : pty :=
  MkPty (reader s) [] false (input_q s) (controls s) (writer_done s) (exit s) (taken s) (received s)
    (accepted s) (written s).

(** [write]: waits for room in the queue. *)
Definition write (data : list N) (s : pty) : option (result PtyError () * pty) :=
  if controls s then
    if writer_done s then Some (Err WriterClosed, s)
    else if decide (length (input_q s) < INPUT_QUEUE_DEPTH) then
      Some (Ok (),
            MkPty (reader s) (output s) (consumer s) (input_q s ++ [data]) true false (exit s)
              (taken s) (received s) (accepted s ++ [data]) (written s))
    else None
  else None.

(** One turn of the writer thread; [ok]: whether [write_all] succeeds. *)
Definition writer_turn (ok : bool) (s : pty) : option pty :=
  if writer_done s then None
  else match input_q s with
       | data :: rest =>
           Some (if ok
                 then MkPty (reader s) (output s) (consumer s) rest (controls s) false (exit s)
                        (taken s) (received s) (accepted s) (written s ++ [data])
                 else MkPty (reader s) (output s) (consumer s) [] (controls s) true (exit s)
                        (taken s) (received s) (accepted s) (written s))
       | [] =>
           if controls s then None
           else Some (MkPty (reader s) (output s) (consumer s) [] false true (exit s) (taken s)
                        (received s) (accepted s) (written s))
       end.

(** Every handle that can write is dropped. *)
Definition drop_controls (s : pty) : pty :=
  MkPty (reader s) (output s) (consumer s) (input_q s) false (writer_done s) (exit s) (taken s)
    (received s) (accepted s) (written s).

(** The thread that waits for the child. *)
Definition child_wait (status : result str Z) (s : pty) : option pty :=
  match exit s with
  | Some _ => None
  | None =>
      Some (MkPty (reader s) (output s) (consumer s) (input_q s) (controls s) (writer_done s)
              (Some (match status with Ok code => code | Err _ => 1%Z end)) (taken s) (received s)
              (accepted s) (written s))
  end.

(** [exit_code] ([wait_exit] of an unsplit PTY): [None] while it waits. *)
Definition exit_code (s : pty) : option (option Z) :=
  match exit s with Some code => Some (Some code) | None => None end.

(** Whatever a thread or a caller does next. *)
Inductive pty_step (s : pty) : pty → Prop :=
  | pty_read r s' : reader_read r s = Some s' → pty_step s s'
  | pty_send s' : reader_send s = Some s' → pty_step s s'
  | pty_recv c s' : recv s = Some (c, s') → pty_step s s'
  | pty_drop_output : pty_step s (drop_output s)
  | pty_write data r s' : write data s = Some (r, s') → pty_step s s'
  | pty_writer ok s' : writer_turn ok s = Some s' → pty_step s s'
  | pty_drop_controls : pty_step s (drop_controls s)
  | pty_wait status s' : child_wait status s = Some s' → pty_step s s'.

(** * Nothing is lost *)

Definition in_flight (r : reader_state) : list (list N) :=
  match r with Sending chunk => [chunk] | _ => [] end.

Record pty_inv (s : pty) : Prop := {
  inv_output : consumer s = true → received s ++ output s ++ in_flight (reader s) = taken s;
  inv_received : received s `prefix_of` taken s;
  inv_depth : length (output s) ≤ OUTPUT_QUEUE_DEPTH;
  inv_chunks : Forall (λ c, c ≠ [] ∧ length c ≤ READ_CHUNK) (taken s);
  inv_input : writer_done s = false → written s ++ input_q s = accepted s;
  inv_written : written s `prefix_of` accepted s;
  inv_input_depth : length (input_q s) ≤ INPUT_QUEUE_DEPTH
}.

Lemma pty_inv_init : pty_inv pty_init.
Proof. split; simpl; try done; try lia. Qed.

(** Invert one operation of a thread. *)
Ltac inv_pty H :=
  unfold reader_read, reader_send, recv, write, writer_turn, child_wait in H;
  repeat (case_match || case_decide); simplify_eq/=.

Lemma reader_read_inv r s s' : pty_inv s → reader_read r s = Some s' → pty_inv s'.
Proof.
  intros [H1 H2 H3 H4 H5 H6 H7] H. destruct s. inv_pty H; split; simpl in *; try done.
  - intros Hc. rewrite <-(H1 Hc), app_nil_r. by rewrite <-(assoc_L (++)).
  - by apply prefix_app_r.
  - rewrite Forall_app, Forall_singleton. by split.
Qed.

Lemma reader_send_inv s s' : pty_inv s → reader_send s = Some s' → pty_inv s'.
Proof.
  intros [H1 H2 H3 H4 H5 H6 H7] H. destruct s. inv_pty H; split; simpl in *; try done.
  - intros _. rewrite <-H1 by done. by rewrite app_nil_r.
  - rewrite length_app. simpl. lia.
Qed.

Lemma recv_inv s c s' : pty_inv s → recv s = Some (c, s') → pty_inv s'.
Proof.
  intros [H1 H2 H3 H4 H5 H6 H7] H. destruct s. inv_pty H; split; simpl in *; try done.
  - intros _. rewrite <-H1 by done. by rewrite <-(assoc_L (++)).
  - rewrite <-H1 by done. eexists. by rewrite <-(assoc_L (++)).
  - lia.
Qed.

Lemma write_inv data s r s' : pty_inv s → write data s = Some (r, s') → pty_inv s'.
Proof.
  intros [H1 H2 H3 H4 H5 H6 H7] H. destruct s. inv_pty H; split; simpl in *; try done.
  - intros _. rewrite <-H5 by done. by rewrite (assoc_L (++)).
  - by apply prefix_app_r.
  - rewrite length_app. simpl. lia.
Qed.

Lemma writer_turn_inv ok s s' : pty_inv s → writer_turn ok s = Some s' → pty_inv s'.
Proof.
  intros [H1 H2 H3 H4 H5 H6 H7] H. destruct s. inv_pty H; split; simpl in *; try done; try lia.
  - intros _. rewrite <-H5 by done. by rewrite <-(assoc_L (++)).
  - rewrite <-H5 by done. eexists. by rewrite <-(assoc_L (++)).
Qed.

Lemma pty_step_inv s s' : pty_inv s → pty_step s s' → pty_inv s'.
Proof.
  intros Hs. destruct 1 as [r s' H|s' H|c s' H| |data r s' H|ok s' H| |status s' H].
  - by eapply reader_read_inv.
  - by eapply reader_send_inv.
  - by eapply recv_inv.
  - destruct Hs. by split; simpl; try done; try lia.
  - by eapply write_inv.
  - by eapply writer_turn_inv.
  - destruct Hs. by split.
  - destruct Hs. inv_pty H; by split.
Qed.

Lemma pty_reach_inv s : steps pty_step pty_init s → pty_inv s.
Proof.
  intros Hs. refine (steps_invariant _ pty_inv _ _ _ pty_inv_init Hs). intros s1 s2. apply pty_step_inv.
Qed.

(** C30: a local shell's output reaches its consumer whole and in order: what
    it received, the queue and the chunk being sent are what was read; the end
    is reported only once everything was received; while the consumer does not
    take anything, at most a queue and one chunk are read ahead, after which
    the reader is blocked and the child stalls; and what the user typed goes to
    the shell in order. *)
Theorem pty_lossless s :
  steps pty_step pty_init s →
  (consumer s = true → received s ++ output s ++ in_flight (reader s) = taken s) ∧
  (∀ s', recv s = Some (None, s') → received s = taken s) ∧
  (consumer s = true →
     length (concat (taken s)) ≤ length (concat (received s)) + S OUTPUT_QUEUE_DEPTH * READ_CHUNK) ∧
  (length (output s) = OUTPUT_QUEUE_DEPTH → ∀ chunk, reader s = Sending chunk → consumer s = true →
     reader_send s = None ∧ ∀ r, reader_read r s = None) ∧
  written s `prefix_of` accepted s ∧ (writer_done s = false → written s ++ input_q s = accepted s).
Proof.
  intros [H1 H2 H3 H4 H5 H6 H7]%pty_reach_inv. split_and!; [done| | | |done|done].
  - intros s' H. unfold recv in H. destruct (consumer s); [|done]. destruct (output s); [|done].
    destruct (reader s); [done..|]. rewrite <-H1 by done. by rewrite !app_nil_r.
  - intros Hc. specialize (H1 Hc). rewrite <-H1, concat_app, length_app in *.
    apply Forall_app in H4 as [_ H4]. apply (Forall_impl _ (λ c, length c ≤ READ_CHUNK)) in H4;
      [|by intros c [_ ?]]. apply concat_length_le in H4.
    assert (length (output s ++ in_flight (reader s)) ≤ S OUTPUT_QUEUE_DEPTH) as Hl.
    { rewrite length_app. destruct (reader s); simpl; lia. }
    pose proof (Nat.mul_le_mono_r _ _ READ_CHUNK Hl). lia.
  - intros Hfull chunk Hr Hc. unfold reader_send, reader_read. rewrite Hr, Hc.
    split; [|done]. by rewrite decide_False by (rewrite Hfull; lia).
Qed.

(** The two sides never wait for each other: as long as the consumer is
    there, either it can take something (a chunk, or the news that the shell
    is gone) or the reader thread can go on with whatever the PTY gives it. *)
Theorem pty_no_deadlock s :
  consumer s = true →
  is_Some (recv s) ∨ is_Some (reader_send s) ∨
  ∀ r, (∀ chunk, r = Ok chunk → length chunk ≤ READ_CHUNK) → is_Some (reader_read r s).
Proof.
  intros Hc. unfold recv, reader_send, reader_read. rewrite Hc.
  destruct (output s) as [|c rest]; [|left; by eexists]. destruct (reader s) as [|chunk|].
  - right; right. intros [[|b bs]|e] Hr; [by eexists| |by eexists].
    rewrite decide_True by (by apply Hr). by eexists.
  - right; left. rewrite decide_True; [by eexists|]. apply Nat.lt_0_succ.
  - left. by eexists.
Qed.

(** Reading a byte. *)
Lemma reader_read_byte b p :
  reader p = Reading →
  reader_read (Ok [b]) p =
    Some (MkPty (Sending [b]) (output p) (consumer p) (input_q p) (controls p) (writer_done p) (exit p)
            (taken p ++ [[b]]) (received p) (accepted p) (written p)).
Proof.
  intros Hr. unfold reader_read. rewrite Hr. rewrite decide_True; [done|].
  cbn [length]. unfold READ_CHUNK. lia.
Qed.

(** A run of one chunk out, one keystroke in, and the end. *)
Definition sample_pty : pty :=
  MkPty ReaderDone [] true [] true false (Some 0%Z) [[104%N]] [[104%N]] [[97%N]] [[97%N]].

(** A step whose outcome is computed; [eval_read]: the one that reads a byte. *)
Ltac eval_step := vm_compute; reflexivity.
Ltac eval_read := rewrite (reader_read_byte 104) by reflexivity; cbn; reflexivity.

Lemma sample_pty_reached : steps pty_step pty_init sample_pty.
Proof.
  eapply steps_cons; [eapply (pty_read _ (Ok [104%N])); eval_read|].
  eapply steps_cons; [eapply pty_send; eval_step|].
  eapply steps_cons; [eapply pty_recv; eval_step|].
  eapply steps_cons; [eapply (pty_write _ [97%N]); eval_step|].
  eapply steps_cons; [eapply (pty_writer _ true); eval_step|].
  eapply steps_cons; [eapply (pty_read _ (Err #"EIO")); eval_step|].
  eapply steps_cons; [eapply (pty_wait _ (Ok 0%Z)); eval_step|].
  apply steps_refl.
Qed.

Lemma pty_lossless_witness :
  received sample_pty = taken sample_pty ∧ written sample_pty ++ input_q sample_pty = [[97%N]].
Proof.
  destruct (pty_lossless sample_pty sample_pty_reached) as (_ & He & _ & _ & _ & Hw).
  split; [by apply (He sample_pty)|by apply Hw].
Defined.

Lemma pty_no_deadlock_witness :
  is_Some (recv sample_pty) ∨ is_Some (reader_send sample_pty) ∨
  ∀ r, (∀ chunk, r = Ok chunk → length chunk ≤ READ_CHUNK) → is_Some (reader_read r sample_pty).
Proof. apply (pty_no_deadlock sample_pty). reflexivity. Defined.
