(* ===== verification/LocalShell.v ===== *)
(** * A local shell in a tab

    The arm of [open_session] in [apps/desktop/src/commands.rs] that runs a
    local shell: the task that forwards the output of a [LocalPty] to the
    coalescer and then reports how the child exited, next to the threads of
    [Pty] and the commands that write. *)
From S2P Require Import Prelude Text Pty.

(** Where the task is: in [recv], sending a chunk on, waiting for the exit code
    once the loop is over, or past its last event. *)
Inductive forward := Receiving | Forwarding (chunk : list N) | AwaitingExit | Reported (code : option Z).

(** [lo_refused]: the data path no longer takes chunks. *)
Record local_shell := MkLocal {
  lo_pty : pty;
  lo_turn : forward;
  lo_fed : list (list N);
  lo_refused : bool
}.
Definition local_init : local_shell := MkLocal pty_init Receiving [] false.

(** One turn of the task: [alive] is whether the data path takes the chunk. *)
Definition forward_turn (alive : bool) (s : local_shell) : option local_shell :=
  match lo_turn s with
  | Receiving =>
      '(c, p) ← recv (lo_pty s);
      Some (MkLocal p (match c with Some chunk => Forwarding chunk | None => AwaitingExit end)
              (lo_fed s) (lo_refused s))
  | Forwarding chunk =>
      Some (if alive then MkLocal (lo_pty s) Receiving (lo_fed s ++ [chunk]) (lo_refused s)
            else MkLocal (lo_pty s) AwaitingExit (lo_fed s) true)
  | AwaitingExit =>
      code ← exit_code (lo_pty s);
      Some (MkLocal (drop_output (lo_pty s)) (Reported code) (lo_fed s) (lo_refused s))
  | Reported _ => None
  end.

(** The threads of the PTY, and the commands that hold its control half. *)
Inductive beside (p : pty) : pty → Prop :=
  | beside_read r p' : reader_read r p = Some p' → beside p p'
  | beside_send p' : reader_send p = Some p' → beside p p'
  | beside_write data r p' : write data p = Some (r, p') → beside p p'
  | beside_writer ok p' : writer_turn ok p = Some p' → beside p p'
  | beside_drop_controls : beside p (drop_controls p)
  | beside_wait status p' : child_wait status p = Some p' → beside p p'.

Inductive local_step (s : local_shell) : local_shell → Prop :=
  | local_forward alive s' : forward_turn alive s = Some s' → local_step s s'
  | local_beside p' : beside (lo_pty s) p' →
      local_step s (MkLocal p' (lo_turn s) (lo_fed s) (lo_refused s)).

Definition carried (t : forward) : list (list N) := match t with Forwarding chunk => [chunk] | _ => [] end.

(** Until the data path refuses, the chunks received are those fed and the one
    in hand; the task is past its loop only when the reader is. *)
Record local_inv (s : local_shell) : Prop := {
  lo_inv : pty_inv (lo_pty s);
  lo_consumer : consumer (lo_pty s) = negb (match lo_turn s with Reported _ => true | _ => false end);
  lo_all : lo_refused s = false → lo_fed s ++ carried (lo_turn s) = received (lo_pty s);
  lo_prefix : lo_fed s `prefix_of` received (lo_pty s);
  lo_stop : lo_refused s = true → lo_turn s = AwaitingExit ∨ (∃ code, lo_turn s = Reported code);
  lo_past : lo_refused s = false → lo_turn s = AwaitingExit ∨ (∃ code, lo_turn s = Reported code) →
    received (lo_pty s) = taken (lo_pty s) ∧ reader (lo_pty s) = ReaderDone;
  lo_code code : lo_turn s = Reported code → code = exit (lo_pty s) ∧ is_Some code
}.

(** What the threads beside the task leave alone. *)
Lemma beside_frame p p' :
  beside p p' → consumer p' = consumer p ∧ received p' = received p ∧
  (reader p = ReaderDone → reader p' = ReaderDone ∧ taken p' = taken p) ∧
  (∀ code, exit p = Some code → exit p' = Some code).
Proof.
  destruct p. destruct 1 as [r p' Hs|p' Hs|data r p' Hs|ok p' Hs| |status p' Hs]; [..|done|]; inv_pty Hs;
    split_and!; try done; intros; simplify_eq/=; done.
Qed.

Lemma beside_step p p' : beside p p' → pty_step p p'.
Proof. destruct 1; by econstructor. Qed.

Lemma recv_spec p c p' :
  pty_inv p → recv p = Some (c, p') → consumer p' = true ∧ exit p' = exit p ∧
  match c with
  | Some chunk => received p' = received p ++ [chunk]
  | None => p' = p ∧ received p = taken p ∧ reader p = ReaderDone
  end.
Proof.
  intros [Hall _ _ _ _ _ _] Hr. destruct p. inv_pty Hr; split_and!; try done.
  simpl in Hall. rewrite <-Hall by done. by rewrite !app_nil_r.
Qed.

Lemma local_step_inv s s' : local_inv s → local_step s s' → local_inv s'.
Proof.
  intros [Hp Hc Ha Hx Hs Hd Hk]. destruct 1 as [alive s' Ht|p' Hb].
  - unfold forward_turn in Ht. destruct s as [p t fed ref]; simpl in *. destruct t as [|chunk| |code]; [..|done].
    + destruct ref; [by destruct Hs as [?|[??]]|]. clear Hs.
      apply bind_Some in Ht as ([c p'] & Hr & [= <-]). pose proof (recv_inv _ _ _ Hp Hr) as Hp'.
      destruct (recv_spec _ _ _ Hp Hr) as (Hc' & Hk' & Hcase). destruct c as [chunk|].
      * split; simpl; rewrite ?Hc', ?Hcase; try done.
        -- intros Href. by rewrite <-(Ha Href), app_nil_r.
        -- by apply prefix_app_r.
        -- by intros _ [?|[??]].
      * destruct Hcase as (-> & Heq & Hdone). by split.
    + destruct ref; [by destruct Hs as [?|[??]]|]. clear Hs. specialize (Ha eq_refl).
      destruct alive; simplify_eq/=; split; simpl; rewrite ?app_nil_r; try done; try (by left).
      * by rewrite <-Ha.
      * by intros _ [?|[??]].
    + apply bind_Some in Ht as (code & Hcode & [= <-]). split; simpl; try done.
      * by eapply pty_step_inv, pty_drop_output.
      * intros _. right. by eexists.
      * intros Href _. by apply Hd; [|left].
      * unfold exit_code in Hcode. destruct (exit p); intros; simplify_eq/=; by eauto.
  - destruct (beside_frame _ _ Hb) as (Hc' & Hr' & Hd' & Hk'). split; simpl; rewrite ?Hc', ?Hr'; try done.
    + by eapply pty_step_inv, beside_step.
    + intros Href Ht. destruct (Hd Href Ht) as [Heq Hdone]. destruct (Hd' Hdone) as [-> ->]. done.
    + intros code Ht. destruct (Hk code Ht) as [He [n ->]]. split; [|done]. symmetry. by apply Hk'.
Qed.

Lemma local_reach_inv s : steps local_step local_init s → local_inv s.
Proof.
  intros Hs. refine (steps_invariant _ local_inv _ _ _ _ Hs).
  { intros s1 s2. apply local_step_inv. }
  split; simpl; try done; [apply pty_inv_init|]. by intros _ [?|[??]].
Qed.

(** C29: a local shell's tab shows everything before it says the shell is gone:
    while the data path takes chunks, what was fed to it, the chunk in hand and
    what waits in the PTY are what was read, in order; when [Exited] is sent,
    all of it has been fed and the code is the one the child was waited for
    with; and the task always has something to do, or waits for the shell. *)
Theorem local_shell_drains s :
  steps local_step local_init s →
  (lo_refused s = false → lo_turn s ≠ AwaitingExit → (∀ code, lo_turn s ≠ Reported code) →
     lo_fed s ++ carried (lo_turn s) ++ output (lo_pty s) ++ in_flight (reader (lo_pty s)) =
     taken (lo_pty s)) ∧
  (∀ code, lo_turn s = Reported code → code = exit (lo_pty s) ∧ is_Some code ∧
     (lo_refused s = false → lo_fed s = taken (lo_pty s))) ∧
  lo_fed s `prefix_of` taken (lo_pty s) ∧
  (∀ alive, forward_turn alive s = None → (∃ code, lo_turn s = Reported code) ∨
     (lo_turn s = AwaitingExit ∧ exit (lo_pty s) = None) ∨
     (lo_turn s = Receiving ∧ output (lo_pty s) = [] ∧ reader (lo_pty s) ≠ ReaderDone)).
Proof.
  intros [Hp Hc Ha Hx Hs Hd Hk]%local_reach_inv. split_and!.
  - intros Href Hw Hr. rewrite (assoc_L (++)), Ha by done. apply Hp. rewrite Hc.
    destruct (lo_turn s); try done. by destruct (Hr code).
  - intros code Ht. destruct (Hk code Ht) as [-> Hcode]. split_and!; [done|done|].
    intros Href. destruct (Hd Href) as [<- _]; [right; by eexists|].
    rewrite <-Ha by done. rewrite Ht. simpl. by rewrite app_nil_r.
  - etrans; [done|]. apply Hp.
  - intros alive. unfold forward_turn. destruct (lo_turn s); [..|by eauto]; [|done|].
    + unfold recv. rewrite Hc. simpl. destruct (output (lo_pty s)) as [|c rest]; [|done]. simpl.
      destruct (reader (lo_pty s)); intros; simplify_eq/=; by eauto.
    + unfold exit_code. destruct (exit (lo_pty s)); intros; simplify_eq/=. by eauto.
Qed.

(** A shell that says one thing and exits. *)
Definition sample_local : local_shell :=
  MkLocal (MkPty ReaderDone [] false [] true false (Some 0%Z) [[104%N]] [[104%N]] [] [])
    (Reported (Some 0%Z)) [[104%N]] false.

Lemma sample_local_reached : steps local_step local_init sample_local.
Proof.
  eapply steps_cons; [eapply local_beside, (beside_read _ (Ok [104%N])); eval_read|].
  eapply steps_cons; [eapply local_beside, beside_send; eval_step|].
  eapply steps_cons; [eapply (local_forward _ true); eval_step|].
  eapply steps_cons; [eapply local_beside, (beside_read _ (Ok [])); eval_step|].
  eapply steps_cons; [eapply (local_forward _ true); eval_step|].
  eapply steps_cons; [eapply (local_forward _ true); eval_step|].
  eapply steps_cons; [eapply local_beside, (beside_wait _ (Ok 0%Z)); eval_step|].
  eapply steps_cons; [eapply (local_forward _ true); eval_step|]. apply steps_refl.
Qed.

Lemma local_shell_drains_witness : lo_fed sample_local = taken (lo_pty sample_local).
Proof.
  destruct (local_shell_drains sample_local sample_local_reached) as (_ & Hr & _).
  by apply (Hr (Some 0%Z)).
Defined.
