(* ===== verification/Channel.v ===== *)
(** * Shells on a session

    The handles of [core-ssh/src/session.rs]: opening a shell with its PTY,
    writing, resizing, closing, and disconnecting.  A channel is russh's
    ([ShellTransport]); every request acts on the connection [W].  The output
    side is the pump of [Shell]. *)
From S2P Require Import Prelude Text Model Vault Auth Session Shell.

Class ShellTransport `{!Transport} := {
  Chan : Type;
  channel_open_session : W → result russh_error Chan * W;
  request_pty : Chan → bool → str → Z → Z → Z → Z → W → result russh_error () * W;
  request_shell : Chan → bool → W → result russh_error () * W;
  data_bytes : Chan → list N → W → result russh_error () * W;
  window_change : Chan → Z → Z → Z → Z → W → result russh_error () * W;
  chan_eof : Chan → W → result russh_error () * W;
  chan_close : Chan → W → result russh_error () * W;
  handle_is_closed : W → bool;
  handle_disconnect : W → result russh_error () * W
}.

Section channel.
Context `{!Transport, !ShellTransport}.

(** [?] on a call to russh. *)
Definition protocol {A} (m : W → result russh_error A * W) : W → result SshError A * W := λ w,
  let '(r, w) := m w in (map_err Protocol r, w).

(** [SshSession::open_shell]; its task starts as [pump_init]. *)
Definition open_shell (term : str) (cols rows : Z) (w : W) : result SshError Chan * W :=
  match protocol channel_open_session w with
  | (Err e, w) => (Err e, w)
  | (Ok ch, w) =>
      match protocol (request_pty ch false term cols rows 0 0) w with
      | (Err e, w) => (Err e, w)
      | (Ok (), w) =>
          match protocol (request_shell ch true) w with
          | (Err e, w) => (Err e, w)
          | (Ok (), w) => (Ok ch, w)
          end
      end
  end.

Definition session_is_closed (w : W) : bool := handle_is_closed w.
Definition disconnect (w : W) : result SshError () * W := protocol handle_disconnect w.

(** [ShellControl], and the same methods of an unsplit [ShellChannel]. *)
Definition shell_write (ch : Chan) (data : list N) (w : W) : result SshError () * W :=
  protocol (data_bytes ch data) w.
Definition shell_resize (ch : Chan) (cols rows : Z) (w : W) : result SshError () * W :=
  protocol (window_change ch cols rows 0 0) w.
Definition shell_pause (p : pump) : option pump := pump_step p (SetPause true).
Definition shell_resume (p : pump) : option pump := pump_step p (SetPause false).

(** [ShellControl::close]: the outcome of [eof] is ignored. *)
Definition shell_close (ch : Chan) (w : W) : result SshError () * W :=
  let '(_, w) := chan_eof ch w in protocol (chan_close ch) w.

(** [ShellChannel::close]: both outcomes are ignored; [drained] is the pump if
    it ended within the five seconds. *)
Definition channel_close (ch : Chan) (drained : option pump) (w : W) : option Z * W :=
  let '(_, w) := chan_eof ch w in
  let '(_, w) := chan_close ch w in
  (p ← drained; mjoin (exit_status p), w).

(** The Windows agents: the OpenSSH pipe, then Pageant; a failure reports both. *)
Definition connect_agent_windows (pipe pageant : result str ()) : result SshError () :=
  match pipe with
  | Ok () => Ok ()
  | Err openssh =>
      match pageant with
      | Ok () => Ok ()
      | Err pageant =>
          Err (AgentFailed (#"no ssh-agent reachable: OpenSSH named pipe (" ++ openssh ++
                            #"); Pageant (" ++ pageant ++ #")"))
      end
  end.
Definition connect_agent_other : result SshError () :=
  Err (AgentFailed #"ssh-agent auth is not supported on this platform").

Lemma open_shell_retryable term cols rows w e w' :
  open_shell term cols rows w = (Err e, w') → is_retryable e = true.
Proof.
  unfold open_shell, protocol.
  destruct (channel_open_session w) as [[ch|] w1]; simpl; [|by intros [= <- _]].
  destruct (request_pty _ _ _ _ _ _ _ _) as [[[]|] w2]; simpl; [|by intros [= <- _]].
  destruct (request_shell _ _ _) as [[[]|] w3]; simpl; [done|by intros [= <- _]].
Qed.
End channel.
