(* ===== verification/Handles.v ===== *)
(** * A shell, whole and split

    [ShellChannel], [ShellOutput] and [ShellControl] of [core-ssh/src/session.rs]:
    one value that reads, writes and paces a shell, and its two halves.  The
    queue between the pump and the reader is what the pump has sent and the
    reader has not taken. *)
From S2P Require Import Prelude Text Model Vault Auth Session Shell Channel.

(** The reading end: the pump it hears from, and how many chunks it took. *)
Record ShellOutput := MkOutput {
  so_pump : pump;
  so_taken : nat
}.

(** [recv]: the next chunk, or [None] at the end; no result while it waits. *)
Definition output_recv (o : ShellOutput) : option (option (list N) * ShellOutput) :=
  match sent (so_pump o) !! so_taken o with
  | Some chunk => Some (Some chunk, MkOutput (so_pump o) (S (so_taken o)))
  | None => if ended (so_pump o) then Some (None, o) else None
  end.

(** [exit_status]: the oneshot, which a pump that is dropped never answers. *)
Definition output_exit_status (o : ShellOutput) : option (option Z) := exit_status (so_pump o).

Section handles.
Context `{!Transport, !ShellTransport}.

Record ShellControl := MkControl { sk_write : Chan }.
Record ShellChannel := MkChannel { sc_output : ShellOutput; sc_write : Chan }.

Definition shell_channel (ch : Chan) : ShellChannel := MkChannel (MkOutput pump_init 0) ch.

Definition channel_recv (c : ShellChannel) : option (option (list N) * ShellChannel) :=
  '(r, o) ← output_recv (sc_output c); Some (r, MkChannel o (sc_write c)).

Definition channel_write (c : ShellChannel) (data : list N) (w : W) : result SshError () * W :=
  protocol (data_bytes (sc_write c) data) w.

Definition channel_resize (c : ShellChannel) (cols rows : Z) (w : W) : result SshError () * W :=
  protocol (window_change (sc_write c) cols rows 0 0) w.

(** [let _ = self.pause.send(b)]: nothing happens when the pump is gone. *)
Definition channel_set_pause (b : bool) (c : ShellChannel) : ShellChannel :=
  let o := sc_output c in
  MkChannel (MkOutput (default (so_pump o) (pump_step (so_pump o) (SetPause b))) (so_taken o)) (sc_write c).
Definition channel_pause : ShellChannel → ShellChannel := channel_set_pause true.
Definition channel_resume : ShellChannel → ShellChannel := channel_set_pause false.

Definition shell_split (c : ShellChannel) : ShellOutput * ShellControl := (sc_output c, MkControl (sc_write c)).

(** [while self.output.recv().await.is_some() {}] on what is there, with what it
    throws away; no result when it has to wait. *)
Fixpoint drain (fuel : nat) (o : ShellOutput) : option (list (list N) * ShellOutput) :=
  match fuel with
  | 0 => None
  | S fuel =>
      '(r, o) ← output_recv o;
      match r with
      | None => Some ([], o)
      | Some chunk => '(rest, o) ← drain fuel o; Some (chunk :: rest, o)
      end
  end.

(** The drain of [close]: the loop, then the exit status. *)
Definition drain_exit (o : ShellOutput) : option (option Z) :=
  '(_, o) ← drain (S (length (sent (so_pump o)))) o; output_exit_status o.

(** * Reading to the end *)

(** Once the pump has ended the loop ends too, and has read what was left, in
    order. *)
Lemma drain_ended o fuel :
  ended (so_pump o) = true → length (sent (so_pump o)) - so_taken o < fuel →
  so_taken o ≤ length (sent (so_pump o)) →
  drain fuel o = Some (drop (so_taken o) (sent (so_pump o)), MkOutput (so_pump o) (length (sent (so_pump o)))).
Proof.
  revert o. induction fuel as [|fuel IH]; intros [p t] He Hf Ht; cbn [so_pump so_taken] in *; [lia|].
  cbn [drain]. unfold output_recv. cbn [so_pump so_taken].
  destruct (sent p !! t) as [chunk|] eqn:Hc.
  - cbn [mbind option_bind]. pose proof (lookup_lt_Some _ _ _ Hc).
    rewrite (IH (MkOutput p (S t))) by (cbn; done || lia). cbn. by rewrite (drop_S _ _ _ Hc).
  - rewrite He. cbn. apply lookup_ge_None in Hc. rewrite drop_ge by done. do 3 f_equal. lia.
Qed.

(** While the pump runs the loop waits: it never gives up early. *)
Lemma drain_waits o fuel : ended (so_pump o) = false → drain fuel o = None.
Proof.
  revert o. induction fuel as [|fuel IH]; intros [p t] He; [done|]. cbn [drain]. unfold output_recv.
  cbn [so_pump so_taken] in *. destruct (sent p !! t) as [chunk|]; [|by rewrite He].
  cbn [mbind option_bind]. by rewrite IH.
Qed.

(** Closing a shell reads its status exactly when its pump has ended; and what a
    reader takes from the half is what it would take from the whole. *)
Theorem close_reads_status (c : ShellChannel) :
  so_taken (sc_output c) ≤ length (sent (so_pump (sc_output c))) →
  drain_exit (sc_output c) = exit_status (so_pump (sc_output c)) ∧
  channel_recv c = (λ '(r, o), (r, MkChannel o (sc_write c))) <$> output_recv (shell_split c).1.
Proof.
  intros Ht. split.
  - unfold drain_exit. destruct (ended (so_pump (sc_output c))) eqn:He.
    + rewrite drain_ended by (done || lia). done.
    + rewrite drain_waits by done. unfold exit_status. by rewrite He.
  - unfold channel_recv. cbn. by destruct (output_recv (sc_output c)) as [[]|].
Qed.
End handles.

(** A shell that printed two chunks, exited with 3, and of which one chunk was
    read. *)
Definition exited_pump : pump :=
  default pump_init (pump_run [Deliver (Some (Data [1%N])) true; Deliver (Some (Data [2%N])) true;
    Deliver (Some (ExitStatus 3)) true; Deliver None true] pump_init).
Example exited_drain :
  drain 3 (MkOutput exited_pump 1) = Some ([[2%N]], MkOutput exited_pump 2) ∧
  drain_exit (MkOutput exited_pump 1) = Some (Some 3%Z).
Proof. by vm_compute. Qed.
