(* ===== verification/HostKey.v ===== *)
(** * Trusting a host key

    [host_key_prompt] and [approve_host_key] of [apps/desktop/src/commands.rs],
    over Tern's [known_hosts] file.  Each presented key is a ticket: a decision
    is made at once, or the callback waits for the user on a oneshot whose
    sender is in [pending] under the session's id.  Inserting over an entry
    drops the sender that was there, which answers its ticket with "no".
    What becomes of the write and the random salt are inputs of the step that
    needs them.  The callback's task goes on after the oneshot as part of the
    step that answers it: nothing it does until it returns can be seen between
    the two. *)
From S2P Require Import Prelude Text Glob KnownHosts.

Record HostKeyInfo `{SshKeys} := MkInfo {
  i_host : str;
  i_port : Z;
  i_algorithm : str;
  i_fingerprint : str;
  i_key : PublicKey
}.

Inductive hk_event :=
  | CouldNotRead (e : KnownHostsError)
  | CouldNotRecord (e : KnownHostsError)
  | HostKeyRevoked (host : str) (port : Z) (line : nat)
  | HostKeyChanged (host : str) (port : Z) (alg recorded presented : str) (line : nat)
  | HostKeyPrompt (session_id host : str) (port : Z) (alg fp : str).

(** A callback that waits for the user. *)
Record waiter `{SshKeys} := MkWaiter {
  w_info : HostKeyInfo;
  w_hash_new : bool
}.

Record hk_state `{SshKeys} := HK {
  hk_file : file_state;
  pending : gmap str nat;
  waiting : gmap nat waiter;
  next_ticket : nat;
  hk_events : list hk_event;
  decided : gmap nat bool
}.

Inductive hk_input `{SshKeys} :=
  | Present (insecure_accept : bool) (session_id : str) (hash_new_entries : bool) (info : HostKeyInfo)
  | Approve (id : str) (accept : bool) (d : disk) (salt : option (list N))
  | Abandon (ticket : nat)
  | Edit (file : file_state).

Section host_key.
Context `{SshKeys}.

Definition hk_init (file : file_state) : hk_state := HK _ file ∅ ∅ 0 [] ∅.

(** [check_server_key] builds the [HostKeyInfo] of a key. *)
Definition info_of (host : str) (port : Z) (key : PublicKey) : HostKeyInfo :=
  MkInfo _ host port (algorithm key) (fingerprint key) key.

Definition decide_ticket (t : nat) (accepted : bool) (evs : list hk_event) (s : hk_state) : hk_state :=
  HK _ (hk_file s) (pending s) (delete t (waiting s)) (next_ticket s) (hk_events s ++ evs)
    (<[t := accepted]> (decided s)).

(** [rx.await] resolved: on "yes", [file.learn(...)].  The callback's task goes
    on by itself after the oneshot; here that is part of the step that answers,
    as if whatever else is done to the file in between came before it. *)
Definition resolve_ticket (t : nat) (accepted : bool) (d : disk) (salt : option (list N))
    (s : hk_state) : hk_state :=
  match waiting s !! t with
  | None => s
  | Some w =>
      let info := w_info w in
      if accepted then
        let '(r, file') := learn d salt (i_host info) (i_port info) (i_key info)
                             (w_hash_new w) (hk_file s) in
        let s := HK _ file' (pending s) (waiting s) (next_ticket s) (hk_events s) (decided s) in
        decide_ticket t true (match r with Ok _ => [] | Err e => [CouldNotRecord e] end) s
      else decide_ticket t false [] s
  end.

(** The sender under the session's id is replaced; one that was there drops. *)
Definition prompt (sid : str) (hash_new : bool) (info : HostKeyInfo) (t : nat) (s : hk_state) :
    hk_state :=
  let s := match pending s !! sid with
           | Some old => resolve_ticket old false DRefuses None s
           | None => s
           end in
  HK _ (hk_file s) (<[sid := t]> (pending s)) (<[t := MkWaiter _ info hash_new]> (waiting s))
    (next_ticket s)
    (hk_events s ++ [HostKeyPrompt sid (i_host info) (i_port info) (i_algorithm info)
                       (i_fingerprint info)])
    (decided s).

(** The callback [host_key_prompt] returns, called with [info]. *)
Definition present (insecure_accept : bool) (sid : str) (hash_new : bool) (info : HostKeyInfo)
    (s0 : hk_state) : hk_state :=
  let t := next_ticket s0 in
  let s := HK _ (hk_file s0) (pending s0) (waiting s0) (S t) (hk_events s0) (decided s0) in
  if insecure_accept then decide_ticket t true [] s
  else match verify (hk_file s) (i_host info) (i_port info) (i_key info) with
       | Err e => decide_ticket t false [CouldNotRead e] s
       | Ok Trusted => decide_ticket t true [] s
       | Ok (VRevoked line) =>
           decide_ticket t false [HostKeyRevoked (i_host info) (i_port info) line] s
       | Ok (Changed line alg recorded) =>
           decide_ticket t false
             [HostKeyChanged (i_host info) (i_port info) alg recorded (i_fingerprint info) line] s
       | Ok Unknown => prompt sid hash_new info t s
       end.

(** [approve_host_key]: whether a prompt was pending, and the state after. *)
Definition approve_host_key (id : str) (accept : bool) (d : disk) (salt : option (list N))
    (s : hk_state) : bool * hk_state :=
  match pending s !! id with
  | Some t =>
      let s := HK _ (hk_file s) (delete id (pending s)) (waiting s) (next_ticket s) (hk_events s)
                 (decided s) in
      (true, resolve_ticket t accept d salt s)
  | None => (false, s)
  end.

(** The connect that owns the callback is dropped: nobody receives the answer. *)
Definition abandon (t : nat) (s : hk_state) : hk_state :=
  HK _ (hk_file s) (pending s) (delete t (waiting s)) (next_ticket s) (hk_events s) (decided s).

(** Another command rewrote the file: [remove_known_host], [import_known_hosts]. *)
Definition edit_file (file : file_state) (s : hk_state) : hk_state :=
  HK _ file (pending s) (waiting s) (next_ticket s) (hk_events s) (decided s).

Definition hk_step (s : hk_state) (i : hk_input) : hk_state :=
  match i with
  | Present insecure sid hash_new info => present insecure sid hash_new info s
  | Approve id accept d salt => (approve_host_key id accept d salt s).2
  | Abandon t => abandon t s
  | Edit file => edit_file file s
  end.

Definition hk_run (l : list hk_input) (s : hk_state) : hk_state := foldl hk_step s l.

(** * Where a decision comes from *)

Lemma resolve_ticket_pending t a w salt s : pending (resolve_ticket t a w salt s) = pending s.
Proof.
  unfold resolve_ticket. destruct (waiting s !! t); [|done]. destruct a; [|done].
  by destruct (learn _ _ _ _ _ _ _).
Qed.

Lemma resolve_ticket_decided t a w salt s u :
  decided (resolve_ticket t a w salt s) !! u = Some true →
  decided s !! u = Some true ∨ (a = true ∧ u = t).
Proof.
  unfold resolve_ticket. destruct (waiting s !! t) as [wt|]; [|by left].
  destruct a; [destruct (learn _ _ _ _ _ _ _) as [r file']|]; simpl;
    (destruct (decide (u = t)) as [->|Hu]; [|rewrite lookup_insert_ne by done; by left]).
  - by right.
  - by rewrite lookup_insert_eq.
Qed.

Lemma present_pending insecure sid hash_new info s id t :
  pending (present insecure sid hash_new info s) !! id = Some t →
  pending s !! id = Some t ∨
  (insecure = false ∧ id = sid ∧ t = next_ticket s ∧
   verify (hk_file s) (i_host info) (i_port info) (i_key info) = Ok Unknown).
Proof.
  unfold present, prompt. cbn [hk_file pending waiting next_ticket hk_events decided].
  destruct insecure; [by left|].
  destruct (verify _ _ _ _) as [[]|]; simpl; try by left.
  destruct (decide (id = sid)) as [->|Hid].
  - rewrite lookup_insert_eq. intros [= <-]. by right.
  - rewrite lookup_insert_ne by done. left.
    destruct (pending s !! sid); [by rewrite resolve_ticket_pending in *|done].
Qed.

Lemma present_decided insecure sid hash_new info s t :
  decided (present insecure sid hash_new info s) !! t = Some true →
  decided s !! t = Some true ∨
  (t = next_ticket s ∧ (insecure = true ∨
     verify (hk_file s) (i_host info) (i_port info) (i_key info) = Ok Trusted)).
Proof.
  unfold present, prompt. cbn [hk_file pending waiting next_ticket hk_events decided].
  assert (∀ (a : bool) evs (u : nat) (x : hk_state), decided (decide_ticket u a evs x) !! t = Some true →
    decided x !! t = Some true ∨ (a = true ∧ t = u)) as Hd.
  { intros a evs u x. simpl. destruct (decide (t = u)) as [->|Hu];
      [rewrite lookup_insert_eq; intros [= ->]; by right|rewrite lookup_insert_ne by done; by left]. }
  destruct insecure; [intros [?|[_ ->]]%Hd; by eauto|].
  destruct (verify _ _ _ _) as [[]|]; try (intros [?|[? ->]]%Hd; by eauto). cbn [decided].
  destruct (pending s !! sid); [|by left]. intros [?|[? _]]%resolve_ticket_decided; [by left|done].
Qed.

Lemma approve_pending id a w salt s sid t :
  pending (approve_host_key id a w salt s).2 !! sid = Some t → pending s !! sid = Some t.
Proof.
  unfold approve_host_key. destruct (pending s !! id); [|done]. simpl.
  rewrite resolve_ticket_pending. simpl. by intros [_ Hs]%lookup_delete_Some.
Qed.

Lemma approve_decided id a w salt s t :
  decided (approve_host_key id a w salt s).2 !! t = Some true →
  decided s !! t = Some true ∨ (a = true ∧ pending s !! id = Some t).
Proof.
  unfold approve_host_key. destruct (pending s !! id) as [u|]; [|by left]. simpl.
  intros [?|[-> ->]]%resolve_ticket_decided; by eauto.
Qed.

Section runs.
Context (file : file_state).

Definition at_step (l : list hk_input) (k : nat) : hk_state := hk_run (take k l) (hk_init file).

(** The [k]-th input presented the key of ticket [t]. *)
Definition presented (l : list hk_input) (k t : nat) (insecure : bool) (sid : str)
    (info : HostKeyInfo) : Prop :=
  ∃ hash_new, l !! k = Some (Present insecure sid hash_new info) ∧ next_ticket (at_step l k) = t.

(** What the file said of the key at that moment. *)
Definition verdict_at (l : list hk_input) (k : nat) (info : HostKeyInfo) :
    result KnownHostsError HostKeyVerdict :=
  verify (hk_file (at_step l k)) (i_host info) (i_port info) (i_key info).

Definition asked (l : list hk_input) (t : nat) (sid : str) : Prop :=
  ∃ k info, presented l k t false sid info ∧ verdict_at l k info = Ok Unknown.

(** Accepted with a reason, unless the rig asked to accept anything: a trusted
    entry, or first contact that the user approved while the session's prompt
    was this ticket's. *)
Definition justified (l : list hk_input) (t : nat) : Prop :=
  ∃ k insecure sid info, presented l k t insecure sid info ∧
    (insecure = false → verdict_at l k info = Ok Trusted ∨
     verdict_at l k info = Ok Unknown ∧
     ∃ j d salt, k < j ∧ l !! j = Some (Approve sid true d salt) ∧
       pending (at_step l j) !! sid = Some t).

Lemma at_step_snoc l i k : k ≤ length l → at_step (l ++ [i]) k = at_step l k.
Proof. intros Hk. unfold at_step. by rewrite take_app_le. Qed.

Lemma presented_snoc l i k t b sid info :
  presented l k t b sid info → k < length l ∧ presented (l ++ [i]) k t b sid info.
Proof.
  intros (hash_new & Hk & Ht). pose proof (lookup_lt_Some _ _ _ Hk). split; [done|].
  exists hash_new. rewrite lookup_app_l, at_step_snoc by lia. done.
Qed.

Lemma asked_snoc l i t sid : asked l t sid → asked (l ++ [i]) t sid.
Proof.
  intros (k & info & [Hk Hp]%(presented_snoc _ i) & Hv). exists k, info.
  unfold verdict_at. by rewrite at_step_snoc by lia.
Qed.

Lemma justified_snoc l i t : justified l t → justified (l ++ [i]) t.
Proof.
  intros (k & b & sid & info & [Hk Hp]%(presented_snoc _ i) & Hv). exists k, b, sid, info.
  unfold verdict_at. rewrite at_step_snoc by lia. split; [done|]. intros Hb.
  destruct (Hv Hb) as [?|(Hu & j & w & salt & Hj & Hl & Hpend)]; [by left|].
  right. split; [done|]. exists j, w, salt. pose proof (lookup_lt_Some _ _ _ Hl).
  by rewrite lookup_app_l, at_step_snoc by lia.
Qed.

(** A ticket presented by the last input. *)
Lemma presented_last l insecure sid hash_new info :
  presented (l ++ [Present insecure sid hash_new info]) (length l)
    (next_ticket (at_step l (length l))) insecure sid info.
Proof.
  exists hash_new. rewrite at_step_snoc by lia. split; [|done].
  by rewrite lookup_app_r, Nat.sub_diag by lia.
Qed.

Lemma hk_run_inv l :
  (∀ sid t, pending (hk_run l (hk_init file)) !! sid = Some t → asked l t sid) ∧
  (∀ t, decided (hk_run l (hk_init file)) !! t = Some true → justified l t).
Proof.
  induction l as [|i l [IHp IHd]] using rev_ind; [by split; intros *; simpl; rewrite lookup_empty|].
  unfold hk_run. rewrite foldl_app. fold (hk_run l (hk_init file)). cbn [foldl].
  assert (at_step l (length l) = hk_run l (hk_init file)) as Hat
    by (unfold at_step; by rewrite firstn_all).
  destruct i as [insecure sid hash_new info|id a w salt|u|f]; cbn [hk_step].
  - pose proof (presented_last l insecure sid hash_new info) as Hlast.
    assert (verdict_at (l ++ [Present insecure sid hash_new info]) (length l) info =
      verify (hk_file (hk_run l (hk_init file))) (i_host info) (i_port info) (i_key info)) as Hv
      by (unfold verdict_at; by rewrite at_step_snoc, Hat by lia).
    rewrite Hat in Hlast. split.
    + intros sid' t [Hp|(-> & -> & -> & Hu)]%present_pending; [by apply asked_snoc, IHp|].
      exists (length l), info. split; [done|by rewrite Hv].
    + intros t [Hd|[-> Hd]]%present_decided; [by apply justified_snoc, IHd|].
      exists (length l), insecure, sid, info. split; [done|]. rewrite Hv. intros ->. by destruct Hd as [?|?]; [|left].
  - split; [by intros sid t Hp%approve_pending; apply asked_snoc, IHp|].
    intros t [Hd|[-> Hp]]%approve_decided; [by apply justified_snoc, IHd|].
    pose proof (IHp _ _ Hp) as (k & info & [Hk Hpr]%(presented_snoc _ (Approve id true w salt)) & Hv).
    exists k, false, id, info. split; [done|]. intros _. right.
    unfold verdict_at in *. rewrite at_step_snoc by lia. split; [done|].
    exists (length l), w, salt. split_and!; [done| |by rewrite at_step_snoc, Hat by lia].
    by rewrite lookup_app_r, Nat.sub_diag by lia.
  - split; [intros sid t Hp|intros t Hd]; [by apply asked_snoc, IHp|by apply justified_snoc, IHd].
  - split; [intros sid t Hp|intros t Hd]; [by apply asked_snoc, IHp|by apply justified_snoc, IHd].
Qed.

(** Tickets are drawn in order, so one was presented once. *)
Lemma hk_step_ticket s i :
  next_ticket (hk_step s i) = match i with Present _ _ _ _ => S (next_ticket s) | _ => next_ticket s end.
Proof.
  assert (∀ t a w salt s, next_ticket (resolve_ticket t a w salt s) = next_ticket s) as Hres.
  { intros t a w salt s0. unfold resolve_ticket. destruct (waiting s0 !! t); [|done].
    destruct a; [|done]. by destruct (learn _ _ _ _ _ _ _). }
  destruct i as [insecure sid hash_new info|id a w salt|u|f]; simpl; try done.
  - unfold present. destruct insecure; [done|].
    destruct (verify _ _ _ _) as [[]|]; try done. unfold prompt. simpl.
    destruct (pending s !! sid); [|done]. by rewrite Hres.
  - unfold approve_host_key. destruct (pending s !! id); [|done]. simpl. by rewrite Hres.
Qed.

Lemma at_step_S l k i : l !! k = Some i → at_step l (S k) = hk_step (at_step l k) i.
Proof.
  intros Hk. unfold at_step. rewrite (take_S_r _ _ _ Hk). unfold hk_run. by rewrite foldl_app.
Qed.

Lemma next_ticket_mono l j k :
  j ≤ k → next_ticket (at_step l j) ≤ next_ticket (at_step l k).
Proof.
  induction 1 as [|k Hjk IH]; [done|]. destruct (l !! k) as [i|] eqn:Hi.
  - rewrite (at_step_S _ _ _ Hi), hk_step_ticket. destruct i; lia.
  - unfold at_step in *. apply lookup_ge_None_1 in Hi. rewrite (take_ge l (S k)) by lia.
    by rewrite (take_ge l k) in IH by lia.
Qed.

Lemma presented_inj l j k t b b' sid sid' info info' :
  presented l j t b sid info → presented l k t b' sid' info' →
  j = k ∧ b = b' ∧ sid = sid' ∧ info = info'.
Proof.
  intros (h & Hj & Htj) (h' & Hk & Htk).
  assert (j = k) as ->.
  { destruct (lt_eq_lt_dec j k) as [[Hlt| ->]|Hlt]; [exfalso|done|exfalso].
    - pose proof (next_ticket_mono l (S j) k Hlt) as Hm.
      rewrite (at_step_S _ _ _ Hj), hk_step_ticket in Hm. lia.
    - pose proof (next_ticket_mono l (S k) j Hlt) as Hm.
      rewrite (at_step_S _ _ _ Hk), hk_step_ticket in Hm. lia. }
  rewrite Hj in Hk. injection Hk as -> -> _ ->. done.
Qed.

(** C4: no host key is accepted without a reason: whatever keys are presented
    and whatever the user answers, in any order and whatever else is done to
    the file meanwhile, an accepted one that was not presented to a connect
    told to accept anything (the benchmark rig's ad-hoc flag) was trusted by the
    file when it was presented, or was unknown to it and the user approved that
    very prompt. *)
Theorem accepted_keys_justified l t :
  decided (hk_run l (hk_init file)) !! t = Some true → justified l t.
Proof. apply hk_run_inv. Qed.
End runs.

(** Only first contact prompts: an unreadable file, a changed key and a
    revoked one are refused at once, say so on the event channel, and leave the
    file and the pending prompts alone; a trusted key connects silently. *)
Theorem host_key_outcomes sid hash_new info s :
  let s' := present false sid hash_new info s in
  let t := next_ticket s in
  hk_file s' = hk_file s ∧
  match verify (hk_file s) (i_host info) (i_port info) (i_key info) with
  | Ok Unknown =>
      pending s' !! sid = Some t ∧ is_Some (waiting s' !! t) ∧
      last (hk_events s') = Some (HostKeyPrompt sid (i_host info) (i_port info)
                                    (i_algorithm info) (i_fingerprint info))
  | Ok Trusted =>
      decided s' !! t = Some true ∧ hk_events s' = hk_events s ∧ pending s' = pending s
  | _ =>
      decided s' !! t = Some false ∧ pending s' = pending s ∧
      ∃ e, hk_events s' = hk_events s ++ [e] ∧ (∀ id h p a f, e ≠ HostKeyPrompt id h p a f)
  end.
Proof.
  unfold present, prompt. cbn [hk_file pending waiting next_ticket hk_events decided].
  destruct (verify _ _ _ _) as [[]|] eqn:Hv; simpl; rewrite ?lookup_insert_eq, ?app_nil_r.
  1,3-5: split_and!; try done; eexists; split; done.
  split_and!; try done; [|by rewrite last_snoc].
  destruct (pending s !! sid) as [old|]; [|done]. unfold resolve_ticket. simpl.
  by destruct (waiting s !! old).
Qed.
End host_key.

(** C23: approving first contact makes it last: the ticket is accepted, the key
    is on file (where the write goes through and the host's name is no pattern),
    and the next time the server presents it the connection goes
    through without a prompt or any other event. *)
Theorem approved_then_silent `{SshKeysLaws} sid t w salt s text v sid' hash' :
  let info := w_info w in
  pending s !! sid = Some t → waiting s !! t = Some w →
  read (hk_file s) = Ok text → plain_name (match_target (i_host info) (i_port info)) = true →
  verify (hk_file s) (i_host info) (i_port info) (i_key info) = Ok v → (∀ n, v ≠ VRevoked n) →
  (learn DWrites salt (i_host info) (i_port info) (i_key info) (w_hash_new w) (hk_file s)).1 = Ok () →
  let s1 := (approve_host_key sid true DWrites salt s).2 in
  let s2 := present false sid' hash' info s1 in
  decided s1 !! t = Some true ∧ decided s2 !! next_ticket s1 = Some true ∧
  hk_events s2 = hk_events s.
Proof.
  intros info Hp Hw Hr Hplain Hv Hnr Hl. unfold approve_host_key. rewrite Hp.
  unfold resolve_ticket. cbn [hk_file pending waiting next_ticket hk_events decided snd].
  rewrite Hw. fold info. destruct (learn _ _ _ _ _ _ _) as [r file'] eqn:El. simpl in Hl. subst r.
  pose proof (learn_appends _ _ _ _ _ _ _ _ Hr Hplain El) as (old & Hold & Hnew & _).
  rewrite Hv in Hold. injection Hold as <-. cbn zeta. unfold present, decide_ticket.
  cbn [hk_file pending waiting next_ticket hk_events decided].
  rewrite Hnew. destruct v as [| | |n]; [..|by destruct (Hnr n)];
    cbn [hk_file pending waiting next_ticket hk_events decided];
    by rewrite !lookup_insert_eq, !app_nil_r.
Qed.

(** * On a concrete file *)
Definition sample_info : @HostKeyInfo sample_keys := @info_of sample_keys #"web" 22 KeyA.
Definition sample_contact : list (@hk_input sample_keys) :=
  [@Present sample_keys false #"s-0" false sample_info; Approve #"s-0" true DWrites None].

Lemma accepted_keys_justified_witness :
  decided (hk_run sample_contact (hk_init Absent)) !! 0 = Some true ∧
  justified Absent sample_contact 0.
Proof.
  assert (decided (hk_run sample_contact (hk_init Absent)) !! 0 = Some true) as Hd
    by (vm_compute; reflexivity).
  split; [exact Hd|]. by apply (accepted_keys_justified Absent sample_contact 0).
Defined.

Definition sample_waiter : @waiter sample_keys := MkWaiter sample_keys sample_info false.
Definition sample_waiting : @hk_state sample_keys :=
  hk_run (take 1 sample_contact) (hk_init Absent).

Lemma approved_then_silent_witness :
  let s1 := (approve_host_key #"s-0" true DWrites None sample_waiting).2 in
  let s2 := present false #"s-1" false (w_info sample_waiter) s1 in
  decided s1 !! 0 = Some true ∧ decided s2 !! next_ticket s1 = Some true ∧
  hk_events s2 = hk_events sample_waiting.
Proof.
  assert (pending sample_waiting !! #"s-0" = Some 0) as H1 by (vm_compute; reflexivity).
  assert (waiting sample_waiting !! 0 = Some sample_waiter) as H2 by reflexivity.
  assert (read (hk_file sample_waiting) = Ok []) as H3 by (vm_compute; reflexivity).
  assert (plain_name (match_target (i_host (w_info sample_waiter)) (i_port (w_info sample_waiter))) = true)
    as H4 by (vm_compute; reflexivity).
  assert (verify (hk_file sample_waiting) (i_host (w_info sample_waiter)) (i_port (w_info sample_waiter))
    (i_key (w_info sample_waiter)) = Ok Unknown) as H5 by (vm_compute; reflexivity).
  assert ((learn DWrites None (i_host (w_info sample_waiter)) (i_port (w_info sample_waiter))
    (i_key (w_info sample_waiter)) (w_hash_new sample_waiter) (hk_file sample_waiting)).1 = Ok ()) as H6
    by (vm_compute; reflexivity).
  exact (approved_then_silent #"s-0" 0 sample_waiter None sample_waiting [] Unknown #"s-1" false
    H1 H2 H3 H4 H5 (λ n, ltac:(discriminate)) H6).
Defined.
