(* ===== verification/Proto.v ===== *)
(** * The wire types

    [proto/src/store.rs], and the session types of [proto/src/lib.rs].  Their
    JSON is code serde derives, and is not modelled except for the defaults it
    fills in. *)
From S2P Require Import Prelude Text.

Inductive AuthKindDto := DAgent | DKeyFile | DPassword.

Record HostOverridesDto := MkOverridesDto {
  od_term : option str;
  od_keepalive_secs : option Z;
  od_keepalive_max : option Z;
  od_connect_timeout_secs : option Z;
  od_window_size : option Z;
  od_reconnect_enabled : option bool;
  od_reconnect_max_attempts : option Z
}.

Record HostDto := MkHostDto {
  hd_id : Z;
  hd_folder_id : option Z;
  hd_name : str;
  hd_hostname : str;
  hd_port : Z;
  hd_username : str;
  hd_auth : AuthKindDto;
  hd_auth_fallbacks : list AuthKindDto;
  hd_has_secret : bool;
  hd_key_path : option str;
  hd_overrides : HostOverridesDto;
  hd_proxy_jump : option str;
  hd_source : str;
  hd_color : option str;
  hd_notes : option str;
  hd_last_connected_at : option Z;
  hd_connect_count : Z;
  hd_tags : list Z
}.

Record NewHostDto := MkNewHostDto {
  nd_folder_id : option Z;
  nd_name : str;
  nd_hostname : str;
  nd_port : Z;
  nd_username : str;
  nd_auth : AuthKindDto;
  nd_auth_fallbacks : list AuthKindDto;
  nd_key_path : option str;
  nd_overrides : HostOverridesDto;
  nd_proxy_jump : option str;
  nd_color : option str;
  nd_notes : option str;
  nd_tags : list Z
}.

Definition default_port : Z := 22.

(** [SecretUpdateDto], and its [Default]. *)
Inductive SecretUpdateDto := Unchanged | SetSecret (secret : str) | ClearSecret.
Definition secret_update_default : SecretUpdateDto := Unchanged.

Record HostFilterDto := MkFilterDto {
  fd_query : option str;
  fd_folder_id : option Z;
  fd_tag_ids : list Z;
  fd_limit : option Z
}.

Record FolderDto := MkFolderDto {
  fo_id : Z;
  fo_parent_id : option Z;
  fo_name : str;
  fo_position : Z
}.

Record TagDto := MkTagDto {
  td_id : Z;
  td_name : str;
  td_color : option str
}.

Record KnownHostEntryDto := MkKnownHostEntryDto {
  kd_line : nat;
  kd_patterns : str;
  kd_algorithm : str;
  kd_fingerprint : str;
  kd_marker : option str;
  kd_hashed : bool
}.

Record KnownHostsImportReportDto := MkKnownHostsImportReportDto {
  rd_total : nat;
  rd_imported : nat;
  rd_duplicates : nat;
  rd_skipped_cert_authority : nat;
  rd_malformed : nat
}.

Record SshConfigCandidateDto := MkCandidateDto {
  cd_alias : str;
  cd_hostname : str;
  cd_port : Z;
  cd_username : str;
  cd_auth : AuthKindDto;
  cd_key_path : option str;
  cd_proxy_jump : option str;
  cd_overrides : HostOverridesDto;
  cd_disposition : str
}.

Inductive SshConfigWarningDto :=
  | DMatchUnsupported (file : str) (line : nat)
  | DIncludeCycle (file : str) (line : nat)
  | DIncludeUnreadable (file : str) (line : nat) (pattern : str)
  | DUnsupportedKeyword (file : str) (line : nat) (keyword : str).

Record SshConfigScanDto := MkScanDto {
  sd_source : str;
  sd_candidates : list SshConfigCandidateDto;
  sd_warnings : list SshConfigWarningDto
}.

Record SshConfigImportResultDto := MkImportResultDto {
  ir_created : nat;
  ir_updated : nat
}.

Record KeyringStatusDto := MkKeyringStatusDto {
  ks_available : bool;
  ks_reason : option str
}.

Record KeyInfoDto := MkKeyInfoDto {
  kd_format : str;
  kd_ppk_version : option Z;
  kd_encrypted : bool;
  kd_key_algorithm : option str;
  kd_key_fingerprint : option str;
  kd_comment : option str
}.

Record AppearanceDto := MkAppearance {
  a_theme : str;
  a_terminal_theme : str;
  a_font_family : str;
  a_font_size : Z
}.
Definition appearance_default : AppearanceDto := MkAppearance #"system" #"auto" [] 13.

(** [AuthMethodDto] *)
Inductive AuthMethodDto :=
  | AmPassword (password : str)
  | AmKeyFile (path : str) (passphrase : option str)
  | AmAgent.

(** * Sessions: [proto/src/lib.rs] *)

Record SshTarget := MkSshTarget {
  st_host : str;
  st_port : Z;
  st_username : str;
  st_auth : AuthMethodDto;
  st_insecure_accept_host_key : bool
}.

Record LocalPtyTarget := MkPtyTarget { pt_program : option str; pt_args : list str }.

Inductive Target :=
  | TSsh (target : SshTarget)
  | TLocalPty (target : LocalPtyTarget)
  | TSavedHost (host_id : Z).

Record OpenSessionReq := MkOpenReq {
  req_target : Target;
  cols : Z;
  rows : Z;
  chunk_max : option Z;
  tick_ms : option Z;
  window_size : option Z
}.

(** [SessionId] is its text, which is also how it displays. *)
Definition SessionId : Type := str.

Record ResizeReq := MkResizeReq { rz_id : SessionId; rz_cols : Z; rz_rows : Z }.

Record TestConnectionReq := MkTestReq {
  tr_host : str;
  tr_port : Z;
  tr_username : str;
  tr_auth : list AuthMethodDto;
  tr_host_id : option Z
}.

(** [SessionEvent] *)
Inductive SessionEvent :=
  | SeHostKeyPrompt (session_id host : str) (port : Z) (algorithm fingerprint_sha256 : str)
  | SeHostKeyChanged (host : str) (port : Z) (algorithm recorded presented known_hosts_path : str)
      (known_hosts_line : nat)
  | SeHostKeyRevoked (host : str) (port : Z) (known_hosts_path : str) (known_hosts_line : nat)
  | SeConnected
  | SeReconnecting (attempt max_attempts delay_ms : Z)
  | SeDisconnected (reason : str)
  | SeExited (code : option Z)
  | SeError (message : str)
  | SeWarning (message : str).

(** [StreamStatsDto] *)
Record StreamStatsDto := MkStatsDto {
  ss_bytes_in : Z;
  ss_newlines_in : Z;
  ss_frames_out : Z;
  ss_bytes_out : Z;
  ss_max_frame_bytes : Z;
  ss_pause_count : Z;
  ss_paused_ms : Z;
  ss_elapsed_ms : Z
}.
