(* ===== verification/StoreCommands.v ===== *)
(** * The host, folder, tag, known-hosts, import and key commands

    [apps/desktop/src/store_commands.rs].  A command runs on the desktop's
    state: the store, the OS keyring and Tern's [known_hosts] file.  Each
    [blocking] closure runs to its end on one thread, and its error is kept by
    cause rather than by text.  Every write reads the clock: its value is an
    argument of the command ([now], [now'] when it writes twice).  Commands
    carry [_cmd] when a repository method has their name. *)
From S2P Require Import Prelude Text Lex Path SshParse Model Database Forest StoreInv Folders Hosts.
From S2P Require Import Tags Settings SshImport KnownHosts Vault Auth Session Keys Proto.

Inductive CmdError :=
  | StoreFailed (e : StoreError)
  | VaultFailed (e : VaultError)
  | KnownHostsFailed (e : KnownHostsError)
  | NoSuchHost (id : HostId)
  | KeyFailed (e : SshError).

Record Desktop `{Keyring} := MkDesktop {
  d_store : Store;
  d_keyring : kr;
  d_known_hosts : file_state
}.

Section monad.
Context `{Keyring}.

Definition C (A : Type) : Type := Desktop → result CmdError A * Desktop.

#[export] Instance C_ret : MRet C := λ A a s, (Ok a, s).
#[export] Instance C_bind : MBind C := λ A B f m s,
  match m s with
  | (Ok a, s) => f a s
  | (Err e, s) => (Err e, s)
  end.

Definition fail {A} (e : CmdError) : C A := λ s, (Err e, s).

(** A repository call, a keyring call and a call on the file, each with
    [.map_err(|e| e.to_string())?]. *)
Definition on_store {A} (m : M A) : C A := λ s,
  let '(r, store) := m (d_store s) in
  (map_err StoreFailed r, MkDesktop _ store (d_keyring s) (d_known_hosts s)).
Definition on_keyring {A} (m : K A) : C A := λ s,
  let '(r, k) := m (d_keyring s) in
  (map_err VaultFailed r, MkDesktop _ (d_store s) k (d_known_hosts s)).
Definition on_known_hosts {A} (m : file_state → result KnownHostsError A * file_state) : C A := λ s,
  let '(r, file) := m (d_known_hosts s) in
  (map_err KnownHostsFailed r, MkDesktop _ (d_store s) (d_keyring s) file).

(** [let _ = ...]: the outcome is ignored. *)
Definition best_effort {A} (m : C A) : C () := λ s, (Ok (), (m s).2).
End monad.

(** * Conversions *)
Definition auth_kind (dto : AuthKindDto) : AuthKind :=
  match dto with DAgent => Agent | DKeyFile => KeyFile | DPassword => Password end.
Definition auth_kind_dto (kind : AuthKind) : AuthKindDto :=
  match kind with Agent => DAgent | KeyFile => DKeyFile | Password => DPassword end.

Definition overrides (dto : HostOverridesDto) : HostOverrides := {|
  o_term := od_term dto;
  o_keepalive_secs := od_keepalive_secs dto;
  o_keepalive_max := od_keepalive_max dto;
  o_connect_timeout_secs := od_connect_timeout_secs dto;
  o_window_size := od_window_size dto;
  o_reconnect_enabled := od_reconnect_enabled dto;
  o_reconnect_max_attempts := od_reconnect_max_attempts dto
|}.
Definition overrides_dto (o : HostOverrides) : HostOverridesDto := {|
  od_term := o_term o;
  od_keepalive_secs := o_keepalive_secs o;
  od_keepalive_max := o_keepalive_max o;
  od_connect_timeout_secs := o_connect_timeout_secs o;
  od_window_size := o_window_size o;
  od_reconnect_enabled := o_reconnect_enabled o;
  od_reconnect_max_attempts := o_reconnect_max_attempts o
|}.

(** [secret_ref] becomes a bare boolean. *)
Definition host_dto (host : Host) : HostDto := {|
  hd_id := h_id host;
  hd_folder_id := h_folder_id host;
  hd_name := h_name host;
  hd_hostname := h_hostname host;
  hd_port := h_port host;
  hd_username := h_username host;
  hd_auth := auth_kind_dto (h_auth host);
  hd_auth_fallbacks := auth_kind_dto <$> h_auth_fallbacks host;
  hd_has_secret := match h_secret_ref host with Some _ => true | None => false end;
  hd_key_path := h_key_path host;
  hd_overrides := overrides_dto (h_overrides host);
  hd_proxy_jump := h_proxy_jump host;
  hd_source := HostSource_as_str (h_source host);
  hd_color := h_color host;
  hd_notes := h_notes host;
  hd_last_connected_at := h_last_connected_at host;
  hd_connect_count := h_connect_count host;
  hd_tags := h_tags host
|}.

(** The draft [create_host] builds. *)
Definition draft_from (host : NewHostDto) : NewHost :=
  MkNewHost (nd_folder_id host) (nd_name host) (nd_hostname host) (nd_port host) (nd_username host)
    (auth_kind (nd_auth host)) (auth_kind <$> nd_auth_fallbacks host) None (nd_key_path host)
    (overrides (nd_overrides host)) (nd_proxy_jump host) Manual None (nd_color host) (nd_notes host).

(** [existing] with the fields [update_host] takes from the DTO. *)
Definition edited (existing : Host) (host : HostDto) : Host :=
  MkHost (h_id existing) (hd_folder_id host) (hd_name host) (hd_hostname host) (hd_port host)
    (hd_username host) (auth_kind (hd_auth host)) (auth_kind <$> hd_auth_fallbacks host)
    (h_secret_ref existing) (hd_key_path host) (overrides (hd_overrides host)) (hd_proxy_jump host)
    (h_source existing) (h_source_alias existing) (hd_color host) (hd_notes host)
    (h_last_connected_at existing) (h_connect_count existing) (h_created_at existing)
    (h_updated_at existing) (h_tags existing).

Definition with_secret_ref (host : Host) (secret_ref : option str) : Host :=
  MkHost (h_id host) (h_folder_id host) (h_name host) (h_hostname host) (h_port host)
    (h_username host) (h_auth host) (h_auth_fallbacks host) secret_ref (h_key_path host)
    (h_overrides host) (h_proxy_jump host) (h_source host) (h_source_alias host) (h_color host)
    (h_notes host) (h_last_connected_at host) (h_connect_count host) (h_created_at host)
    (h_updated_at host) (h_tags host).

Definition warning_dto (w : Warning) : SshConfigWarningDto :=
  match w with
  | MatchUnsupported file line => DMatchUnsupported file line
  | IncludeCycle file line => DIncludeCycle file line
  | IncludeUnreadable file line pattern => DIncludeUnreadable file line pattern
  | UnsupportedKeyword file line keyword => DUnsupportedKeyword file line keyword
  end.

Definition candidate_dto (c : Candidate) : SshConfigCandidateDto := {|
  cd_alias := c_alias c;
  cd_hostname := c_hostname c;
  cd_port := c_port c;
  cd_username := c_username c;
  cd_auth := auth_kind_dto (c_auth c);
  cd_key_path := c_key_path c;
  cd_proxy_jump := c_proxy_jump c;
  cd_overrides := overrides_dto (c_overrides c);
  cd_disposition := match c_disposition c with New => #"new" | Update => #"update" end
|}.

Definition key_info_dto (info : KeyInfo) : KeyInfoDto := {|
  kd_format := KeyFormat_as_str (k_format info);
  kd_ppk_version := match k_format info with Ppk version => Some version | _ => None end;
  kd_encrypted := k_encrypted info;
  kd_key_algorithm := k_algorithm info;
  kd_key_fingerprint := k_fingerprint info;
  kd_comment := k_comment info
|}.

(** * Commands *)
Section commands.
Context `{Keyring} `{Engine}.

(** [.ok_or_else(|| format!("no such host {id}"))?] *)
Definition existing_host (id : HostId) : C Host :=
  found ← on_store (get_host id);
  match found with Some host => mret host | None => fail (NoSuchHost id) end.

Definition store_secret_for (id : HostId) (secret : str) (now : Z) : C () :=
  host ← existing_host id;
  match account_for host with
  | None => mret ()
  | Some account =>
      on_keyring (set_secret account secret);;
      on_store (update_host_row (with_secret_ref host (Some account)) now)
  end.

Definition clear_secret_for (id : HostId) (now : Z) : C () :=
  host ← existing_host id;
  match h_secret_ref host with
  | Some account =>
      on_keyring (clear_secret account);;
      on_store (update_host_row (with_secret_ref host None) now)
  | None => mret ()
  end.

Definition list_hosts_cmd (filter : HostFilterDto) : C (list HostDto) :=
  hosts ← on_store (list_hosts (MkFilter (fd_query filter) (fd_folder_id filter) (fd_tag_ids filter)
                                  (fd_limit filter)));
  mret (host_dto <$> hosts).

Definition get_host_cmd (id : HostId) : C (option HostDto) :=
  host ← on_store (get_host id); mret (host_dto <$> host).

Definition create_host (host : NewHostDto) (secret : option str) (now now' : Z) : C HostId :=
  id ← on_store (create_host_row (draft_from host) now);
  match nd_tags host with [] => mret () | _ => on_store (set_tags id (nd_tags host)) end;;
  match secret with
  | Some ((_ :: _) as secret) => store_secret_for id secret now'
  | _ => mret ()
  end;;
  mret id.

Definition update_host (host : HostDto) (secret : SecretUpdateDto) (now now' : Z) : C () :=
  existing ← existing_host (hd_id host);
  on_store (update_host_row (edited existing host) now);;
  on_store (set_tags (hd_id host) (hd_tags host));;
  match secret with
  | Unchanged => mret ()
  | SetSecret secret => store_secret_for (hd_id host) secret now'
  | ClearSecret => clear_secret_for (hd_id host) now'
  end.

Definition delete_host_cmd (id : HostId) : C () :=
  best_effort (on_keyring (clear_secret (password_account id)));;
  best_effort (on_keyring (clear_secret (passphrase_account id)));;
  on_store (delete_host id).

Definition move_host (id : HostId) (folder_id : option FolderId) (now : Z) : C () :=
  on_store (move_to_folder id folder_id now).
Definition set_host_tags (id : HostId) (tag_ids : list TagId) : C () := on_store (set_tags id tag_ids).

Definition list_folders : C (list FolderDto) :=
  folders ← on_store tree;
  mret ((λ f, MkFolderDto (f_id f) (f_parent_id f) (f_name f) (f_position f)) <$> folders).
Definition create_folder (parent_id : option FolderId) (name : str) (now : Z) : C FolderId :=
  on_store (create parent_id name now).
Definition rename_folder (id : FolderId) (name : str) (now : Z) : C () := on_store (rename id name now).
Definition move_folder (id : FolderId) (parent_id : option FolderId) (now : Z) : C () :=
  on_store (reparent id parent_id now).
Definition delete_folder_cmd (id : FolderId) : C () := on_store (delete_folder id).

Definition list_tags_cmd : C (list TagDto) :=
  tags ← on_store list_tags;
  mret ((λ t, MkTagDto (t_id t) (t_name t) (t_color t)) <$> tags).
Definition create_tag (name : str) (color : option str) (now : Z) : C TagId :=
  on_store (get_or_create name color now).
Definition delete_tag_cmd (id : TagId) : C () := on_store (delete_tag id).

Definition keyring_status : C KeyringStatusDto := λ s,
  let '(a, k) := keyring_availability (d_keyring s) in
  (Ok match a with
      | Available => MkKeyringStatusDto true None
      | Unavailable reason => MkKeyringStatusDto false (Some reason)
      end, MkDesktop _ (d_store s) k (d_known_hosts s)).

Definition get_appearance `{!SerdeJson AppearanceDto} : C AppearanceDto :=
  stored ← on_store (get KEY_APPEARANCE); mret (default appearance_default stored).
Definition set_appearance `{!SerdeJson AppearanceDto} (appearance : AppearanceDto) (now : Z) : C () :=
  on_store (set KEY_APPEARANCE appearance now).

Section known_hosts.
Context `{SshKeys}.

Definition list_known_hosts : C (list KnownHostEntryDto) :=
  found ← on_known_hosts (λ file, (entries file, file));
  mret ((λ e, MkKnownHostEntryDto (e_line e) (e_patterns e) (e_algorithm e) (e_fingerprint e)
                (e_marker e) (e_hashed e)) <$> found).

Definition remove_known_host (d : disk) (host : str) (port : Z) : C nat :=
  on_known_hosts (remove d host port).

Definition default_user_known_hosts `{FileSystem} : str :=
  match home with
  | None => #".ssh/known_hosts"
  | Some home => path_join home #".ssh/known_hosts"
  end.

(** [open_path]: what is on disk at the source's path. *)
Definition import_known_hosts `{FileSystem} (open_path : str → file_state) (d : disk)
    (source : option str) : C KnownHostsImportReportDto :=
  report ← on_known_hosts (import_from d (open_path (default default_user_known_hosts source)));
  mret (MkKnownHostsImportReportDto (total report) (imported_lines report) (duplicates report)
          (skipped_cert_authority report) (malformed report)).
End known_hosts.

Section ssh_config.
Context `{FileSystem, Lowercase}.

Definition scan_ssh_config (path : option str) : C SshConfigScanDto :=
  scan ← on_store (scan_config (default default_path path));
  mret (MkScanDto (sc_source scan) (candidate_dto <$> sc_candidates scan)
          (warning_dto <$> sc_warnings scan)).

(** The file is scanned again; only aliases found there can be imported. *)
Definition chosen_of (names : list str) (candidates : list Candidate) : list Candidate :=
  filter (λ c, c_alias c ∈ names) candidates.
Definition import_ssh_config (names : list str) (path : option str) (now : Z) :
    C SshConfigImportResultDto :=
  scan ← on_store (scan_config (default default_path path));
  outcome ← on_store (apply_import now (chosen_of names (sc_candidates scan)));
  mret (MkImportResultDto (created outcome) (updated outcome)).
End ssh_config.

(** Both read a file and nothing else of the desktop. *)
Section keys.
Context `{!KeyCodec, !Lowercase} (quote : str → str) (key_disk : str → result str str).

Definition inspect_key (path : str) : C KeyInfoDto := λ s,
  (map_err KeyFailed (key_info_dto <$> inspect quote key_disk path), s).
Definition verify_key_passphrase (path : str) (passphrase : option str) : C KeyInfoDto := λ s,
  (map_err KeyFailed (key_info_dto <$> unlock quote key_disk path passphrase), s).
End keys.
End commands.

(** * A saved secret reaches the transport *)
Section secrets.
Context `{Keyring} `{Engine}.

Lemma C_bind_eq {A B} (m : C A) (f : A → C B) s :
  (m ≫= f) s = match m s with (Ok a, s) => f a s | (Err e, s) => (Err e, s) end.
Proof. done. Qed.

Lemma C_bind_Ok {A B} (m : C A) (f : A → C B) s b s' :
  (m ≫= f) s = (Ok b, s') ↔ ∃ a s1, m s = (Ok a, s1) ∧ f a s1 = (Ok b, s').
Proof. rewrite C_bind_eq. destruct (m s) as [[a|e] s1]; naive_solver. Qed.

Lemma on_store_Ok {A} (m : M A) s a s' :
  on_store m s = (Ok a, s') →
  m (d_store s) = (Ok a, d_store s') ∧ d_keyring s' = d_keyring s ∧
  d_known_hosts s' = d_known_hosts s.
Proof. unfold on_store. destruct (m (d_store s)) as [[]]; simpl; by intros [= <- <-]. Qed.

Lemma on_keyring_Ok {A} (m : K A) s a s' :
  on_keyring m s = (Ok a, s') →
  m (d_keyring s) = (Ok a, d_keyring s') ∧ d_store s' = d_store s ∧
  d_known_hosts s' = d_known_hosts s.
Proof. unfold on_keyring. destruct (m (d_keyring s)) as [[]]; simpl; by intros [= <- <-]. Qed.

Lemma existing_host_Ok id s host s' :
  existing_host id s = (Ok host, s') →
  s' = s ∧ poisoned (d_store s) = false ∧
  ∃ r h, hosts (db (d_store s)) !! id = Some r ∧ row_to_host id r = Ok h ∧
    host = with_tags h (tags_for (db (d_store s)) (h_id h)).
Proof.
  unfold existing_host. intros ([found|] & s1 & Hg & He)%C_bind_Ok; [|done]. injection He as -> ->.
  destruct s as [st k f], s' as [st' k' f'].
  apply on_store_Ok in Hg as (Hg & Hk & Hf). simpl in *. subst k' f'.
  destruct (poisoned st) eqn:Hp.
  { unfold get_host in Hg. rewrite M_bind_eq in Hg. unfold lock in Hg. by rewrite Hp in Hg. }
  rewrite get_host_run in Hg by done. destruct (hosts (db st) !! id) as [r|]; [|done].
  unfold read_host in Hg. simpl in Hg. destruct (row_to_host id r) as [h|] eqn:Hr; [|done].
  simpl in Hg. injection Hg as <- <-. split_and!; [done..|]. by exists r, h.
Qed.

Lemma account_for_with_tags host ts : account_for (with_tags host ts) = account_for host.
Proof. done. Qed.

(** Saving a secret for a host that is on file. *)
Lemma store_secret_for_Ok `{!KeyringLaws} id secret now s s' :
  db_ok (db (d_store s)) → readable (db (d_store s)) →
  store_secret_for id secret now s = (Ok (), s') →
  ∃ host, existing_host id s = (Ok host, s) ∧
  match account_for host with
  | None => s' = s
  | Some a =>
      (get_password keyring a (d_keyring s')).1 = Ok secret ∧
      (∀ b, b ≠ a → (get_password keyring b (d_keyring s')).1 = (get_password keyring b (d_keyring s)).1) ∧
      ∃ old, hosts (db (d_store s)) !! id = Some old ∧
        get_host id (d_store s') =
          (Ok (Some (host_updated (with_secret_ref host (Some a)) old now
             (tags_for (db (d_store s)) id))), d_store s')
  end.
Proof.
  intros Hd Hr (host & s1 & He & Hrest)%C_bind_Ok. pose proof (existing_host_Ok _ _ _ _ He)
    as (-> & Hp & r & h & Hrow & Hread & Hhost).
  exists host. split; [done|]. destruct (account_for host) as [a|]; [|by injection Hrest as <-].
  apply C_bind_Ok in Hrest as ([] & s2 & Hset & Hup).
  apply on_keyring_Ok in Hset as (Hset & Hst & _). apply on_store_Ok in Hup as (Hup & Hk & _).
  rewrite Hst in Hup. rewrite Hk.
  unfold set_secret, set_password, with_entry in Hset.
  unfold get_password, with_entry. destruct (kr_entry (service keyring) a) eqn:Hentry; [done|].
  destruct (kr_set (service keyring) a secret (d_keyring s)) as [[[]|e] k'] eqn:Hks; [|done].
  injection Hset as Hk'. split_and!.
  - rewrite <-Hk'. cbn [fst]. by rewrite (kr_get_set _ _ _ _ _ Hks).
  - intros b Hb. destruct (kr_entry (service keyring) b); [done|]. cbn [fst]. rewrite <-Hk'.
    pose proof (kr_get_set_ne (service keyring) a secret (d_keyring s) b Hb) as Hne.
    rewrite Hks in Hne. cbn [snd] in Hne. by rewrite Hne.
  - assert (h_id host = id) as Hid by (subst host; by apply row_reads_history in Hread as [? _]).
    assert (host_wf host) as Hwf.
    { subst host. apply (row_reads_wf id r h); [by apply (ok_rows _ Hd id)|done]. }
    apply update_get in Hup as (_ & old & Hold & Hg & _); [|done..].
    simpl in Hold, Hg. rewrite Hid in Hold, Hg. by exists old.
Qed.

(** A host whose [secret_ref] is its own account sends what is saved there. *)
Lemma chain_uses_secret host k secret :
  h_secret_ref host = account_for host →
  (∀ a, account_for host = Some a → (get_password keyring a k).1 = Ok secret) →
  ∀ m, m ∈ methods (auth_for_host host k).1 →
  match m with MPassword p => p = secret | MKeyFile _ p => p = Some secret | MAgent => True end.
Proof.
  intros Href Hsaved m. destruct (auth_for_host_methods host k) as (note & -> & _).
  cbn [fst methods]. intros (kind & -> & Hkind)%list_elem_of_fmap.
  assert (kind ∈ h_auth host :: h_auth_fallbacks host) as Hin.
  { apply elem_of_cons in Hkind as [->|Hf]; [by left|]. right.
    by apply list_elem_of_filter in Hf as [_ ?]. }
  unfold saved_secret. rewrite Href. destruct (account_for host) as [a|] eqn:Ha.
  - simpl. rewrite (Hsaved a eq_refl). by destruct kind.
  - pose proof (proj1 (Forall_forall _ _) (proj1 (find_map_None _ _) Ha) kind Hin) as Hnone. by destruct kind.
Qed.

(** Creating the row and its tags. *)
Lemma create_row_and_tags dto now s id s1 s2 :
  db_ok (db (d_store s)) → readable (db (d_store s)) → poisoned (d_store s) = false →
  new_host_wf (draft_from dto) →
  on_store (create_host_row (draft_from dto) now) s = (Ok id, s1) →
  (match nd_tags dto with [] => mret () | _ => on_store (set_tags id (nd_tags dto)) end) s1 =
    (Ok (), s2) →
  db_ok (db (d_store s2)) ∧ readable (db (d_store s2)) ∧ d_keyring s2 = d_keyring s ∧
  ∃ ts, existing_host id s2 = (Ok (with_tags (host_of_draft id (draft_from dto) now) ts), s2).
Proof.
  intros Hd Hr Hp Hwf (Hc & Hk1 & _)%on_store_Ok Ht.
  pose proof (create_host_row_keeps (draft_from dto) now Hwf (d_store s) Hd) as Hd1.
  rewrite Hc in Hd1. cbn [snd] in Hd1.
  destruct (create_get _ _ _ _ _ Hd Hp Hwf Hc) as (_ & Hp1 & Hg & Hother).
  assert (db_ok (db (d_store s2)) ∧ hosts (db (d_store s2)) = hosts (db (d_store s1)) ∧
    poisoned (d_store s2) = false ∧ d_keyring s2 = d_keyring s1) as (Hd2 & Hh2 & Hp2 & Hk2).
  { destruct (nd_tags dto) as [|t ts]; [by injection Ht as <-|].
    apply on_store_Ok in Ht as (Ht & Hk & _).
    pose proof (set_tags_keeps id (t :: ts) (d_store s1) Hd1) as Hd2. rewrite Ht in Hd2.
    by destruct (set_tags_Ok _ _ _ _ Hp1 Ht) as (? & ? & _). }
  rewrite get_host_run in Hg by done. destruct (hosts (db (d_store s1)) !! id) as [r|] eqn:Hrow; [|done].
  unfold read_host in Hg. cbn [fst snd] in Hg.
  destruct (row_to_host id r) as [h|] eqn:Hrd; [|done].
  apply (f_equal (λ x, default (host_of_draft id (draft_from dto) now) (mjoin (ok x.1)))) in Hg.
  cbn in Hg.
  split_and!; [done| |congruence|].
  - intros j rj Hj. rewrite Hh2 in Hj. destruct (decide (j = id)) as [->|Hne].
    + rewrite Hrow in Hj. injection Hj as <-. by apply row_reads_history in Hrd as (_ & _ & _ & _ & ?).
    + rewrite Hother in Hj by done. by eapply Hr.
  - exists (tags_for (db (d_store s2)) (h_id h)).
    unfold existing_host. rewrite C_bind_eq. unfold on_store. rewrite get_host_run, Hh2, Hrow by done.
    unfold read_host. cbn [fst snd]. rewrite Hrd. cbn.
    rewrite <-Hg. by destruct s2.
Qed.

(** C16: a password or passphrase given when a host is created is what its
    connections authenticate with: the record names the account the secret was
    saved under, and every credentialed method of the chain carries it. *)
Theorem created_secret_reaches_transport `{!KeyringLaws} dto secret now now' s id s' :
  db_ok (db (d_store s)) → readable (db (d_store s)) → poisoned (d_store s) = false →
  new_host_wf (draft_from dto) → secret ≠ [] →
  create_host dto (Some secret) now now' s = (Ok id, s') →
  ∃ host, get_host id (d_store s') = (Ok (Some host), d_store s') ∧
    h_auth host = auth_kind (nd_auth dto) ∧
    h_auth_fallbacks host = auth_kind <$> nd_auth_fallbacks dto ∧
    h_secret_ref host = account_for host ∧
    ∀ m, m ∈ methods (auth_for_host host (d_keyring s')).1 →
      match m with MPassword p => p = secret | MKeyFile _ p => p = Some secret | MAgent => True end.
Proof.
  intros Hd Hr Hp Hwf Hne (id' & s1 & Hc & Hrest)%C_bind_Ok.
  apply C_bind_Ok in Hrest as ([] & s2 & Ht & Hrest).
  apply C_bind_Ok in Hrest as ([] & s3 & Hs & [= <- <-]).
  destruct secret as [|c secret]; [done|].
  destruct (create_row_and_tags dto now s id' s1 s2) as (Hd2 & Hr2 & _ & ts & He); [done..|].
  apply store_secret_for_Ok in Hs as (host & He' & Hs); [|done..].
  rewrite He in He'. injection He' as <-. rewrite account_for_with_tags in Hs.
  destruct (account_for (host_of_draft id' (draft_from dto) now)) as [a|] eqn:Ha.
  - destruct Hs as (Hpw & _ & old & _ & Hg). eexists. split; [exact Hg|]. split_and!; [done|done|exact (eq_sym Ha)|].
    apply chain_uses_secret; [exact (eq_sym Ha)|]. intros a'.
    change (account_for _) with (account_for (host_of_draft id' (draft_from dto) now)).
    rewrite Ha. by intros [= <-].
  - subst s3. eexists. split.
    { apply existing_host_Ok in He as (_ & Hp2 & r & h & Hrow & Hrd & Hhost).
      rewrite get_host_run, Hrow by done. unfold read_host. cbn [fst snd]. rewrite Hrd. cbn [map_err mbind result_bind].
      rewrite <-Hhost. done. }
    split_and!; [done..| |].
    + cbn [h_secret_ref with_tags host_of_draft draft_from n_secret_ref]. exact (eq_sym Ha).
    + apply chain_uses_secret; [exact (eq_sym Ha)|]. intros a'.
      change (account_for _) with (account_for (host_of_draft id' (draft_from dto) now)).
      by rewrite Ha.
Qed.

(** * Deleting a host *)

Lemma clear_secret_gone `{!KeyringLaws} a k :
  (clear_secret a k).1 = Ok () → (get_password keyring a (clear_secret a k).2).1 = Err VNotFound.
Proof.
  unfold clear_secret, delete_credential, get_password, with_entry.
  destruct (kr_entry (service keyring) a) as [[]|]; [done..|].
  destruct (kr_delete (service keyring) a k) as [[[]|[]] k'] eqn:Hdel;
    cbn [map_err vault_error_from fst snd]; [..|done]; intros _.
  - by rewrite (kr_get_deleted _ _ _ _ Hdel).
  - by rewrite (kr_get_no_entry _ _ _ _ Hdel).
Qed.

Lemma clear_secret_other `{!KeyringLaws} a b k :
  b ≠ a → (get_password keyring b (clear_secret a k).2).1 = (get_password keyring b k).1.
Proof.
  intros Hb. unfold clear_secret, delete_credential, get_password, with_entry.
  destruct (kr_entry (service keyring) a) as [[]|]; [done..|].
  destruct (kr_entry (service keyring) b); [by repeat case_match|].
  pose proof (kr_get_delete_ne (service keyring) a k b Hb) as Hne.
  destruct (kr_delete (service keyring) a k) as [[[]|[]] k']; cbn [map_err vault_error_from fst snd] in *;
    by rewrite Hne.
Qed.

(** C37: deleting a host leaves none of its credentials behind, under either of
    its accounts, and touches no other account; a keyring that fails does not
    stop the deletion. *)
Theorem delete_host_forgets `{!KeyringLaws} id s :
  let r := delete_host_cmd id s in
  r.1 = map_err StoreFailed (delete_host id (d_store s)).1 ∧
  d_store r.2 = (delete_host id (d_store s)).2 ∧
  ((∀ a k, (clear_secret a k).1 = Ok ()) →
    (get_password keyring (password_account id) (d_keyring r.2)).1 = Err VNotFound ∧
    (get_password keyring (passphrase_account id) (d_keyring r.2)).1 = Err VNotFound) ∧
  ∀ b, b ≠ password_account id → b ≠ passphrase_account id →
    (get_password keyring b (d_keyring r.2)).1 = (get_password keyring b (d_keyring s)).1.
Proof.
  set (k1 := (clear_secret (password_account id) (d_keyring s)).2).
  set (k2 := (clear_secret (passphrase_account id) k1).2).
  assert (delete_host_cmd id s =
    (map_err StoreFailed (delete_host id (d_store s)).1,
     MkDesktop _ (delete_host id (d_store s)).2 k2 (d_known_hosts s))) as ->.
  { destruct s as [st k f]. unfold delete_host_cmd, best_effort, on_keyring, on_store, k2, k1.
    rewrite !C_bind_eq. cbn [d_store d_keyring d_known_hosts].
    destruct (clear_secret (password_account id) k) as [r1 k1']. cbn [fst snd d_store d_keyring d_known_hosts].
    destruct (clear_secret (passphrase_account id) k1') as [r2 k2'].
    cbn [fst snd d_store d_keyring d_known_hosts]. by destruct (delete_host id st). }
  cbn [fst snd d_store d_keyring]. split_and!; [done..| |].
  - intros Hok. split; unfold k2.
    + rewrite clear_secret_other by (apply accounts_disjoint). by apply clear_secret_gone.
    + by apply clear_secret_gone.
  - intros b Hb1 Hb2. unfold k2, k1. by rewrite !clear_secret_other.
Qed.

(** * Editing a host *)

Lemma edited_wf existing dto :
  in_u16 (hd_port dto) → overrides_wf (overrides (hd_overrides dto)) → host_wf (edited existing dto).
Proof. by split. Qed.

Lemma auth_kind_inverse k : auth_kind_dto (auth_kind k) = k.
Proof. by destruct k. Qed.
Lemma auth_kinds_inverse (ks : list AuthKindDto) : auth_kind_dto <$> (auth_kind <$> ks) = ks.
Proof. induction ks as [|k ks IH]; [done|].
  cbn. by rewrite auth_kind_inverse; f_equal. Qed.
Lemma overrides_inverse o : overrides_dto (overrides o) = o.
Proof. by destruct o. Qed.

(** Clearing the secret of a host that is on file. *)
Lemma clear_secret_for_Ok `{!KeyringLaws} id now s s' :
  db_ok (db (d_store s)) → readable (db (d_store s)) →
  clear_secret_for id now s = (Ok (), s') →
  ∃ host, existing_host id s = (Ok host, s) ∧
  match h_secret_ref host with
  | None => s' = s
  | Some a =>
      (get_password keyring a (d_keyring s')).1 = Err VNotFound ∧
      (∀ b, b ≠ a → (get_password keyring b (d_keyring s')).1 = (get_password keyring b (d_keyring s)).1) ∧
      ∃ old, hosts (db (d_store s)) !! id = Some old ∧
        get_host id (d_store s') =
          (Ok (Some (host_updated (with_secret_ref host None) old now
             (tags_for (db (d_store s)) id))), d_store s')
  end.
Proof.
  intros Hd Hr (host & s1 & He & Hrest)%C_bind_Ok. pose proof (existing_host_Ok _ _ _ _ He)
    as (-> & Hp & r & h & Hrow & Hread & Hhost).
  exists host. split; [done|]. destruct (h_secret_ref host) as [a|]; [|by injection Hrest as <-].
  apply C_bind_Ok in Hrest as ([] & s2 & Hclear & Hup).
  apply on_keyring_Ok in Hclear as (Hclear & Hst & _). apply on_store_Ok in Hup as (Hup & Hk & _).
  rewrite Hst in Hup. rewrite Hk.
  pose proof (clear_secret_gone a (d_keyring s)) as Hgone.
  pose proof (λ b Hb, clear_secret_other a b (d_keyring s) Hb) as Hother.
  rewrite Hclear in Hgone, Hother. cbn [fst snd] in Hgone, Hother. split_and!; [by apply Hgone|done|].
  assert (h_id host = id) as Hid by (subst host; by apply row_reads_history in Hread as [? _]).
  assert (host_wf host) as Hwf.
  { subst host. apply (row_reads_wf id r h); [by apply (ok_rows _ Hd id)|done]. }
  apply update_get in Hup as (_ & old & Hold & Hg & _); [|done..].
  simpl in Hold, Hg. rewrite Hid in Hold, Hg. by exists old.
Qed.

(** What the webview sees of a host, but for the credential, is what the form
    held, and the rest is as it was. *)
Definition reads_as_edited (existing : Host) (dto : HostDto) (host : Host) : Prop :=
  h_source_alias host = h_source_alias existing ∧ h_created_at host = h_created_at existing ∧
  (∀ t, t ∈ h_tags host ↔ t ∈ hd_tags dto) ∧
  host_dto host =
    MkHostDto (hd_id dto) (hd_folder_id dto) (hd_name dto) (hd_hostname dto) (hd_port dto)
      (hd_username dto) (hd_auth dto) (hd_auth_fallbacks dto)
      (match h_secret_ref host with Some _ => true | None => false end)
      (hd_key_path dto) (hd_overrides dto) (hd_proxy_jump dto) (hd_source (host_dto existing))
      (hd_color dto) (hd_notes dto) (h_last_connected_at existing) (h_connect_count existing)
      (h_tags host).

(** The row and the tags, before the credential. *)
Lemma edit_stored dto existing now s s1 s2 :
  db_ok (db (d_store s)) → readable (db (d_store s)) →
  in_u16 (hd_port dto) → overrides_wf (overrides (hd_overrides dto)) →
  existing_host (hd_id dto) s = (Ok existing, s) →
  on_store (update_host_row (edited existing dto) now) s = (Ok (), s1) →
  on_store (set_tags (hd_id dto) (hd_tags dto)) s1 = (Ok (), s2) →
  db_ok (db (d_store s2)) ∧ readable (db (d_store s2)) ∧ poisoned (d_store s2) = false ∧
  d_keyring s2 = d_keyring s ∧ h_id existing = hd_id dto ∧
  ∃ r, hosts (db (d_store s2)) !! hd_id dto = Some r ∧
    let host := host_updated (edited existing dto) r now (tags_for (db (d_store s2)) (hd_id dto)) in
    existing_host (hd_id dto) s2 = (Ok host, s2) ∧ reads_as_edited existing dto host.
Proof.
  intros Hd Hr Hport Hov He (Hup & Hk1 & _)%on_store_Ok (Htags & Hk2 & _)%on_store_Ok.
  apply existing_host_Ok in He as (_ & Hp & r & h & Hrow & Hread & Hex).
  pose proof (row_reads_history _ _ _ Hread) as (Hid & Hlast & Hcount & Hcreated & _).
  assert (h_id (edited existing dto) = hd_id dto) as Hide by (by subst existing).
  pose proof (edited_wf existing dto Hport Hov) as Hwf.
  pose proof (update_host_row_keeps (edited existing dto) now Hwf (d_store s) Hd) as Hd1.
  rewrite Hup in Hd1. cbn [snd] in Hd1.
  pose proof (set_tags_keeps (hd_id dto) (hd_tags dto) (d_store s1) Hd1) as Hd2. rewrite Htags in Hd2.
  apply update_get in Hup as (Hp1 & old & Hold & _ & Hdb); [|done..].
  rewrite Hide in Hold, Hdb. rewrite Hrow in Hold. injection Hold as <-.
  destruct (set_tags_Ok _ _ _ _ Hp1 Htags) as (Hh2 & Hp2 & Ht).
  assert (hosts (db (d_store s2)) !! hd_id dto = Some (updated_row (edited existing dto) now r)) as Hrow2
    by (rewrite Hh2, Hdb; cbn [hosts set_hosts]; apply lookup_insert_eq).
  split_and!; [done| |done|congruence|by subst existing|].
  { intros j rj. rewrite Hh2, Hdb. cbn [hosts set_hosts].
    intros [[<- <-]|[_ Hj]]%lookup_insert_Some; [exact (Hr _ _ Hrow)|by eapply Hr]. }
  exists (updated_row (edited existing dto) now r). split; [done|]. split.
  - unfold existing_host. rewrite C_bind_eq. unfold on_store. rewrite get_host_run, Hrow2 by done.
    unfold read_host. cbn [fst snd]. rewrite <-Hide at 1. rewrite updated_row_reads by eauto.
    cbn. unfold edited at 1 in Hide. cbn in Hide. rewrite Hide. by destruct s2.
  - unfold reads_as_edited. cbn [h_source_alias h_created_at h_tags host_updated edited].
    split_and!; [done|by subst existing|intros t; by rewrite tags_for_elem|].
    unfold host_dto. subst existing. cbn.
    by rewrite auth_kind_inverse, auth_kinds_inverse, overrides_inverse, Hid, Hlast, Hcount.
Qed.

(** Recording another account changes nothing else of it. *)
Lemma reads_with_secret_ref existing dto host account old now :
  reads_as_edited existing dto host →
  r_last_connected_at old = h_last_connected_at host → r_connect_count old = h_connect_count host →
  r_created_at old = h_created_at host →
  reads_as_edited existing dto (host_updated (with_secret_ref host account) old now (h_tags host)).
Proof.
  intros (Ha & Hc & Ht & Hdto) Hl Hn Hcr. unfold reads_as_edited. cbn. rewrite Hcr.
  split_and!; [done..|].
  transitivity (let d := host_dto host in
    MkHostDto (hd_id d) (hd_folder_id d) (hd_name d) (hd_hostname d) (hd_port d) (hd_username d)
      (hd_auth d) (hd_auth_fallbacks d) (match account with Some _ => true | None => false end)
      (hd_key_path d) (hd_overrides d) (hd_proxy_jump d) (hd_source d) (hd_color d) (hd_notes d)
      (hd_last_connected_at d) (hd_connect_count d) (hd_tags d)).
  - unfold host_dto. cbn. by rewrite Hl, Hn.
  - by rewrite Hdto.
Qed.

(** C39: an edit that succeeds reads back as it was sent, whatever is done to the
    credential: every field the form holds is stored as sent, while the import
    provenance and the history are kept.  With the credential field untouched, the host
    keeps its account and the keyring is not written; a secret that is set is
    the one the keyring holds for the account of the new chain, which the host
    records (an agent-only chain has none, and nothing is written); a secret
    that is cleared is gone from the account the host recorded, and it records
    none.  No other account changes. *)
Theorem update_host_reads_back `{!KeyringLaws} dto secret existing now now' s s' :
  db_ok (db (d_store s)) → readable (db (d_store s)) →
  in_u16 (hd_port dto) → overrides_wf (overrides (hd_overrides dto)) →
  existing_host (hd_id dto) s = (Ok existing, s) →
  update_host dto secret now now' s = (Ok (), s') →
  ∃ host, get_host (hd_id dto) (d_store s') = (Ok (Some host), d_store s') ∧
    reads_as_edited existing dto host ∧
    let saved a := (get_password keyring a (d_keyring s')).1 in
    let others_kept a := ∀ b, b ≠ a → saved b = (get_password keyring b (d_keyring s)).1 in
    match secret with
    | Unchanged => h_secret_ref host = h_secret_ref existing ∧ d_keyring s' = d_keyring s
    | SetSecret p =>
        match account_for (edited existing dto) with
        | Some a => h_secret_ref host = Some a ∧ saved a = Ok p ∧ others_kept a
        | None => h_secret_ref host = h_secret_ref existing ∧ d_keyring s' = d_keyring s
        end
    | ClearSecret =>
        h_secret_ref host = None ∧
        match h_secret_ref existing with
        | Some a => saved a = Err VNotFound ∧ others_kept a
        | None => d_keyring s' = d_keyring s
        end
    end.
Proof.
  intros Hd Hr Hport Hov He (existing' & s0 & He' & Hrest)%C_bind_Ok.
  rewrite He in He'. injection He' as <- <-.
  apply C_bind_Ok in Hrest as ([] & s1 & Hup & Hrest). apply C_bind_Ok in Hrest as ([] & s2 & Htags & Hrest).
  destruct (edit_stored dto existing now s s1 s2) as (Hd2 & Hr2 & Hp2 & Hk2 & Hid & r & Hrow & He2 & Hedit);
    [done..|]. set (host := host_updated _ _ _ _) in He2, Hedit.
  assert (get_host (hd_id dto) (d_store s2) = (Ok (Some host), d_store s2)) as Hg2.
  { pose proof He2 as (_ & _ & r' & h & Hrow' & Hread & Hhost)%existing_host_Ok.
    rewrite get_host_run, Hrow' by done. unfold read_host. cbn [fst snd]. rewrite Hread. cbn. by rewrite Hhost. }
  assert (∀ account now, reads_as_edited existing dto
    (host_updated (with_secret_ref host account) r now (tags_for (db (d_store s2)) (hd_id dto)))) as Href.
  { intros account t. by apply (reads_with_secret_ref existing dto host account r t). }
  destruct secret as [|p|].
  - injection Hrest as <-. by exists host.
  - apply store_secret_for_Ok in Hrest as (host' & He3 & Hset); [|done..]. rewrite He2 in He3.
    injection He3 as <-. change (account_for host) with (account_for (edited existing dto)) in Hset.
    destruct (account_for (edited existing dto)) as [a|]; [|subst s'; by exists host].
    destruct Hset as (Hpw & Hother & old & Hold & Hg). rewrite Hrow in Hold. injection Hold as <-.
    eexists. split; [exact Hg|]. split; [apply Href|]. split_and!; [done..|]. by rewrite <- Hk2.
  - apply clear_secret_for_Ok in Hrest as (host' & He3 & Hclear); [|done..]. rewrite He2 in He3.
    injection He3 as <-. change (h_secret_ref host) with (h_secret_ref existing) in Hclear.
    destruct (h_secret_ref existing) as [a|] eqn:Href'; [|subst s'; by exists host].
    destruct Hclear as (Hgone & Hother & old & Hold & Hg). rewrite Hrow in Hold. injection Hold as <-.
    eexists. split; [exact Hg|]. split; [apply Href|]. split_and!; [done..|]. by rewrite <- Hk2.
Qed.
End secrets.

(** * On a concrete desktop *)
Definition sample_dto : NewHostDto :=
  MkNewHostDto None #"web" #"web.example" 22 #"ops" DAgent [DPassword] None
    (MkOverridesDto None None None None None None None) None None None [].
Definition sample_desktop : @Desktop map_keyring :=
  @MkDesktop map_keyring (MkStore false empty_db) ∅ Absent.
Definition sample_created : @Desktop map_keyring :=
  (@create_host map_keyring sqlite_max_rowid sample_dto (Some #"pw") 1 2 sample_desktop).2.

Lemma sample_dto_wf : new_host_wf (draft_from sample_dto).
Proof. split; [done|]. by repeat split. Qed.

Lemma created_secret_reaches_transport_witness :
  ∃ host, get_host 1 (d_store sample_created) =
      (Ok (Some host), d_store sample_created) ∧
    h_auth host = Agent ∧ h_auth_fallbacks host = [Password] ∧
    h_secret_ref host = account_for host ∧
    ∀ m, m ∈ methods (@auth_for_host map_keyring host (d_keyring sample_created)).1 →
      match m with MPassword p => p = #"pw" | MKeyFile _ p => p = Some #"pw" | MAgent => True end.
Proof.
  apply (@created_secret_reaches_transport map_keyring sqlite_max_rowid map_keyring_laws sample_dto
    #"pw" 1 2 sample_desktop 1 sample_created); [apply empty_db_ok| |done|apply sample_dto_wf|done|].
  - intros j r. simpl. by rewrite lookup_empty.
  - vm_compute. reflexivity.
Defined.

Lemma delete_host_forgets_witness :
  let r := @delete_host_cmd map_keyring 1 sample_created in
  (@get_password map_keyring keyring (password_account 1) (d_keyring r.2)).1 = Err VNotFound ∧
  (@get_password map_keyring keyring (passphrase_account 1) (d_keyring r.2)).1 = Err VNotFound.
Proof.
  apply (@delete_host_forgets map_keyring map_keyring_laws 1 sample_created).
  intros a k. change (gmap (str * str) str) in k.
  unfold clear_secret, delete_credential, with_entry. generalize keyring. intros o. simpl.
  by destruct (k !! (service o, a)).
Defined.

Definition sample_edit : HostDto :=
  MkHostDto 1 None #"renamed" #"web.example" 2222 #"ops" DAgent [DPassword] true None
    (MkOverridesDto None None None None None None None) None #"manual" None None None 0 [].
Definition sample_edited : @Desktop map_keyring := @MkDesktop map_keyring sample_hosts ∅ Absent.

Lemma update_host_reads_back_witness :
  let s' := (@update_host map_keyring sample_edit (SetSecret #"new") 5 6 sample_edited).2 in
  ∃ host, get_host 1 (d_store s') = (Ok (Some host), d_store s') ∧
    hd_name (host_dto host) = #"renamed" ∧ h_secret_ref host = Some (password_account 1) ∧
    (@get_password map_keyring keyring (password_account 1) (d_keyring s')).1 = Ok #"new".
Proof.
  assert (is_ok (@existing_host map_keyring 1 sample_edited).1 = true) as Hok by (vm_compute; reflexivity).
  destruct (@existing_host map_keyring 1 sample_edited) as [[existing|e] s0] eqn:He; [|done]. clear Hok.
  assert (s0 = sample_edited ∧ h_id existing = 1%Z) as [-> Hid].
  { apply existing_host_Ok in He as (-> & _ & r & h & _ & Hr & ->). split; [done|].
    by apply row_reads_history in Hr as [? _]. }
  destruct (@update_host_reads_back map_keyring map_keyring_laws sample_edit (SetSecret #"new") existing
    5 6 sample_edited (@update_host map_keyring sample_edit (SetSecret #"new") 5 6 sample_edited).2)
    as (host & Hg & (_ & _ & _ & Hdto) & Hsecret).
  - apply sample_hosts_ok.
  - apply (map_Forall_lookup (λ _ r, (r_connect_count r ≤ i64_max)%Z)).
    apply (bool_decide_unpack _). by vm_compute.
  - done.
  - by repeat split.
  - exact He.
  - vm_compute. reflexivity.
  - assert (account_for (edited existing sample_edit) = Some (password_account 1)) as Ha
      by (unfold account_for; cbn; by rewrite Hid).
    cbv zeta in Hsecret. rewrite Ha in Hsecret. destruct Hsecret as (Hs & Hpw & _).
    exists host. split; [exact Hg|]. split; [by rewrite Hdto|]. by split.
Defined.
