(* ===== verification/Secrets.v ===== *)
(** * Secrets do not come back

    [store_commands.rs] promises that no secret and no keyring account reaches
    the webview.  Here that is non-interference: two desktops that differ only
    in the secrets their keyrings hold, given commands that differ only in the
    secrets the user types to be saved, answer alike and stay alike, whatever is
    called.  [cmd] is every command of the file; [verify_key_passphrase] says
    whether a passphrase opens a key file, which is its purpose, so there the
    passphrase is part of the question.

    [BlindKeyring] is what this asks of a credential store.  A store may refuse
    a secret for what it is (the [keyring] crate has [TooLong]), so it says
    which secrets it takes alike, and only those are exchanged. *)
From S2P Require Import Prelude Text Lex Path SshParse Model Database Folders Hosts Tags Settings.
From S2P Require Import SshImport KnownHosts Vault Auth Session Keys Proto StoreCommands.

Class BlindKeyring `{Keyring} := {
  alike : kr → kr → Prop;
  taken_alike : str → str → Prop;
  taken_alike_refl p : taken_alike p p;
  alike_get sv a s t :
    alike s t →
    match kr_get sv a s, kr_get sv a t with
    | Ok _, Ok _ => True
    | Err e, Err e' => e = e'
    | _, _ => False
    end;
  alike_set sv a p q s t :
    taken_alike p q → alike s t →
    (kr_set sv a p s).1 = (kr_set sv a q t).1 ∧ alike (kr_set sv a p s).2 (kr_set sv a q t).2;
  alike_delete sv a s t :
    alike s t → (kr_delete sv a s).1 = (kr_delete sv a t).1 ∧
    alike (kr_delete sv a s).2 (kr_delete sv a t).2
}.

(** The same accounts, whatever their secrets. *)
Definition same_accounts (s t : gmap (str * str) str) : Prop :=
  dom (D := gset (str * str)) s = dom t.

Lemma same_accounts_lookup s t k : same_accounts s t → is_Some (s !! k) ↔ is_Some (t !! k).
Proof. unfold same_accounts. intros Hd. by rewrite <- !(elem_of_dom (D := gset (str * str))), Hd. Qed.

(** A credential store that takes at most [limit] bytes, and says how long a
    secret it refuses is. *)
Definition limited_keyring (limit : nat) : Keyring := {|
  kr := gmap (str * str) str;
  kr_entry _ _ := None;
  kr_get sv a s := ok_or NoEntry (s !! (sv, a));
  kr_set sv a p s :=
    if decide (length p ≤ limit) then (Ok (), <[(sv, a) := p]> s)
    else (Err (KrOther (replicate (length p) 46%N)), s);
  kr_get_bytes sv a s := ok_or NoEntry (s !! (sv, a));
  kr_set_bytes sv a p s := (Ok (), <[(sv, a) := p]> s);
  kr_delete sv a s :=
    match s !! (sv, a) with
    | Some _ => (Ok (), delete (sv, a) s)
    | None => (Err NoEntry, s)
    end
|}.

Definition same_length (p q : str) : Prop := length p = length q.

#[export] Instance limited_keyring_blind limit : @BlindKeyring (limited_keyring limit).
Proof.
  refine (@Build_BlindKeyring (limited_keyring limit) same_accounts same_length (λ _, eq_refl) _ _ _);
    cbn.
  - intros sv a s t Hd. pose proof (same_accounts_lookup s t (sv, a) Hd) as [H1 H2].
    destruct (s !! (sv, a)), (t !! (sv, a)); cbn; [done|..|done].
    + by destruct H1.
    + by destruct H2.
  - intros sv a p q s t Hpq Hd. unfold same_length in Hpq. rewrite Hpq. case_decide; [|done].
    split; [done|]. unfold same_accounts in *. cbn. by rewrite !dom_insert_L, Hd.
  - intros sv a s t Hd. pose proof (same_accounts_lookup s t (sv, a) Hd) as [H1 H2].
    destruct (s !! (sv, a)), (t !! (sv, a)); cbn; [|..|done].
    + split; [done|]. unfold same_accounts in *. by rewrite !dom_delete_L, Hd.
    + by destruct H1.
    + by destruct H2.
Defined.

(** * Computations that agree *)
Section blind.
Context `{BlindKeyring}.

Record alike_desktop (s t : Desktop) : Prop := {
  al_store : d_store s = d_store t;
  al_keyring : alike (d_keyring s) (d_keyring t);
  al_known_hosts : d_known_hosts s = d_known_hosts t
}.

(** From alike desktops both give the same answer and leave alike desktops. *)
Definition agree {A} (m n : C A) : Prop :=
  ∀ s t, alike_desktop s t → (m s).1 = (n t).1 ∧ alike_desktop (m s).2 (n t).2.

Definition agree_k {A} (m n : K A) : Prop :=
  ∀ s t, alike s t → (m s).1 = (n t).1 ∧ alike (m s).2 (n t).2.

Lemma agree_bind {A B} (m n : C A) (f g : A → C B) :
  agree m n → (∀ a, agree (f a) (g a)) → agree (m ≫= f) (n ≫= g).
Proof.
  intros Hm Hf s t Hst. rewrite !C_bind_eq. destruct (Hm s t Hst) as [Hr Hs].
  destruct (m s) as [r s1], (n t) as [r' t1]. cbn in Hr, Hs. subst r'.
  destruct r as [a|e]; [by apply Hf|done].
Qed.

Lemma agree_ret {A} (a : A) : agree (mret a) (mret a).
Proof. by intros s t Hst. Qed.
Lemma agree_fail {A} e : agree (fail (A := A) e) (fail e).
Proof. by intros s t Hst. Qed.

Lemma agree_store {A} (m : M A) : agree (on_store m) (on_store m).
Proof.
  intros s t [Hs Hk Hf]. unfold on_store. rewrite Hs. destruct (m (d_store t)). by split.
Qed.

Lemma agree_known_hosts {A} (m : file_state → result KnownHostsError A * file_state) :
  agree (on_known_hosts m) (on_known_hosts m).
Proof.
  intros s t [Hs Hk Hf]. unfold on_known_hosts. rewrite Hf. destruct (m (d_known_hosts t)). by split.
Qed.

Lemma agree_keyring {A} (m n : K A) : agree_k m n → agree (on_keyring m) (on_keyring n).
Proof.
  intros Hm s t [Hs Hk Hf]. unfold on_keyring. destruct (Hm _ _ Hk) as [Hr Hk'].
  destruct (m (d_keyring s)), (n (d_keyring t)). cbn in *. subst. by split.
Qed.

Lemma agree_best_effort {A} (m n : C A) : agree m n → agree (best_effort m) (best_effort n).
Proof. intros Hm s t Hst. split; [done|]. by apply Hm. Qed.

Lemma agree_set_secret account p q :
  taken_alike p q → agree_k (set_secret account p) (set_secret account q).
Proof.
  intros Hpq s t Hst. unfold set_secret, set_password, with_entry. destruct (kr_entry _ _); [done|].
  destruct (alike_set (service keyring) account p q s t Hpq Hst) as [Hr Hs].
  destruct (kr_set _ _ p s), (kr_set _ _ q t). cbn in *. by subst.
Qed.

Lemma agree_clear_secret account : agree_k (clear_secret account) (clear_secret account).
Proof.
  intros s t Hst. unfold clear_secret, delete_credential, with_entry.
  destruct (kr_entry _ _) as [e|]; [by destruct (vault_error_from e)|].
  destruct (alike_delete (service keyring) account s t Hst) as [Hr Hs].
  destruct (kr_delete _ _ s) as [r s'], (kr_delete _ _ t) as [r' t']. cbn in *. subst r'.
  by destruct r as [[]|[]].
Qed.
End blind.

#[export] Hint Resolve agree_ret agree_fail agree_store agree_known_hosts agree_keyring
  agree_best_effort agree_set_secret agree_clear_secret : tern.

(** Go through the calls of a command. *)
Ltac agree_steps :=
  repeat first
    [ apply agree_ret | apply agree_fail | apply agree_store | apply agree_known_hosts
    | apply agree_set_secret; first [apply taken_alike_refl | done] | apply agree_clear_secret | apply agree_keyring
    | apply agree_best_effort | apply agree_bind; [|intros ?] | case_match ].

(** * Commands *)
Section commands.
Context `{BlindKeyring, !Engine, !SshKeys, !FileSystem, !Lowercase, !SerdeJson AppearanceDto, !KeyCodec}.
Context (open_path : str → file_state) (writes : disk).
Context (quote : str → str) (key_disk : str → result str str).

(** What the webview can ask of the desktop, and the type of the answer. *)
Inductive cmd : Type → Type :=
  | ListHosts (f : HostFilterDto) : cmd (list HostDto)
  | GetHost (id : HostId) : cmd (option HostDto)
  | CreateHost (host : NewHostDto) (secret : option str) (now now' : Z) : cmd HostId
  | UpdateHost (host : HostDto) (secret : SecretUpdateDto) (now now' : Z) : cmd ()
  | DeleteHost (id : HostId) : cmd ()
  | MoveHost (id : HostId) (folder : option FolderId) (now : Z) : cmd ()
  | SetHostTags (id : HostId) (ts : list TagId) : cmd ()
  | ListFolders : cmd (list FolderDto)
  | CreateFolder (parent : option FolderId) (name : str) (now : Z) : cmd FolderId
  | RenameFolder (id : FolderId) (name : str) (now : Z) : cmd ()
  | MoveFolder (id : FolderId) (parent : option FolderId) (now : Z) : cmd ()
  | DeleteFolder (id : FolderId) : cmd ()
  | ListTags : cmd (list TagDto)
  | CreateTag (name : str) (color : option str) (now : Z) : cmd TagId
  | DeleteTag (id : TagId) : cmd ()
  | KeyringStatus : cmd KeyringStatusDto
  | InspectKey (path : str) : cmd KeyInfoDto
  | VerifyKeyPassphrase (path : str) (passphrase : option str) : cmd KeyInfoDto
  | GetAppearance : cmd AppearanceDto
  | SetAppearance (a : AppearanceDto) (now : Z) : cmd ()
  | ListKnownHosts : cmd (list KnownHostEntryDto)
  | RemoveKnownHost (host : str) (port : Z) : cmd nat
  | ImportKnownHosts (source : option str) : cmd KnownHostsImportReportDto
  | ScanSshConfig (path : option str) : cmd SshConfigScanDto
  | ImportSshConfig (names : list str) (path : option str) (now : Z) : cmd SshConfigImportResultDto.

Definition run_cmd {A} (c : cmd A) : C A :=
  match c with
  | ListHosts f => list_hosts_cmd f
  | GetHost id => get_host_cmd id
  | CreateHost host secret now now' => create_host host secret now now'
  | UpdateHost host secret now now' => update_host host secret now now'
  | DeleteHost id => delete_host_cmd id
  | MoveHost id folder now => move_host id folder now
  | SetHostTags id ts => set_host_tags id ts
  | ListFolders => list_folders
  | CreateFolder parent name now => create_folder parent name now
  | RenameFolder id name now => rename_folder id name now
  | MoveFolder id parent now => move_folder id parent now
  | DeleteFolder id => delete_folder_cmd id
  | ListTags => list_tags_cmd
  | CreateTag name color now => create_tag name color now
  | DeleteTag id => delete_tag_cmd id
  | KeyringStatus => keyring_status
  | InspectKey path => inspect_key quote key_disk path
  | VerifyKeyPassphrase path passphrase => verify_key_passphrase quote key_disk path passphrase
  | GetAppearance => get_appearance
  | SetAppearance a now => set_appearance a now
  | ListKnownHosts => list_known_hosts
  | RemoveKnownHost host port => remove_known_host writes host port
  | ImportKnownHosts source => import_known_hosts open_path writes source
  | ScanSshConfig path => scan_ssh_config path
  | ImportSshConfig names path now => import_ssh_config names path now
  end.

(** Commands that differ at most in the secret to be saved. *)
Inductive same_but_secret : ∀ {A}, cmd A → cmd A → Prop :=
  | same_cmd A (c : cmd A) : same_but_secret c c
  | same_create host p q now now' :
      p ≠ [] → q ≠ [] → taken_alike p q →
      same_but_secret (CreateHost host (Some p) now now') (CreateHost host (Some q) now now')
  | same_update host p q now now' :
      taken_alike p q →
      same_but_secret (UpdateHost host (SetSecret p) now now') (UpdateHost host (SetSecret q) now now').

Lemma existing_host_agree id : agree (existing_host id) (existing_host id).
Proof using Type. unfold existing_host. agree_steps. Qed.

Lemma store_secret_agree id p q now :
  taken_alike p q → agree (store_secret_for id p now) (store_secret_for id q now).
Proof using Type.
  intros Hpq. unfold store_secret_for. apply agree_bind; [apply existing_host_agree|]. intros host. agree_steps.
Qed.

Lemma clear_secret_agree id now : agree (clear_secret_for id now) (clear_secret_for id now).
Proof using Type.
  unfold clear_secret_for. apply agree_bind; [apply existing_host_agree|]. intros host. agree_steps.
Qed.

Lemma create_host_agree host p q now now' :
  (p = [] ↔ q = []) → taken_alike p q →
  agree (create_host host (Some p) now now') (create_host host (Some q) now now').
Proof using Type.
  intros Hpq Hlike. unfold create_host. apply agree_bind; [apply agree_store|]. intros id.
  apply agree_bind; [agree_steps|]. intros []. apply agree_bind; [|intros []; apply agree_ret].
  destruct p as [|c p], q as [|d q]; [apply agree_ret|..|by apply store_secret_agree].
  - by pose proof (proj1 Hpq eq_refl).
  - by pose proof (proj2 Hpq eq_refl).
Qed.

Lemma update_host_agree host u v now now' :
  u = v ∨ (∃ p q, u = SetSecret p ∧ v = SetSecret q ∧ taken_alike p q) →
  agree (update_host host u now now') (update_host host v now now').
Proof using Type.
  intros Huv. unfold update_host. apply agree_bind; [apply existing_host_agree|]. intros existing.
  apply agree_bind; [apply agree_store|]. intros []. apply agree_bind; [apply agree_store|]. intros [].
  destruct Huv as [<-|(p & q & -> & -> & Hpq)]; [|by apply store_secret_agree].
  destruct u; [apply agree_ret|apply store_secret_agree, taken_alike_refl|apply clear_secret_agree].
Qed.

Lemma keyring_status_agree : agree keyring_status keyring_status.
Proof using Type.
  intros s t [Hs Hk Hf]. unfold keyring_status, keyring_availability, availability, get_password, with_entry.
  destruct (kr_entry _ _) as [[]|]; cbn.
  - by split.
  - by split.
  - pose proof (alike_get (service keyring) PROBE_ACCOUNT _ _ Hk) as Hg.
    destruct (kr_get _ _ (d_keyring s)) as [x|e], (kr_get _ _ (d_keyring t)) as [y|e']; try done.
    subst e'. by destruct e.
Qed.

Lemma cmd_agree {A} (c d : cmd A) : same_but_secret c d → agree (run_cmd c) (run_cmd d).
Proof using Type.
  destruct 1 as [A c|host p q now now' Hp Hq Hpq|host p q now now' Hpq].
  - destruct c; cbn [run_cmd];
      try (unfold list_hosts_cmd, get_host_cmd, move_host, set_host_tags, list_folders, create_folder,
             rename_folder, move_folder, delete_folder_cmd, list_tags_cmd, create_tag, delete_tag_cmd,
             get_appearance, set_appearance, list_known_hosts, remove_known_host, import_known_hosts,
             scan_ssh_config, import_ssh_config, delete_host_cmd; agree_steps; done).
    apply keyring_status_agree.
  - by apply create_host_agree.
  - apply update_host_agree. right. by exists p, q.
Qed.
(** * Histories *)

(** Commands in order, and all that the webview gets back. *)
Fixpoint run_cmds (cs : list { A & cmd A }) (s : Desktop) : list { A & result CmdError A } * Desktop :=
  match cs with
  | [] => ([], s)
  | existT A c :: cs =>
      let '(r, s1) := run_cmd c s in
      let '(rs, s2) := run_cmds cs s1 in (existT A r :: rs, s2)
  end.

Inductive same_but_secrets : list { A & cmd A } → list { A & cmd A } → Prop :=
  | sbs_nil : same_but_secrets [] []
  | sbs_cons A (c d : cmd A) cs ds :
      same_but_secret c d → same_but_secrets cs ds →
      same_but_secrets (existT A c :: cs) (existT A d :: ds).

Lemma cmds_agree cs ds s t :
  same_but_secrets cs ds → alike_desktop s t →
  (run_cmds cs s).1 = (run_cmds ds t).1 ∧ alike_desktop (run_cmds cs s).2 (run_cmds ds t).2.
Proof using Type.
  intros Hcs. revert s t. induction Hcs as [|A c d cs ds Hcd _ IH]; intros s t Hst; [done|].
  cbn [run_cmds]. destruct (cmd_agree c d Hcd s t Hst) as [Hr Hs].
  destruct (run_cmd c s) as [r s1], (run_cmd d t) as [r' t1]. cbn in Hr, Hs. subst r'.
  destruct (IH s1 t1 Hs) as [Hrs Hs2].
  destruct (run_cmds cs s1) as [rs s2], (run_cmds ds t1) as [rs' t2]. cbn in *. by subst rs'.
Qed.

(** C12: no secret comes back: on two desktops that differ only in the secrets
    their keyrings hold, commands that differ only in the secrets typed to be saved,
    each taken by the credential store as the other is, answer exactly alike,
    errors included, whatever command of [store_commands.rs] is called in
    whatever order, and so does what opening a host afterwards says of its
    credential.  A passphrase to be verified is no secret to be saved: there
    both ask about the same one. *)
Theorem secrets_stay cs ds s t :
  same_but_secrets cs ds → alike_desktop s t →
  (run_cmds cs s).1 = (run_cmds ds t).1 ∧
  (∀ host, degraded (auth_for_host host (d_keyring (run_cmds cs s).2)).1 =
           degraded (auth_for_host host (d_keyring (run_cmds ds t).2)).1).
Proof using Type.
  intros Hcs Hst. destruct (cmds_agree cs ds s t Hcs Hst) as [Hr [_ Hk _]]. split; [done|].
  intros host. unfold auth_for_host. destruct (h_secret_ref host) as [account|]; [|done].
  unfold read_secret, get_password, with_entry. destruct (kr_entry _ _) as [e|].
  { by destruct (vault_error_from e). }
  pose proof (alike_get (service keyring) account _ _ Hk) as Hg.
  destruct (kr_get _ _ (d_keyring (run_cmds cs s).2)) as [x|e],
    (kr_get _ _ (d_keyring (run_cmds ds t).2)) as [y|e']; try done.
  subst e'. by destruct e.
Qed.
End commands.

(** * On a concrete desktop *)

(** Nothing of a user's home, ASCII text, and an appearance that is never
    stored. *)
Definition no_appearance : SerdeJson AppearanceDto.
Proof. by refine {| to_string _ := None; from_str _ := None |}. Defined.

Definition secret_commands (typed : str) : list { A & cmd A } :=
  [existT _ (CreateHost (MkNewHostDto None #"web" #"web.example" 22 #"ops" DPassword [] None
      (MkOverridesDto None None None None None None None) None None None []) (Some typed) 1 2);
   existT _ (GetHost 1); existT _ KeyringStatus; existT _ (VerifyKeyPassphrase #"/k" (Some #"pw"));
   existT _ (DeleteHost 1)].

Definition keyring_with (secret : str) : @Desktop (limited_keyring 8) :=
  @MkDesktop (limited_keyring 8) (MkStore false empty_db)
    {[ (KEYRING_SERVICE, password_account 9) := secret ]} Absent.

(** One pair of secrets that fits, and one that is refused. *)
Lemma secrets_stay_witness :
  let run typed secret :=
    @run_cmds (limited_keyring 8) sqlite_max_rowid sample_keys sample_config lowercase_ascii_only
      no_appearance sample_codec (λ _, Absent) DWrites id sample_key_disk (secret_commands typed)
      (keyring_with secret) in
  length (run #"hunter2" #"old").1 = 5 ∧
  (run #"hunter2" #"old").1 = (run #"s3cret!" #"other").1 ∧
  (run #"much too long" #"old").1 = (run #"far too large" #"other").1 ∧
  (run #"hunter2" #"old").1 ≠ (run #"much too long" #"old").1 ∧
  (∀ host, degraded (@auth_for_host (limited_keyring 8) host (d_keyring (run #"hunter2" #"old").2)).1 =
           degraded (@auth_for_host (limited_keyring 8) host (d_keyring (run #"s3cret!" #"other").2)).1).
Proof.
  intros run. set (ok := @secrets_stay (limited_keyring 8) (limited_keyring_blind 8) sqlite_max_rowid
    sample_keys sample_config lowercase_ascii_only no_appearance sample_codec (λ _, Absent) DWrites id
    sample_key_disk).
  assert (alike_desktop (keyring_with #"old") (keyring_with #"other")) as Ha.
  { split; [done| |done]. unfold keyring_with. cbn. unfold same_accounts. by rewrite !dom_singleton_L. }
  assert (∀ p q, p ≠ [] → q ≠ [] → length p = length q →
    @same_but_secrets _ (limited_keyring_blind 8) (secret_commands p) (secret_commands q)) as Hc
    by (intros p q Hp Hq Hpq; apply sbs_cons; [by apply same_create|repeat constructor]).
  split; [by vm_compute|]. split; [|split; [|split]].
  - by apply (ok _ _ _ _ (Hc #"hunter2" #"s3cret!" ltac:(done) ltac:(done) eq_refl) Ha).
  - by apply (ok _ _ _ _ (Hc #"much too long" #"far too large" ltac:(done) ltac:(done) eq_refl) Ha).
  - by vm_compute.
  - by apply (ok _ _ _ _ (Hc #"hunter2" #"s3cret!" ltac:(done) ltac:(done) eq_refl) Ha).
Defined.
