(* ===== verification/Commands.v ===== *)
(** * The session commands

    [apps/desktop/src/commands.rs]: the registry of live sessions and the
    commands on it, the gate between the coalescer and the webview, and how a
    request becomes the configuration of a session.  An [Instant] is
    nanoseconds in [Z], read at the start of a command; the opaque transport of
    an SSH session is reduced to its pause flag; writing to one and what the
    commands answer with a transport error are in [Open]. *)
From S2P Require Import Prelude Text Model Database StoreInv Settings Auth Proto TermStream F64.
From S2P Require Import Reconnect Supervise.

(** * From a request *)

Definition auth_from_dto (dto : AuthMethodDto) : AuthMethod :=
  match dto with
  | AmPassword password => method_password password
  | AmKeyFile path passphrase => key_file path passphrase
  | AmAgent => MAgent
  end.

(** A credentialed method left blank is filled from the stored secret. *)
Definition auth_from_dto_or_stored (dto : AuthMethodDto) (stored : option str) : AuthMethod :=
  match dto with
  | AmPassword [] => method_password (default [] stored)
  | AmKeyFile path None | AmKeyFile path (Some []) => key_file path stored
  | other => auth_from_dto other
  end.

(** The configuration [test_connection] builds. *)
Definition test_config (host username : str) (port : Z) (auth : list AuthMethodDto)
    (stored : option str) : SessionConfig :=
  let cfg := config_new host username MAgent in
  {| s_host := s_host cfg;
     s_port := port;
     s_username := s_username cfg;
     s_auth := (λ dto, auth_from_dto_or_stored dto stored) <$> auth;
     s_term := s_term cfg;
     s_keepalive_interval := s_keepalive_interval cfg;
     s_keepalive_max := s_keepalive_max cfg;
     s_connect_timeout := s_connect_timeout cfg;
     s_window_size := s_window_size cfg;
     s_channel_buffer_size := s_channel_buffer_size cfg |}.

Definition coalescer_cfg (req : OpenSessionReq) : CoalescerConfig :=
  MkCoalescer (Z.to_nat (default (128 * 1024)%Z (chunk_max req)))
    (default 8%Z (tick_ms req) * 1000000).

(** Per-host override, else the setting, else the default. *)
Definition reconnect_policy_for `{!SerdeJson bool, !SerdeJson Z} (s : Store) (host : Host) :
    ReconnectPolicy :=
  let enabled_default := default true (ok (get_or KEY_RECONNECT_ENABLED true s).1) in
  let max_default := default (max_attempts POLICY_DEFAULT)
    (ok (get_or KEY_RECONNECT_MAX_ATTEMPTS (max_attempts POLICY_DEFAULT) s).1) in
  MkPolicy (default enabled_default (o_reconnect_enabled (h_overrides host)))
    (default max_default (o_reconnect_max_attempts (h_overrides host))) BACKOFF_DEFAULT.

(** * The gate before the webview *)

(** The sender task of [spawn_data_path]: a frame is [held] while the pause
    watch says so. *)
Record gate := Gate {
  gate_paused : bool;
  gate_gone : bool;
  held : option (list N);
  shipped : list (list N);
  gate_ended : bool
}.
Definition gate_init : gate := Gate false false None [] false.

Inductive gate_input :=
  | Frame (frame : list N) (webview_alive : bool)
  | Paused (b webview_alive : bool)
  | SenderGone.

Definition ship (frame : list N) (alive : bool) (s : gate) : gate :=
  if alive then Gate (gate_paused s) (gate_gone s) None (shipped s ++ [frame]) false
  else Gate (gate_paused s) (gate_gone s) None (shipped s) true.

Definition gate_step (s : gate) (i : gate_input) : option gate :=
  if gate_ended s then None
  else match i with
       | Frame frame alive =>
           match held s with
           | Some _ => None
           | None =>
               if gate_paused s then
                 if gate_gone s then Some (Gate true true None (shipped s) true)
                 else Some (Gate true false (Some frame) (shipped s) false)
               else Some (ship frame alive s)
           end
       | Paused b alive =>
           if gate_gone s then None
           else let s := Gate b false (held s) (shipped s) false in
                match held s with
                | Some frame => if b then Some s else Some (ship frame alive s)
                | None => Some s
                end
       | SenderGone =>
           if gate_gone s then None
           else Some (Gate (gate_paused s) true None (shipped s)
                        (match held s with Some _ => true | None => false end))
       end.

Definition gate_run (l : list gate_input) (s : gate) : option gate :=
  foldl (λ o i, s ← o; gate_step s i) (Some s) l.

(** * The registry *)

Inductive control := Ssh (transport_paused : bool) | Pty.

Record LiveSession := MkLive {
  ls_control : control;
  ls_cols : Z;
  ls_rows : Z;
  ls_shutdown : bool;
  ls_desktop_pause : bool;
  ls_stats : StreamStats;
  ls_epoch : Z;
  ls_paused_since : option Z
}.

Record AppState := MkApp {
  sessions : gmap str LiveSession;
  next_id : Z
}.
Definition app_new : AppState := MkApp ∅ 0.

Definition session_id (prefix : str) (n : Z) : str := prefix ++ #"-" ++ show_Z n.

(** [fetch_add(1)] on the shared counter: the new id. *)
Definition fresh_id (prefix : str) (a : AppState) : str * AppState :=
  (session_id prefix (next_id a), MkApp (sessions a) (wrap64 (next_id a + 1))).

(** The [LiveSession] a target arm of [open_session] ends with. *)
Definition live_new (c : control) (req : OpenSessionReq) (now : Z) : LiveSession :=
  MkLive c (cols req) (rows req) false false stats_new now None.

(** The end of [open_session], once the transport is up: the session is
    registered under the id drawn at its start. *)
Definition register_session (id : str) (live : LiveSession) (a : AppState) : AppState :=
  MkApp (<[id := live]> (sessions a)) (next_id a).

(** [state.session(&id)], then a change of it through the shared [Arc]. *)
Definition on_session (id : str) (f : LiveSession → LiveSession) (a : AppState) : option AppState :=
  (λ s, MkApp (<[id := f s]> (sessions a)) (next_id a)) <$> sessions a !! id.

Definition set_pause (b : bool) (c : control) : control := match c with Ssh _ => Ssh b | Pty => Pty end.

Definition pause_live (now : Z) (s : LiveSession) : LiveSession :=
  let st := ls_stats s in
  MkLive (set_pause true (ls_control s)) (ls_cols s) (ls_rows s) (ls_shutdown s) true
    (MkStats (bytes_in st) (newlines_in st) (frames_out st) (bytes_out st) (max_frame_bytes st)
       (wrap64 (pause_count st + 1)) (paused_ms st))
    (ls_epoch s) (Some (default now (ls_paused_since s))).

Definition resume_live (now : Z) (s : LiveSession) : LiveSession :=
  let st := ls_stats s in
  let add := match ls_paused_since s with
             | Some started => millis_u64 (now - started)
             | None => 0%Z
             end in
  MkLive (set_pause false (ls_control s)) (ls_cols s) (ls_rows s) (ls_shutdown s) false
    (MkStats (bytes_in st) (newlines_in st) (frames_out st) (bytes_out st) (max_frame_bytes st)
       (pause_count st) (match ls_paused_since s with
                         | Some _ => wrap64 (paused_ms st + add)
                         | None => paused_ms st
                         end))
    (ls_epoch s) None.

Definition resize_live (cols rows : Z) (s : LiveSession) : LiveSession :=
  MkLive (ls_control s) cols rows (ls_shutdown s) (ls_desktop_pause s) (ls_stats s) (ls_epoch s)
    (ls_paused_since s).

Definition reset_live (now : Z) (s : LiveSession) : LiveSession :=
  MkLive (ls_control s) (ls_cols s) (ls_rows s) (ls_shutdown s) (ls_desktop_pause s)
    (reset (ls_stats s)) now (ls_paused_since s).

Definition pause_session (id : str) (now : Z) : AppState → option AppState :=
  on_session id (pause_live now).
Definition resume_session (id : str) (now : Z) : AppState → option AppState :=
  on_session id (resume_live now).
Definition resize_session (req : ResizeReq) : AppState → option AppState :=
  on_session (rz_id req) (resize_live (rz_cols req) (rz_rows req)).
Definition bench_reset (id : str) (now : Z) : AppState → option AppState :=
  on_session id (reset_live now).

(** [bench_stats]: the counters, and the milliseconds since the epoch. *)
Definition stats_dto (now : Z) (s : LiveSession) : StreamStatsDto :=
  let counters := ls_stats s in
  MkStatsDto (bytes_in counters) (newlines_in counters) (frames_out counters) (bytes_out counters)
    (max_frame_bytes counters) (pause_count counters) (paused_ms counters)
    (millis_u64 (now - ls_epoch s)).
Definition bench_stats (id : str) (now : Z) (a : AppState) : option StreamStatsDto :=
  stats_dto now <$> sessions a !! id.

(** [close_session]: removed from the registry; who still holds the session
    (the supervisor) sees [shutdown].  An unknown id is not an error. *)
Definition close_live (s : LiveSession) : LiveSession :=
  MkLive (ls_control s) (ls_cols s) (ls_rows s) true (ls_desktop_pause s) (ls_stats s) (ls_epoch s)
    (ls_paused_since s).
Definition close_session (id : str) (a : AppState) : option LiveSession * AppState :=
  (close_live <$> sessions a !! id, MkApp (delete id (sessions a)) (next_id a)).

(** * The gate loses nothing *)

Definition frame_of (i : gate_input) : option (list N) :=
  match i with Frame f _ => Some f | _ => None end.

Lemma gate_step_spec s i s' :
  gate_step s i = Some s' →
  gate_ended s = false ∧
  (gate_ended s' = false →
    shipped s' ++ option_list (held s') = (shipped s ++ option_list (held s)) ++ option_list (frame_of i)) ∧
  (∃ k, shipped s' ++ k = (shipped s ++ option_list (held s)) ++ option_list (frame_of i)) ∧
  (gate_paused s = true → gate_paused s' = true → shipped s' = shipped s).
Proof.
  unfold gate_step, ship. intros Hs. destruct (gate_ended s) eqn:He; [done|]. split; [done|].
  destruct i as [f alive|b alive|]; simpl in *; repeat case_match; simplify_eq/=; rewrite ?app_nil_r; split_and!; try done;
    try (by exists []; rewrite ?app_nil_r); by eexists; rewrite <-?(assoc_L (++)).
Qed.

Lemma gate_run_inv l s :
  gate_run l gate_init = Some s →
  (gate_ended s = false → shipped s ++ option_list (held s) = omap frame_of l) ∧
  ∃ rest, shipped s ++ rest = omap frame_of l.
Proof.
  unfold gate_run. revert s. induction l as [|i l IH] using rev_ind; intros s.
  { intros [= <-]. split; [done|by exists []]. }
  rewrite foldl_app. simpl. intros (s1 & H1%IH & H2)%bind_Some. destruct H1 as [H1 _].
  apply gate_step_spec in H2 as (He1 & Heq & Hpre & _). rewrite H1 in Heq, Hpre by done.
  assert (omap frame_of (l ++ [i]) = omap frame_of l ++ option_list (frame_of i)) as ->
    by (rewrite omap_app; simpl; by destruct (frame_of i)).
  by split.
Qed.

(** Between the coalescer and the webview no frame is lost, repeated or
    reordered: what was shipped and the frame being held are the frames that
    came in, and while the session is paused nothing ships; a gate that ended
    had shipped a prefix of them. *)
Theorem gate_lossless l s :
  gate_run l gate_init = Some s →
  (gate_ended s = false → shipped s ++ option_list (held s) = omap frame_of l) ∧
  (∃ rest, shipped s ++ rest = omap frame_of l) ∧
  (∀ i s', gate_step s i = Some s' → gate_paused s = true → gate_paused s' = true →
     shipped s' = shipped s).
Proof.
  intros [Hall Hpre]%gate_run_inv. split_and!; [done..|].
  by intros i s' (_ & _ & _ & Hp)%gate_step_spec.
Qed.

Lemma gate_lossless_witness :
  let l := [Frame [104%N] true; Paused true true; Frame [105%N] true] in
  let s := Gate true false (Some [105%N]) [[104%N]] false in
  gate_run l gate_init = Some s ∧
  (gate_ended s = false → shipped s ++ option_list (held s) = omap frame_of l) ∧
  (∃ rest, shipped s ++ rest = omap frame_of l) ∧
  (∀ i s', gate_step s i = Some s' → gate_paused s = true → gate_paused s' = true →
     shipped s' = shipped s).
Proof. intros l s. split; [reflexivity|]. by apply (gate_lossless l s). Defined.

(** * Session ids *)

Lemma session_id_inj p i j : session_id p i = session_id p j → i = j.
Proof. unfold session_id. intros H%app_inv_head%app_inv_head. by apply (inj show_Z). Qed.

(** The real ids and those of connection tests cannot meet in the map of
    pending prompts. *)
Lemma session_test_disjoint i j : session_id #"s" i ≠ session_id #"test" j.
Proof. done. Qed.

(** The registry, with the ids drawn by calls of [open_session] that have not
    ended yet: other commands run while a connect waits. *)
Record opening := MkOpening { registry : AppState; drawn : gset str }.

Inductive app_step (o : opening) : opening → Prop :=
  | step_draw : let '(id, a) := fresh_id #"s" (registry o) in app_step o (MkOpening a ({[id]} ∪ drawn o))
  | step_register id live : id ∈ drawn o →
      app_step o (MkOpening (register_session id live (registry o)) (drawn o ∖ {[id]}))
  | step_failed id : app_step o (MkOpening (registry o) (drawn o ∖ {[id]}))
  | step_test : app_step o (MkOpening (fresh_id #"test" (registry o)).2 (drawn o))
  | step_pause id now a : pause_session id now (registry o) = Some a → app_step o (MkOpening a (drawn o))
  | step_resume id now a : resume_session id now (registry o) = Some a → app_step o (MkOpening a (drawn o))
  | step_resize req a : resize_session req (registry o) = Some a → app_step o (MkOpening a (drawn o))
  | step_reset id now a : bench_reset id now (registry o) = Some a → app_step o (MkOpening a (drawn o))
  | step_close id : app_step o (MkOpening (close_session id (registry o)).2 (drawn o)).

(** [n] commands from the empty registry. *)
Inductive app_reach : nat → opening → Prop :=
  | reach_new : app_reach 0 (MkOpening app_new ∅)
  | reach_step n o o' : app_reach n o → app_step o o' → app_reach (S n) o'.

Lemma on_session_dom id f a a' :
  on_session id f a = Some a' → next_id a' = next_id a ∧ dom (sessions a') = dom (sessions a).
Proof.
  unfold on_session. intros (s & Hs & ->)%fmap_Some. split; [done|]. simpl.
  apply elem_of_dom_2 in Hs. rewrite dom_insert_L. set_solver.
Qed.

(** Every id in use was drawn from the counter, and an id whose session is not
    up yet is not in the registry. *)
Record ids_inv (n : nat) (o : opening) : Prop := {
  ids_next : (0 ≤ next_id (registry o) ≤ Z.of_nat n)%Z;
  ids_drawn id : id ∈ dom (sessions (registry o)) ∪ drawn o →
    ∃ k, (0 ≤ k < next_id (registry o))%Z ∧ id = session_id #"s" k;
  ids_disjoint : dom (sessions (registry o)) ## drawn o
}.

Lemma ids_inv_same n o a d :
  ids_inv n o → next_id a = next_id (registry o) → dom (sessions a) ∪ d ⊆ dom (sessions (registry o)) ∪ drawn o →
  dom (sessions a) ## d → ids_inv (S n) (MkOpening a d).
Proof.
  intros [Hn Hd Hx] Hnext Hsub Hdis. split; simpl; [rewrite Hnext; lia| |done].
  rewrite Hnext. intros id Hid. by apply Hd, Hsub.
Qed.

Lemma ids_inv_bump prefix n o d :
  ids_inv n o → (Z.of_nat (S n) < 2 ^ 64)%Z → d ⊆ {[session_id #"s" (next_id (registry o))]} ∪ drawn o →
  ids_inv (S n) (MkOpening (fresh_id prefix (registry o)).2 d).
Proof.
  intros [Hn Hd Hx] Hb Hsub. unfold fresh_id. cbn [snd].
  assert (wrap64 (next_id (registry o) + 1) = next_id (registry o) + 1)%Z as Hw
    by (unfold wrap64; rewrite Z.mod_small; lia).
  split; cbn [registry drawn sessions next_id]; rewrite ?Hw; [lia| |].
  - intros id [Hid|Hid%Hsub]%elem_of_union.
    + destruct (Hd id) as (k & Hk & ->); [set_solver|]. exists k. split; [lia|done].
    + apply elem_of_union in Hid as [->%elem_of_singleton|Hid].
      * eexists. split; [|done]. lia.
      * destruct (Hd id) as (k & Hk & ->); [set_solver|]. exists k. split; [lia|done].
  - intros id Hid [->%elem_of_singleton|Hi]%Hsub%elem_of_union; [|by eapply Hx].
    destruct (Hd (session_id #"s" (next_id (registry o)))) as (k & Hk & He); [set_solver|].
    apply session_id_inj in He. lia.
Qed.

Lemma app_reach_ids n o : app_reach n o → (Z.of_nat n < 2 ^ 64)%Z → ids_inv n o.
Proof.
  induction 1 as [|n o o' Hr IH Hstep]; intros Hn.
  { split; [done| |done]. simpl. intros id. rewrite dom_empty_L. set_solver. }
  specialize (IH ltac:(lia)). pose proof (ids_disjoint _ _ IH) as Hx.
  destruct Hstep; try (match goal with H : _ = Some _ |- _ => apply on_session_dom in H as [H1 H2] end;
    eapply ids_inv_same; [done|done|rewrite H2; set_solver|rewrite H2; set_solver]).
  - by apply (ids_inv_bump #"s").
  - eapply ids_inv_same; [done|done|..]; simpl; rewrite dom_insert_L; set_solver.
  - eapply ids_inv_same; [done|done|..]; set_solver.
  - apply (ids_inv_bump #"test"); [done|done|set_solver].
  - eapply ids_inv_same; [done|done|..]; simpl; rewrite dom_delete_L; set_solver.
Qed.

(** Opening a session never takes the id of a live one, nor of one still
    connecting, whatever sessions were opened, paused, tested or closed before
    or meanwhile: the id a call draws is new, and when its transport is up the
    new session is added and every other is left as it was. *)
Theorem open_session_fresh n o :
  app_reach n o → (Z.of_nat n < 2 ^ 64)%Z →
  (let '(id, _) := fresh_id #"s" (registry o) in
   sessions (registry o) !! id = None ∧ id ∉ drawn o) ∧
  ∀ id live, id ∈ drawn o →
    let a' := register_session id live (registry o) in
    sessions (registry o) !! id = None ∧ sessions a' !! id = Some live ∧
    ∀ j, j ≠ id → sessions a' !! j = sessions (registry o) !! j.
Proof.
  intros Hr Hn. destruct (app_reach_ids n o Hr Hn) as [_ Hids Hx]. split.
  - cbn [fresh_id]. assert (session_id #"s" (next_id (registry o)) ∉
      dom (sessions (registry o)) ∪ drawn o) as Hnot.
    { intros (k & Hk & Heq)%Hids. apply session_id_inj in Heq. lia. }
    apply not_elem_of_union in Hnot as [Hnot Hd]. by split; [apply not_elem_of_dom|].
  - intros id live Hid. simpl. split_and!.
    + apply not_elem_of_dom. intros Hd. by eapply Hx.
    + by rewrite lookup_insert_eq.
    + intros j Hj. by rewrite lookup_insert_ne.
Qed.

Lemma open_session_fresh_witness :
  let o := MkOpening (MkApp ∅ 1) {[ #"s-0"]} in
  sessions (registry o) !! #"s-1" = None ∧
  sessions (register_session #"s-0" (live_new Pty (MkOpenReq (TSavedHost 1) 80 24 None None None) 5)
    (registry o)) !! #"s-0" =
    Some (live_new Pty (MkOpenReq (TSavedHost 1) 80 24 None None None) 5).
Proof.
  intros o. assert (app_reach 1 o) as Ho.
  { replace o with (MkOpening (fresh_id #"s" app_new).2 ({[(fresh_id #"s" app_new).1]} ∪ ∅))
      by (unfold o; f_equal; by rewrite (right_id_L ∅ (∪))).
    eapply reach_step; [apply reach_new|apply (step_draw (MkOpening app_new ∅))]. }
  destruct (open_session_fresh 1 o Ho) as [[Hnone _] Hreg]; [done|].
  split; [exact Hnone|]. eapply (Hreg #"s-0"). unfold o. cbn [drawn]. by apply elem_of_singleton.
Defined.

(** * Pausing *)

(** Pausing any number of times and then resuming accounts one pause, from the
    first of them, and leaves both links of the chain running. *)
Theorem pause_then_resume s t0 ts t :
  ls_paused_since s = None →
  let s1 := foldl (λ s u, pause_live u s) (pause_live t0 s) ts in
  let s2 := resume_live t s1 in
  ls_desktop_pause s1 = true ∧ ls_control s1 = set_pause true (ls_control s) ∧
  ls_desktop_pause s2 = false ∧ ls_control s2 = set_pause false (ls_control s) ∧
  paused_ms (ls_stats s2) = wrap64 (paused_ms (ls_stats s) + millis_u64 (t - t0)).
Proof.
  intros Hnone.
  assert (∀ s1, ls_desktop_pause s1 = true → ls_paused_since s1 = Some t0 →
    ls_control s1 = set_pause true (ls_control s) → paused_ms (ls_stats s1) = paused_ms (ls_stats s) →
    let s2 := foldl (λ s u, pause_live u s) s1 ts in
    ls_desktop_pause s2 = true ∧ ls_paused_since s2 = Some t0 ∧
    ls_control s2 = set_pause true (ls_control s) ∧
    paused_ms (ls_stats s2) = paused_ms (ls_stats s)) as Hind.
  { induction ts as [|u ts IH]; intros s1 H1 H2 H3 H4; [done|]. apply IH; simpl; [done|by rewrite H2| |done].
    rewrite H3. by destruct (ls_control s). }
  intros s1 s2. destruct (Hind (pause_live t0 s)) as (Hd & Hs & Hc & Hm); [done|by simpl; rewrite Hnone|done..|].
  fold s1 in Hd, Hs, Hc, Hm. split_and!; [done|done|done| |].
  - simpl. rewrite Hc. by destruct (ls_control s).
  - simpl. by rewrite Hs, Hm.
Qed.

(** A blank secret is filled from the keyring, a retyped one is used as is. *)
Lemma test_uses_stored dto stored :
  auth_from_dto_or_stored dto stored =
  match dto with
  | AmPassword p => MPassword (if decide (p = []) then default [] stored else p)
  | AmKeyFile path p => MKeyFile path (if decide (default [] p = []) then stored else p)
  | AmAgent => MAgent
  end.
Proof. by destruct dto as [[|]|path [[|]|]|]. Qed.
