(* ===== verification/Open.v ===== *)
(** * Opening a session

    [open_session], [connect_ssh], [establish_saved_host], [test_connection] and
    [write_session] of [apps/desktop/src/commands.rs].  Each is cut where it
    awaits the network: a first half reads the store and the keyring and settles
    the arguments of [SshSession::connect] ([connect_args]); a second half takes
    what connecting gave.  Errors keep their cause where the code keeps their
    text; [show_store_error] is the text of a store error. *)
From S2P Require Import Prelude Text Model Database StoreInv Hosts Settings Vault Auth Session.
From S2P Require Import KnownHosts StoreCommands.
From S2P Require Import Shell Channel Pty Proto TermStream F64 Reconnect Supervise Commands.

Inductive open_error :=
  | OpStore (e : StoreError)
  | OpNoHost (host_id : HostId)
  | OpSsh (e : SshError)
  | OpPty (e : PtyError)
  | UnknownSession (id : str).

(** The arguments of [SshSession::connect] and of the host-key callback built
    for it, and the size of the shell opened next. *)
Record connect_args := MkArgs {
  ca_id : str;
  ca_cfg : SessionConfig;
  ca_insecure : bool;
  ca_hash_new : bool;
  ca_cols : Z;
  ca_rows : Z
}.

(** What [connect_ssh] is called with. *)
Record ssh_plan := MkPlan {
  pl_args : connect_args;
  pl_host : option HostId;
  pl_policy : ReconnectPolicy;
  pl_reconnector : bool
}.

Inductive opened := OpenSshTarget (plan : ssh_plan) | OpenPtyTarget (cfg : PtyConfig).

Record ReconnectError := MkReconnectError { re_retryable : bool; re_message : str }.

(** The configuration of an ad-hoc target. *)
Definition ssh_target_cfg (target : SshTarget) (window : option Z) : SessionConfig :=
  let cfg := config_new (st_host target) (st_username target) (auth_from_dto (st_auth target)) in
  {| s_host := s_host cfg;
     s_port := st_port target;
     s_username := s_username cfg;
     s_auth := s_auth cfg;
     s_term := s_term cfg;
     s_keepalive_interval := s_keepalive_interval cfg;
     s_keepalive_max := s_keepalive_max cfg;
     s_connect_timeout := s_connect_timeout cfg;
     s_window_size := default (s_window_size cfg) window;
     s_channel_buffer_size := s_channel_buffer_size cfg |}.

Section prepare.
Context `{!Keyring, !Engine, !SerdeJson bool, !SerdeJson Z}.

(** [settings().get_or(KEY_HASH_KNOWN_HOSTS, false).unwrap_or(false)] *)
Definition hash_new_entries (s : Store) : bool :=
  default false (ok (get_or KEY_HASH_KNOWN_HOSTS false s).1).

Definition plan_ssh (id : str) (cfg : SessionConfig) (insecure : bool) (req : OpenSessionReq)
    (host_id : option HostId) (policy : ReconnectPolicy) (reconnector : bool) (s : Store) : ssh_plan :=
  MkPlan (MkArgs id cfg insecure (hash_new_entries s) (cols req) (rows req)) host_id policy reconnector.

(** The arm of [Target::SavedHost], up to [connect_ssh]. *)
Definition resolve_saved (id : str) (host_id : HostId) (req : OpenSessionReq) (s : Store) (k : kr) :
    result open_error opened * list SessionEvent * kr :=
  match (get_host host_id s).1 with
  | Err e => (Err (OpStore e), [], k)
  | Ok None => (Err (OpNoHost host_id), [], k)
  | Ok (Some host) =>
      let '(resolved, k) := auth_for_host host k in
      let policy := reconnect_policy_for s host in
      let cfg := for_host host (methods resolved) (window_size req) in
      (Ok (OpenSshTarget (plan_ssh id cfg false req (Some host_id) policy (enabled policy) s)),
       match degraded resolved with Some note => [SeWarning note] | None => [] end, k)
  end.

(** [match req.target]: the events sent meanwhile, oldest first. *)
Definition resolve_target (id : str) (req : OpenSessionReq) (s : Store) (k : kr) :
    result open_error opened * list SessionEvent * kr :=
  match req_target req with
  | TSsh target =>
      (Ok (OpenSshTarget (plan_ssh id (ssh_target_cfg target (window_size req))
             (st_insecure_accept_host_key target) req None POLICY_OFF false s)), [], k)
  | TSavedHost host_id => resolve_saved id host_id req s k
  | TLocalPty target =>
      (Ok (OpenPtyTarget (MkPtyConfig (pt_program target) (pt_args target) None (cols req) (rows req))),
       [], k)
  end.

Context (show_store_error : StoreError → str) (debug_duration : Z → str).

(** [From<SshError> for ReconnectError] *)
Definition reconnect_error_from (e : SshError) : ReconnectError :=
  MkReconnectError (is_retryable e) (display_error debug_duration e).

(** [establish_saved_host], up to [SshSession::connect]. *)
Definition establish_args (host_id : HostId) (session_id : str) (window : option Z) (cols rows : Z)
    (s : Store) (k : kr) : result ReconnectError connect_args * kr :=
  match (get_host host_id s).1 with
  | Err e => (Err (MkReconnectError false (show_store_error e)), k)
  | Ok None =>
      (Err (MkReconnectError false (#"host " ++ show_Z host_id ++ #" was removed")), k)
  | Ok (Some host) =>
      let '(resolved, k) := auth_for_host host k in
      (Ok (MkArgs session_id (for_host host (methods resolved) window) false (hash_new_entries s)
             cols rows), k)
  end.

(** The keyring's secret for a tested host that is being edited. *)
Definition test_stored (host_id : option HostId) (s : Store) (k : kr) : option str * kr :=
  match host_id with
  | None => (None, k)
  | Some id =>
      match mjoin (ok (get_host id s).1) with
      | Some host => stored_secret host k
      | None => (None, k)
      end
  end.

(** [test_connection], up to [SshSession::connect]; no shell is opened, so the
    size is not used. *)
Definition test_args (id : str) (req : TestConnectionReq) (s : Store) (k : kr) : connect_args * kr :=
  let '(stored, k) := test_stored (tr_host_id req) s k in
  (MkArgs id (test_config (tr_host req) (tr_username req) (tr_port req) (tr_auth req) stored) false
     (hash_new_entries s) 0 0, k).
End prepare.

Section finish.
Context `{!Transport, !ShellTransport}.

(** After [SshSession::connect]: the shell, or the error that ended it. *)
Definition finish_connect (args : connect_args) (r : result SshError W) : result SshError (Chan * W) :=
  match r with
  | Err e => Err e
  | Ok w =>
      match open_shell (s_term (ca_cfg args)) (ca_cols args) (ca_rows args) w with
      | (Ok ch, w) => Ok (ch, w)
      | (Err e, _) => Err e
      end
  end.

Definition finish_test (r : result SshError W) : result SshError () :=
  w ← r; (disconnect w).1.

Context `{!PtySystem}.

(** [Control], with what it controls. *)
Inductive live_conn := SshConn (ch : Chan) (w : W) | PtyConn (m : Master) (p : pty).

(** The match of [write_session]; [None]: the PTY's queue is full. *)
Definition write_conn (data : list N) (c : live_conn) : option (result open_error () * live_conn) :=
  match c with
  | SshConn ch w => let '(r, w) := shell_write ch data w in Some (map_err OpSsh r, SshConn ch w)
  | PtyConn m p => '(r, p) ← write data p; Some (map_err OpPty r, PtyConn m p)
  end.

Definition resize_conn (poisoned : bool) (cols rows : Z) (c : live_conn) (s : os) :
    result open_error () * live_conn * os :=
  match c with
  | SshConn ch w => let '(r, w) := shell_resize ch cols rows w in (map_err OpSsh r, SshConn ch w, s)
  | PtyConn m p => let '(r, s) := control_resize poisoned m cols rows s in (map_err OpPty r, c, s)
  end.

Definition close_conn (c : live_conn) : live_conn :=
  match c with
  | SshConn ch w => SshConn ch (shell_close ch w).2
  | PtyConn m p => PtyConn m p
  end.
End finish.

(** * Reconnecting and testing agree with opening *)
Section agree.
Context `{!Keyring, !Engine, !SerdeJson bool, !SerdeJson Z}.

(** C11: a reconnect is the first connect again: from the same store and
    keyring, the attempt to re-establish a saved host is made with exactly the
    arguments opening it was made with (the chain resolved from the keyring,
    the overrides, the same checking of the host key); and when it cannot be
    prepared, because the host was deleted or the store fails, the error is one
    the supervisor does not retry. *)
Theorem reconnect_same_or_stops show_store_error id host_id req s k :
  match (resolve_saved id host_id req s k).1.1,
        establish_args show_store_error host_id id (window_size req) (cols req) (rows req) s k with
  | Ok (OpenSshTarget plan), (Ok args, k') =>
      args = pl_args plan ∧ k' = k ∧ pl_host plan = Some host_id ∧ ca_insecure args = false ∧
      pl_reconnector plan = enabled (pl_policy plan)
  | Err _, (Err e, k') => re_retryable e = false ∧ k' = k
  | _, _ => False
  end.
Proof.
  unfold resolve_saved, establish_args. destruct (get_host host_id s).1 as [[host|]|e]; [|done..].
  destruct (auth_for_host_methods host k) as (note & -> & _). by cbn.
Qed.

(** A test of the saved host [id] with the form as it was opened
    ([TestConnectionReq::host_id]): the host's own server, user and methods,
    and no credential typed, which the webview does not hold. *)
Definition blank_method (host : Host) (kind : AuthKind) (m : AuthMethodDto) : Prop :=
  match kind, m with
  | Password, AmPassword secret => secret = []
  | KeyFile, AmKeyFile path passphrase =>
      path = default [] (h_key_path host) ∧ default [] passphrase = []
  | Agent, AmAgent => True
  | _, _ => False
  end.

Definition chain_of (host : Host) : list AuthKind :=
  h_auth host :: filter (λ a, a ≠ h_auth host) (h_auth_fallbacks host).

Record untouched (id : HostId) (host : Host) (req : TestConnectionReq) : Prop := {
  un_host : tr_host req = h_hostname host;
  un_port : tr_port req = h_port host;
  un_user : tr_username req = h_username host;
  un_auth : Forall2 (blank_method host) (chain_of host) (tr_auth req);
  un_id : tr_host_id req = Some id
}.

Lemma blank_method_filled host kind m stored :
  blank_method host kind m → auth_from_dto_or_stored m stored = build_method host stored kind.
Proof.
  destruct kind, m; cbn; try done; [|by intros ->].
  intros [-> Hp]. by destruct passphrase as [[|]|].
Qed.

(** The secret the test finds: the keyring's, for the account of the chain. *)
Lemma stored_secret_run host k :
  stored_secret host k =
  ((a ← account_for host; ok (get_password keyring a k).1), k).
Proof.
  unfold stored_secret. destruct (account_for host) as [a|]; [|done]. simpl.
  pose proof (get_password_state keyring a k). by destruct (get_password keyring a k); simplify_eq/=.
Qed.

(** When it is the one opening would send: the host records the account of its
    chain, or records none and none has a secret there. *)
Definition records_its_secret (host : Host) (k : kr) : Prop :=
  h_secret_ref host = account_for host ∨
  (h_secret_ref host = None ∧
   ∀ a, account_for host = Some a → ∃ e, (get_password keyring a k).1 = Err e).

Lemma stored_secret_saved host k :
  records_its_secret host k → stored_secret host k = (saved_secret host k, k).
Proof.
  rewrite stored_secret_run. unfold saved_secret. intros [->|[-> Hno]]; [done|].
  destruct (account_for host) as [a|]; [|done]. destruct (Hno a eq_refl) as [e He]. simpl. by rewrite He.
Qed.

Lemma authenticate_ext `{!Transport} c1 c2 w :
  s_username c1 = s_username c2 → s_auth c1 = s_auth c2 → authenticate c1 w = authenticate c2 w.
Proof. unfold authenticate. by intros -> ->. Qed.

(** C31: the connection test answers for the real connection.  Testing a saved
    host with its form untouched dials the same server as the same user with
    the same methods in the same order, whatever the secret: the test fills in
    the keyring's for the account of the chain, opening the keyring's for the
    account the host records.  Where those say the same (the host records the
    account of its chain, or records none and none holds a secret) the two
    chains are equal, secrets included, and for every server the two
    authenticate alike; and the test changes nothing in the keyring. *)
Theorem test_agrees_with_open `{!Transport} tid sid id host form req s k :
  (get_host id s).1 = Ok (Some host) → untouched id host form →
  ∃ args plan, test_args tid form s k = (args, k) ∧
    (resolve_saved sid id req s k).1.1 = Ok (OpenSshTarget plan) ∧
    let tested := ca_cfg args in let real := ca_cfg (pl_args plan) in
    s_host tested = s_host real ∧ s_port tested = s_port real ∧ s_username tested = s_username real ∧
    ca_insecure args = ca_insecure (pl_args plan) ∧ ca_hash_new args = ca_hash_new (pl_args plan) ∧
    s_auth tested = build_method host (stored_secret host k).1 <$> chain_of host ∧
    s_auth real = build_method host (saved_secret host k) <$> chain_of host ∧
    (records_its_secret host k →
       s_auth tested = s_auth real ∧ ∀ w, authenticate tested w = authenticate real w).
Proof.
  intros Hg [Hh Hp Hu Hauth Hid]. unfold test_args, test_stored, resolve_saved. rewrite Hid, Hg. simpl.
  rewrite (surjective_pairing (stored_secret host k)).
  assert ((stored_secret host k).2 = k) as -> by (by rewrite stored_secret_run).
  destruct (auth_for_host_methods host k) as (note & -> & _). cbn [methods degraded].
  do 2 eexists. split; [done|]. split; [done|]. cbv zeta.
  cbn [ca_cfg pl_args plan_ssh ca_insecure ca_hash_new].
  assert (s_auth (test_config (tr_host form) (tr_username form) (tr_port form) (tr_auth form)
      (stored_secret host k).1) = build_method host (stored_secret host k).1 <$> chain_of host) as Ha.
  { cbn [test_config s_auth]. clear -Hauth. induction Hauth as [|kind m ks ms Hm _ IH]; [done|].
    rewrite !fmap_cons, IH. f_equal. by apply blank_method_filled. }
  split_and!; [done..|exact Ha|done|].
  intros Hsec. pose proof (f_equal fst (stored_secret_saved host k Hsec)) as Heq. cbn [fst] in Heq.
  assert (s_auth (test_config (tr_host form) (tr_username form) (tr_port form) (tr_auth form)
      (stored_secret host k).1) =
    s_auth (for_host host (build_method host (saved_secret host k) <$> chain_of host) (window_size req)))
    as Hsame by (rewrite Ha, Heq; done).
  split; [exact Hsame|]. intros w. apply authenticate_ext; [done|exact Hsame].
Qed.

(** Where they do not: a host whose password was kept when its method was
    changed to a key still records the password's account, so opening it tries
    the password on the key, while its test, which looks where a passphrase
    would be, tries none. *)
Lemma stale_secret_differs host k pw :
  h_auth host = KeyFile → h_auth_fallbacks host = [] →
  h_secret_ref host = Some (password_account (h_id host)) →
  (get_password keyring (password_account (h_id host)) k).1 = Ok pw →
  (get_password keyring (passphrase_account (h_id host)) k).1 = Err VNotFound →
  methods (auth_for_host host k).1 = [MKeyFile (default [] (h_key_path host)) (Some pw)] ∧
  (stored_secret host k).1 = None.
Proof.
  intros Ha Hf Hr Hpw Hno. split.
  - destruct (auth_for_host_methods host k) as (note & -> & _). cbn [fst methods]. unfold saved_secret.
    rewrite Ha, Hf, Hr. simpl. by rewrite Hpw.
  - rewrite stored_secret_run. unfold account_for. rewrite Ha. simpl. by rewrite Hno.
Qed.

(** The test does not look at the host's overrides. *)
Theorem test_ignores_overrides tid req s k :
  let cfg := ca_cfg (test_args tid req s k).1 in
  s_connect_timeout cfg = from_secs 10 ∧ s_term cfg = #"xterm-256color" ∧
  s_keepalive_interval cfg = Some (from_secs 15).
Proof. unfold test_args. by destruct (test_stored _ _ _). Qed.
End agree.

(** * On concrete requests *)
Definition json_no_number : SerdeJson Z.
Proof. by refine {| to_string _ := None; from_str _ := None |}. Defined.
Definition sample_req : OpenSessionReq := MkOpenReq (TSavedHost 1) 80 24 None None None.
Definition sample_saved : Host :=
  MkHost 1 None #"web" #"web.example" 22 #"ops" Agent [Password] (Some #"host/1/password") None
    overrides_default None Manual None None None None 0 1 2 [].

Definition sample_form : TestConnectionReq :=
  MkTestReq #"web.example" 22 #"ops" [AmAgent; AmPassword []] (Some 1%Z).

Lemma test_agrees_with_open_witness :
  let test := @test_args map_keyring json_bool in
  let open := @resolve_saved map_keyring json_bool json_no_number in
  let s := d_store sample_created in let k := d_keyring sample_created in
  ∃ args plan, test #"test-0" sample_form s k = (args, k) ∧
    (open #"s-1" 1%Z sample_req s k).1.1 = Ok (OpenSshTarget plan) ∧
    s_host (ca_cfg args) = #"web.example" ∧
    s_auth (ca_cfg args) = [MAgent; MPassword #"pw"] ∧
    s_auth (ca_cfg args) = s_auth (ca_cfg (pl_args plan)).
Proof.
  intros test open s k.
  destruct (@test_agrees_with_open map_keyring json_bool json_no_number sample_transport #"test-0"
    #"s-1" 1 sample_saved sample_form sample_req s k)
    as (args & plan & Ht & Ho & _ & _ & _ & _ & _ & Ha & _ & Hsec);
    [vm_compute; reflexivity|by split; repeat constructor|].
  exists args, plan. split; [exact Ht|]. split; [exact Ho|]. split; [by injection Ht as <-|].
  split; [by rewrite Ha|]. apply Hsec. by left.
Defined.
