(* ===== verification/Bench.v ===== *)
(** * The benchmark harness

    [bench_out_dir], [bench_finish], [bench_log], [bench_auto] and
    [bench_auto_done] of [apps/desktop/src/commands.rs], with their records of
    [proto/src/lib.rs].  The environment is a function from names to values, and
    what writing gives is an argument. *)
From S2P Require Import Prelude Text Path F64 Proto.

Record BenchJsStats := MkBenchJs {
  js_recv_bytes : Z;
  js_recv_frames : Z;
  js_parsed_bytes : Z;
  js_wall_ms : Z;
  js_max_pending_bytes : Z;
  js_pause_count : Z;
  js_newlines : Z;
  js_echo_p50_ms : option f64;
  js_echo_p95_ms : option f64;
  js_echo_max_ms : option f64;
  js_echo_samples : option Z;
  js_max_stall_ms : option f64
}.

Record BenchReport := MkBenchReport {
  br_scenario : str;
  br_renderer : str;
  br_chunk_max : Z;
  br_tick_ms : Z;
  br_window_size : Z;
  br_server : str;
  br_rust : StreamStatsDto;
  br_js : BenchJsStats
}.

Record AutoBenchCfg := MkAutoBench {
  ab_host : str;
  ab_port : Z;
  ab_username : str;
  ab_key_path : str;
  ab_chunk_max : Z;
  ab_tick_ms : Z;
  ab_window_size : Z;
  ab_quick : bool
}.

Section bench.
Context (env : str → option str).

Definition bench_out_dir : str := default #"../../docs/bench/results" (env #"TERN_BENCH_OUT").

(** The path a report is written to. *)
Definition bench_path (report : BenchReport) : str :=
  path_join bench_out_dir
    (br_scenario report ++ #"-c" ++ show_Z (br_chunk_max report / 1024) ++ #"k-w" ++
     show_Z (br_window_size report / 1024) ++ #"k.json").

Definition bench_finish (create_dir_all : str → result str ()) (to_json : BenchReport → result str str)
    (write : str → str → result str ()) (report : BenchReport) : result str str :=
  match create_dir_all bench_out_dir with
  | Err e => Err e
  | Ok () =>
      match to_json report with
      | Err e => Err e
      | Ok json =>
          match write (bench_path report) json with
          | Err e => Err e
          | Ok () => Ok (bench_path report)
          end
      end
  end.

(** What [bench_log] appends, and to which file; an error is ignored. *)
Definition bench_log (line : str) : str * str := (path_join bench_out_dir #"bench.log", line ++ [newline]).

Definition env_or (key dflt : str) : str := default dflt (env key).

Definition bench_auto : option AutoBenchCfg :=
  mode ← env #"TERN_BENCH";
  if decide (mode ≠ #"auto") then None
  else
    port ← parse_uint u16_max (env_or #"TERN_SSH_PORT" #"2222");
    chunk ← parse_uint u32_max (env_or #"TERN_BENCH_CHUNK" #"131072");
    tick ← parse_uint u32_max (env_or #"TERN_BENCH_TICK" #"8");
    window ← parse_uint u32_max (env_or #"TERN_BENCH_WINDOW" #"524288");
    Some {| ab_host := env_or #"TERN_SSH_HOST" #"127.0.0.1";
            ab_port := port;
            ab_username := env_or #"TERN_SSH_USER" #"tern";
            ab_key_path := env_or #"TERN_SSH_KEY" #"../../.rig/ssh/id_ed25519";
            ab_chunk_max := chunk;
            ab_tick_ms := tick;
            ab_window_size := window;
            ab_quick := bool_decide (env_or #"TERN_BENCH_QUICK" #"0" = #"1") |}.

(** The line printed, and the status the process exits with, if it does. *)
Definition bench_auto_done (failed : bool) : str * option Z :=
  (#"TERN_BENCH_COMPLETE failed=" ++ (if failed then #"true" else #"false") ++ [newline],
   if decide (env #"TERN_BENCH_EXIT" = Some #"1") then Some (if failed then 1%Z else 0%Z) else None).

(** A number out of its range starts no run. *)
Lemma bench_auto_typed cfg :
  bench_auto = Some cfg →
  env #"TERN_BENCH" = Some #"auto" ∧ (0 ≤ ab_port cfg ≤ u16_max)%Z ∧
  (0 ≤ ab_chunk_max cfg ≤ u32_max)%Z ∧ (0 ≤ ab_tick_ms cfg ≤ u32_max)%Z ∧
  (0 ≤ ab_window_size cfg ≤ u32_max)%Z.
Proof.
  unfold bench_auto. intros (mode & Hm & Hb)%bind_Some. destruct (decide _) as [|Hmode]; [done|].
  apply dec_stable in Hmode as ->. apply bind_Some in Hb as (port & Hp & Hb).
  apply bind_Some in Hb as (chunk & Hc & Hb). apply bind_Some in Hb as (tick & Ht & Hb).
  apply bind_Some in Hb as (window & Hw & [= <-]). split; [done|].
  apply parse_uint_bound in Hp, Hc, Ht, Hw; done.
Qed.
End bench.
