(* ===== verification/DataPath.v ===== *)
(** * The bytes of a session, from its channel to the webview

    The tasks of one SSH session in [apps/desktop/src/commands.rs], joined by
    their bounded queues as [open_shell] and [spawn_data_path] join them: the
    pump of the channel ([Shell]), the supervisor that feeds the coalescer and
    swaps transports ([Supervise]), the coalescer ([TermStream]) and the gate
    before the webview ([Commands]).  A task that waits for room in a queue
    holds the element it is sending: the queue then has one element more than
    its depth, and the task takes no step. *)
From S2P Require Import Prelude Text Model Shell TermStream F64 Reconnect Supervise Commands.

(** Of the frame and input queues of [spawn_data_path]. *)
Definition QUEUE_DEPTH : nat := 32.

Section path.
Context {E T : Type}.

(** [p_received] is kept for the proofs: the chunks the channels delivered to a
    session that was running. *)
Record path := MkPath {
  p_pump : pump;
  p_out : list (list N);
  p_sup : sup E T;
  p_in : list (list N);
  p_co : co_state;
  p_frames : list (list N);
  p_gate : gate;
  p_received : list (list N)
}.

Definition path_init (cfg : CoalescerConfig) (now : Z) (t : T) : path :=
  MkPath pump_init [] (sup_init t) [] (co_init cfg now stats_new) [] gate_init [].

Definition pumping (s : sup E T) : bool := match ph s with Pumping => true | _ => false end.
Definition sup_ended (s : sup E T) : bool := match ph s with Ended => true | _ => false end.

(** The sender of a queue of this depth is not waiting for room. *)
Definition has_room (depth : nat) (q : list (list N)) : bool := bool_decide (length q ≤ depth).

Context (policy : ReconnectPolicy) (has_reconnector : bool) (cfg : CoalescerConfig).

(** The pump of the present transport; its consumer is the supervisor. *)
Definition pump_turn (i : pump_input) (p : path) : option path :=
  if has_room Shell.OUTPUT_QUEUE_DEPTH (p_out p) then
    s ← pump_step (p_pump p) i;
    let new := option_list (data_of i) in
    Some (MkPath s (p_out p ++ new) (p_sup p) (p_in p) (p_co p) (p_frames p) (p_gate p)
            (p_received p ++ new))
  else None.

(** [out.recv()] yields a chunk, sent on to the coalescer. *)
Definition sup_take (p : path) : option path :=
  match p_out p with
  | c :: rest =>
      if has_room QUEUE_DEPTH (p_in p) then
        let alive := negb (returned (p_co p)) in
        s ← sup_step policy has_reconnector (p_sup p) (OutChunk c alive);
        Some (MkPath (p_pump p) rest s (if alive then p_in p ++ [c] else p_in p) (p_co p) (p_frames p)
                (p_gate p) (p_received p))
      else None
  | [] => None
  end.

(** Whatever else wakes the supervisor: the output ends once it is drained, and
    a transport that was established comes with its own output.  That it then
    sets the pause watch is a step of the gate. *)
Definition sup_turn (i : input E T) (p : path) : option path :=
  s ← sup_step policy has_reconnector (p_sup p) i;
  match i with
  | OutChunk _ _ => None
  | OutEnded _ status _ _ =>
      if decide (p_out p = [] ∧ exit_status (p_pump p) = Some status) then
        Some (MkPath (p_pump p) [] s (p_in p) (p_co p) (p_frames p) (p_gate p) (p_received p))
      else None
  | AttemptOk _ =>
      Some (MkPath pump_init [] s (p_in p) (p_co p) (p_frames p) (p_gate p) (p_received p))
  | _ =>
      Some (MkPath (p_pump p) (p_out p) s (p_in p) (p_co p) (p_frames p) (p_gate p) (p_received p))
  end.

(** The coalescer: its input ends once the supervisor is gone, its consumer is
    the gate. *)
Definition co_turn (e : TermStream.event) (p : path) : option path :=
  if has_room QUEUE_DEPTH (p_frames p) && Bool.eqb (event_alive e) (negb (gate_ended (p_gate p))) then
    s ← co_step cfg (p_co p) e;
    let frames := p_frames p ++ drop (length (TermStream.sent (p_co p))) (TermStream.sent s) in
    match e with
    | Chunk c _ _ =>
        match p_in p with
        | c' :: rest =>
            if decide (c = c') then
              Some (MkPath (p_pump p) (p_out p) (p_sup p) rest s frames (p_gate p) (p_received p))
            else None
        | [] => None
        end
    | Deadline _ _ =>
        Some (MkPath (p_pump p) (p_out p) (p_sup p) (p_in p) s frames (p_gate p) (p_received p))
    | Closed _ =>
        if decide (p_in p = [] ∧ sup_ended (p_sup p) = true) then
          Some (MkPath (p_pump p) (p_out p) (p_sup p) (p_in p) s frames (p_gate p) (p_received p))
        else None
    end
  else None.

(** The gate takes a frame, or its pause watch changes. *)
Definition gate_turn (i : gate_input) (p : path) : option path :=
  g ← gate_step (p_gate p) i;
  match i with
  | Frame f _ =>
      match p_frames p with
      | f' :: rest =>
          if decide (f = f') then
            Some (MkPath (p_pump p) (p_out p) (p_sup p) (p_in p) (p_co p) rest g (p_received p))
          else None
      | [] => None
      end
  | _ => Some (MkPath (p_pump p) (p_out p) (p_sup p) (p_in p) (p_co p) (p_frames p) g (p_received p))
  end.

(** A delivered message says whether the supervisor still holds the output. *)
Inductive path_step (p : path) : path → Prop :=
  | path_pump i p' :
      match i with Deliver _ alive => alive = pumping (p_sup p) | _ => True end →
      pump_turn i p = Some p' → path_step p p'
  | path_take p' : sup_take p = Some p' → path_step p p'
  | path_sup i p' : sup_turn i p = Some p' → path_step p p'
  | path_co e p' : co_turn e p = Some p' → path_step p p'
  | path_gate i p' : gate_turn i p = Some p' → path_step p p'.

(** What is between the channel and the webview. *)
Definition in_flight_bytes (p : path) : list N :=
  concat (option_list (held (p_gate p)) ++ p_frames p) ++ buf (p_co p) ++ concat (p_in p ++ p_out p).

(** What the webview was sent. *)
Definition shown (p : path) : list N := concat (shipped (p_gate p)).
(** * Nothing is lost on the way *)

(** One turn of the coalescer whose consumer is there. *)
Lemma co_step_alive s e s' :
  co_step cfg s e = Some s' → event_alive e = true →
  ∃ new, TermStream.sent s' = TermStream.sent s ++ new ∧ length new ≤ 1 ∧
    concat new ++ buf s' = buf s ++ chunk_of e ∧
    (returned s' = true → buf s' = [] ∧ match e with Closed _ => True | _ => False end).
Proof.
  unfold co_step. destruct (returned s) eqn:Hr; [done|].
  assert (∀ now s1, returned s1 = false → ∃ new, TermStream.sent (flush now true s1) = TermStream.sent s1 ++ new ∧
    length new ≤ 1 ∧ concat new ++ buf (flush now true s1) = buf s1 ∧ returned (flush now true s1) = false)
    as Hflush.
  { intros now s1 Hr1. unfold flush. destruct (buf s1) as [|b bs] eqn:Hb; [exists []|exists [b :: bs]];
      simpl; rewrite ?Hb, ?app_nil_r; split_and!; try done; lia. }
  destruct e as [chunk now alive|now alive|alive]; cbn [event_alive chunk_of]; intros Hs ->.
  - destruct (Hflush now (absorb_chunk chunk s) Hr) as (new & Hn & Hl & Hb & Hr').
    assert (s' = flush now true (absorb_chunk chunk s) ∨ s' = absorb_chunk chunk s) as [->| ->].
    { destruct (buf s); [destruct (_ || _)|destruct (bool_decide _)]; simplify_eq; auto. }
    + exists new. split_and!; [exact Hn|done|exact Hb|by rewrite Hr'].
    + exists []. simpl. rewrite app_nil_r. split_and!; [done|lia|done|by rewrite Hr].
  - destruct (buf s) as [|b bs] eqn:Hbuf; [done|]. destruct (_ <=? _)%Z; [|done]. simplify_eq.
    destruct (Hflush now s Hr) as (new & Hn & Hl & Hb & Hr'). exists new.
    rewrite app_nil_r, <-Hbuf. split_and!; [done..|by rewrite Hr'].
  - simplify_eq. unfold finish. rewrite app_nil_r. destruct (buf s) as [|b bs] eqn:Hbuf.
    + exists []. rewrite app_nil_r. simpl. split_and!; [done|lia|done|done].
    + exists [b :: bs]. simpl. rewrite !app_nil_r. split_and!; [done|lia|done|done].
Qed.

(** As long as the gate runs. *)
Record path_inv (p : path) : Prop := {
  path_bytes : gate_ended (p_gate p) = false → shown p ++ in_flight_bytes p = concat (p_received p);
  path_prefix : shown p `prefix_of` concat (p_received p);
  path_returned : gate_ended (p_gate p) = false → returned (p_co p) = true →
    sup_ended (p_sup p) = true ∧ p_in p = [] ∧ buf (p_co p) = [];
  path_between : pumping (p_sup p) = false → sup_ended (p_sup p) = false → p_out p = []
}.

Lemma path_inv_init now t : path_inv (path_init cfg now t).
Proof. by split. Qed.

(** A supervisor that ended takes no step. *)
Lemma sup_step_not_ended s i s' :
  sup_step policy has_reconnector s i = Some s' → sup_ended s = false.
Proof. unfold sup_step, sup_ended. by destruct (ph s). Qed.

Lemma pump_turn_inv i p p' :
  path_inv p → match i with Deliver _ alive => alive = pumping (p_sup p) | _ => True end →
  pump_turn i p = Some p' → path_inv p'.
Proof.
  intros [Hb Hp Hr Ho] Hi. unfold pump_turn. destruct (has_room _ _); [|done].
  intros (s & Hs & [= <-])%bind_Some. split; unfold shown, in_flight_bytes in *; simpl.
  - intros Hg. specialize (Hb Hg). rewrite !concat_app in *. rewrite <-Hb. by rewrite <-!(assoc_L (++)).
  - rewrite concat_app. by apply prefix_app_r.
  - done.
  - intros Hpu He. rewrite (Ho Hpu He). simpl. destruct i as [| |msg alive]; [done..|].
    subst alive. rewrite Hpu. by destruct msg as [[]|].
Qed.

Lemma sup_take_inv p p' : path_inv p → sup_take p = Some p' → path_inv p'.
Proof.
  intros [Hb Hp Hr Ho]. unfold sup_take. destruct (p_out p) as [|c rest] eqn:Hout; [done|].
  destruct (has_room _ _); [|done]. intros (s & Hs & [= <-])%bind_Some.
  pose proof (sup_step_not_ended _ _ _ Hs) as Hne.
  assert (gate_ended (p_gate p) = false → returned (p_co p) = false) as Hret.
  { intros Hg. destruct (returned (p_co p)); [|done]. destruct (Hr Hg eq_refl) as [He _]. congruence. }
  split; unfold shown, in_flight_bytes in *; simpl.
  - intros Hg. rewrite (Hret Hg). simpl. rewrite <-Hb, Hout by done.
    by rewrite <-(assoc_L (++) (p_in p)).
  - done.
  - intros Hg. by rewrite (Hret Hg).
  - revert Hs. unfold sup_step, pumping, sup_ended. destruct (ph (p_sup p)); try done.
    by destruct (negb _); intros [= <-].
Qed.

Lemma sup_turn_inv i p p' : path_inv p → sup_turn i p = Some p' → path_inv p'.
Proof.
  intros [Hb Hp Hr Ho]. unfold sup_turn. intros (s & Hs & Hi)%bind_Some.
  pose proof (sup_step_not_ended _ _ _ Hs) as Hne.
  assert (gate_ended (p_gate p) = false → returned (p_co p) = false) as Hret.
  { intros Hg. destruct (returned (p_co p)); [|done]. destruct (Hr Hg eq_refl) as [He _]. congruence. }
  assert (∀ out pu, out = p_out p → (pumping s = false → sup_ended s = false → out = []) →
    path_inv (MkPath pu out s (p_in p) (p_co p) (p_frames p) (p_gate p) (p_received p))) as Hgo.
  { intros out pu -> Hout. split; unfold shown, in_flight_bytes in *; simpl; [done|done| |done].
    intros Hg. by rewrite (Hret Hg). }
  destruct i as [| | | |t|]; try done.
  - case_decide as Hd; [|done]. simplify_eq. destruct Hd as [Hout _]. by apply Hgo.
  - simplify_eq. apply Hgo; [done|]. revert Hs. unfold sup_step, sup_ended.
    by destruct (ph (p_sup p)); intros [= <-].
  - simplify_eq. apply Hgo; [done|]. intros _ _. apply Ho; [|done]. revert Hs. unfold sup_step, pumping.
    by destruct (ph (p_sup p)).
  - simplify_eq. apply Hgo; [|done]. symmetry. apply Ho; [|done]. revert Hs. unfold sup_step, pumping.
    by destruct (ph (p_sup p)).
  - simplify_eq. apply Hgo; [done|]. intros _ _. apply Ho; [|done]. revert Hs. unfold sup_step, pumping.
    by destruct (ph (p_sup p)).
Qed.

Lemma co_turn_inv e p p' : path_inv p → co_turn e p = Some p' → path_inv p'.
Proof.
  intros [Hb Hp Hr Ho]. unfold co_turn. destruct (has_room _ _); [|done].
  destruct (Bool.eqb_spec (event_alive e) (negb (gate_ended (p_gate p)))) as [Ha|]; [|done]. simpl.
  intros (s & Hs & Hi)%bind_Some.
  assert (gate_ended (p_gate p) = false → event_alive e = true) as Halive by (intros Hg; by rewrite Ha, Hg).
  assert (∀ rest, (gate_ended (p_gate p) = false → concat (p_in p) = chunk_of e ++ concat rest) →
    (match e with Closed _ => p_in p = [] ∧ sup_ended (p_sup p) = true | _ => True end) →
    match e with Closed _ => rest = p_in p | _ => True end →
    path_inv (MkPath (p_pump p) (p_out p) (p_sup p) rest s
      (p_frames p ++ drop (length (TermStream.sent (p_co p))) (TermStream.sent s)) (p_gate p)
      (p_received p))) as Hgo.
  { intros rest Hin Hcl Hrest. split; unfold shown, in_flight_bytes in *; simpl; [|done| |done].
    - intros Hg. destruct (co_step_alive _ _ _ Hs (Halive Hg)) as (new & Hn & _ & Hbuf & _).
      rewrite Hn, drop_app_length, <-Hb by done. f_equal.
      rewrite !concat_app, (Hin Hg), <-!(assoc_L (++)). do 2 f_equal.
      rewrite (assoc_L (++) (concat new)), Hbuf. by rewrite <-!(assoc_L (++)).
    - intros Hg Hret. destruct (co_step_alive _ _ _ Hs (Halive Hg)) as (new & _ & _ & _ & Hend).
      destruct (Hend Hret) as [Hempty Hc]. destruct e; try done. destruct Hcl as [Hnil He]. by subst rest. }
  destruct e as [c now alive|now alive|alive].
  - destruct (p_in p) as [|c' rest] eqn:Hin; [done|]. case_decide as Hc; [|done]. simplify_eq. by apply Hgo.
  - simplify_eq. by apply Hgo.
  - case_decide as Hc; [|done]. simplify_eq. by apply Hgo.
Qed.

Lemma gate_turn_inv i p p' : path_inv p → gate_turn i p = Some p' → path_inv p'.
Proof.
  intros [Hb Hp Hr Ho]. unfold gate_turn. intros (g & Hg & Hi)%bind_Some.
  destruct (gate_step_spec _ _ _ Hg) as (Hlive & Hall & (k & Hpre) & _).
  specialize (Hb Hlive). specialize (Hr Hlive).
  assert (∀ rest, p_frames p = option_list (frame_of i) ++ rest →
    path_inv (MkPath (p_pump p) (p_out p) (p_sup p) (p_in p) (p_co p) rest g (p_received p))) as Hgo.
  { intros rest Hf. unfold shown, in_flight_bytes in *. rewrite Hf in Hb.
    set (tail := concat rest ++ buf (p_co p) ++ concat (p_in p ++ p_out p)).
    assert (concat ((shipped (p_gate p) ++ option_list (held (p_gate p))) ++ option_list (frame_of i)) ++
      tail = concat (p_received p)) as Hb'.
    { rewrite <-Hb. unfold tail. rewrite !concat_app. by rewrite <-!(assoc_L (++)). }
    split; unfold shown, in_flight_bytes; simpl; [| |done|done].
    - intros Hge. rewrite <-Hb', <-(Hall Hge). unfold tail. rewrite !concat_app.
      by rewrite <-!(assoc_L (++)).
    - rewrite <-Hb', <-Hpre, concat_app, <-(assoc_L (++)). by eexists. }
  destruct i as [f alive|b alive|].
  - destruct (p_frames p) as [|f' rest] eqn:Hf; [done|]. case_decide; [|done]. simplify_eq. by apply Hgo.
  - simplify_eq. by apply Hgo.
  - simplify_eq. by apply Hgo.
Qed.

Lemma path_step_inv p p' : path_inv p → path_step p p' → path_inv p'.
Proof.
  intros Hp. destruct 1 as [i p' Hi Hs|p' Hs|i p' Hs|e p' Hs|i p' Hs].
  - by eapply pump_turn_inv.
  - by eapply sup_take_inv.
  - by eapply sup_turn_inv.
  - by eapply co_turn_inv.
  - by eapply gate_turn_inv.
Qed.

Lemma path_reach_inv now t p : steps path_step (path_init cfg now t) p → path_inv p.
Proof.
  intros Hs. refine (steps_invariant _ path_inv _ _ _ (path_inv_init now t) Hs).
  intros p1 p2. apply path_step_inv.
Qed.
(** * The backlog is bounded *)
Section sizes.
Context (L : nat).

(** The largest frame when no chunk is longer than [L]. *)
Definition frame_max : nat := Nat.pred (max_frame cfg) + L.

Record path_sizes (p : path) : Prop := {
  size_out : length (p_out p) ≤ S Shell.OUTPUT_QUEUE_DEPTH;
  size_in : length (p_in p) ≤ S QUEUE_DEPTH;
  size_frames : length (p_frames p) ≤ S QUEUE_DEPTH;
  size_chunks : Forall (λ c, length c ≤ L) (p_in p ++ p_out p);
  size_frame : Forall (λ f, length f ≤ frame_max) (option_list (held (p_gate p)) ++ p_frames p);
  size_buf : buf (p_co p) = [] ∨ length (buf (p_co p)) < max_frame cfg
}.

Lemma co_step_sizes s e s' :
  co_step cfg s e = Some s' → buf s = [] ∨ length (buf s) < max_frame cfg → length (chunk_of e) ≤ L →
  (buf s' = [] ∨ length (buf s') < max_frame cfg) ∧
  ∃ new, TermStream.sent s' = TermStream.sent s ++ new ∧ length new ≤ 1 ∧ Forall (λ f, length f ≤ frame_max) new.
Proof.
  intros Hs Hbuf HL. unfold co_step in Hs. destruct (returned s); [done|].
  assert (∀ now alive s1, length (buf s1) ≤ frame_max →
    buf (flush now alive s1) = [] ∧ ∃ new, TermStream.sent (flush now alive s1) = TermStream.sent s1 ++ new ∧
      length new ≤ 1 ∧ Forall (λ f, length f ≤ frame_max) new) as Hflush.
  { intros now alive s1 Hl. unfold flush. destruct (buf s1) as [|b bs] eqn:Hb.
    { split; [done|]. exists []. rewrite app_nil_r. split_and!; [done|simpl; lia|done]. }
    destruct alive; (split; [done|]).
    - exists [b :: bs]. by split_and!; [| |constructor].
    - exists []. rewrite app_nil_r. split_and!; [done|simpl; lia|done]. }
  assert (length (buf s) ≤ Nat.pred (max_frame cfg)) as Hlen by (destruct Hbuf as [->|]; simpl; lia).
  destruct e as [chunk now alive|now alive|alive]; cbn [chunk_of] in HL.
  - set (s1 := absorb_chunk chunk s) in *.
    assert (length (buf s1) ≤ frame_max) as Hl1
      by (unfold s1, frame_max; simpl; rewrite length_app; lia).
    assert ((s' = flush now alive s1) ∨ (s' = s1 ∧ length (buf s1) < max_frame cfg)) as [->|[-> Hlt]].
    { destruct (buf s); case_bool_decide; simpl in Hs; simplify_eq; auto; try (right; split; [done|lia]).
      destruct (_ <=? _)%Z; simplify_eq; auto. right. split; [done|lia]. }
    + destruct (Hflush now alive s1 Hl1) as (Hb & Hn). split; [by left|exact Hn].
    + split; [by right|]. exists []. unfold s1. simpl. rewrite app_nil_r. split_and!; [done|lia|done].
  - destruct (buf s) as [|b bs] eqn:Hb; [done|]. destruct (_ <=? _)%Z; [|done]. simplify_eq.
    rewrite <-Hb in Hlen. destruct (Hflush now alive s) as (Hb' & Hn); [unfold frame_max; lia|].
    split; [by left|exact Hn].
  - simplify_eq. unfold finish. destruct (buf s) as [|b bs] eqn:Hb.
    { split; [by left|]. exists []. simpl. rewrite app_nil_r. split_and!; [done|lia|done]. }
    split; [by left|]. simpl. destruct alive.
    + exists [b :: bs]. split_and!; [done|done|]. constructor; [|done]. unfold frame_max. lia.
    + exists []. rewrite app_nil_r. split_and!; [done|simpl; lia|done].
Qed.

Lemma has_room_le depth q : has_room depth q = true → length q ≤ depth.
Proof. apply bool_decide_eq_true_1. Qed.

Lemma pump_turn_sizes i p p' :
  path_sizes p → Forall (λ c, length c ≤ L) (p_received p') → pump_turn i p = Some p' → path_sizes p'.
Proof.
  intros [Ho Hi Hf Hc Hh Hb] HL. unfold pump_turn. destruct (has_room _ _) eqn:Hroom; [|done].
  apply has_room_le in Hroom. intros (s & _ & [= <-])%bind_Some. simpl in HL.
  assert (length (option_list (data_of i)) ≤ 1) by (destruct (data_of i); simpl; lia).
  split; simpl; try done; [rewrite length_app; lia|].
  rewrite (assoc_L (++)), Forall_app. split; [done|]. by apply Forall_app in HL as [_ ?].
Qed.

Lemma sup_take_sizes p p' : path_sizes p → sup_take p = Some p' → path_sizes p'.
Proof.
  intros [Ho Hi Hf Hc Hh Hb]. unfold sup_take. destruct (p_out p) as [|c rest] eqn:Hout; [done|].
  destruct (has_room _ _) eqn:Hroom; [|done]. apply has_room_le in Hroom.
  intros (s & _ & [= <-])%bind_Some. simpl in Ho.
  rewrite Forall_app, Forall_cons in Hc. destruct Hc as (Hin & Hc & Hrest).
  destruct (negb _); split; simpl; try done; rewrite ?length_app; simpl; try lia;
    rewrite ?Forall_app, ?Forall_singleton; by split_and?.
Qed.

Lemma sup_turn_sizes i p p' : path_sizes p → sup_turn i p = Some p' → path_sizes p'.
Proof.
  intros [Ho Hi Hf Hc Hh Hb]. unfold sup_turn. intros (s & _ & Hp)%bind_Some.
  assert (Forall (λ c, length c ≤ L) (p_in p ++ [])) as Hc'
    by (rewrite app_nil_r; by apply Forall_app in Hc as [? _]).
  destruct i; try case_decide; simplify_eq; split; simpl; (done || lia).
Qed.

Lemma co_turn_sizes e p p' : path_sizes p → co_turn e p = Some p' → path_sizes p'.
Proof.
  intros [Ho Hi Hf Hc Hh Hb]. unfold co_turn. destruct (has_room _ _) eqn:Hroom; [|done].
  apply has_room_le in Hroom. destruct (Bool.eqb _ _); [|done]. simpl. intros (s & Hs & He)%bind_Some.
  assert (∀ rest, length rest ≤ S QUEUE_DEPTH → Forall (λ c, length c ≤ L) (rest ++ p_out p) →
    length (chunk_of e) ≤ L →
    path_sizes (MkPath (p_pump p) (p_out p) (p_sup p) rest s
      (p_frames p ++ drop (length (TermStream.sent (p_co p))) (TermStream.sent s)) (p_gate p)
      (p_received p))) as Hgo.
  { intros rest Hlen Hrest HL. destruct (co_step_sizes _ _ _ Hs Hb HL) as (Hb' & new & Hn & Hl & Hnew).
    split; simpl; try done; rewrite Hn, drop_app_length.
    - rewrite length_app. lia.
    - rewrite (assoc_L (++)). by apply Forall_app. }
  destruct e as [c now alive|now alive|alive].
  - destruct (p_in p) as [|c' rest] eqn:Hin; [done|]. case_decide as Heq; [|done]. simplify_eq.
    simpl in Hc, Hi. apply Forall_cons in Hc as [Hc Hrest]. apply Hgo; [lia|done|done].
  - simplify_eq. apply Hgo; simpl; [done|done|lia].
  - case_decide; [|done]. simplify_eq. apply Hgo; simpl; [done|done|lia].
Qed.

Lemma gate_step_held s i s' f :
  gate_step s i = Some s' → held s' = Some f → held s = Some f ∨ frame_of i = Some f.
Proof.
  unfold gate_step, ship. destruct (gate_ended s); [done|].
  destruct i as [f' alive|b alive|]; simpl; intros; repeat case_match; simplify_eq/=; auto.
Qed.

Lemma gate_turn_sizes i p p' : path_sizes p → gate_turn i p = Some p' → path_sizes p'.
Proof.
  intros [Ho Hi Hf Hc Hh Hb]. unfold gate_turn. intros (g & Hg & Hp)%bind_Some.
  assert (∀ rest, p_frames p = option_list (frame_of i) ++ rest →
    path_sizes (MkPath (p_pump p) (p_out p) (p_sup p) (p_in p) (p_co p) rest g (p_received p))) as Hgo.
  { intros rest Hfr. rewrite Hfr, !Forall_app in Hh. destruct Hh as (Hheld & Hframe & Hrest).
    rewrite Hfr, length_app in Hf. split; simpl; try done; [lia|]. apply Forall_app. split; [|done].
    destruct (held g) as [f|] eqn:Hg'; [|done].
    destruct (gate_step_held _ _ _ _ Hg Hg') as [Heq|Heq];
      [by rewrite Heq in Hheld|by rewrite Heq in Hframe]. }
  destruct i as [f alive|b alive|].
  - destruct (p_frames p) as [|f' rest] eqn:Hfr; [done|]. case_decide; [|done]. simplify_eq. by apply Hgo.
  - simplify_eq. by apply Hgo.
  - simplify_eq. by apply Hgo.
Qed.

Lemma path_step_received p p' : path_step p p' → p_received p `prefix_of` p_received p'.
Proof.
  destruct 1 as [i p' _ Hs|p' Hs|i p' Hs|e p' Hs|i p' Hs].
  - unfold pump_turn in Hs. destruct (has_room _ _); [|done]. apply bind_Some in Hs as (s & _ & [= <-]).
    by eexists.
  - unfold sup_take in Hs. destruct (p_out p); [done|]. destruct (has_room _ _); [|done].
    by apply bind_Some in Hs as (s & _ & [= <-]).
  - unfold sup_turn in Hs. apply bind_Some in Hs as (s & _ & Hs). destruct i; try case_decide; by simplify_eq.
  - unfold co_turn in Hs. destruct (_ && _); [|done]. apply bind_Some in Hs as (s & _ & Hs).
    destruct e; [destruct (p_in p); [done|]| |]; try case_decide; by simplify_eq.
  - unfold gate_turn in Hs. apply bind_Some in Hs as (s & _ & Hs).
    destruct i; [destruct (p_frames p); [done|]| |]; try case_decide; by simplify_eq.
Qed.

Lemma path_reach_sizes now t p :
  steps path_step (path_init cfg now t) p → Forall (λ c, length c ≤ L) (p_received p) → path_sizes p.
Proof.
  intros Hs.
  refine (steps_invariant _ (λ p, Forall (λ c, length c ≤ L) (p_received p) → path_sizes p) _ _ _ _ Hs).
  - intros p1 p2 IH Hstep HL. assert (path_sizes p1) as H1.
    { apply IH. destruct (path_step_received _ _ Hstep) as [k Hk]. rewrite Hk in HL.
      by apply Forall_app in HL as [? _]. }
    destruct Hstep as [i p' _ Hp|p' Hp|i p' Hp|e p' Hp|i p' Hp].
    + by eapply pump_turn_sizes.
    + by eapply sup_take_sizes.
    + by eapply sup_turn_sizes.
    + by eapply co_turn_sizes.
    + by eapply gate_turn_sizes.
  - intros _. split; simpl; try done; try lia. by left.
Qed.

(** A paused gate ships nothing. *)
Lemma paused_shows_nothing p p' :
  path_step p p' → gate_paused (p_gate p) = true → gate_paused (p_gate p') = true → shown p' = shown p.
Proof.
  unfold shown. destruct 1 as [i p' _ Hs|p' Hs|i p' Hs|e p' Hs|i p' Hs].
  - unfold pump_turn in Hs. destruct (has_room _ _); [|done]. by apply bind_Some in Hs as (s & _ & [= <-]).
  - unfold sup_take in Hs. destruct (p_out p); [done|]. destruct (has_room _ _); [|done].
    by apply bind_Some in Hs as (s & _ & [= <-]).
  - unfold sup_turn in Hs. apply bind_Some in Hs as (s & _ & Hs). destruct i; try case_decide; by simplify_eq.
  - unfold co_turn in Hs. destruct (_ && _); [|done]. apply bind_Some in Hs as (s & _ & Hs).
    destruct e; [destruct (p_in p); [done|]| |]; try case_decide; by simplify_eq.
  - unfold gate_turn in Hs. apply bind_Some in Hs as (g & Hg & Hs).
    destruct (gate_step_spec _ _ _ Hg) as (_ & _ & _ & Hp).
    assert (p_gate p' = g) as -> by (destruct i; [destruct (p_frames p); [done|]| |]; try case_decide;
      by simplify_eq).
    intros H1 H2. by rewrite Hp.
Qed.

(** C35: the backlog of a session is bounded, whatever the server sends and
    however long the webview pauses: when no chunk is longer than [L], what is
    between the channel and the webview fits in three queues, one buffer and
    the elements in hand; a full queue stops the pump, so the server runs out
    of window; and while the session is paused the terminal is sent nothing. *)
Theorem path_backlog now t p :
  steps path_step (path_init cfg now t) p → Forall (λ c, length c ≤ L) (p_received p) →
  length (in_flight_bytes p) ≤
    (S (S QUEUE_DEPTH)) * frame_max + max_frame cfg + (S QUEUE_DEPTH + S Shell.OUTPUT_QUEUE_DEPTH) * L ∧
  (length (p_out p) = S Shell.OUTPUT_QUEUE_DEPTH → ∀ i, pump_turn i p = None) ∧
  (∀ p', path_step p p' → gate_paused (p_gate p) = true → gate_paused (p_gate p') = true →
     shown p' = shown p).
Proof.
  intros Hs HL. destruct (path_reach_sizes now t p Hs HL) as [Ho Hi Hf Hc Hh Hb].
  split_and!; [| |by intros p' Hstep; apply paused_shows_nothing].
  - unfold in_flight_bytes. rewrite !length_app.
    apply concat_length_le in Hc, Hh. rewrite length_app in Hc, Hh.
    assert (length (option_list (held (p_gate p))) ≤ 1) as H1 by (destruct (held (p_gate p)); simpl; lia).
    assert (length (buf (p_co p)) ≤ max_frame cfg) as H2 by (destruct Hb as [->|]; simpl; lia).
    pose proof (Nat.mul_le_mono_r (length (option_list (held (p_gate p))) + length (p_frames p))
      (S (S QUEUE_DEPTH)) frame_max ltac:(lia)).
    pose proof (Nat.mul_le_mono_r (length (p_in p) + length (p_out p))
      (S QUEUE_DEPTH + S Shell.OUTPUT_QUEUE_DEPTH) L ltac:(lia)).
    lia.
  - intros Hfull i. unfold pump_turn, has_room. rewrite bool_decide_eq_false_2; [done|]. lia.
Qed.
End sizes.

(** C5: what the remote shell printed is what the terminal shows, across every
    pause and reconnect: the bytes the webview was sent are a prefix of those
    the channels delivered, in order; while the webview takes frames the rest
    is all in flight, so that once the session is over and the queues are
    drained the terminal has shown everything. *)
Theorem path_lossless now t p :
  steps path_step (path_init cfg now t) p →
  shown p `prefix_of` concat (p_received p) ∧
  (gate_ended (p_gate p) = false →
     shown p ++ in_flight_bytes p = concat (p_received p) ∧
     (returned (p_co p) = true → p_out p = [] → p_frames p = [] → held (p_gate p) = None →
      shown p = concat (p_received p))).
Proof.
  intros [Hb Hp Hr _]%path_reach_inv. split; [done|]. intros Hg. split; [by apply Hb|].
  intros Hret Ho Hf Hh. rewrite <-(Hb Hg). destruct (Hr Hg Hret) as (_ & Hi & Hbuf).
  unfold in_flight_bytes. rewrite Ho, Hf, Hh, Hi, Hbuf. simpl. by rewrite app_nil_r.
Qed.
End path.

(** * A run: output, a drop, a reconnect, more output, and the end *)
Definition path_cfg : CoalescerConfig := MkCoalescer 4 8.

Inductive move :=
  | MPump (i : pump_input)
  | MTake
  | MSup (i : input nat nat)
  | MCo (e : TermStream.event)
  | MGate (i : gate_input).

Definition move_do (m : move) (p : path) : option path :=
  match m with
  | MPump i =>
      if match i with Deliver _ alive => Bool.eqb alive (pumping (p_sup p)) | _ => true end
      then pump_turn i p else None
  | MTake => sup_take POLICY_DEFAULT true p
  | MSup i => sup_turn POLICY_DEFAULT true i p
  | MCo e => co_turn path_cfg e p
  | MGate i => gate_turn i p
  end.

Lemma move_do_step m p p' : move_do m p = Some p' → path_step POLICY_DEFAULT true path_cfg p p'.
Proof.
  destruct m as [i| |i|e|i]; simpl; [|by econstructor..].
  destruct i as [b| |msg alive]; try (by eapply path_pump).
  destruct (Bool.eqb_spec alive (pumping (p_sup p))); [|done]. by eapply path_pump.
Qed.

Lemma moves_steps ms p p' :
  foldl (λ o m, p ← o; move_do m p) (Some p) ms = Some p' →
  steps (path_step POLICY_DEFAULT true path_cfg) p p'.
Proof.
  induction ms as [|m ms IH] using rev_ind in p' |- *.
  - intros [= <-]. apply steps_refl.
  - rewrite foldl_app. simpl. intros (p1 & H1 & H2)%bind_Some.
    eapply steps_snoc; [by apply IH|by eapply move_do_step].
Qed.

Definition path_moves : list move :=
  [MPump (Deliver (Some (Data [104%N])) true); MTake; MCo (Chunk [104%N] 8 true);
   MGate (Paused true true); MGate (Frame [104%N] true);
   MPump (Deliver None true); MSup (OutEnded false None true NaN); MSup (SleepDone false);
   MSup (AttemptOk 1); MGate (Paused false true);
   MPump (Deliver (Some (Data [105%N; 10%N])) true); MPump (Deliver (Some (ExitStatus 0)) true);
   MPump (Deliver (Some Close) true); MTake; MSup (OutEnded false (Some 0%Z) false NaN);
   MCo (Chunk [105%N; 10%N] 9 true); MCo (Deadline 16 true); MCo (Closed true);
   MGate (Frame [105%N; 10%N] true)].
Definition path_end : option (path (E := nat) (T := nat)) :=
  foldl (λ o m, p ← o; move_do m p) (Some (path_init path_cfg 0 0)) path_moves.

Lemma path_end_reached p :
  path_end = Some p → steps (path_step POLICY_DEFAULT true path_cfg) (path_init path_cfg 0 0) p.
Proof. unfold path_end. apply moves_steps. Qed.

Lemma path_lossless_witness :
  ∃ p, path_end = Some p ∧ shown p = [104%N; 105%N; 10%N] ∧ shown p = concat (p_received p).
Proof.
  destruct path_end as [p|] eqn:Hend; [|by vm_compute in Hend].
  pose proof (path_end_reached p Hend) as Hs.
  exists p. vm_compute in Hend. injection Hend as <-. split; [done|]. split; [done|].
  destruct (path_lossless POLICY_DEFAULT true path_cfg 0 0 _ Hs) as [_ Hall].
  by apply Hall.
Defined.

Lemma path_backlog_witness :
  ∃ p, path_end = Some p ∧ length (in_flight_bytes p) ≤ 34 * 5 + 4 + 66 * 2.
Proof.
  destruct path_end as [p|] eqn:Hend; [|by vm_compute in Hend].
  pose proof (path_end_reached p Hend) as Hs.
  exists p. split; [done|]. vm_compute in Hend. injection Hend as <-.
  destruct (path_backlog POLICY_DEFAULT true path_cfg 2 0 0 _ Hs) as [Hle _]; [|exact Hle].
  apply (bool_decide_unpack _). by vm_compute.
Defined.
