(* ===== verification/Journey.v ===== *)
(** * From a line of [ssh_config] to a connection

    Statements across components: the parser of [core-store], the import, the
    row it writes, and what [open_session] of the desktop makes of that row.  No
    code is modelled here. *)
From S2P Require Import Prelude Text Glob Lex Path SshParse Model Database Forest StoreInv Hosts.
From S2P Require Import SshImport Vault Auth Session Proto Reconnect Supervise Settings Commands.
From S2P Require Import Folders KnownHosts Pty Open StoreCommands.

(** * Parsed numbers fit their columns *)
Definition opt_within (bound : Z) (o : option Z) : Prop := ∀ n, o = Some n → (0 ≤ n ≤ bound)%Z.
Definition stanza_typed (s : Stanza) : Prop :=
  opt_within u16_max (port s) ∧ opt_within u32_max (server_alive_interval s) ∧
  opt_within u32_max (connect_timeout s).
Definition config_typed (pc : ParsedConfig) : Prop := Forall stanza_typed (stanzas pc).

Lemma parse_u16_within s : opt_within u16_max (parse_uint u16_max s).
Proof. intros n. by apply parse_uint_bound. Qed.
Lemma parse_u32_within s : opt_within u32_max (parse_uint u32_max s).
Proof. intros n. by apply parse_uint_bound. Qed.
Lemma opt_within_None bound : opt_within bound None.
Proof. by intros n. Qed.
#[export] Hint Resolve parse_u16_within parse_u32_within opt_within_None : tern.

Section widths.
Context `{FileSystem, Lowercase}.

Lemma apply_directive_typed s kw fs : stanza_typed s → stanza_typed (apply_directive s kw fs).
Proof.
  intros (H1 & H2 & H3). unfold apply_directive. destruct fs as [|first fs]; [done|].
  repeat case_decide; split_and!; simpl; auto with tern.
Qed.

Lemma flush_typed o pc :
  (∀ s, o = Some s → stanza_typed s) → config_typed pc → config_typed (flush o pc).
Proof.
  intros Ho Hpc. unfold flush. destruct o as [s|]; [|done]. destruct (patterns s); [done|].
  unfold config_typed, push_stanza. simpl. apply Forall_app. split; [done|]. apply Forall_singleton. by apply Ho.
Qed.

Definition absorbing_typed (a : absorbing) : Prop :=
  (∀ s, current a = Some s → stanza_typed s) ∧ config_typed (cfg (now a)).

Lemma foldl_typed {A} (f : walk → A → walk) l st :
  (∀ st x, config_typed (cfg st) → config_typed (cfg (f st x))) →
  config_typed (cfg st) → config_typed (cfg (foldl f st l)).
Proof. intros Hf. revert st. induction l as [|x l IH]; intros st Hst; [done|]. by apply IH, Hf. Qed.

Section deeper.
Context (parse_deeper : str → walk → walk).
Hypothesis deeper_typed : ∀ p st, config_typed (cfg st) → config_typed (cfg (parse_deeper p st)).

Lemma include_typed pattern base line file st :
  config_typed (cfg st) → config_typed (cfg (include parse_deeper pattern base line file st)).
Proof.
  intros Hst. unfold include.
  assert (config_typed (cfg (foldl (λ st entry, parse_deeper entry st) st
    (glob_paths (include_target pattern base))))) by (by apply foldl_typed; auto).
  by destruct (glob_paths _).
Qed.

Lemma absorb_step_typed file base a d :
  absorbing_typed a → absorbing_typed (absorb_step parse_deeper file base a d).
Proof.
  intros [Hc Hp]. unfold absorb_step. repeat case_decide.
  - split; simpl; [|by apply flush_typed]. intros s [= <-]. by split_and!; auto with tern.
  - split; simpl; [done|]. by apply flush_typed.
  - destruct base as [base|]; split; simpl; try done.
    apply foldl_typed; [|done]. intros. by apply include_typed.
  - destruct (in_match a); [by split|]. destruct (current a) as [s|] eqn:Ec; [|split; [by rewrite Ec|done]].
    split; simpl; [|done]. intros s' [= <-]. by apply apply_directive_typed, Hc.
  - destruct (in_match a); [by split|]. destruct (current a) as [s|] eqn:Ec; [|split; [by rewrite Ec|done]].
    split; simpl; [|done]. intros s' [= <-]. by apply Hc.
Qed.

Lemma absorb_typed ds file base st :
  config_typed (cfg st) → config_typed (cfg (absorb parse_deeper ds file base st)).
Proof.
  intros Hst. unfold absorb, absorb_loop.
  assert (absorbing_typed (foldl (absorb_step parse_deeper file base) (Absorb None false st) ds))
    as [Hc Hp]; [|by apply flush_typed].
  assert (absorbing_typed (Absorb None false st)) as Ha by (by split).
  revert Ha. generalize (Absorb None false st). induction ds as [|d ds IH]; intros a Ha; [done|].
  by apply IH, absorb_step_typed.
Qed.
End deeper.

Lemma parse_into_typed fuel path st :
  config_typed (cfg st) → config_typed (cfg (parse_into fuel path st)).
Proof.
  revert path st. induction fuel as [|fuel IH]; intros path st Hst; simpl; [done|].
  case_decide; [done|]. destruct (read_to_string path); [|done]. by apply absorb_typed.
Qed.

Lemma find_map_typed bound (f : Stanza → option Z) l :
  Forall (λ s, opt_within bound (f s)) l → opt_within bound (find_map f l).
Proof.
  induction 1 as [|s l Hs _ IH]; simpl; [apply opt_within_None|]. by destruct (f s).
Qed.

Lemma resolve_field_typed bound (f : Stanza → option Z) pc alias :
  (∀ x y, f (inherit_from x y) = or_else (f x) (f y)) → f (stanza_of [alias]) = None →
  Forall (λ s, opt_within bound (f s)) (stanzas pc) → opt_within bound (f (resolve pc alias)).
Proof.
  intros Hf Hn Hall. unfold resolve. rewrite (resolve_field f) by done. rewrite Hn. simpl.
  apply find_map_typed. by apply Forall_filter.
Qed.

Lemma candidate_typed path alias known :
  candidate_wf (candidate_of alias (resolve (parse_file path) alias) known).
Proof.
  assert (config_typed (parse_file path)) as Hty.
  { unfold parse_file. apply parse_into_typed. by apply Forall_nil. }
  assert (∀ bound f, (∀ s, stanza_typed s → opt_within bound (f s)) →
    Forall (λ s, opt_within bound (f s)) (stanzas (parse_file path))) as Hall.
  { intros bound f Hf. by eapply Forall_impl. }
  split; [|split_and!; simpl; try done].
  - simpl. unfold in_u16. pose proof (resolve_field_typed u16_max port (parse_file path) alias) as Hp.
    destruct (port (resolve _ _)) as [n|] eqn:E; [|done]. apply Hp; [done|done| |done].
    apply Hall. by intros s (? & _ & _).
  - apply (resolve_field_typed u32_max server_alive_interval); [done|done|].
    apply Hall. by intros s (_ & ? & _).
  - apply (resolve_field_typed u32_max connect_timeout); [done|done|].
    apply Hall. by intros s (_ & _ & ?).
Qed.

(** Every number a parsed configuration holds fits the width of its
    column, whatever is on the disk and however files include each other, so
    every candidate an import can offer is within the store's types. *)
Lemma parsed_candidates_typed path alias known :
  candidate_wf (candidate_of alias (resolve (parse_file path) alias) known).
Proof. apply candidate_typed. Qed.
End widths.

(** * An imported row says what the file said *)

Section import.
Context `{!Engine}.

Definition stored_as (c : Candidate) (s : Store) (id : HostId) : Prop :=
  (∃ r, imported (db s) (c_alias c) id r) ∧ ∃ h, get_host id s = (Ok (Some h), s) ∧ carries c h.

Lemma apply_one_stores now c s new s' :
  importable s → candidate_wf c → apply_one now c s = (Ok new, s') → ∃ id, stored_as c s' id.
Proof.
  intros Hs Hc Ha. pose proof Hs as (Hs1 & Hp & Hr).
  destruct (apply_one_importable now c s new s' Hs Hc Ha) as (_ & _ & (id & r' & Hd & Hk & _) & _).
  unfold apply_one in Ha. rewrite M_bind_eq in Ha.
  destruct (find_spec (c_alias c) s Hs1 Hp Hr) as [(i & r & h & Hi & Hh & Hf)|[Hno Hf]];
    rewrite Hf in Ha; rewrite M_bind_eq in Ha.
  - destruct (update_host_row (merge h c) now s) as [[[]|] s1] eqn:Hup; [|done].
    injection Ha as <- <-. apply update_get in Hup as (_ & old & Hold & Hg & Hdb); [|done..].
    exists (h_id (merge h c)). split; [|by eexists].
    exists (updated_row (merge h c) now old). split; [rewrite Hdb; apply lookup_insert_eq|].
    unfold read_host in Hh. cbn [fst snd] in Hh. apply result_bind_Ok in Hh as (h0 & Hh0 & [= <-]).
    destruct (row_to_host i r) as [h0'|] eqn:E; [|done]. injection Hh0 as ->.
    apply row_to_host_fields in E as (_ & _ & _ & _ & _ & _ & Hsrc & Hal & _).
    destruct Hi as [_ Hi]. apply host_key_Some in Hi as [Hk1 Hk2]. apply host_key_Some.
    simpl. by rewrite Hsrc, Hal.
  - destruct (create_host_row (draft_of c) now s) as [[i|] s1] eqn:Hcr; [|done].
    injection Ha as <- <-. apply create_get in Hcr as (Hnew & _ & Hg & Hoth); [|done..].
    exists i. split; [|by eexists].
    exists r'. destruct (decide (i = id)) as [->|Hne].
    + split; [rewrite Hd; apply lookup_insert_eq|done].
    + exfalso. assert (hosts (db s1) !! i = None) as Hi.
      { rewrite Hd. cbn. by rewrite lookup_insert_ne. }
      rewrite get_host_run in Hg; [by rewrite Hi in Hg|].
      destruct (poisoned s1) eqn:Hps; [|done]. unfold get_host in Hg. rewrite M_bind_eq in Hg.
      unfold lock in Hg. by rewrite Hps in Hg.
Qed.

(** Later rows of an import leave it alone. *)
Lemma apply_one_leaves now c s new s' c' id :
  importable s → candidate_wf c → apply_one now c s = (Ok new, s') → c_alias c' ≠ c_alias c →
  stored_as c' s id → stored_as c' s' id.
Proof.
  intros Hs Hc Ha Hne [(r & Hr) (h & Hg & Hh)]. pose proof Hs as (Hs1 & Hp & Hrd).
  destruct (apply_one_importable now c s new s' Hs Hc Ha) as
    ((_ & Hp' & _) & _ & (i & r' & Hd & Hk & _ & _ & Hnew) & _).
  assert (i ≠ id) as Hi.
  { intros ->. destruct Hr as [Hr Hkr]. destruct new.
    - destruct Hnew as [Hnone _]. congruence.
    - destruct Hnew as (r0 & [Hr0 Hk0] & _). congruence. }
  assert (hosts (db s') !! id = hosts (db s) !! id) as Hid.
  { rewrite Hd. cbn. by rewrite lookup_insert_ne. }
  split.
  - exists r. destruct Hr as [Hr Hkr]. split; [by rewrite Hid|done].
  - exists h. split; [|done]. rewrite get_host_run in Hg |- * by done. rewrite Hid.
    destruct (hosts (db s) !! id) as [r0|]; [|done].
    assert (read_host (db s') (id, r0) = read_host (db s) (id, r0)) as -> by (by rewrite Hd).
    destruct (read_host (db s) (id, r0)); [|done]. by injection Hg as ->.
Qed.

Lemma apply_loop_stores now o chosen s o' s' :
  importable s → Forall candidate_wf chosen → NoDup (c_alias <$> chosen) →
  apply_loop now o chosen s = (Ok o', s') →
  (∀ c, c ∈ chosen → ∃ id, stored_as c s' id) ∧
  (∀ c id, c_alias c ∉ c_alias <$> chosen → stored_as c s id → stored_as c s' id).
Proof.
  revert o s. induction chosen as [|c chosen IH]; intros o s Hs Hwf Hnd.
  { intros [= _ <-]. split; [set_solver|done]. }
  apply Forall_cons in Hwf as [Hc Hwf]. apply NoDup_cons in Hnd as [Hnot Hnd].
  cbn [apply_loop]. rewrite M_bind_eq. destruct (apply_one now c s) as [[new|] s1] eqn:Ha; [|done].
  pose proof (apply_one_importable now c s new s1 Hs Hc Ha) as (Hs1 & _).
  intros Hl. destruct (IH _ s1 Hs1 Hwf Hnd Hl) as [Hin Hout]. split.
  - intros c' [->|Hc']%elem_of_cons; [|by apply Hin].
    destruct (apply_one_stores now c s new s1 Hs Hc Ha) as [id Hid]. exists id. by apply Hout.
  - intros c' id Hc' Hid. rewrite fmap_cons, not_elem_of_cons in Hc'. destruct Hc' as [Hne Hc'].
    apply Hout; [done|]. by apply (apply_one_leaves now c s new s1).
Qed.
End import.

Section journey.
Context `{!Keyring, !Engine, !SerdeJson bool, !SerdeJson Z, !FileSystem, !Lowercase}.

Lemma import_stores names path now s n s' alias :
  importable (d_store s) → import_ssh_config names path now s = (Ok n, s') →
  let parsed := parse_file (default default_path path) in
  alias ∈ aliases parsed → alias ∈ names →
  ∃ id known, stored_as (candidate_of alias (resolve parsed alias) known) (d_store s') id.
Proof.
  intros Hs Himp parsed Ha Hn. unfold import_ssh_config in Himp.
  apply C_bind_Ok in Himp as (sc & s1 & Hsc & Himp). apply C_bind_Ok in Himp as (o & s2 & Hap & [= _ <-]).
  apply on_store_Ok in Hsc as (Hsc & _). apply on_store_Ok in Hap as (Hap & _).
  destruct (scan_loop_run parsed (aliases parsed) (d_store s) Hs) as (cs & Hcs & Hall).
  unfold scan_config in Hsc. fold parsed in Hsc. rewrite M_bind_eq, Hcs in Hsc.
  injection Hsc as <- Hst. cbn [sc_candidates] in Hap. rewrite <-Hst in Hap.
  assert (Forall2 (λ a c, ∃ known, c = candidate_of a (resolve parsed a) known) (aliases parsed) cs)
    as Hcand by (eapply Forall2_impl; [exact Hall|]; intros a c [[-> _]|[-> _]]; by eexists).
  assert (c_alias <$> cs = aliases parsed) as Hal.
  { clear -Hcand. induction Hcand as [|a c l k [known ->] _ IH]; [done|]. csimpl. by rewrite IH. }
  apply apply_loop_stores in Hap as [Hin _]; [|done|..].
  - destruct (list_elem_of_lookup_1 _ _ Ha) as [i Hi].
    destruct (Forall2_lookup_l _ _ _ _ _ Hcand Hi) as (c & Hc & known & ->).
    destruct (Hin (candidate_of alias (resolve parsed alias) known)) as [id Hid].
    + apply list_elem_of_filter. split; [done|]. by eapply list_elem_of_lookup_2.
    + by exists id, known.
  - apply Forall_filter. apply Forall_forall. intros c [i Hi]%list_elem_of_lookup_1.
    destruct (Forall2_lookup_r _ _ _ _ _ Hcand Hi) as (a & _ & known & ->).
    apply candidate_typed.
  - assert (NoDup (aliases parsed)) as Hnd by (apply aliases_spec). rewrite <-Hal in Hnd.
    eapply sublist_NoDup; [exact Hnd|]. apply fmap_sublist, sublist_filter.
Qed.

Lemma saved_host_plan sid req s k id host :
  req_target req = TSavedHost id → get_host id s = (Ok (Some host), s) →
  ∃ plan evs k', resolve_target sid req s k = (Ok (OpenSshTarget plan), evs, k') ∧
    ca_cfg (pl_args plan) = for_host host (build_method host (saved_secret host k) <$>
      h_auth host :: filter (λ a, a ≠ h_auth host) (h_auth_fallbacks host)) (window_size req) ∧
    ca_insecure (pl_args plan) = false ∧ pl_host plan = Some id.
Proof.
  intros Ht Hg. unfold resolve_target, resolve_saved. rewrite Ht, Hg. cbn [fst].
  destruct (auth_for_host_methods host k) as (note & -> & _). cbn [methods degraded].
  by do 3 eexists.
Qed.

(** C14: from a line of [ssh_config] to a connection: once an import ran to its
    end, every alias that the file declares and the user ticked is a stored
    host, and opening a session on it connects to the host name, port, user and
    timeout the file resolves for that alias, starting with its identity file
    (or the agent), and never without checking the host key. *)
Theorem import_then_open names path now s n s' alias :
  importable (d_store s) → import_ssh_config names path now s = (Ok n, s') →
  let parsed := parse_file (default default_path path) in
  let r := resolve parsed alias in
  alias ∈ aliases parsed → alias ∈ names →
  ∃ id, ∀ sid req k, req_target req = TSavedHost id →
    ∃ plan evs k', resolve_target sid req (d_store s') k = (Ok (OpenSshTarget plan), evs, k') ∧
      let cfg := ca_cfg (pl_args plan) in
      s_host cfg = default alias (SshParse.hostname r) ∧ s_port cfg = default 22%Z (port r) ∧
      s_username cfg = default [] (user r) ∧
      s_connect_timeout cfg = from_secs (default 10%Z (connect_timeout r)) ∧
      (∃ stored, head (s_auth cfg) = Some (match identity_file r with
                                           | Some path => MKeyFile path stored
                                           | None => MAgent
                                           end)) ∧
      ca_insecure (pl_args plan) = false ∧ pl_host plan = Some id.
Proof.
  intros Hs Himp parsed r Ha Hn.
  destruct (import_stores names path now s n s' alias Hs Himp Ha Hn) as (id & known & _ & h & Hg & Hh).
  exists id. intros sid req k Ht.
  destruct (saved_host_plan sid req _ k id h Ht Hg) as (plan & evs & k' & Hr & Hcfg & Hins & Hhost).
  exists plan, evs, k'. split; [done|]. fold parsed in Hh.
  destruct Hh as (Hhn & Hp & Hu & Hau & Hkp & Ho & _).
  cbv zeta. rewrite Hcfg. unfold for_host. cbn [s_host s_port s_username s_connect_timeout s_auth
    config_new head fmap list_fmap].
  rewrite Hhn, Hp, Hu, Ho, Hau. split_and!; try done.
  - simpl. unfold r. by destruct (connect_timeout _).
  - exists (saved_secret h k). simpl. fold r. unfold key_file. simpl in Hkp. fold r in Hkp.
    destruct (identity_file r); [|done]. simpl. by rewrite Hkp.
Qed.
End journey.

(** * On a concrete file *)
Definition journey_start : @Desktop map_keyring :=
  @MkDesktop map_keyring (MkStore false empty_db) ∅ Absent.
Definition journey_end : @Desktop map_keyring :=
  (@import_ssh_config map_keyring sqlite_max_rowid sample_config _ [ #"b"] (Some #"/c") 1 journey_start).2.

Lemma import_then_open_witness :
  ∃ id plan evs k',
    @resolve_target map_keyring json_bool json_no_number #"s-0"
      (MkOpenReq (TSavedHost id) 80 24 None None None) (d_store journey_end) (d_keyring journey_end) =
      (Ok (OpenSshTarget plan), evs, k') ∧
    s_host (ca_cfg (pl_args plan)) = #"b" ∧ s_username (ca_cfg (pl_args plan)) = #"ops".
Proof.
  destruct (@import_then_open map_keyring sqlite_max_rowid json_bool json_no_number sample_config _
    [ #"b"] (Some #"/c") 1 journey_start (MkImportResultDto 1 0) journey_end #"b") as [id Hid].
  - apply empty_importable.
  - vm_compute. reflexivity.
  - apply (bool_decide_unpack _). by vm_compute.
  - by left.
  - destruct (Hid #"s-0" (MkOpenReq (TSavedHost id) 80 24 None None None) (d_keyring journey_end) eq_refl)
      as (plan & evs & k' & Hr & Hh & _ & Hu & _).
    exists id, plan, evs, k'. split; [exact Hr|]. split; [exact Hh|exact Hu].
Defined.
