(* ===== verification/System.v ===== *)
(** * The desktop's sessions, together

    [apps/desktop/src/commands.rs] as one transition system: calls of
    [open_session] and [test_connection] waiting for the network, host keys being
    presented and answered, supervisors reconnecting, tabs being closed, other
    commands changing the store, the keyring and [known_hosts], in any order.  A
    step is what one task does between two points where it awaits.  The parts
    are the definitions of [Open], [HostKey], [Supervise] and [Commands]; the
    state keeps what joins them.  Starting a PTY is a result; its output is
    [Pty]'s. *)
From S2P Require Import Prelude Text Model Database StoreInv Hosts Settings Vault Auth Session.
From S2P Require Import KnownHosts HostKey Shell Channel Pty Proto StoreCommands.
From S2P Require Import F64 Reconnect Supervise Commands Open.

(** What a connect under way is for. *)
Inductive purpose := ForOpen (plan : ssh_plan) (req : OpenSessionReq) | ForTest | ForReconnect.

(** A call of [SshSession::connect]; the ticket its host key got. *)
Record attempt := MkAttempt {
  at_args : connect_args;
  at_purpose : purpose;
  at_ticket : option nat
}.

(** A task of [supervise], with what [connect_ssh] gave it; [sv_via] is kept for
    the proofs: the connect its present transport came from. *)
Record supervised (T : Type) := MkSupervised {
  sv_sup : sup str T;
  sv_plan : ssh_plan;
  sv_window : option Z;
  sv_via : attempt
}.
Arguments MkSupervised {T}.
Arguments sv_sup {T}.
Arguments sv_plan {T}.
Arguments sv_window {T}.
Arguments sv_via {T}.

Record System `{!Keyring, !SshKeys, !Transport, !ShellTransport} := MkSystem {
  y_store : Store;
  y_keyring : kr;
  y_hk : hk_state;
  y_app : AppState;
  y_attempts : gmap nat attempt;
  y_next : nat;
  y_up : gmap str LiveSession;
  y_sups : gmap str (supervised (Chan * W));
  y_jobs : list (HostId * Z);
  y_closed : gset str;
  y_events : list (str * SessionEvent)
}.

Section system.
Context `{!Keyring, !Engine, !SerdeJson bool, !SerdeJson Z, !SshKeys, !Transport, !ShellTransport}.
Context (kh_path : str) (show_store_error : StoreError → str) (show_kh_error : KnownHostsError → str).

Definition set_store (s : Store) (k : kr) (y : System) : System :=
  MkSystem _ _ _ _ s k (y_hk y) (y_app y) (y_attempts y) (y_next y) (y_up y) (y_sups y) (y_jobs y)
    (y_closed y) (y_events y).
Definition set_hk (h : hk_state) (y : System) : System :=
  MkSystem _ _ _ _ (y_store y) (y_keyring y) h (y_app y) (y_attempts y) (y_next y) (y_up y) (y_sups y)
    (y_jobs y) (y_closed y) (y_events y).
Definition set_app (a : AppState) (y : System) : System :=
  MkSystem _ _ _ _ (y_store y) (y_keyring y) (y_hk y) a (y_attempts y) (y_next y) (y_up y) (y_sups y)
    (y_jobs y) (y_closed y) (y_events y).
Definition set_attempts (m : gmap nat attempt) (y : System) : System :=
  MkSystem _ _ _ _ (y_store y) (y_keyring y) (y_hk y) (y_app y) m (y_next y) (y_up y) (y_sups y)
    (y_jobs y) (y_closed y) (y_events y).
Definition set_up (m : gmap str LiveSession) (y : System) : System :=
  MkSystem _ _ _ _ (y_store y) (y_keyring y) (y_hk y) (y_app y) (y_attempts y) (y_next y) m (y_sups y)
    (y_jobs y) (y_closed y) (y_events y).
Definition set_sups (m : gmap str (supervised (Chan * W))) (y : System) : System :=
  MkSystem _ _ _ _ (y_store y) (y_keyring y) (y_hk y) (y_app y) (y_attempts y) (y_next y) (y_up y) m
    (y_jobs y) (y_closed y) (y_events y).
Definition set_jobs (l : list (HostId * Z)) (y : System) : System :=
  MkSystem _ _ _ _ (y_store y) (y_keyring y) (y_hk y) (y_app y) (y_attempts y) (y_next y) (y_up y)
    (y_sups y) l (y_closed y) (y_events y).

(** A new connect, under the next number. *)
Definition add_attempt (a : attempt) (y : System) : System :=
  MkSystem _ _ _ _ (y_store y) (y_keyring y) (y_hk y) (y_app y) (<[y_next y := a]> (y_attempts y))
    (S (y_next y)) (y_up y) (y_sups y) (y_jobs y) (y_closed y) (y_events y).

(** Events on the channel of a session. *)
Definition send (id : str) (evs : list SessionEvent) (y : System) : System :=
  MkSystem _ _ _ _ (y_store y) (y_keyring y) (y_hk y) (y_app y) (y_attempts y) (y_next y) (y_up y)
    (y_sups y) (y_jobs y) (y_closed y) (y_events y ++ (pair id <$> evs)).

Definition sys_init (s : Store) (k : kr) (file : file_state) : System :=
  MkSystem _ _ _ _ s k (hk_init file) app_new ∅ 0 ∅ ∅ [] ∅ [].

(** [host_key_prompt]'s and [supervise]'s events on the wire. *)
Definition hk_event_dto (e : hk_event) : SessionEvent :=
  match e with
  | CouldNotRead e => SeError (#"could not read known_hosts: " ++ show_kh_error e)
  | CouldNotRecord e => SeError (#"could not record host key: " ++ show_kh_error e)
  | HostKeyRevoked host port line => SeHostKeyRevoked host port kh_path line
  | HostKeyChanged host port alg recorded presented line =>
      SeHostKeyChanged host port alg recorded presented kh_path line
  | HostKeyPrompt sid host port alg fp => SeHostKeyPrompt sid host port alg fp
  end.
Definition sup_event_dto (e : sup_event str) : SessionEvent :=
  match e with
  | EvExited code => SeExited code
  | EvDisconnected reason => SeDisconnected (default #"connection lost" reason)
  | EvReconnecting attempt max_attempts delay_ms => SeReconnecting attempt max_attempts delay_ms
  | EvConnected => SeConnected
  end.

(** A step of the host-key callback of session [id], with what it sends. *)
Definition hk_do (id : str) (i : hk_input) (y : System) : System :=
  let h := hk_step (y_hk y) i in
  send id (hk_event_dto <$> drop (length (hk_events (y_hk y))) (hk_events h)) (set_hk h y).

(** A step of the supervisor of session [id], with what it sends. *)
Definition sup_do (id : str) (i : input str (Chan * W)) (y : System) : option System :=
  sv ← y_sups y !! id;
  s ← sup_step (pl_policy (sv_plan sv)) (pl_reconnector (sv_plan sv)) (sv_sup sv) i;
  Some (send id (sup_event_dto <$> drop (length (emitted (sv_sup sv))) (emitted s))
          (set_sups (<[id := MkSupervised s (sv_plan sv) (sv_window sv) (sv_via sv)]> (y_sups y)) y)).

(** [open_session] up to its first wait for the network; [spawned] is what
    starting a local shell gave.  The code reads the host, the policy and the
    setting for new entries in blocking jobs of their own, between which another
    command may write; the step reads them at once.  Nothing below compares one
    with another. *)
Definition open_begin (req : OpenSessionReq) (spawned : result PtyError ()) (now : Z) (y : System) :
    result open_error () * System :=
  let '(id, a) := fresh_id #"s" (y_app y) in
  let '(r, evs, k) := resolve_target id req (y_store y) (y_keyring y) in
  let y := send id evs (set_store (y_store y) k (set_app a y)) in
  match r with
  | Err e => (Err e, y)
  | Ok (OpenSshTarget plan) => (Ok (), add_attempt (MkAttempt (pl_args plan) (ForOpen plan req) None) y)
  | Ok (OpenPtyTarget cfg) =>
      match spawned with
      | Err e => (Err (OpPty e), y)
      | Ok () => (Ok (), set_up (<[id := live_new Pty req now]> (y_up y)) y)
      end
  end.

Definition test_begin (req : TestConnectionReq) (y : System) : System :=
  let '(id, a) := fresh_id #"test" (y_app y) in
  let '(args, k) := test_args id req (y_store y) (y_keyring y) in
  add_attempt (MkAttempt args ForTest None) (set_store (y_store y) k (set_app a y)).

(** The supervisor calls its reconnector, at the session's current size. *)
Definition reconnect_begin (id : str) (cols rows : Z) (rnd : f64) (y : System) : option System :=
  sv ← y_sups y !! id;
  match ph (sv_sup sv), pl_host (sv_plan sv) with
  | Attempting _ _, Some host_id =>
      match establish_args show_store_error host_id id (sv_window sv) cols rows (y_store y)
              (y_keyring y) with
      | (Ok args, k) =>
          Some (add_attempt (MkAttempt args ForReconnect None) (set_store (y_store y) k y))
      | (Err e, k) =>
          sup_do id (AttemptFailed (re_retryable e) (re_message e) rnd) (set_store (y_store y) k y)
      end
  | _, _ => None
  end.

(** [check_server_key]: the server of attempt [n] presents its key. *)
Definition key_presented (n : nat) (key : PublicKey) (y : System) : option System :=
  a ← y_attempts y !! n;
  match at_ticket a with
  | Some _ => None
  | None =>
      let args := at_args a in
      let t := next_ticket (y_hk y) in
      Some (hk_do (ca_id args)
              (Present (ca_insecure args) (ca_id args) (ca_hash_new args)
                 (info_of (s_host (ca_cfg args)) (s_port (ca_cfg args)) key))
              (set_attempts (<[n := MkAttempt args (at_purpose a) (Some t)]> (y_attempts y)) y))
  end.

(** The connect ended: nobody waits for its ticket any more. *)
Definition end_attempt (n : nat) (a : attempt) (y : System) : System :=
  let y := set_attempts (delete n (y_attempts y)) y in
  match at_ticket a with Some t => hk_do (ca_id (at_args a)) (Abandon t) y | None => y end.

(** The new transport behind [conn] is not paused, nor is the sender task;
    [a] is the connect it came from. *)
Definition swap_live (s : LiveSession) : LiveSession :=
  MkLive (Ssh false) (ls_cols s) (ls_rows s) (ls_shutdown s) false (ls_stats s) (ls_epoch s)
    (ls_paused_since s).
Definition swap_via (a : attempt) (sv : supervised (Chan * W)) : supervised (Chan * W) :=
  MkSupervised (sv_sup sv) (sv_plan sv) (sv_window sv) a.
Definition swap_transport (id : str) (a : attempt) (y : System) : System :=
  set_app (default (y_app y) (on_session id swap_live (y_app y)))
    (set_up (alter swap_live id (y_up y)) (set_sups (alter (swap_via a) id (y_sups y)) y)).

(** What follows [SshSession::connect]. *)
Definition connect_ended (n : nat) (r : result SshError W) (now at_ : Z) (rnd : f64) (y : System) :
    option System :=
  a ← y_attempts y !! n;
  let args := at_args a in
  let y := end_attempt n a y in
  match at_purpose a with
  | ForTest => Some y
  | ForOpen plan req =>
      match finish_connect args r with
      | Err _ => Some y
      | Ok t =>
          Some (set_jobs (y_jobs y ++ option_list ((λ h, (h, at_)) <$> pl_host plan))
                 (set_up (<[ca_id args := live_new (Ssh false) req now]> (y_up y))
                   (set_sups (<[ca_id args := MkSupervised (sup_init t) plan (window_size req) a]>
                                (y_sups y)) y)))
      end
  | ForReconnect =>
      match finish_connect args r with
      | Ok t => sup_do (ca_id args) (AttemptOk t) (swap_transport (ca_id args) a y)
      | Err e =>
          let e := reconnect_error_from debug_duration e in
          sup_do (ca_id args) (AttemptFailed (re_retryable e) (re_message e) rnd) y
      end
  end.

(** The end of [open_session]. *)
Definition register (id : str) (y : System) : option System :=
  live ← y_up y !! id;
  Some (set_app (register_session id live (y_app y))
         (set_up (delete id (y_up y)) (send id [SeConnected] y))).

(** [close_session]: the shutdown watch is set. *)
Definition close (id : str) (y : System) : System :=
  let '(live, a) := close_session id (y_app y) in
  MkSystem _ _ _ _ (y_store y) (y_keyring y) (y_hk y) a (y_attempts y) (y_next y) (y_up y) (y_sups y)
    (y_jobs y) (match live with Some _ => {[id]} ∪ y_closed y | None => y_closed y end) (y_events y).

(** The detached [record_connection]. *)
Definition run_job (y : System) : option System :=
  match y_jobs y with
  | (host_id, at_) :: jobs =>
      Some (set_jobs jobs (set_store (record_connection host_id at_ (y_store y)).2 (y_keyring y) y))
  | [] => None
  end.

(** russh lets a connect succeed only if the handler accepted the host key. *)
Definition handshake_honest (a : attempt) (polls : list poll) (y : System) : Prop :=
  ∀ w, Resolved (Ok w) ∈ polls → ∃ t, at_ticket a = Some t ∧ decided (y_hk y) !! t = Some true.

(** The shutdown watch as the supervisor of [id] reads it. *)
Definition agrees (id : str) (i : input str (Chan * W)) (y : System) : Prop :=
  match i with
  | OutChunk _ _ => True
  | OutEnded shutdown _ _ _ | SleepDone shutdown => shutdown = bool_decide (id ∈ y_closed y)
  | Shutdown => id ∈ y_closed y
  | AttemptOk _ | AttemptFailed _ _ _ => False
  end.

Inductive sys_step (y : System) : System → Prop :=
  | sys_open req spawned now : sys_step y (open_begin req spawned now y).2
  | sys_test req : sys_step y (test_begin req y)
  | sys_reconnect id cols rows rnd y' :
      (∀ n a, y_attempts y !! n = Some a → at_purpose a = ForReconnect → ca_id (at_args a) ≠ id) →
      (∀ live, sessions (y_app y) !! id = Some live → ls_cols live = cols ∧ ls_rows live = rows) →
      reconnect_begin id cols rows rnd y = Some y' → sys_step y y'
  | sys_key n key y' : key_presented n key y = Some y' → sys_step y y'
  | sys_connect n a polls r now at_ rnd y' :
      y_attempts y !! n = Some a → handshake_honest a polls y → connect (ca_cfg (at_args a)) polls = Some r →
      connect_ended n r now at_ rnd y = Some y' → sys_step y y'
  | sys_register id y' : register id y = Some y' → sys_step y y'
  | sys_supervise id i y' : agrees id i y → sup_do id i y = Some y' → sys_step y y'
  | sys_approve id accept d salt : sys_step y (hk_do id (Approve id accept d salt) y)
  | sys_known_hosts file : sys_step y (set_hk (edit_file file (y_hk y)) y)
  | sys_store s k : sys_step y (set_store s k y)
  | sys_job y' : run_job y = Some y' → sys_step y y'
  | sys_close id : sys_step y (close id y)
  | sys_pause id now a : pause_session id now (y_app y) = Some a → sys_step y (set_app a y)
  | sys_resume id now a : resume_session id now (y_app y) = Some a → sys_step y (set_app a y)
  | sys_resize req a : resize_session req (y_app y) = Some a → sys_step y (set_app a y)
  | sys_reset id now a : bench_reset id now (y_app y) = Some a → sys_step y (set_app a y).

(** * Every session was let through by its host key *)
Section trust.
Context (file : file_state).

(** The key of ticket [t] was presented to this connect, for the server dialed,
    and accepted for one of the reasons there are. *)
Definition key_ok (l : list hk_input) (args : connect_args) (t : nat) : Prop :=
  ∃ k info, presented file l k t (ca_insecure args) (ca_id args) info ∧
    i_host info = s_host (ca_cfg args) ∧ i_port info = s_port (ca_cfg args) ∧
    (ca_insecure args = true ∨ verdict_at file l k info = Ok Trusted ∨
     verdict_at file l k info = Ok Unknown ∧
     ∃ j d salt, k < j ∧ l !! j = Some (Approve (ca_id args) true d salt) ∧
       pending (at_step file l j) !! (ca_id args) = Some t).

(** The same before the decision. *)
Definition key_seen (l : list hk_input) (args : connect_args) (t : nat) : Prop :=
  ∃ k info, presented file l k t (ca_insecure args) (ca_id args) info ∧
    i_host info = s_host (ca_cfg args) ∧ i_port info = s_port (ca_cfg args).

Lemma accepted_key_ok l args t :
  key_seen l args t → decided (hk_run l (hk_init file)) !! t = Some true → key_ok l args t.
Proof.
  intros (k & info & Hp & Hh & Ho) Hd.
  apply (proj2 (hk_run_inv file l)) in Hd as (k' & b' & sid' & info' & Hp' & Hj).
  destruct (presented_inj _ _ _ _ _ _ _ _ _ _ _ Hp Hp') as (<- & <- & <- & <-).
  exists k, info. split_and!; [done..|]. destruct (ca_insecure args); [by left|]. right. by apply Hj.
Qed.

Lemma key_seen_snoc l i args t : key_seen l args t → key_seen (l ++ [i]) args t.
Proof. intros (k & info & [_ Hp]%(presented_snoc _ _ i) & Hh). by exists k, info. Qed.

Lemma key_ok_snoc l i args t : key_ok l args t → key_ok (l ++ [i]) args t.
Proof.
  intros (k & info & [Hk Hp]%(presented_snoc _ _ i) & Hh & Ho & Hj). exists k, info.
  split_and!; [done..|]. unfold verdict_at in *. rewrite at_step_snoc by lia.
  destruct Hj as [?|[?|(Hu & j & w & salt & Hkj & Hl & Hpend)]]; [by left|by right; left|].
  right; right. split; [done|]. exists j, w, salt. pose proof (lookup_lt_Some _ _ _ Hl).
  by rewrite lookup_app_l, at_step_snoc by lia.
Qed.

(** Only an ad-hoc session, which nothing reconnects, skips the check. *)
Definition plan_ok (plan : ssh_plan) : Prop :=
  ca_insecure (pl_args plan) = true → pl_host plan = None ∧ pl_reconnector plan = false.

Definition attempt_ok (l : list hk_input) (a : attempt) : Prop :=
  (∀ t, at_ticket a = Some t → key_seen l (at_args a) t) ∧
  match at_purpose a with
  | ForOpen plan _ => at_args a = pl_args plan ∧ plan_ok plan
  | ForTest | ForReconnect => ca_insecure (at_args a) = false
  end.

(** The transport of a supervised session. *)
Definition sup_ok (l : list hk_input) (id : str) (sv : supervised (Chan * W)) : Prop :=
  let args := at_args (sv_via sv) in
  ca_id args = id ∧ (∃ t, at_ticket (sv_via sv) = Some t ∧ key_ok l args t) ∧
  (ca_insecure args = true → pl_host (sv_plan sv) = None ∧ pl_reconnector (sv_plan sv) = false).

Lemma sup_ok_snoc l i id sv : sup_ok l id sv → sup_ok (l ++ [i]) id sv.
Proof. intros (Hid & (t & Ht & Hk) & Hp). split_and!; [done| |done]. exists t. by split; [|apply key_ok_snoc]. Qed.

(** A session over SSH that is up, registered or about to be. *)
Definition ssh_live (y : System) (id : str) : Prop :=
  ∃ live, (y_up y !! id = Some live ∨ sessions (y_app y) !! id = Some live) ∧ ls_control live ≠ Pty.

Record sys_inv (l : list hk_input) (y : System) : Prop := {
  si_hk : y_hk y = hk_run l (hk_init file);
  si_attempts n a : y_attempts y !! n = Some a → attempt_ok l a;
  si_sups id sv : y_sups y !! id = Some sv → sup_ok l id sv;
  si_live id : ssh_live y id → is_Some (y_sups y !! id)
}.

Lemma sys_inv_init s k : sys_inv [] (sys_init s k file).
Proof.
  split; simpl; try done; try (by intros *; rewrite lookup_empty).
  intros id (live & [Hl|Hl] & _); simpl in Hl; by rewrite lookup_empty in Hl.
Qed.

Lemma attempt_ok_snoc l i a : attempt_ok l a → attempt_ok (l ++ [i]) a.
Proof. intros [Ht Hp]. split; [|done]. by intros t Hs%Ht; apply key_seen_snoc. Qed.

Lemma hk_do_inv l id i y : sys_inv l y → sys_inv (l ++ [i]) (hk_do id i y).
Proof.
  intros [Ihk Iat Isu Ili]. split; simpl; try done.
  - rewrite Ihk. unfold hk_run. by rewrite foldl_app.
  - intros n a Ha. by eapply attempt_ok_snoc, Iat.
  - intros j sv Hj. by apply sup_ok_snoc, Isu.
Qed.

Lemma sup_do_inv l id i y y' : sys_inv l y → sup_do id i y = Some y' → sys_inv l y'.
Proof.
  intros [Ihk Iat Isu Ili]. unfold sup_do. destruct (y_sups y !! id) as [sv|] eqn:Hsv; [|done]. simpl.
  destruct (sup_step _ _ _ _) as [s|]; [|done]. intros [= <-]. split; simpl; try done.
  - intros j sv' [[-> <-]|[Hne Hj]]%lookup_insert_Some; [by apply (Isu j sv)|by apply Isu].
  - intros j Hj. rewrite lookup_insert_is_Some'. right. by apply Ili.
Qed.

(** What leaves the host keys and the supervisors alone. *)
Lemma sys_inv_frame l y y' :
  sys_inv l y → y_hk y' = y_hk y → y_sups y' = y_sups y →
  (∀ n a, y_attempts y' !! n = Some a → y_attempts y !! n = Some a ∨ attempt_ok l a) →
  (∀ id, ssh_live y' id → ssh_live y id) → sys_inv l y'.
Proof.
  intros [Ihk Iat Isu Ili] Hh Hs Ha Hl. split; rewrite ?Hh, ?Hs; [done| |done|].
  - intros n a [?|?]%Ha; [by eapply Iat|done].
  - intros id Hid. by apply Ili, Hl.
Qed.

Lemma on_session_live id f a a' :
  on_session id f a = Some a' → (∀ s, ls_control (f s) = Pty ↔ ls_control s = Pty) →
  ∀ j live, sessions a' !! j = Some live → ls_control live ≠ Pty →
    ∃ live', sessions a !! j = Some live' ∧ ls_control live' ≠ Pty.
Proof.
  unfold on_session. intros (s & Hs & ->)%fmap_Some Hf j live. simpl.
  intros [[-> <-]|[_ Hj]]%lookup_insert_Some Hc; [|by eauto].
  exists s. by rewrite <-Hf.
Qed.

(** A command on one session of the registry. *)
Lemma app_step_inv l id f a y :
  sys_inv l y → on_session id f (y_app y) = Some a → (∀ s, ls_control (f s) = Pty ↔ ls_control s = Pty) →
  sys_inv l (set_app a y).
Proof.
  intros Hy Ha Hf. eapply sys_inv_frame; [done|done|done|by left|].
  intros j (live & [Hj|Hj] & Hc); [by exists live; auto|].
  destruct (on_session_live _ _ _ _ Ha Hf j live Hj Hc) as (live' & Hj' & Hc'). by exists live'; auto.
Qed.

Lemma add_attempt_inv l a y : sys_inv l y → attempt_ok l a → sys_inv l (add_attempt a y).
Proof.
  intros Hy Ha. eapply sys_inv_frame; [done|done|done| |done].
  simpl. intros n a' [[_ <-]|[_ Hn]]%lookup_insert_Some; auto.
Qed.

Lemma resolve_plan_ok id req s k plan evs k' :
  resolve_target id req s k = (Ok (OpenSshTarget plan), evs, k') → plan_ok plan.
Proof.
  unfold resolve_target, resolve_saved. destruct (req_target req) as [t|t|host_id].
  - by intros [= <- _ _].
  - done.
  - destruct (get_host host_id s).1 as [[host|]|]; try done.
    destruct (auth_for_host host k) as [resolved k1]. by intros [= <- _ _].
Qed.

Lemma open_begin_inv l req spawned now y : sys_inv l y → sys_inv l (open_begin req spawned now y).2.
Proof.
  intros Hy. unfold open_begin. destruct (fresh_id _ _) as [id a] eqn:Hid.
  destruct (resolve_target _ _ _ _) as [[r evs] k] eqn:Hr.
  assert (sys_inv l (send id evs (set_store (y_store y) k (set_app a y)))) as Hy'.
  { eapply sys_inv_frame; [done|done|done|by left|]. intros j (live & [Hj|Hj] & Hc).
    - exists live. split; [by left|done].
    - exists live. split; [right|done]. unfold fresh_id in Hid. by injection Hid as _ <-. }
  destruct r as [[plan|cfg]|e]; [| |done].
  - apply add_attempt_inv; [done|]. split; [done|]. split; [done|]. by eapply resolve_plan_ok.
  - destruct spawned as [[]|e]; [|done]. eapply sys_inv_frame; [done|done|done|by left|].
    intros j (live & [Hj|Hj] & Hc); [|by exists live; auto]. simpl in Hj.
    apply lookup_insert_Some in Hj as [[_ <-]|[_ Hj]]; [done|]. by exists live; auto.
Qed.

Lemma test_begin_inv l req y : sys_inv l y → sys_inv l (test_begin req y).
Proof.
  intros Hy. unfold test_begin. destruct (fresh_id _ _) as [id a] eqn:Hid.
  destruct (test_args _ _ _ _) as [args k] eqn:Ht. apply add_attempt_inv.
  - eapply sys_inv_frame; [done|done|done|by left|]. intros j (live & [Hj|Hj] & Hc).
    + exists live. split; [by left|done].
    + exists live. split; [right|done]. unfold fresh_id in Hid. by injection Hid as _ <-.
  - split; [done|]. unfold test_args in Ht. destruct (test_stored _ _ _). by injection Ht as <- _.
Qed.

Lemma set_store_inv l s k y : sys_inv l y → sys_inv l (set_store s k y).
Proof. intros Hy. by eapply sys_inv_frame; eauto. Qed.

Lemma reconnect_begin_inv l id cols rows rnd y y' :
  sys_inv l y → reconnect_begin id cols rows rnd y = Some y' → sys_inv l y'.
Proof.
  intros Hy. unfold reconnect_begin. destruct (y_sups y !! id) as [sv|]; [|done]. simpl.
  destruct (ph (sv_sup sv)); try done. destruct (pl_host (sv_plan sv)) as [host_id|]; [|done].
  unfold establish_args. destruct (get_host host_id _).1 as [[host|]|].
  - destruct (auth_for_host _ _) as [resolved k]. intros [= <-].
    apply add_attempt_inv; [by apply set_store_inv|by split].
  - intros Hs. eapply sup_do_inv; [|exact Hs]. by apply set_store_inv.
  - intros Hs. eapply sup_do_inv; [|exact Hs]. by apply set_store_inv.
Qed.

Lemma key_presented_inv l n key y y' :
  sys_inv l y → key_presented n key y = Some y' → ∃ i, sys_inv (l ++ [i]) y'.
Proof.
  intros Hy. unfold key_presented. destruct (y_attempts y !! n) as [a|] eqn:Ha; [|done]. simpl.
  destruct (at_ticket a) as [t|] eqn:Ht; [done|]. set (args := at_args a).
  set (info := info_of (s_host (ca_cfg args)) (s_port (ca_cfg args)) key). intros [= <-].
  set (i := Present (ca_insecure args) (ca_id args) (ca_hash_new args) info). exists i.
  eapply (sys_inv_frame _ (hk_do (ca_id args) i y)); [by apply hk_do_inv|done|done| |done].
  simpl. intros n' a' [[_ <-]|[_ Hn]]%lookup_insert_Some; [right|by left].
  destruct (si_attempts _ _ Hy _ _ Ha) as [_ Hp]. split; [|done]. simpl. intros u [= <-].
  exists (length l), info. rewrite (si_hk _ _ Hy). split; [|done].
  assert (hk_run l (hk_init file) = at_step file l (length l)) as ->
    by (unfold at_step; by rewrite firstn_all).
  apply presented_last.
Qed.

(** The end of a connect extends the trace, and takes nothing back. *)
Lemma end_attempt_inv l n a y :
  sys_inv l y → ∃ l', sys_inv l' (end_attempt n a y) ∧
    (∀ args t, key_seen l args t → key_seen l' args t) ∧
    decided (y_hk (end_attempt n a y)) = decided (y_hk y).
Proof.
  intros Hy. unfold end_attempt. set (y1 := set_attempts (delete n (y_attempts y)) y).
  assert (sys_inv l y1) as Hy1.
  { eapply sys_inv_frame; [done|done|done| |done]. simpl. intros n' a' [_ Hn]%lookup_delete_Some. by left. }
  destruct (at_ticket a) as [t|]; [|by exists l].
  exists (l ++ [Abandon t]). split; [by apply hk_do_inv|]. split; [|done].
  intros args u. apply key_seen_snoc.
Qed.

Lemma connect_loop_resolved timeout waited polls w :
  connect_loop timeout waited polls = Some (Ok w) → Resolved (Ok w) ∈ polls.
Proof.
  induction polls as [|[r|b] polls IH] in waited |- *; simpl; [done| |].
  - destruct r; [|done]. intros [= ->]. left.
  - destruct (_ && _)%bool; [|done]. intros Hin%IH. by right.
Qed.

(** A connect that succeeded was let through by the host key. *)
Lemma connect_let_through l y a cfg polls w :
  sys_inv l y → attempt_ok l a → handshake_honest a polls y → connect cfg polls = Some (Ok w) →
  ∃ t, at_ticket a = Some t ∧ key_ok l (at_args a) t.
Proof.
  intros Hy [Ht _] Hh. unfold connect.
  destruct (connect_loop _ _ _) as [[h|]|] eqn:Hl; [|done..]. simpl. intros _.
  apply connect_loop_resolved in Hl as (t & Hat & Hd)%Hh. exists t. split; [done|].
  apply accepted_key_ok; [by apply Ht|]. by rewrite <-(si_hk _ _ Hy).
Qed.

Lemma swap_live_control s : ls_control (swap_live s) = Ssh false.
Proof. done. Qed.

Lemma swap_transport_inv l id a y :
  sys_inv l y → is_Some (y_sups y !! id) → ca_id (at_args a) = id → ca_insecure (at_args a) = false →
  (∃ t, at_ticket a = Some t ∧ key_ok l (at_args a) t) → sys_inv l (swap_transport id a y).
Proof.
  intros [Ihk Iat Isu Ili] Hsome Hid Hins Hkey. split; simpl; [done|done| |].
  - intros j sv [[<- Hj]|[Hne Hj]]%lookup_alter_Some; [|by apply Isu].
    destruct Hj as (sv0 & _ & ->). split_and!; [done|done|]. simpl. by rewrite Hins.
  - intros j (live & Hj & Hc). destruct (decide (j = id)) as [->|Hne].
    { rewrite lookup_alter_eq. by apply fmap_is_Some. }
    rewrite lookup_alter_ne by done. apply Ili. exists live. split; [|done]. simpl in Hj.
    destruct Hj as [Hj|Hj]; [left; by rewrite lookup_alter_ne in Hj|right].
    unfold on_session in Hj. destruct (sessions (y_app y) !! id); simpl in Hj; [|done].
    by rewrite lookup_insert_ne in Hj.
Qed.

Lemma connect_ended_inv l n a polls r now at_ rnd y y' :
  sys_inv l y → y_attempts y !! n = Some a → handshake_honest a polls y →
  connect (ca_cfg (at_args a)) polls = Some r → connect_ended n r now at_ rnd y = Some y' →
  ∃ l', sys_inv l' y'.
Proof.
  intros Hy Ha Hh Hc. pose proof (si_attempts _ _ Hy _ _ Ha) as Hat.
  destruct (end_attempt_inv l n a y Hy) as (l' & Hy1 & Hseen & Hdec).
  assert (attempt_ok l' a) as Hat'.
  { destruct Hat as [Ht Hp]. split; [|done]. by intros t Hs%Ht; apply Hseen. }
  assert (handshake_honest a polls (end_attempt n a y)) as Hh' by (intros w; rewrite Hdec; apply Hh).
  assert (∀ t, finish_connect (at_args a) r = Ok t →
    ∃ u, at_ticket a = Some u ∧ key_ok l' (at_args a) u) as Hkey.
  { intros t Hf. destruct r as [w|e]; [|done]. by eapply connect_let_through. }
  unfold connect_ended. rewrite Ha. simpl. intros Hs. exists l'. destruct Hat' as [_ Hp]. revert Hs.
  destruct (at_purpose a) as [plan req| |].
  - destruct (finish_connect _ r) as [t|e]; [|by intros [= <-]]. intros [= <-].
    destruct Hp as [Hargs Hplan]. destruct Hy1 as [Ihk Iat Isu Ili]. split; simpl; [done|done| |].
    + intros j sv [[<- <-]|[Hne Hj]]%lookup_insert_Some; [|by apply Isu].
      split_and!; [done|by apply (Hkey t)|]. simpl. by rewrite Hargs.
    + intros j (live & Hj & Hctl). rewrite lookup_insert_is_Some'.
      destruct (decide (ca_id (at_args a) = j)) as [|Hne]; [by left|right]. apply Ili. exists live.
      simpl in Hj. by rewrite lookup_insert_ne in Hj.
  - by intros [= <-].
  - destruct (finish_connect _ r) as [t|e] eqn:Hf; intros Hs.
    + assert (is_Some (y_sups (end_attempt n a y) !! ca_id (at_args a))) as Hsome.
      { unfold sup_do in Hs. apply bind_Some in Hs as (sv & Hsv & _). simpl in Hsv.
        rewrite lookup_alter_eq in Hsv. by destruct (y_sups _ !! _). }
      eapply sup_do_inv; [|exact Hs]. apply swap_transport_inv; [done..|by apply (Hkey t)].
    + by eapply sup_do_inv.
Qed.

Lemma register_inv l id y y' : sys_inv l y → register id y = Some y' → sys_inv l y'.
Proof.
  intros Hy. unfold register. destruct (y_up y !! id) as [live|] eqn:Hup; [|done]. intros [= <-].
  eapply sys_inv_frame; [done|done|done|by left|]. intros j (x & Hj & Hc). exists x. split; [|done].
  simpl in Hj. destruct Hj as [Hj|Hj]; [left; by apply lookup_delete_Some in Hj as [_ ?]|].
  apply lookup_insert_Some in Hj as [[<- <-]|[_ Hj]]; by auto.
Qed.

Lemma close_inv l id y : sys_inv l y → sys_inv l (close id y).
Proof.
  intros Hy. unfold close, close_session.
  eapply sys_inv_frame; [done|done|done|by left|]. intros j (x & Hj & Hc). exists x. split; [|done].
  simpl in Hj. destruct Hj as [Hj|Hj]; [by left|right; by apply lookup_delete_Some in Hj as [_ ?]].
Qed.

Lemma sys_step_inv l y y' : sys_inv l y → sys_step y y' → ∃ l', sys_inv l' y'.
Proof.
  intros Hy Hstep. destruct Hstep as
    [req spawned now|req|id cols rows rnd y' _ _ Hs|n key y' Hs|n a polls r now at_ rnd y' Ha Hh Hc Hs
    |id y' Hs|id i y' _ Hs|id accept w salt|f|s k|y' Hs|id|id now a Ha|id now a Ha|rq a Ha|id now a Ha].
  - exists l. by apply open_begin_inv.
  - exists l. by apply test_begin_inv.
  - exists l. by eapply reconnect_begin_inv.
  - destruct (key_presented_inv _ _ _ _ _ Hy Hs) as [i Hi]. by exists (l ++ [i]).
  - by eapply connect_ended_inv.
  - exists l. by eapply register_inv.
  - exists l. by eapply sup_do_inv.
  - exists (l ++ [Approve id accept w salt]). by apply hk_do_inv.
  - exists (l ++ [Edit f]). eapply (sys_inv_frame _ (hk_do [] (Edit f) y)); [by apply hk_do_inv|done|done|by left|done].
  - exists l. by apply set_store_inv.
  - exists l. revert Hs. unfold run_job. destruct (y_jobs y) as [|[host_id at_] jobs]; [done|]. intros [= <-].
    eapply sys_inv_frame; [done|done|done|by left|done].
  - exists l. by apply close_inv.
  - exists l. eapply app_step_inv; [done|exact Ha|]. intros s. by destruct s as [[] ? ? ? ? ? ? ?].
  - exists l. eapply app_step_inv; [done|exact Ha|]. intros s. by destruct s as [[] ? ? ? ? ? ? ?].
  - exists l. eapply app_step_inv; [done|exact Ha|]. intros s. by destruct s as [[] ? ? ? ? ? ? ?].
  - exists l. eapply app_step_inv; [done|exact Ha|]. intros s. by destruct s as [[] ? ? ? ? ? ? ?].
Qed.

Lemma sys_reach_inv s k y : steps sys_step (sys_init s k file) y → ∃ l, sys_inv l y.
Proof.
  apply (steps_invariant _ (λ y, ∃ l, sys_inv l y)).
  - intros y1 y2 [l Hl] Hstep. by eapply sys_step_inv.
  - exists []. apply sys_inv_init.
Qed.

(** C1: no session talks to a server whose host key was not let through:
    whatever is opened, tested, reconnected, approved, closed or edited, and in
    whatever order, the transport behind every SSH session, the one it was
    opened with or the one a reconnect put there, came from a connect whose
    server presented a key that known_hosts trusted at that moment, or that
    was unknown and the user approved in that very prompt; only an ad-hoc
    target, which nothing reconnects, can ask to skip this. *)
Theorem no_untrusted_session s k y id live :
  steps sys_step (sys_init s k file) y →
  sessions (y_app y) !! id = Some live → ls_control live ≠ Pty →
  ∃ l sv t, y_hk y = hk_run l (hk_init file) ∧ y_sups y !! id = Some sv ∧
    let args := at_args (sv_via sv) in
    ca_id args = id ∧ at_ticket (sv_via sv) = Some t ∧ key_ok l args t ∧
    (ca_insecure args = true → pl_host (sv_plan sv) = None ∧ pl_reconnector (sv_plan sv) = false).
Proof.
  intros [l Hy]%sys_reach_inv Hs Hc. destruct (si_live _ _ Hy id) as [sv Hsv]; [by exists live; auto|].
  destruct (si_sups _ _ Hy _ _ Hsv) as (Hid & (t & Ht & Hk) & Hi). exists l, sv, t.
  split_and!; [apply Hy|done..].
Qed.
End trust.

Lemma refused_presented n a key y :
  let args := at_args a in
  let v := verify (hk_file (y_hk y)) (s_host (ca_cfg args)) (s_port (ca_cfg args)) key in
  y_attempts y !! n = Some a → at_ticket a = None → ca_insecure args = false →
  v ≠ Ok Trusted → v ≠ Ok Unknown →
  ∃ y1 e, key_presented n key y = Some y1 ∧ y_events y1 = y_events y ++ [(ca_id args, e)] ∧
    decided (y_hk y1) !! next_ticket (y_hk y) = Some false ∧ hk_file (y_hk y1) = hk_file (y_hk y) ∧
    y_attempts y1 !! n = Some (MkAttempt args (at_purpose a) (Some (next_ticket (y_hk y)))) ∧
    y_sups y1 = y_sups y ∧
    match v with
    | Ok (Changed line alg recorded) =>
        e = SeHostKeyChanged (s_host (ca_cfg args)) (s_port (ca_cfg args)) alg recorded (fingerprint key)
              kh_path line
    | Ok (VRevoked line) => e = SeHostKeyRevoked (s_host (ca_cfg args)) (s_port (ca_cfg args)) kh_path line
    | _ => ∃ msg, e = SeError msg
    end.
Proof.
  intros args v Ha Ht Hins Hnt Hnu. unfold key_presented. rewrite Ha. cbn [mbind option_bind].
  rewrite Ht. fold args. rewrite Hins.
  set (info := info_of (s_host (ca_cfg args)) (s_port (ca_cfg args)) key).
  assert (∃ e, hk_events (present false (ca_id args) (ca_hash_new args) info (y_hk y)) =
      hk_events (y_hk y) ++ [e] ∧
    decided (present false (ca_id args) (ca_hash_new args) info (y_hk y)) !! next_ticket (y_hk y) =
      Some false ∧
    hk_file (present false (ca_id args) (ca_hash_new args) info (y_hk y)) = hk_file (y_hk y) ∧
    match v with
    | Ok (Changed line alg recorded) =>
        e = HostKeyChanged (s_host (ca_cfg args)) (s_port (ca_cfg args)) alg recorded (fingerprint key) line
    | Ok (VRevoked line) => e = HostKeyRevoked (s_host (ca_cfg args)) (s_port (ca_cfg args)) line
    | _ => ∃ err, e = CouldNotRead err
    end) as (e & Hev & Hdec & Hfile & He).
  { unfold present. cbn [hk_file]. change (verify _ _ _ _) with v.
    destruct v as [[| |line alg recorded|line]|err]; [by destruct Hnt|by destruct Hnu| | |]; eexists;
      (split_and!; [done|apply lookup_insert_eq|done|]); [done..|by eexists]. }
  eexists _, (hk_event_dto e). split; [done|]. unfold hk_do, hk_step. cbn [y_hk set_attempts send set_hk
    y_events y_attempts y_sups]. rewrite Hev, drop_app_length. simpl.
  split_and!; [done..|by rewrite lookup_insert_eq|done|].
  destruct v as [[]|]; [destruct He as [? ->]; by eexists..|by rewrite He|by rewrite He|
    destruct He as [? ->]; by eexists].
Qed.

(** A reconnect that failed for good. *)
Lemma rejected_reconnect_ends n a sv k reason now at_ rnd y :
  let id := ca_id (at_args a) in
  y_attempts y !! n = Some a → at_purpose a = ForReconnect →
  y_sups y !! id = Some sv → ph (sv_sup sv) = Attempting k reason →
  ∃ y2 sv', connect_ended n (Err HostKeyRejected) now at_ rnd y = Some y2 ∧
    y_sups y2 !! id = Some sv' ∧ ph (sv_sup sv') = Ended ∧ conn (sv_sup sv') = conn (sv_sup sv) ∧
    sv_via sv' = sv_via sv ∧ y_events y2 = y_events y ++ [(id, SeDisconnected #"host key rejected")] ∧
    hk_file (y_hk y2) = hk_file (y_hk y) ∧ ∀ i, sup_do id i y2 = None.
Proof.
  intros id Ha Hp Hsv Hph. unfold connect_ended. rewrite Ha. cbn [mbind option_bind]. rewrite Hp.
  cbn [finish_connect]. fold id.
  assert (y_sups (end_attempt n a y) = y_sups y ∧ y_events (end_attempt n a y) = y_events y ∧
    hk_file (y_hk (end_attempt n a y)) = hk_file (y_hk y)) as (Hs & He & Hf).
  { unfold end_attempt. destruct (at_ticket a); [|done]. split_and!; [done| |done]. simpl.
    by rewrite drop_ge, app_nil_r. }
  unfold sup_do at 1. rewrite Hs, Hsv. cbn [mbind option_bind]. unfold sup_step. rewrite Hph.
  cbn [reconnect_error_from re_retryable re_message is_retryable display_error after_failed_attempt].
  eexists _, _. split; [done|]. cbn [send set_sups y_sups y_events y_hk]. rewrite He, Hf, lookup_insert_eq.
  split; [done|]. cbn [sv_sup sv_via].
  change (after_failed_attempt _ k false rnd) with GiveUp. cbn [follow emit ph conn emitted].
  rewrite drop_app_length.
  split_and!; [done..|]. intros i. unfold sup_do. simpl. by rewrite lookup_insert_eq.
Qed.

(** C10: a session whose server's key no longer checks out is not reconnected:
    when the key presented to a reconnect is changed, revoked, or cannot be
    checked, the user is told so, and the connect that russh then ends ends the
    supervisor: no further attempt, the transport it had, nothing written to
    known_hosts. *)
Theorem refused_key_ends_session n a sv k reason key re rest now at_ rnd y :
  let args := at_args a in
  let id := ca_id args in
  let v := verify (hk_file (y_hk y)) (s_host (ca_cfg args)) (s_port (ca_cfg args)) key in
  y_attempts y !! n = Some a → at_purpose a = ForReconnect → at_ticket a = None → ca_insecure args = false →
  y_sups y !! id = Some sv → ph (sv_sup sv) = Attempting k reason →
  v ≠ Ok Trusted → v ≠ Ok Unknown → unknown_key re = true →
  ∃ y1 e y2 sv', key_presented n key y = Some y1 ∧
    decided (y_hk y1) !! next_ticket (y_hk y) = Some false ∧ y_events y1 = y_events y ++ [(id, e)] ∧
    match v with
    | Ok (Changed line alg recorded) =>
        e = SeHostKeyChanged (s_host (ca_cfg args)) (s_port (ca_cfg args)) alg recorded (fingerprint key)
              kh_path line
    | Ok (VRevoked line) => e = SeHostKeyRevoked (s_host (ca_cfg args)) (s_port (ca_cfg args)) kh_path line
    | _ => ∃ msg, e = SeError msg
    end ∧
    connect (ca_cfg args) (Resolved (Err (Protocol re)) :: rest) = Some (Err HostKeyRejected) ∧
    connect_ended n (Err HostKeyRejected) now at_ rnd y1 = Some y2 ∧
    y_sups y2 !! id = Some sv' ∧ ph (sv_sup sv') = Ended ∧ conn (sv_sup sv') = conn (sv_sup sv) ∧
    sv_via sv' = sv_via sv ∧ y_events y2 = y_events y1 ++ [(id, SeDisconnected #"host key rejected")] ∧
    hk_file (y_hk y2) = hk_file (y_hk y) ∧ ∀ i, sup_do id i y2 = None.
Proof.
  intros args id v Ha Hp Ht Hins Hsv Hph Hnt Hnu Hre.
  destruct (refused_presented n a key y Ha Ht Hins Hnt Hnu)
    as (y1 & e & Hk & He & Hd & Hf & Ha1 & Hs & Hev).
  destruct (rejected_reconnect_ends n (MkAttempt args (at_purpose a) (Some (next_ticket (y_hk y)))) sv k
    reason now at_ rnd y1 Ha1 Hp) as (y2 & sv' & Hc & Hs2 & He' & Hcn & Hvia & Hev' & Hf' & Hn); [by rewrite Hs|done|].
  exists y1, e, y2, sv'. split_and!; try done; [|by rewrite Hf'].
  unfold connect. simpl. by rewrite Hre.
Qed.

(** A resize while a reconnect is under way does not reach the shell it opens:
    the size was read before connecting. *)
Theorem resize_while_reconnecting_lost id cols rows rnd c r y y1 at_ a :
  reconnect_begin id cols rows rnd y = Some y1 → y_attempts y !! y_next y = None →
  y_attempts y1 !! y_next y = Some at_ → resize_session (MkResizeReq id c r) (y_app y1) = Some a →
  y_attempts (set_app a y1) !! y_next y = Some at_ ∧
  ca_cols (at_args at_) = cols ∧ ca_rows (at_args at_) = rows ∧
  (λ s, (ls_cols s, ls_rows s)) <$> sessions a !! id = Some (c, r).
Proof.
  intros Hb Hnew Hat Ha. split; [done|].
  assert ((λ s, (ls_cols s, ls_rows s)) <$> sessions a !! id = Some (c, r)) as Hsize.
  { unfold resize_session, on_session in Ha. apply fmap_Some in Ha as (s & _ & ->). simpl.
    by rewrite lookup_insert_eq. }
  revert Hb. unfold reconnect_begin. destruct (y_sups y !! id) as [sv|]; [|done]. simpl.
  destruct (ph (sv_sup sv)); try done. destruct (pl_host (sv_plan sv)) as [host_id|]; [|done].
  unfold establish_args. destruct (get_host host_id _).1 as [[host|]|].
  - destruct (auth_for_host _ _) as [resolved k]. intros [= <-]. simpl in Hat.
    rewrite lookup_insert_eq in Hat. by injection Hat as <-.
  - unfold sup_do. intros (? & _ & (? & _ & [= <-])%bind_Some)%bind_Some.
    simpl in Hat. by rewrite Hnew in Hat.
  - unfold sup_do. intros (? & _ & (? & _ & [= <-])%bind_Some)%bind_Some.
    simpl in Hat. by rewrite Hnew in Hat.
Qed.
End system.

(** * A concrete run *)
Definition sample_shells : @ShellTransport sample_transport.
Proof.
  by refine (@Build_ShellTransport sample_transport ()
    (λ w, (Ok (), w)) (λ _ _ _ _ _ _ _ w, (Ok (), w)) (λ _ _ w, (Ok (), w)) (λ _ _ w, (Ok (), w))
    (λ _ _ _ _ _ w, (Ok (), w)) (λ _ w, (Ok (), w)) (λ _ w, (Ok (), w)) (λ _, false) (λ w, (Ok (), w))).
Defined.

#[local] Existing Instances map_keyring sqlite_max_rowid json_bool json_no_number sample_keys
  sample_transport sample_shells.

Definition sample_open : OpenSessionReq :=
  MkOpenReq (TSsh (MkSshTarget #"web" 22 #"ops" (AmPassword #"pw") false)) 80 24 None None None.
Definition no_store_text (e : StoreError) : str := [].
Definition no_kh_text (e : KnownHostsError) : str := [].

Definition run_0 : System := sys_init (d_store sample_created) (d_keyring sample_created) Absent.
Definition run_1 : System := (open_begin sample_open (Ok ()) 5 run_0).2.
Definition run_2 : System := default run_1 (key_presented #"kh" no_kh_text 0 KeyA run_1).
Definition run_3 : System := hk_do #"kh" no_kh_text #"s-0" (Approve #"s-0" true DWrites None) run_2.
Definition run_4 : System := default run_3 (connect_ended #"kh" no_kh_text 0 (Ok 1) 5 7 NaN run_3).
Definition run_5 : System := default run_4 (register #"s-0" run_4).

Lemma sample_run_steps :
  steps (sys_step #"kh" no_store_text no_kh_text) run_0 run_4.
Proof.
  eapply steps_snoc; [eapply steps_snoc; [eapply steps_snoc; [eapply steps_snoc; [apply steps_refl|]|]|]|].
  - apply sys_open.
  - by apply (sys_key _ _ _ run_1 0 KeyA).
  - apply sys_approve.
  - eapply (sys_connect _ _ _ run_3 0 (default (MkAttempt (MkArgs [] (sample_session []) false false 0 0)
      ForTest None) (y_attempts run_3 !! 0)) [answer 0] (Ok 1) 5 7 NaN).
    + vm_compute. reflexivity.
    + intros w _. exists 0. by split.
    + vm_compute. reflexivity.
    + reflexivity.
Qed.

Lemma no_untrusted_session_witness :
  ∃ live l sv t, sessions (y_app run_5) !! #"s-0" = Some live ∧ ls_control live ≠ Pty ∧
    y_hk run_5 = hk_run l (hk_init Absent) ∧ y_sups run_5 !! #"s-0" = Some sv ∧
    key_ok Absent l (at_args (sv_via sv)) t.
Proof.
  assert (steps (sys_step #"kh" no_store_text no_kh_text) run_0 run_5) as Hs.
  { eapply steps_snoc; [apply sample_run_steps|]. apply (sys_register _ _ _ run_4 #"s-0"). reflexivity. }
  destruct (no_untrusted_session #"kh" no_store_text no_kh_text Absent (d_store sample_created)
    (d_keyring sample_created) run_5 #"s-0" (live_new (Ssh false) sample_open 5) Hs eq_refl)
    as (l & sv & t & Hh & Hsv & _ & _ & Hk & _); [done|].
  exists (live_new (Ssh false) sample_open 5), l, sv, t. split; [reflexivity|]. split; [done|].
  split; [exact Hh|]. split; [exact Hsv|exact Hk].
Defined.

(** A shell that exits at once: its supervisor is running before [open_session]
    registers the session and says [Connected]. *)
Definition run_6 : System :=
  default run_4 (sup_do #"s-0" (OutEnded false (Some 0%Z) false NaN) run_4).
Definition run_7 : System := default run_6 (register #"s-0" run_6).

(** The webview is told [Exited] before [Connected], and the session that has
    ended is registered and stays so until it is closed. *)
Theorem exited_before_connected :
  steps (sys_step #"kh" no_store_text no_kh_text) run_0 run_7 ∧
  ∃ live sv before, sessions (y_app run_7) !! #"s-0" = Some live ∧ y_sups run_7 !! #"s-0" = Some sv ∧
    ph (sv_sup sv) = Ended ∧
    y_events run_7 = before ++ [(#"s-0", SeExited (Some 0%Z)); (#"s-0", SeConnected)].
Proof.
  split.
  - eapply steps_snoc; [eapply steps_snoc; [apply sample_run_steps|]|].
    + apply (sys_supervise _ _ _ run_4 #"s-0" (OutEnded false (Some 0%Z) false NaN)).
      * vm_compute. reflexivity.
      * reflexivity.
    + apply (sys_register _ _ _ run_6 #"s-0"). reflexivity.
  - do 2 eexists. exists (y_events run_4). split; [reflexivity|]. split; [reflexivity|].
    split; [reflexivity|]. reflexivity.
Qed.

(** A reconnect under way, to a server that presents a revoked key. *)
Definition stale_args : connect_args := MkArgs #"s-0" (sample_session []) false false 80 24.
Definition stale_via (p : purpose) (t : option nat) : attempt := MkAttempt stale_args p t.
Definition stale_sup : supervised (Chan * W) :=
  MkSupervised (Sup (Attempting 1 None) [EvReconnecting 1 10 250] [] ((), 7) [])
    (MkPlan stale_args (Some 1%Z) POLICY_DEFAULT true) None (stale_via ForTest (Some 0)).
Definition stale : System :=
  set_attempts {[0 := stale_via ForReconnect None]}
    (set_sups {[ #"s-0" := stale_sup]}
       (sys_init (d_store sample_created) (d_keyring sample_created) (Contents sample_file))).

Lemma refused_key_ends_session_witness :
  let re := MkRussh true #"Unknown server key" in
  ∃ y1 e y2 sv', key_presented #"kh" no_kh_text 0 KeyB stale = Some y1 ∧
    y_events y1 = y_events stale ++ [(#"s-0", e)] ∧
    connect (sample_session []) [Resolved (Err (Protocol re))] = Some (Err HostKeyRejected) ∧
    connect_ended #"kh" no_kh_text 0 (Err HostKeyRejected) 5 7 NaN y1 = Some y2 ∧
    y_sups y2 !! #"s-0" = Some sv' ∧ ph (sv_sup sv') = Ended.
Proof.
  intros re.
  assert (verify (Contents sample_file) #"web" 22 KeyB = Ok (VRevoked 2)) as Hv
    by (vm_compute; reflexivity).
  destruct (@refused_key_ends_session map_keyring sample_keys sample_transport sample_shells #"kh"
    no_kh_text 0 (stale_via ForReconnect None) stale_sup 1 None KeyB re [] 5 7 NaN stale) as (y1 & e & y2 & sv' & H1' & _ & He & _ & Hc & H2' & Hs & Hp & _);
    [reflexivity|reflexivity|reflexivity|reflexivity|reflexivity|reflexivity| | |reflexivity|].
  - change (verify (Contents sample_file) #"web" 22 KeyB ≠ Ok Trusted). by rewrite Hv.
  - change (verify (Contents sample_file) #"web" 22 KeyB ≠ Ok Unknown). by rewrite Hv.
  - exists y1, e, y2, sv'. by split_and!.
Defined.
