(* ===== verification/Desk.v ===== *)
(** * The desktop as its user sees it

    An abstract description of what [apps/desktop/src/commands.rs] promises to
    the one who opens tabs: hosts are dialled, a server shows its key, the book
    of trusted keys settles it or the user is asked, lines come up, drop, are
    dialled again, and every tab is told what happens.  There are no tickets,
    callbacks, channels, tasks, locks, files or rows here.  [DeskRefines] proves
    that [System] does nothing else. *)
From S2P Require Import Prelude Text Model KnownHosts TrustBook.

(** What a tab is told. *)
Inductive notice :=
  | NAsk (host : str) (port : Z) (algorithm fingerprint : str)
  | NChanged (host : str) (port : Z) (algorithm recorded presented : str)
  | NRevoked (host : str) (port : Z)
  | NTrouble
  | NCaution
  | NConnected
  | NRetrying (attempt : Z)
  | NLost
  | NLeft (code : option Z).

Section desk.
Context `{SshKeys}.

(** What became of the key a server shows: not shown yet, the user is being
    asked about it, or settled. *)
Inductive ruling := Unseen | Asked (key : PublicKey) | LetIn | Refused.

(** What stays agreed for a line: the saved host it goes to, whether a drop is
    followed by another dial, and how many in a row. *)
Record terms := MkTerms {
  tm_saved : option HostId;
  tm_redials : bool;
  tm_tries : Z
}.

Inductive aim := Fresh (agreed : terms) | Trial | Redial.

Record dial := MkDial {
  dl_tab : str;
  dl_host : str;
  dl_port : Z;
  dl_skip : bool;
  dl_aim : aim;
  dl_key : ruling
}.

Inductive condition := Up | Waiting (k : Z) | Trying (k : Z) | Over.

Record line := MkLine {
  ln_host : str;
  ln_port : Z;
  ln_skip : bool;
  ln_terms : terms;
  ln_now : condition
}.

(** [k_rising] are the tabs whose line is up and that are not on show yet. *)
Record desk := MkDesk {
  k_book : option (list (entry PublicKey));
  k_hosts : HostId → option Host;
  k_dials : gmap nat dial;
  k_lines : gmap str line;
  k_rising : gset str;
  k_tabs : gset str;
  k_closed : gset str;
  k_told : list (str * notice)
}.

Definition desk_new (hosts : HostId → option Host) (b : option (list (entry PublicKey))) : desk :=
  MkDesk b hosts ∅ ∅ ∅ ∅ ∅ [].

Definition with_book b (d : desk) : desk :=
  MkDesk b (k_hosts d) (k_dials d) (k_lines d) (k_rising d) (k_tabs d) (k_closed d) (k_told d).
Definition with_hosts f (d : desk) : desk :=
  MkDesk (k_book d) f (k_dials d) (k_lines d) (k_rising d) (k_tabs d) (k_closed d) (k_told d).
Definition with_dials m (d : desk) : desk :=
  MkDesk (k_book d) (k_hosts d) m (k_lines d) (k_rising d) (k_tabs d) (k_closed d) (k_told d).
Definition with_lines m (d : desk) : desk :=
  MkDesk (k_book d) (k_hosts d) (k_dials d) m (k_rising d) (k_tabs d) (k_closed d) (k_told d).
Definition with_rising s (d : desk) : desk :=
  MkDesk (k_book d) (k_hosts d) (k_dials d) (k_lines d) s (k_tabs d) (k_closed d) (k_told d).
Definition with_tabs s (d : desk) : desk :=
  MkDesk (k_book d) (k_hosts d) (k_dials d) (k_lines d) (k_rising d) s (k_closed d) (k_told d).
Definition with_closed s (d : desk) : desk :=
  MkDesk (k_book d) (k_hosts d) (k_dials d) (k_lines d) (k_rising d) (k_tabs d) s (k_told d).
Definition tell (tab : str) (ns : list notice) (d : desk) : desk :=
  MkDesk (k_book d) (k_hosts d) (k_dials d) (k_lines d) (k_rising d) (k_tabs d) (k_closed d)
    (k_told d ++ (pair tab <$> ns)).

Definition put_dial (n : nat) (dl : dial) (d : desk) : desk := with_dials (<[n := dl]> (k_dials d)) d.
Definition hang_up (n : nat) (d : desk) : desk := with_dials (delete n (k_dials d)) d.
Definition put_line (tab : str) (ln : line) (d : desk) : desk := with_lines (<[tab := ln]> (k_lines d)) d.

Definition ruled (r : ruling) (dl : dial) : dial :=
  MkDial (dl_tab dl) (dl_host dl) (dl_port dl) (dl_skip dl) (dl_aim dl) r.
Definition now (c : condition) (ln : line) : line :=
  MkLine (ln_host ln) (ln_port ln) (ln_skip ln) (ln_terms ln) c.
(** The line of a tab goes on to the server that was dialled again. *)
Definition moved (dl : dial) (ln : line) : line :=
  MkLine (dl_host dl) (dl_port dl) (dl_skip dl) (ln_terms ln) Up.

(** * Keys *)

(** A tab asks one question at a time: a new one refuses what was asked. *)
Definition refuse_asked (tab : str) (dl : dial) : dial :=
  match dl_key dl with
  | Asked _ => if decide (dl_tab dl = tab) then ruled Refused dl else dl
  | _ => dl
  end.

(** What the book says of the key that the server of dial [n] shows. *)
Definition show_judged (n : nat) (dl : dial) (key : PublicKey) (j : judgement) (d : desk) : desk :=
  let settle r ns := tell (dl_tab dl) ns (put_dial n (ruled r dl) d) in
  match j with
  | JTrusted => settle LetIn []
  | JRevoked => settle Refused [NRevoked (dl_host dl) (dl_port dl)]
  | JChanged alg recorded =>
      settle Refused [NChanged (dl_host dl) (dl_port dl) alg recorded (fingerprint key)]
  | JUnknown =>
      tell (dl_tab dl) [NAsk (dl_host dl) (dl_port dl) (algorithm key) (fingerprint key)]
        (put_dial n (ruled (Asked key) dl) (with_dials (refuse_asked (dl_tab dl) <$> k_dials d) d))
  end.

(** The server of dial [n] shows its key. *)
Definition show_key (n : nat) (dl : dial) (key : PublicKey) (d : desk) : desk :=
  if dl_skip dl then tell (dl_tab dl) [] (put_dial n (ruled LetIn dl) d)
  else match k_book d with
       | None => tell (dl_tab dl) [NTrouble] (put_dial n (ruled Refused dl) d)
       | Some es => show_judged n dl key (judge key (filter (is_for (dl_host dl) (dl_port dl)) es)) d
       end.

(** The key was added to the book, for the host. *)
Definition book_adds (host : str) (port : Z) (key : PublicKey) (b b' : option (list (entry PublicKey))) : Prop :=
  ∃ es e, b = Some es ∧ b' = Some (es ++ [e]) ∧ records key e = true ∧ is_for host port e.

(** Whether the book took down a key that was let in, and what it holds then:
    when it did not, the book is as it was, unless the disk gave way in the
    middle and it holds the key after all, or cannot be read.  A name that is
    itself a pattern is written as it is, and says nothing. *)
Definition taken_down (host : str) (port : Z) (key : PublicKey) (written : bool)
    (b b' : option (list (entry PublicKey))) : Prop :=
  if plain_name (match_target host port) then
    if written then book_adds host port key b b'
    else b' = b ∨ b' = None ∨ book_adds host port key b b'
  else True.

(** * Lines *)

Definition may_try (tm : terms) (k : Z) : bool := negb (tm_tries tm =? 0)%Z && (k <=? tm_tries tm)%Z.

(** A line is lost, or will be dialled a [k]th time. *)
Definition fall (tab : str) (ln : line) (again : bool) (k : Z) (d : desk) : desk :=
  if (again && may_try (ln_terms ln) k)%bool
  then tell tab [NRetrying k] (put_line tab (now (Waiting k) ln) d)
  else tell tab [NLost] (put_line tab (now Over ln) d).

(** Attempts are counted on 32 bits. *)
Definition next_try (k : Z) : Z := ((k + 1) mod 2 ^ 32)%Z.

Definition is_redial (dl : dial) : Prop := dl_aim dl = Redial.

(** * Steps *)

Inductive desk_step (d : desk) : desk → Prop :=
  (** A tab is opened on a server: an ad-hoc one, which alone may skip the
      check and is never dialled again, or a saved host. *)
  | dk_dial n tab host port skip tm notes :
      k_dials d !! n = None → Forall (λ x, x = NCaution) notes →
      match tm_saved tm with
      | None => tm_redials tm = false
      | Some id => skip = false ∧ ∃ h, k_hosts d id = Some h ∧ host = h_hostname h ∧ port = h_port h
      end →
      desk_step d (put_dial n (MkDial tab host port skip (Fresh tm) Unseen) (tell tab notes d))
  | dk_trial n tab host port :
      k_dials d !! n = None → desk_step d (put_dial n (MkDial tab host port false Trial Unseen) d)
  | dk_local tab : desk_step d (with_rising ({[tab]} ∪ k_rising d) d)
  | dk_redial n tab ln k id h :
      k_dials d !! n = None → k_lines d !! tab = Some ln → ln_now ln = Trying k →
      (∀ m dl, k_dials d !! m = Some dl → is_redial dl → dl_tab dl ≠ tab) →
      tm_saved (ln_terms ln) = Some id → k_hosts d id = Some h →
      desk_step d (put_dial n (MkDial tab (h_hostname h) (h_port h) false Redial Unseen) d)
  | dk_host_gone tab ln k id :
      k_lines d !! tab = Some ln → ln_now ln = Trying k →
      tm_saved (ln_terms ln) = Some id → k_hosts d id = None →
      desk_step d (tell tab [NLost] (put_line tab (now Over ln) d))
  | dk_key n dl key :
      k_dials d !! n = Some dl → dl_key dl = Unseen → desk_step d (show_key n dl key d)
  | dk_yes n dl key written b :
      k_dials d !! n = Some dl → dl_key dl = Asked key →
      taken_down (dl_host dl) (dl_port dl) key written (k_book d) b →
      desk_step d (tell (dl_tab dl) (if written then [] else [NTrouble])
                     (put_dial n (ruled LetIn dl) (with_book b d)))
  | dk_no n dl key :
      k_dials d !! n = Some dl → dl_key dl = Asked key → desk_step d (put_dial n (ruled Refused dl) d)
  | dk_over n dl :
      k_dials d !! n = Some dl → ¬ is_redial dl → desk_step d (hang_up n d)
  | dk_connect n dl tm :
      k_dials d !! n = Some dl → dl_aim dl = Fresh tm → dl_key dl = LetIn →
      desk_step d
        (with_rising ({[dl_tab dl]} ∪ k_rising d)
           (put_line (dl_tab dl) (MkLine (dl_host dl) (dl_port dl) (dl_skip dl) tm Up) (hang_up n d)))
  | dk_reconnect n dl ln k :
      k_dials d !! n = Some dl → is_redial dl → dl_key dl = LetIn →
      k_lines d !! dl_tab dl = Some ln → ln_now ln = Trying k →
      desk_step d (tell (dl_tab dl) [NConnected] (put_line (dl_tab dl) (moved dl ln) (hang_up n d)))
  | dk_redial_fails n dl ln k again :
      k_dials d !! n = Some dl → is_redial dl →
      k_lines d !! dl_tab dl = Some ln → ln_now ln = Trying k →
      desk_step d (fall (dl_tab dl) ln again (next_try k) (hang_up n d))
  | dk_show tab :
      tab ∈ k_rising d →
      desk_step d (with_tabs ({[tab]} ∪ k_tabs d)
                     (with_rising (k_rising d ∖ {[tab]}) (tell tab [NConnected] d)))
  | dk_exit tab ln code :
      k_lines d !! tab = Some ln → ln_now ln = Up → tab ∉ k_closed d →
      desk_step d (tell tab [NLeft code] (put_line tab (now Over ln) d))
  | dk_drop tab ln :
      k_lines d !! tab = Some ln → ln_now ln = Up → tab ∉ k_closed d →
      desk_step d (fall tab ln (tm_redials (ln_terms ln)) 1 d)
  | dk_try tab ln k :
      k_lines d !! tab = Some ln → ln_now ln = Waiting k → tab ∉ k_closed d →
      desk_step d (put_line tab (now (Trying k) ln) d)
  (** A line stops in silence: nobody reads it, or its tab is closed. *)
  | dk_hush tab ln :
      k_lines d !! tab = Some ln →
      match ln_now ln with Up => True | Waiting _ => tab ∈ k_closed d | _ => False end →
      desk_step d (put_line tab (now Over ln) d)
  | dk_close tab :
      tab ∈ k_tabs d →
      desk_step d (with_closed ({[tab]} ∪ k_closed d) (with_tabs (k_tabs d ∖ {[tab]}) d))
  | dk_stay : desk_step d d.

(** What happens outside of the sessions: [known_hosts] is written by another
    command or program, and the store changes. *)
Inductive desk_env (d : desk) : desk → Prop :=
  | env_book b : desk_env d (with_book b d)
  | env_hosts f : desk_env d (with_hosts f d).

Definition desk_any (d d' : desk) : Prop := desk_step d d' ∨ desk_env d d'.
(** * What follows from the description alone *)

Lemma tell_nothing tab d : tell tab [] d = d.
Proof. destruct d. unfold tell. cbn. by rewrite app_nil_r. Qed.

(** Every open question was put to the user, in the tab it is about. *)
Definition asked_told (d : desk) : Prop :=
  ∀ n dl key, k_dials d !! n = Some dl → dl_key dl = Asked key →
    (dl_tab dl, NAsk (dl_host dl) (dl_port dl) (algorithm key) (fingerprint key)) ∈ k_told d.

Lemma asked_told_new hosts b : asked_told (desk_new hosts b).
Proof. intros n dl key. cbn. by rewrite lookup_empty. Qed.

(** Dials that ask nothing new, and more told. *)
Lemma asked_told_mono d d' :
  asked_told d →
  (∀ n dl key, k_dials d' !! n = Some dl → dl_key dl = Asked key →
    ∃ n' dl', k_dials d !! n' = Some dl' ∧ dl_key dl' = Asked key ∧ dl_tab dl' = dl_tab dl ∧
      dl_host dl' = dl_host dl ∧ dl_port dl' = dl_port dl) →
  k_told d `prefix_of` k_told d' → asked_told d'.
Proof.
  intros Hd Hdials [told Htold] n dl key Hn Hk.
  destruct (Hdials n dl key Hn Hk) as (n' & dl' & Hn' & Hk' & Ht & Hh & Hp). rewrite Htold. apply elem_of_app. left. rewrite <- Ht, <- Hh, <- Hp. by eapply Hd.
Qed.

Lemma asked_told_put d d' n dl :
  asked_told d → k_dials d' = <[n := dl]> (k_dials d) → (∀ key, dl_key dl ≠ Asked key) →
  k_told d `prefix_of` k_told d' → asked_told d'.
Proof.
  intros Hd Hdials Hk Hp. apply (asked_told_mono d); [done| |done]. rewrite Hdials.
  intros n' dl' key [[_ <-]|[_ Hn]]%lookup_insert_Some Hk'; [by destruct (Hk key)|by exists n', dl'].
Qed.

Lemma hang_up_sub n d m dl : k_dials (hang_up n d) !! m = Some dl → k_dials d !! m = Some dl.
Proof. cbn. by intros [_ Hm]%lookup_delete_Some. Qed.

Lemma asked_told_same d d' :
  asked_told d → (∀ n dl, k_dials d' !! n = Some dl → k_dials d !! n = Some dl) →
  k_told d `prefix_of` k_told d' → asked_told d'.
Proof. intros Hd Hsub Hp. apply (asked_told_mono d); [done| |done]. intros n dl key Hn Hk. exists n, dl. split_and!; eauto. Qed.

Lemma show_key_asked n dl key d :
  asked_told d → k_dials d !! n = Some dl → asked_told (show_key n dl key d).
Proof.
  intros Hd Hn. unfold show_key, show_judged.
  assert (∀ r told, (∀ k, r ≠ Asked k) → asked_told (tell (dl_tab dl) told (put_dial n (ruled r dl) d))) as Hput
    by (intros r told Hr; apply (asked_told_put d _ n (ruled r dl)); [done|done|done|by eexists]).
  destruct (dl_skip dl); [by apply Hput|]. destruct (k_book d) as [es|]; [|by apply Hput].
  destruct (judge _ _); try by apply Hput.
  intros n' dl' k Hn' Hk. cbn [tell put_dial with_dials k_told k_dials] in *.
  apply elem_of_app. apply lookup_insert_Some in Hn' as [[_ <-]|[_ Hn']].
  - right. cbn in Hk. injection Hk as <-. cbn. by left.
  - left. apply lookup_fmap_Some in Hn' as (dl0 & <- & Hn'). unfold refuse_asked in *.
    destruct (dl_key dl0) as [|k0| |] eqn:Hk0; [by rewrite Hk in Hk0| |by rewrite Hk in Hk0..].
    destruct (decide (dl_tab dl0 = dl_tab dl)); [done|]. rewrite Hk0 in Hk. injection Hk as <-. by eapply Hd.
Qed.

Lemma asked_told_step d d' : asked_told d → desk_step d d' → asked_told d'.
Proof.
  assert (∀ tab ln again k x, k_dials (fall tab ln again k x) = k_dials x ∧
    k_told x `prefix_of` k_told (fall tab ln again k x)) as Hfall.
  { intros tab ln again k x. unfold fall. destruct (_ && _)%bool; (split; [done|by eexists]). }
  assert (∀ (l k : list (str * notice)), l `prefix_of` l ++ k) as Hpre by (intros l k; by eexists).
  assert (∀ n tab ln again k, asked_told d → asked_told (fall tab ln again k d) ∧
    asked_told (fall tab ln again k (hang_up n d))) as Hfalls.
  { intros n tab ln again k Hd. split.
    - destruct (Hfall tab ln again k d) as [Hk Ht]. apply (asked_told_same d); [done|by rewrite Hk|done].
    - destruct (Hfall tab ln again k (hang_up n d)) as [Hk Ht]. apply (asked_told_same d); [done| |done].
      intros m dl. rewrite Hk. apply hang_up_sub. }
  intros Hd Hstep. destruct Hstep;
    try (apply (asked_told_same d); [done|first [done|intros ? ?; apply hang_up_sub]|first [done|apply Hpre]]);
    try (eapply (asked_told_put d); [done|reflexivity|done|first [done|apply Hpre]]).
  - by apply show_key_asked.
  - exact (proj2 (Hfalls n (dl_tab dl) ln again (next_try k) Hd)).
  - exact (proj1 (Hfalls 0 tab ln (tm_redials (ln_terms ln)) 1%Z Hd)).
Qed.

Lemma asked_told_any d d' : asked_told d → desk_any d d' → asked_told d'.
Proof. intros Hd [Hstep|[b|f]]; [by eapply asked_told_step|done..]. Qed.

Lemma show_key_book n dl key d : k_book (show_key n dl key d) = k_book d.
Proof.
  unfold show_key, show_judged. destruct (dl_skip dl); [done|].
  destruct (k_book d) as [es|] eqn:Hb; [|done]. by destruct (judge _ _).
Qed.

(** A key only comes into the book because the user said yes to it. *)
Lemma book_grows d d' es e :
  desk_step d d' → k_book d' = Some es → e ∈ es → (∀ es0, k_book d = Some es0 → e ∉ es0) →
  ∃ n dl key, k_dials d !! n = Some dl ∧ dl_key dl = Asked key ∧
    (plain_name (match_target (dl_host dl) (dl_port dl)) = true →
     records key e = true ∧ is_for (dl_host dl) (dl_port dl) e).
Proof.
  assert (∀ x : desk, k_book x = k_book d → k_book x = Some es → e ∈ es →
    (∀ es0, k_book d = Some es0 → e ∉ es0) → False) as Hsame.
  { intros x Hx Hb He Hnew. rewrite Hx in Hb. by eapply Hnew. }
  intros Hstep Hb He Hnew. destruct Hstep; try (exfalso; by eapply Hsame; [|exact Hb| |]; [reflexivity|..]).
  - exfalso. eapply Hsame; [apply show_key_book|exact Hb|done|done].
  - exists n, dl, key. split_and!; [done|done|]. intros Hplain.
    match goal with Ht : taken_down _ _ _ _ _ _ |- _ => revert Ht end. unfold taken_down. rewrite Hplain.
    cbn in Hb. intros Htaken.
    assert (book_adds (dl_host dl) (dl_port dl) key (k_book d) b) as (es0 & e0 & Hes0 & -> & Hrec & Hfor).
    { destruct written; [done|]. destruct Htaken as [->|[->|?]]; [exfalso; by eapply Hnew|done..]. }
    injection Hb as <-.
    apply elem_of_app in He as [He| ->%list_elem_of_singleton]; [exfalso; by eapply Hnew|done].
  - exfalso. eapply Hsame; [|exact Hb|done|done]. unfold fall. by destruct (_ && _)%bool.
  - exfalso. eapply Hsame; [|exact Hb|done|done]. unfold fall. by destruct (_ && _)%bool.
Qed.

(** A closed tab for which nothing is being dialled. *)
Definition hushed (tab : str) (d : desk) : Prop :=
  tab ∈ k_closed d ∧ (∀ ln k, k_lines d !! tab = Some ln → ln_now ln ≠ Trying k) ∧
  (∀ n dl, k_dials d !! n = Some dl → is_redial dl → dl_tab dl ≠ tab).

Lemma hushed_mono tab d d' :
  hushed tab d → k_closed d ⊆ k_closed d' →
  (∀ ln k, k_lines d' !! tab = Some ln → ln_now ln = Trying k →
    ∃ ln', k_lines d !! tab = Some ln' ∧ ln_now ln' = Trying k) →
  (∀ n dl, k_dials d' !! n = Some dl → is_redial dl → dl_tab dl = tab →
    ∃ n' dl', k_dials d !! n' = Some dl' ∧ is_redial dl' ∧ dl_tab dl' = tab) →
  hushed tab d'.
Proof.
  intros (Hc & Hl & Hr) Hsub Hlines Hdials. split_and!; [set_solver| |].
  - intros ln k Hln Hk. destruct (Hlines ln k Hln Hk) as (ln' & Hln' & Hk'). by eapply Hl.
  - intros n dl Hn Hre Htab. destruct (Hdials n dl Hn Hre Htab) as (n' & dl' & Hn' & Hre' & Htab'). by eapply Hr.
Qed.

(** A line that changes, but not to another dial. *)
Lemma hushed_line tab d tab' ln told :
  hushed tab d → (∀ k, ln_now ln ≠ Trying k) → hushed tab (tell tab' told (put_line tab' ln d)).
Proof.
  intros Hd Hk. apply (hushed_mono tab d); [done|done| |by eauto]. cbn.
  intros ln' k [[_ <-]|[_ Hln]]%lookup_insert_Some Hnow; [by destruct (Hk k)|by exists ln'].
Qed.

Lemma hushed_dials tab d d' :
  hushed tab d → k_closed d' = k_closed d → k_lines d' = k_lines d →
  (∀ n dl, k_dials d' !! n = Some dl → is_redial dl → dl_tab dl = tab →
    ∃ n' dl', k_dials d !! n' = Some dl' ∧ is_redial dl' ∧ dl_tab dl' = tab) →
  hushed tab d'.
Proof. intros Hd Hc Hl Hdials. apply (hushed_mono tab d); rewrite ?Hc, ?Hl; eauto. Qed.

Lemma hushed_hang_up tab n d : hushed tab d → hushed tab (hang_up n d).
Proof. intros Hd. apply (hushed_dials tab d); [done..|]. intros m dl Hm%hang_up_sub ??. by exists m, dl. Qed.

Lemma hushed_fall tab d tab' ln again k : hushed tab d → hushed tab (fall tab' ln again k d).
Proof. intros Hd. unfold fall. destruct (_ && _)%bool; by apply hushed_line. Qed.

(** A dial whose question is settled, or put. *)
Lemma hushed_ruled tab d n dl r told tab' b :
  hushed tab d → k_dials d !! n = Some dl →
  hushed tab (tell tab' told (put_dial n (ruled r dl) (with_book b d))).
Proof.
  intros Hd Hn. apply (hushed_dials tab d); [done..|]. cbn.
  intros m dl' [[_ <-]|[_ Hm]]%lookup_insert_Some Hre Htab; [by exists n, dl|by exists m, dl'].
Qed.

Lemma hushed_show_key tab d n dl key :
  hushed tab d → k_dials d !! n = Some dl → hushed tab (show_key n dl key d).
Proof.
  intros Hd Hn. apply (hushed_dials tab d); [done|by unfold show_key, show_judged; repeat case_match..|].
  assert (∀ r told, ∀ m dl', k_dials (tell (dl_tab dl) told (put_dial n (ruled r dl) d)) !! m = Some dl' →
    is_redial dl' → dl_tab dl' = tab →
    ∃ n' dl0, k_dials d !! n' = Some dl0 ∧ is_redial dl0 ∧ dl_tab dl0 = tab) as Hput.
  { cbn. intros r told m dl' [[_ <-]|[_ Hm]]%lookup_insert_Some Hre Htab; [by exists n, dl|by exists m, dl']. }
  unfold show_key, show_judged. destruct (dl_skip dl); [apply Hput|].
  destruct (k_book d); [|apply Hput]. destruct (judge _ _); try apply Hput. cbn.
  intros m dl' [[_ <-]|[_ Hm]]%lookup_insert_Some Hre Htab; [by exists n, dl|].
  apply lookup_fmap_Some in Hm as (dl0 & <- & Hm). exists m, dl0. unfold refuse_asked in *.
  destruct (dl_key dl0); try done. by case_decide.
Qed.

Lemma hushed_new tab d d' n dl :
  hushed tab d → k_dials d' = <[n := dl]> (k_dials d) → k_closed d' = k_closed d → k_lines d' = k_lines d →
  (is_redial dl → dl_tab dl ≠ tab) → hushed tab d'.
Proof.
  intros Hd Hdials Hc Hl Hdl. apply (hushed_dials tab d); [done..|]. rewrite Hdials.
  intros m dl' [[_ <-]|[_ Hm]]%lookup_insert_Some Hre Htab; [by destruct (Hdl Hre)|by exists m, dl'].
Qed.

Lemma hushed_step tab d d' : hushed tab d → desk_any d d' → hushed tab d'.
Proof.
  intros Hd [Hstep|Henv]; [|destruct Henv; by apply (hushed_dials tab d); eauto].
  pose proof Hd as (Hc & Hl & Hr).
  destruct Hstep as [n tab' host port skip tm notes|n tab' host port| |n tab' ln k id h _ Hln Hk|tab' ln k id Hln
    |n dl key Hn|n dl key written b Hn|n dl key Hn|n dl _ _|n dl tm Hn _ _|n dl ln k Hn|n dl ln k again Hn
    | |tab' ln code|tab' ln|tab' ln k Hln Hk Hopen|tab' ln Hln Hq| |]; try (by apply (hushed_dials tab d); eauto).
  - by apply (hushed_new tab d _ n (MkDial tab' host port skip (Fresh tm) Unseen)).
  - by apply (hushed_new tab d _ n (MkDial tab' host port false Trial Unseen)).
  - apply (hushed_new tab d _ n (MkDial tab' (h_hostname h) (h_port h) false Redial Unseen)); try done.
    intros _. cbn. intros ->. by apply (Hl ln k).
  - by apply hushed_line.
  - by apply hushed_show_key.
  - by apply hushed_ruled.
  - pose proof (hushed_ruled tab d n dl Refused [] tab (k_book d) Hd Hn) as Hp. by rewrite tell_nothing in Hp.
  - by apply hushed_hang_up.
  - pose proof (hushed_hang_up tab n d Hd) as Hd'.
    pose proof (hushed_line tab _ (dl_tab dl) (MkLine (dl_host dl) (dl_port dl) (dl_skip dl) tm Up) [] Hd') as Hp.
    rewrite tell_nothing in Hp. by apply Hp.
  - apply hushed_line; [|done]. by apply hushed_hang_up.
  - apply hushed_fall. by apply hushed_hang_up.
  - by apply hushed_line.
  - by apply hushed_fall.
  - rewrite <- (tell_nothing tab' (put_line _ _ _)). destruct (decide (tab' = tab)) as [->|Hne]; [done|].
    apply (hushed_mono tab d); [done|done| |by eauto]. cbn. rewrite lookup_insert_ne by done. eauto.
  - rewrite <- (tell_nothing tab' (put_line _ _ _)). by apply hushed_line.
  - apply (hushed_mono tab d); [done|set_solver|by eauto..].
Qed.
End desk.
