(* ===== verification/DeskRefines.v ===== *)
(** * The desktop does what the desk describes

    [desk_of] reads a state of [System] as a state of [Desk]: attempts become
    dials, tickets the question they stand for, supervisors lines, and events
    notices.  Every step of [System] is then a step of the desk. *)
From S2P Require Import Prelude Text Model Database StoreInv Hosts Settings Collection StoreRefines.
From S2P Require Import Vault Auth Session KnownHosts TrustBook HostKey Shell Channel Pty Proto StoreCommands.
From S2P Require Import F64 Reconnect Supervise Commands Open System Desk.

(** * Tickets and dials *)
Section tickets.
Context `{!SshKeys}.
Implicit Types (m : gmap nat attempt).

Definition ruling_of (h : hk_state) (ticket : option nat) : ruling :=
  match ticket with
  | None => Unseen
  | Some t =>
      match decided h !! t with
      | Some true => LetIn
      | Some false => Refused
      | None => match waiting h !! t with Some w => Asked (i_key (w_info w)) | None => Refused end
      end
  end.

Definition terms_of (plan : ssh_plan) : terms :=
  MkTerms (pl_host plan) (pl_reconnector plan)
    (if enabled (pl_policy plan) then max_attempts (pl_policy plan) else 0%Z).

Definition aim_of (p : purpose) : aim :=
  match p with ForOpen plan _ => Fresh (terms_of plan) | ForTest => Trial | ForReconnect => Redial end.

Definition dial_of (h : hk_state) (a : attempt) : dial :=
  let args := at_args a in
  MkDial (ca_id args) (s_host (ca_cfg args)) (s_port (ca_cfg args)) (ca_insecure args)
    (aim_of (at_purpose a)) (ruling_of h (at_ticket a)).

Definition ticketed (t : nat) (a : attempt) : attempt := MkAttempt (at_args a) (at_purpose a) (Some t).

(** How the tickets of the callback and the attempts go together: a ticket was
    drawn for one attempt, and while it is undecided its callback waits under
    the attempt's session, and only there. *)
Record linked (h : hk_state) m : Prop := {
  lk_drawn n a t : m !! n = Some a → at_ticket a = Some t → t < next_ticket h;
  lk_one n n' a a' t :
    m !! n = Some a → m !! n' = Some a' → at_ticket a = Some t → at_ticket a' = Some t → n = n';
  lk_settled n a t : m !! n = Some a → at_ticket a = Some t → is_Some (decided h !! t) → waiting h !! t = None;
  lk_waits n a t w : m !! n = Some a → at_ticket a = Some t → waiting h !! t = Some w →
    (∃ key, w_info w = info_of (s_host (ca_cfg (at_args a))) (s_port (ca_cfg (at_args a))) key) ∧
    pending h !! ca_id (at_args a) = Some t;
  lk_only n a t sid w : m !! n = Some a → at_ticket a = Some t → waiting h !! t = Some w →
    pending h !! sid = Some t → sid = ca_id (at_args a);
  lk_owned t w : waiting h !! t = Some w → ∃ n a, m !! n = Some a ∧ at_ticket a = Some t;
  lk_decided t : is_Some (decided h !! t) → t < next_ticket h;
  lk_pending sid t : pending h !! sid = Some t → t < next_ticket h
}.

Lemma linked_init file : linked (hk_init file) ∅.
Proof. split; cbn; intros *; rewrite ?lookup_empty; try done; by intros []. Qed.

(** Only the tickets matter. *)
Lemma linked_same (h h' : hk_state) m :
  linked h m → pending h' = pending h → waiting h' = waiting h → next_ticket h' = next_ticket h →
  decided h' = decided h → linked h' m.
Proof. intros [] Hp Hw Hn Hd. split; rewrite ?Hp, ?Hw, ?Hn, ?Hd; eauto. Qed.

Lemma linked_new (h : hk_state) m n a :
  linked h m → m !! n = None → at_ticket a = None → linked h (<[n := a]> m).
Proof.
  intros [] Hn Ha.
  assert (∀ n' a' t, <[n := a]> m !! n' = Some a' → at_ticket a' = Some t → m !! n' = Some a') as Hold.
  { intros n' a' t [[<- <-]|[_ Hl]]%lookup_insert_Some Ht; [congruence|done]. }
  split; eauto.
  intros t w Hw. destruct (lk_owned0 t w Hw) as (n' & a' & Hl & Ht). exists n', a'.
  rewrite lookup_insert_ne; [done|congruence].
Qed.

Lemma linked_decide (h : hk_state) m t b evs :
  linked h m → t < next_ticket h → linked (decide_ticket t b evs h) m.
Proof.
  intros [] Ht. split; cbn [decide_ticket pending waiting next_ticket decided]; eauto.
  - intros n a u Hl Hu. destruct (decide (u = t)) as [->|Hne]; [by rewrite lookup_delete_eq|].
    rewrite lookup_insert_ne, lookup_delete_ne by done. by eapply lk_settled0.
  - intros n a u w Hl Hu [_ Hw]%lookup_delete_Some. by eapply lk_waits0.
  - intros n a u sid w Hl Hu [_ Hw]%lookup_delete_Some. by eapply lk_only0.
  - intros u w [_ Hw]%lookup_delete_Some. by eapply lk_owned0.
  - intros u. destruct (decide (u = t)) as [->|Hne]; [done|]. rewrite lookup_insert_ne by done. eauto.
Qed.

Lemma linked_answer (h : hk_state) m t a w salt : linked h m → linked (resolve_ticket t a w salt h) m.
Proof.
  intros Hl. unfold resolve_ticket. destruct (waiting h !! t) as [wt|] eqn:Hw; [|done].
  assert (t < next_ticket h) as Ht.
  { destruct (lk_owned _ _ Hl t wt Hw) as (n & x & Hn & Hx). by eapply lk_drawn. }
  destruct a; [|by apply linked_decide]. destruct (learn _ _ _ _ _ _ _) as [r file'].
  apply linked_decide; [|done]. by eapply linked_same.
Qed.
Definition dials_of (h : hk_state) m : gmap nat dial := dial_of h <$> m.

Lemma dials_same (h h' : hk_state) m :
  waiting h' = waiting h → decided h' = decided h → dials_of h' m = dials_of h m.
Proof.
  intros Hw Hd. apply map_fmap_ext. intros n a _. unfold dial_of, ruling_of. by rewrite Hw, Hd.
Qed.

(** A change that is seen in one attempt only. *)
Lemma dials_change (h h' : hk_state) m n a r :
  m !! n = Some a → ruling_of h' (at_ticket a) = r →
  (∀ n' a', n' ≠ n → m !! n' = Some a' → ruling_of h' (at_ticket a') = ruling_of h (at_ticket a')) →
  dials_of h' m = <[n := ruled r (dial_of h a)]> (dials_of h m).
Proof.
  intros Ha Hr Hrest. unfold dials_of. rewrite <- (insert_id m n a Ha) at 1. rewrite fmap_insert.
  apply map_eq. intros n'. destruct (decide (n' = n)) as [->|Hne].
  - rewrite !lookup_insert_eq. unfold dial_of, ruled. by rewrite Hr.
  - rewrite !lookup_insert_ne, !lookup_fmap by done. destruct (m !! n') as [a'|] eqn:Ha'; [|done].
    simpl. unfold dial_of. by rewrite (Hrest n' a').
Qed.

Lemma ruling_decide (h : hk_state) t b evs u :
  ruling_of (decide_ticket t b evs h) (Some u) =
  if decide (u = t) then if (b : bool) then LetIn else Refused else ruling_of h (Some u).
Proof.
  unfold ruling_of. cbn [decide_ticket decided waiting]. case_decide as Hu.
  - subst u. rewrite lookup_insert_eq. by destruct b.
  - by rewrite lookup_insert_ne, lookup_delete_ne.
Qed.

Lemma dials_decide (h : hk_state) m n a t b evs :
  linked h m → m !! n = Some a → at_ticket a = Some t →
  dials_of (decide_ticket t b evs h) m =
  <[n := ruled (if (b : bool) then LetIn else Refused) (dial_of h a)]> (dials_of h m).
Proof.
  intros Hl Ha Ht. apply dials_change; [done|by rewrite Ht, ruling_decide, decide_True|].
  intros n' a' Hne Ha'. destruct (at_ticket a') as [u|] eqn:Hu; [|done].
  rewrite ruling_decide, decide_False; [done|]. intros ->. apply Hne. by eapply lk_one.
Qed.

(** * A key is shown *)

Definition drawn (h : hk_state) : hk_state :=
  HK _ (hk_file h) (pending h) (waiting h) (S (next_ticket h)) (hk_events h) (decided h).

Lemma linked_draw (h : hk_state) m n a :
  linked h m → m !! n = Some a → at_ticket a = None →
  linked (drawn h) (<[n := ticketed (next_ticket h) a]> m).
Proof.
  intros Hl Ha Hnone. set (t := next_ticket h). set (m' := <[n := ticketed t a]> m).
  assert (∀ n' a' u, m' !! n' = Some a' → at_ticket a' = Some u →
    (n' = n ∧ u = t) ∨ (m !! n' = Some a' ∧ u < t)) as Hcase.
  { intros n' a' u [[<- <-]|[_ Hm]]%lookup_insert_Some Hu.
    - left. by injection Hu as <-.
    - right. split; [done|]. by eapply (lk_drawn _ _ Hl). }
  assert (waiting h !! t = None) as Hwt.
  { destruct (waiting h !! t) as [w|] eqn:Hw; [|done]. destruct (lk_owned _ _ Hl _ _ Hw) as (n' & a' & Hm & Hu).
    pose proof (lk_drawn _ _ Hl _ _ _ Hm Hu). unfold t in *. lia. }
  split; cbn [drawn pending waiting next_ticket decided].
  - intros n' a' u Hm Hu. destruct (Hcase _ _ _ Hm Hu) as [[_ ->]|[_ ?]]; unfold t in *; lia.
  - intros n1 n2 a1 a2 u H1' H2' Hu1 Hu2.
    destruct (Hcase _ _ _ H1' Hu1) as [[-> ->]|[? ?]], (Hcase _ _ _ H2' Hu2) as [[-> ?]|[? ?]];
      [done|lia|lia|by eapply (lk_one _ _ Hl)].
  - intros n' a' u Hm Hu Hd. destruct (Hcase _ _ _ Hm Hu) as [[_ ->]|[? _]]; [done|by eapply (lk_settled _ _ Hl)].
  - intros n' a' u w Hm Hu Hw. destruct (Hcase _ _ _ Hm Hu) as [[_ ->]|[? _]];
      [by rewrite Hwt in Hw|by eapply (lk_waits _ _ Hl)].
  - intros n' a' u sid w Hm Hu Hw Hp. destruct (Hcase _ _ _ Hm Hu) as [[_ ->]|[? _]];
      [by rewrite Hwt in Hw|by eapply (lk_only _ _ Hl)].
  - intros u w Hw. destruct (lk_owned _ _ Hl _ _ Hw) as (n' & a' & Hm & Hu). exists n', a'.
    unfold m'. rewrite lookup_insert_ne; [done|congruence].
  - intros u Hd%(lk_decided _ _ Hl). lia.
  - intros sid u Hp%(lk_pending _ _ Hl). lia.
Qed.

Lemma dials_draw (h : hk_state) m n a :
  linked h m → m !! n = Some a →
  dials_of (drawn h) (<[n := ticketed (next_ticket h) a]> m) =
  <[n := ruled Refused (dial_of h a)]> (dials_of h m).
Proof.
  intros Hl Ha. unfold dials_of. rewrite fmap_insert. f_equal. unfold dial_of, ruled, ticketed. cbn.
  destruct (decided h !! next_ticket h) eqn:Hd.
  { assert (next_ticket h < next_ticket h) by (apply (lk_decided _ _ Hl); by rewrite Hd). lia. }
  destruct (waiting h !! next_ticket h) as [w|] eqn:Hw; [|done].
  destruct (lk_owned _ _ Hl _ _ Hw) as (n' & a' & Hm & Hu).
  pose proof (lk_drawn _ _ Hl _ _ _ Hm Hu). lia.
Qed.

(** Settled at once. *)
Lemma present_settled (h : hk_state) m n a b evs :
  linked h m → m !! n = Some a → at_ticket a = None →
  let t := next_ticket h in
  let m' := <[n := ticketed t a]> m in
  linked (decide_ticket t b evs (drawn h)) m' ∧
  dials_of (decide_ticket t b evs (drawn h)) m' =
  <[n := ruled (if (b : bool) then LetIn else Refused) (dial_of h a)]> (dials_of h m).
Proof.
  intros Hl Ha Hnone t m'. pose proof (linked_draw h m n a Hl Ha Hnone) as Hl'. fold t m' in Hl'.
  split; [apply linked_decide; [done|cbn; lia]|].
  rewrite (dials_decide _ _ n (ticketed t a)); [|done|apply lookup_insert_eq|done].
  unfold m', t. rewrite (dials_draw h m n a Hl Ha). by rewrite insert_insert_eq.
Qed.
(** Answering the ticket of one attempt. *)
Lemma ruling_answer (h : hk_state) t (b : bool) w salt u :
  is_Some (waiting h !! t) →
  ruling_of (resolve_ticket t b w salt h) (Some u) =
  if decide (u = t) then if b then LetIn else Refused else ruling_of h (Some u).
Proof.
  intros [wt Hw]. unfold resolve_ticket. rewrite Hw. destruct b; [|apply ruling_decide].
  destruct (learn _ _ _ _ _ _ _) as [r file']. by rewrite ruling_decide.
Qed.

Lemma dials_answer (h : hk_state) m n a t (b : bool) w salt :
  (∀ n' a', m !! n' = Some a' → at_ticket a' = Some t → n' = n) →
  m !! n = Some a → at_ticket a = Some t → is_Some (waiting h !! t) →
  dials_of (resolve_ticket t b w salt h) m =
  <[n := ruled (if b then LetIn else Refused) (dial_of h a)]> (dials_of h m).
Proof.
  intros Hone Ha Ht Hw. apply dials_change; [done|by rewrite Ht, ruling_answer, decide_True|].
  intros n' a' Hne Ha'. destruct (at_ticket a') as [u|] eqn:Hu; [|done].
  rewrite ruling_answer, decide_False; [done| |done]. intros ->. by eapply Hne, Hone.
Qed.

Lemma ruling_asked (h : hk_state) ticket key :
  ruling_of h ticket = Asked key →
  ∃ t w, ticket = Some t ∧ decided h !! t = None ∧ waiting h !! t = Some w ∧ key = i_key (w_info w).
Proof.
  unfold ruling_of. destruct ticket as [t|]; [|done]. destruct (decided h !! t) as [[]|] eqn:Hd; [done..|].
  destruct (waiting h !! t) as [w|] eqn:Hw; [|done]. intros [= <-]. by exists t, w.
Qed.

(** The question that was up in the tab is answered with no. *)
Definition settled_tab (sid : str) (h : hk_state) : hk_state :=
  match pending h !! sid with Some old => resolve_ticket old false DRefuses None h | None => h end.

Lemma dials_settled_tab (h : hk_state) m sid :
  linked h m → dials_of (settled_tab sid h) m = refuse_asked sid <$> dials_of h m.
Proof.
  intros Hl. unfold dials_of. rewrite <- map_fmap_compose. apply map_fmap_ext. intros n a Ha. cbn [compose].
  assert (∀ key, dl_key (dial_of h a) = Asked key →
    ∃ t, at_ticket a = Some t ∧ is_Some (waiting h !! t) ∧ decided h !! t = None ∧
      pending h !! ca_id (at_args a) = Some t) as Hasked.
  { intros key (t & w & Ht & Hd & Hw & _)%ruling_asked. exists t. split_and!; [done|by rewrite Hw|done|].
    by eapply (lk_waits _ _ Hl). }
  assert (∀ h', ruling_of h' (at_ticket a) = ruling_of h (at_ticket a) →
    (∀ key, dl_key (dial_of h a) = Asked key → ca_id (at_args a) ≠ sid) →
    dial_of h' a = refuse_asked sid (dial_of h a)) as Hsame.
  { intros h' Hr Hne. assert (dial_of h' a = dial_of h a) as -> by (unfold dial_of; by rewrite Hr).
    unfold refuse_asked. destruct (dl_key (dial_of h a)) as [|key| |] eqn:Hk; [done| |done..].
    rewrite decide_False; [done|]. by apply (Hne key). }
  unfold settled_tab. destruct (pending h !! sid) as [old|] eqn:Hp.
  2:{ apply Hsame; [done|]. intros key (t & _ & _ & _ & Hpt)%Hasked Heq. congruence. }
  destruct (waiting h !! old) as [w|] eqn:Hw.
  2:{ unfold resolve_ticket. rewrite Hw. apply Hsame; [done|].
      intros key (t & _ & [w Hwt] & _ & Hpt)%Hasked Heq. congruence. }
  destruct (at_ticket a) as [u|] eqn:Hu.
  2:{ apply Hsame; [done|]. intros key (t & Ht & _)%Hasked. done. }
  destruct (decide (u = old)) as [->|Hne].
  - assert (sid = ca_id (at_args a)) as Hsid by (by apply (lk_only _ _ Hl n a old sid w)).
    assert (decided h !! old = None) as Hd.
    { destruct (decided h !! old) as [b|] eqn:Hd; [|done].
      assert (waiting h !! old = None) by (eapply (lk_settled _ _ Hl); [done|done|by rewrite Hd]). congruence. }
    unfold refuse_asked, dial_of. rewrite Hu, ruling_answer, decide_True by (done || by rewrite Hw).
    cbn [dl_key dl_tab]. unfold ruling_of. by rewrite Hd, Hw, decide_True.
  - apply Hsame; [by rewrite ruling_answer, decide_False by (done || by rewrite Hw)|].
    intros key (t & [= <-] & _ & _ & Hpt)%Hasked Heq. congruence.
Qed.

Lemma linked_settled_tab (h : hk_state) m sid : linked h m → linked (settled_tab sid h) m.
Proof. intros Hl. unfold settled_tab. destruct (pending h !! sid); [by apply linked_answer|done]. Qed.

Lemma settled_tab_quiet (h : hk_state) sid u :
  pending (settled_tab sid h) !! sid = Some u → waiting (settled_tab sid h) !! u = None.
Proof.
  unfold settled_tab. destruct (pending h !! sid) as [old|] eqn:Hp; [|by rewrite Hp].
  rewrite resolve_ticket_pending, Hp. intros [= <-]. unfold resolve_ticket.
  destruct (waiting h !! old) eqn:Hw; [|done]. cbn. apply lookup_delete_eq.
Qed.

(** A new question, in a tab where none is up. *)
Definition ask (sid : str) (t : nat) (w : waiter) (evs : list hk_event) (h : hk_state) : hk_state :=
  HK _ (hk_file h) (<[sid := t]> (pending h)) (<[t := w]> (waiting h)) (next_ticket h)
    (hk_events h ++ evs) (decided h).

Lemma linked_ask (h : hk_state) m n a t key hash evs :
  let sid := ca_id (at_args a) in
  let info := info_of (s_host (ca_cfg (at_args a))) (s_port (ca_cfg (at_args a))) key in
  linked h m → m !! n = Some a → at_ticket a = Some t → decided h !! t = None →
  (∀ s, pending h !! s ≠ Some t) → (∀ u, pending h !! sid = Some u → waiting h !! u = None) →
  linked (ask sid t (MkWaiter _ info hash) evs h) m.
Proof.
  intros sid info Hl Ha Ht Hd Hfree Hquiet.
  assert (∀ n' a' u, m !! n' = Some a' → at_ticket a' = Some u → u = t → a' = a) as Huniq.
  { intros n' a' u Hm Hu ->. assert (n' = n) as -> by (by eapply (lk_one _ _ Hl)). congruence. }
  split; cbn [ask pending waiting next_ticket decided]; try apply Hl.
  - intros n' a' u Hm Hu Hdu. rewrite lookup_insert_ne; [by eapply (lk_settled _ _ Hl)|].
    intros <-. rewrite Hd in Hdu. by destruct Hdu.
  - intros n' a' u w Hm Hu [[<- <-]|[Hne Hw]]%lookup_insert_Some.
    + rewrite (Huniq _ _ _ Hm Hu eq_refl). split; [by exists key|apply lookup_insert_eq].
    + destruct (lk_waits _ _ Hl _ _ _ _ Hm Hu Hw) as [? Hp]. split; [done|].
      rewrite lookup_insert_ne; [done|]. intros Heq. fold sid in Heq. rewrite <- Heq in Hp.
      apply Hquiet in Hp. congruence.
  - intros n' a' u s w Hm Hu [[<- <-]|[Hne Hw]]%lookup_insert_Some [[<- Hs]|[Hns Hs]]%lookup_insert_Some.
    + by rewrite (Huniq _ _ _ Hm Hu eq_refl).
    + by destruct (Hfree s).
    + by destruct Hne.
    + by eapply (lk_only _ _ Hl).
  - intros u w [[<- _]|[_ Hw]]%lookup_insert_Some; [by exists n, a|by eapply (lk_owned _ _ Hl)].
  - intros s u [[_ <-]|[_ Hs]]%lookup_insert_Some; [by eapply (lk_drawn _ _ Hl)|by eapply (lk_pending _ _ Hl)].
Qed.

Lemma dials_ask (h : hk_state) m n a t w sid evs :
  linked h m → m !! n = Some a → at_ticket a = Some t → decided h !! t = None →
  dials_of (ask sid t w evs h) m = <[n := ruled (Asked (i_key (w_info w))) (dial_of h a)]> (dials_of h m).
Proof.
  intros Hl Ha Ht Hd. apply dials_change; [done| |].
  - rewrite Ht. unfold ruling_of. cbn [ask decided waiting]. by rewrite Hd, lookup_insert_eq.
  - intros n' a' Hne Ha'. destruct (at_ticket a') as [u|] eqn:Hu; [|done].
    unfold ruling_of. cbn [ask decided waiting]. rewrite lookup_insert_ne; [done|].
    intros <-. apply Hne. by eapply (lk_one _ _ Hl).
Qed.
(** * The user answers, a connect ends *)

Definition forget (id : str) (h : hk_state) : hk_state :=
  HK _ (hk_file h) (delete id (pending h)) (waiting h) (next_ticket h) (hk_events h) (decided h).

Lemma linked_retire (h h' : hk_state) m id t :
  linked h m → pending h !! id = Some t → pending h' = delete id (pending h) →
  waiting h' = delete t (waiting h) → next_ticket h' = next_ticket h →
  (decided h' = decided h ∨ ∃ b, decided h' = <[t := b]> (decided h)) → linked h' m.
Proof.
  intros Hl Hid Hp Hw Hn Hd.
  assert (∀ u, is_Some (decided h' !! u) → u ≠ t → is_Some (decided h !! u)) as Hdec.
  { intros u Hu Hne. destruct Hd as [Hd|[b Hd]]; rewrite Hd in Hu; [done|]. by rewrite lookup_insert_ne in Hu. }
  split; rewrite ?Hp, ?Hw, ?Hn.
  - apply Hl.
  - apply Hl.
  - intros n a u Ha Hu Hdu. destruct (decide (u = t)) as [->|Hne]; [apply lookup_delete_eq|].
    rewrite lookup_delete_ne by done. eapply (lk_settled _ _ Hl); eauto.
  - intros n a u w Ha Hu [Hne Hwu]%lookup_delete_Some.
    destruct (lk_waits _ _ Hl _ _ _ _ Ha Hu Hwu) as [? Hpu]. split; [done|].
    rewrite lookup_delete_ne; [done|]. intros Heq. rewrite <- Heq in Hpu. congruence.
  - intros n a u sid w Ha Hu [_ Hwu]%lookup_delete_Some [_ Hs]%lookup_delete_Some. by eapply (lk_only _ _ Hl).
  - intros u w [_ Hwu]%lookup_delete_Some. by eapply (lk_owned _ _ Hl).
  - intros u Hdu. destruct (decide (u = t)) as [->|Hne]; [by eapply (lk_pending _ _ Hl)|].
    by eapply (lk_decided _ _ Hl), Hdec.
  - intros sid u [_ Hs]%lookup_delete_Some. by eapply (lk_pending _ _ Hl).
Qed.

Lemma linked_approve (h : hk_state) m id accept w salt :
  linked h m → linked (approve_host_key id accept w salt h).2 m.
Proof.
  intros Hl. unfold approve_host_key. destruct (pending h !! id) as [t|] eqn:Hp; [|done]. cbn [snd].
  apply (linked_retire h _ m id t); [done|done|by rewrite resolve_ticket_pending|..];
    unfold resolve_ticket; cbn [waiting]; destruct (waiting h !! t) eqn:Hw; try (destruct accept);
    try (destruct (learn _ _ _ _ _ _ _)); cbn; try done; try (by rewrite delete_id); eauto.
Qed.

Lemma linked_hang_up (h : hk_state) m n a :
  linked h m → m !! n = Some a → at_ticket a = None → linked h (delete n m).
Proof.
  intros Hl Ha Hnone. split; try apply Hl.
  - intros n' a' t [_ Hm]%lookup_delete_Some. by eapply (lk_drawn _ _ Hl).
  - intros n1 n2 a1 a2 t [_ Hm1]%lookup_delete_Some [_ Hm2]%lookup_delete_Some. by eapply (lk_one _ _ Hl).
  - intros n' a' t [_ Hm]%lookup_delete_Some. by eapply (lk_settled _ _ Hl).
  - intros n' a' t w [_ Hm]%lookup_delete_Some. by eapply (lk_waits _ _ Hl).
  - intros n' a' t sid w [_ Hm]%lookup_delete_Some. by eapply (lk_only _ _ Hl).
  - intros t w Hw. destruct (lk_owned _ _ Hl _ _ Hw) as (n' & a' & Hm & Ht). exists n', a'.
    rewrite lookup_delete_ne; [done|congruence].
Qed.

Lemma linked_abandon (h : hk_state) m n a t :
  linked h m → m !! n = Some a → at_ticket a = Some t → linked (abandon t h) (delete n m).
Proof.
  intros Hl Ha Ht. split; cbn [abandon pending waiting next_ticket decided].
  - intros n' a' u [_ Hm]%lookup_delete_Some. by eapply (lk_drawn _ _ Hl).
  - intros n1 n2 a1 a2 u [_ Hm1]%lookup_delete_Some [_ Hm2]%lookup_delete_Some. by eapply (lk_one _ _ Hl).
  - intros n' a' u [_ Hm]%lookup_delete_Some Hu Hd. apply lookup_delete_None. right.
    by eapply (lk_settled _ _ Hl).
  - intros n' a' u w [_ Hm]%lookup_delete_Some Hu [_ Hw]%lookup_delete_Some. by eapply (lk_waits _ _ Hl).
  - intros n' a' u sid w [_ Hm]%lookup_delete_Some Hu [_ Hw]%lookup_delete_Some. by eapply (lk_only _ _ Hl).
  - intros u w [Hne Hw]%lookup_delete_Some. destruct (lk_owned _ _ Hl _ _ Hw) as (n' & a' & Hm & Hu).
    exists n', a'. rewrite lookup_delete_ne; [done|congruence].
  - apply Hl.
  - apply Hl.
Qed.

Lemma dials_abandon (h : hk_state) m n a t :
  linked h m → m !! n = Some a → at_ticket a = Some t →
  dials_of (abandon t h) (delete n m) = delete n (dials_of h m).
Proof.
  intros Hl Ha Ht. unfold dials_of. rewrite fmap_delete. apply map_eq. intros n'.
  destruct (decide (n' = n)) as [->|Hne]; [by rewrite !lookup_delete_eq|].
  rewrite !lookup_delete_ne, !lookup_fmap by done. destruct (m !! n') as [a'|] eqn:Ha'; [|done]. simpl.
  unfold dial_of. f_equal. f_equal. destruct (at_ticket a') as [u|] eqn:Hu; [|done].
  unfold ruling_of. cbn [abandon decided waiting]. rewrite lookup_delete_ne; [done|].
  intros <-. apply Hne. by eapply (lk_one _ _ Hl).
Qed.
End tickets.

(** * Reading a state *)

Definition notice_of (e : SessionEvent) : notice :=
  match e with
  | SeHostKeyPrompt _ host port alg fp => NAsk host port alg fp
  | SeHostKeyChanged host port alg recorded presented _ _ => NChanged host port alg recorded presented
  | SeHostKeyRevoked host port _ _ => NRevoked host port
  | SeConnected => NConnected
  | SeReconnecting attempt _ _ => NRetrying attempt
  | SeDisconnected _ => NLost
  | SeExited code => NLeft code
  | SeError _ => NTrouble
  | SeWarning _ => NCaution
  end.

Definition condition_of {E} (p : phase E) : condition :=
  match p with
  | Pumping => Up
  | Sleeping k _ _ => Waiting k
  | Attempting k _ => Trying k
  | Ended => Over
  end.

Definition line_of {T} (sv : supervised T) : line :=
  let args := at_args (sv_via sv) in
  MkLine (s_host (ca_cfg args)) (s_port (ca_cfg args)) (ca_insecure args) (terms_of (sv_plan sv))
    (condition_of (ph (sv_sup sv))).

Section desk.
Context `{!Keyring, !Engine, !SerdeJson bool, !SerdeJson Z, !SshKeys, !SshKeysLaws, !Transport, !ShellTransport}.
Context (kh_path : str) (show_store_error : StoreError → str) (show_kh_error : KnownHostsError → str).

(** The saved hosts of a store. *)
Definition directory (s : Store) (id : HostId) : option Host := mjoin (ok (get_host id s).1).

(** They are those of the collection the store implements. *)
Lemma directory_view s id : store_ok s → directory s id = c_hosts (view (db s)) !! id.
Proof.
  intros Hs. destruct (get_host_promise s Hs id) as [[Hr _] _]. unfold directory.
  change ((get_host id s).1 = Ok (c_hosts (view (db s)) !! id)) in Hr. by rewrite Hr.
Qed.

Definition desk_of (y : System) : desk :=
  MkDesk (book_of (hk_file (y_hk y))) (directory (y_store y)) (dials_of (y_hk y) (y_attempts y))
    (line_of <$> y_sups y) (dom (y_up y)) (dom (sessions (y_app y))) (y_closed y)
    (prod_map id notice_of <$> y_events y).

Abbreviation hk_do := (hk_do kh_path show_kh_error) (only parsing).
Abbreviation sys_step := (sys_step kh_path show_store_error show_kh_error) (only parsing).

Record sys_linked (y : System) : Prop := {
  sl_linked : linked (y_hk y) (y_attempts y);
  sl_next (n : nat) : is_Some (y_attempts y !! n) → n < y_next y
}.

Lemma sys_linked_same y y' :
  sys_linked y → y_hk y' = y_hk y → y_attempts y' = y_attempts y → y_next y' = y_next y → sys_linked y'.
Proof. intros [] Hh Ha Hn. split; by rewrite ?Hh, ?Ha, ?Hn. Qed.

Lemma sl_fresh y : sys_linked y → y_attempts y !! y_next y = None.
Proof.
  intros Hy. destruct (y_attempts y !! y_next y) eqn:Ha; [|done].
  assert (y_next y < y_next y) by (apply (sl_next _ Hy); by rewrite Ha). lia.
Qed.

Lemma told_app (es : list (str * SessionEvent)) tab evs :
  prod_map id notice_of <$> es ++ (pair tab <$> evs) =
  (prod_map id notice_of <$> es) ++ (pair tab <$> (notice_of <$> evs)).
Proof. rewrite fmap_app. f_equal. rewrite <- !list_fmap_compose. done. Qed.

Lemma desk_send tab evs y : desk_of (send tab evs y) = tell tab (notice_of <$> evs) (desk_of y).
Proof. unfold desk_of, tell. cbn [send y_hk y_store y_attempts y_sups y_up y_app y_closed y_events k_book
  k_hosts k_dials k_lines k_rising k_tabs k_closed k_told]. by rewrite told_app. Qed.

Lemma desk_hk tab i y :
  desk_of (hk_do tab i y) =
  tell tab (notice_of ∘ hk_event_dto kh_path show_kh_error <$>
             drop (length (hk_events (y_hk y))) (hk_events (hk_step (y_hk y) i)))
    (with_dials (dials_of (hk_step (y_hk y) i) (y_attempts y))
       (with_book (book_of (hk_file (hk_step (y_hk y) i))) (desk_of y))).
Proof. unfold System.hk_do. rewrite desk_send. by rewrite <- list_fmap_compose. Qed.

Lemma desk_add a y : desk_of (add_attempt a y) = put_dial (y_next y) (dial_of (y_hk y) a) (desk_of y).
Proof.
  unfold desk_of, put_dial, with_dials. cbn. unfold dials_of. by rewrite fmap_insert.
Qed.
(** * Supervisors *)

Definition news {E} (to : sup_event E → SessionEvent) (s s' : sup E (Chan * W)) : list notice :=
  notice_of ∘ to <$> drop (length (emitted s)) (emitted s').

Lemma desk_sup tab i y y' :
  sup_do tab i y = Some y' →
  ∃ sv s, y_sups y !! tab = Some sv ∧
    sup_step (pl_policy (sv_plan sv)) (pl_reconnector (sv_plan sv)) (sv_sup sv) i = Some s ∧
    desk_of y' = tell tab (news sup_event_dto (sv_sup sv) s)
                   (put_line tab (now (condition_of (ph s)) (line_of sv)) (desk_of y)) ∧
    y_hk y' = y_hk y ∧ y_attempts y' = y_attempts y ∧ y_next y' = y_next y.
Proof.
  unfold sup_do. intros (sv & Hsv & (s & Hs & [= <-])%bind_Some)%bind_Some. exists sv, s.
  split_and!; [done|done| |done..]. rewrite desk_send. unfold news. rewrite <- list_fmap_compose. f_equal.
  unfold desk_of, put_line, with_lines. cbn. by rewrite fmap_insert.
Qed.

Lemma sup_linked tab i y y' : sys_linked y → sup_do tab i y = Some y' → sys_linked y'.
Proof. intros Hy (sv & s & _ & _ & _ & Hh & Ha & Hn)%desk_sup. by eapply sys_linked_same. Qed.

Lemma desk_follow tab ln p k r reason (s : sup str (Chan * W)) d :
  tm_tries (ln_terms ln) = (if enabled p then max_attempts p else 0)%Z →
  let s' := follow p (reconnect_or_give_up p k r) reason s in
  tell tab (news sup_event_dto s s') (put_line tab (now (condition_of (ph s')) ln) d) =
  fall tab ln true k d.
Proof.
  intros Ht s'. unfold fall, may_try, s', news, follow, reconnect_or_give_up. rewrite Ht.
  destruct (enabled p); cbn [negb andb]; [|cbn; by rewrite drop_app_length].
  destruct (max_attempts p =? 0)%Z; cbn [negb andb orb]; [cbn; by rewrite drop_app_length|].
  destruct (Z.leb_spec k (max_attempts p)) as [Hle|Hgt].
  - assert ((max_attempts p <? k)%Z = false) as -> by (by apply Z.ltb_ge).
    cbn. by rewrite drop_app_length.
  - assert ((max_attempts p <? k)%Z = true) as -> by (by apply Z.ltb_lt).
    cbn. by rewrite drop_app_length.
Qed.

Lemma put_line_same tab ln d : k_lines d !! tab = Some ln → put_line tab ln d = d.
Proof. intros Hl. destruct d. unfold put_line, with_lines. cbn in *. by rewrite insert_id. Qed.

Lemma desk_line y tab sv : y_sups y !! tab = Some sv → k_lines (desk_of y) !! tab = Some (line_of sv).
Proof. intros Hs. cbn. by rewrite lookup_fmap, Hs. Qed.

(** What wakes a supervisor, other than the end of an attempt. *)
Lemma supervise_follows tab i y y' :
  agrees tab i y → sup_do tab i y = Some y' → desk_step (desk_of y) (desk_of y').
Proof.
  intros Hag (sv & s & Hsv & Hs & -> & _)%desk_sup. pose proof (desk_line y tab sv Hsv) as Hln.
  assert (∀ p, ph (sv_sup sv) = p → ln_now (line_of sv) = condition_of p) as Hph by (by intros p <-).
  revert Hs. unfold sup_step. destruct (ph (sv_sup sv)) as [|k dl reason|k reason|] eqn:Hp.
  - destruct i as [c alive|shut status closed r| | | |]; try done.
    + intros [= <-]. destruct alive.
      * unfold news. cbn [emitted ph condition_of fmap list_fmap]. rewrite drop_ge by done. cbn [fmap list_fmap].
        rewrite tell_nothing, put_line_same; [constructor|]. rewrite Hln. f_equal. unfold line_of, now. by rewrite Hp.
      * unfold news. cbn [go emitted ph condition_of]. rewrite drop_ge by done. cbn [fmap list_fmap].
        rewrite tell_nothing. apply dk_hush; [done|by rewrite (Hph _ eq_refl)].
    + destruct shut.
      * intros [= <-]. unfold news. cbn [go emitted ph condition_of]. rewrite drop_ge by done.
        cbn [fmap list_fmap]. rewrite tell_nothing. apply dk_hush; [done|by rewrite (Hph _ eq_refl)].
      * assert (tab ∉ y_closed y) as Hopen by (cbn in Hag; symmetry in Hag; by apply bool_decide_eq_false in Hag).
        destruct (pump_end status closed) as [code|].
        -- intros [= <-]. unfold news. cbn. rewrite drop_app_length. cbn.
           apply dk_exit; [done|by apply (Hph Pumping)|done].
        -- pose proof (dk_drop (desk_of y) tab (line_of sv) Hln (Hph _ eq_refl) Hopen) as Hdrop. revert Hdrop.
           cbn [line_of ln_terms terms_of tm_redials]. destruct (pl_reconnector (sv_plan sv)).
           ++ intros Hdrop [= <-]. unfold decide_end. by rewrite desk_follow.
           ++ intros Hdrop [= <-]. unfold news. cbn. by rewrite drop_app_length.
    + intros [= <-]. unfold news. cbn [go emitted ph condition_of]. rewrite drop_ge by done. cbn [fmap list_fmap].
      rewrite tell_nothing. apply dk_hush; [done|by rewrite (Hph _ eq_refl)].
  - destruct i as [| | |shut| |]; try done; intros [= <-]; unfold news; cbn [go emitted ph];
      rewrite drop_ge by done; cbn [fmap list_fmap]; rewrite tell_nothing.
    + apply dk_hush; [done|by rewrite (Hph _ eq_refl)].
    + cbn in Hag. destruct shut; cbn [condition_of].
      * apply dk_hush; [done|]. rewrite (Hph _ eq_refl). symmetry in Hag. by apply bool_decide_eq_true in Hag.
      * eapply dk_try; [done|exact (Hph _ eq_refl)|]. symmetry in Hag. by apply bool_decide_eq_false in Hag.
  - by destruct i.
  - by destruct i.
Qed.
(** * Keys *)

Lemma settled_tab_frame sid (h : hk_state) :
  hk_file (settled_tab sid h) = hk_file h ∧ hk_events (settled_tab sid h) = hk_events h ∧
  pending (settled_tab sid h) = pending h ∧ next_ticket (settled_tab sid h) = next_ticket h.
Proof.
  unfold settled_tab. destruct (pending h !! sid) as [old|]; [|done]. unfold resolve_ticket.
  destruct (waiting h !! old); [|done]. cbn. by rewrite app_nil_r.
Qed.

Definition with_ticket (n : nat) (a : attempt) (y : System) : System :=
  set_attempts (<[n := ticketed (next_ticket (y_hk y)) a]> (y_attempts y)) y.

Lemma desk_settled y n a tab i b evs :
  linked (y_hk y) (y_attempts y) → y_attempts y !! n = Some a → at_ticket a = None →
  hk_step (y_hk y) i = decide_ticket (next_ticket (y_hk y)) b evs (drawn (y_hk y)) →
  desk_of (hk_do tab i (with_ticket n a y)) =
  tell tab (notice_of ∘ hk_event_dto kh_path show_kh_error <$> evs)
    (put_dial n (ruled (if (b : bool) then LetIn else Refused) (dial_of (y_hk y) a)) (desk_of y)).
Proof.
  intros Hl Ha Ht Hi. rewrite desk_hk. cbn [with_ticket set_attempts y_hk y_attempts]. rewrite Hi.
  cbn [decide_ticket drawn hk_events hk_file]. rewrite drop_app_length. f_equal.
  destruct (present_settled _ _ _ _ b evs Hl Ha Ht) as [_ Hd]. cbn [decide_ticket drawn] in Hd. by rewrite Hd.
Qed.

Lemma desk_asked y n a key hash i :
  let args := at_args a in
  let info := info_of (s_host (ca_cfg args)) (s_port (ca_cfg args)) key in
  linked (y_hk y) (y_attempts y) → y_attempts y !! n = Some a → at_ticket a = None →
  hk_step (y_hk y) i = prompt (ca_id args) hash info (next_ticket (y_hk y)) (drawn (y_hk y)) →
  linked (hk_step (y_hk y) i) (<[n := ticketed (next_ticket (y_hk y)) a]> (y_attempts y)) ∧
  desk_of (hk_do (ca_id args) i (with_ticket n a y)) =
  tell (ca_id args) [NAsk (s_host (ca_cfg args)) (s_port (ca_cfg args)) (algorithm key) (fingerprint key)]
    (put_dial n (ruled (Asked key) (dial_of (y_hk y) a))
       (with_dials (refuse_asked (ca_id args) <$> k_dials (desk_of y)) (desk_of y))).
Proof.
  intros args info Hl Ha Ht Hi. set (t := next_ticket (y_hk y)) in *. set (h := drawn (y_hk y)).
  set (m := <[n := ticketed t a]> (y_attempts y)). set (sid := ca_id args) in *.
  set (evs := [HostKeyPrompt sid (s_host (ca_cfg args)) (s_port (ca_cfg args)) (algorithm key) (fingerprint key)]).
  assert (hk_step (y_hk y) i = ask sid t (MkWaiter _ info hash) evs (settled_tab sid h)) as Hask by done.
  pose proof (linked_draw _ _ _ _ Hl Ha Ht : linked h m) as Hlh.
  pose proof (linked_settled_tab h m sid Hlh) as Hls.
  destruct (settled_tab_frame sid h) as (Hfile & Hevs & Hpend & Hnext).
  assert (decided (y_hk y) !! t = None) as Hdt.
  { destruct (decided (y_hk y) !! t) eqn:Hd; [|done].
    assert (t < next_ticket (y_hk y)) by (apply (lk_decided _ _ Hl); by rewrite Hd). unfold t in *. lia. }
  assert (∀ s, pending h !! s ≠ Some t) as Hfree.
  { intros s Hs. pose proof (lk_pending _ _ Hl s t Hs). unfold t in *. lia. }
  assert (decided (settled_tab sid h) !! t = None) as Hds.
  { unfold settled_tab. destruct (pending h !! sid) as [old|] eqn:Hold; [|done]. unfold resolve_ticket.
    destruct (waiting h !! old); [|done]. cbn. rewrite lookup_insert_ne; [done|]. intros ->. by apply (Hfree sid). }
  assert (m !! n = Some (ticketed t a)) as Hm by apply lookup_insert_eq.
  rewrite Hask. split.
  { apply (linked_ask _ _ n (ticketed t a)); [done..|by rewrite Hpend|]. intros u. apply settled_tab_quiet. }
  rewrite desk_hk. cbn [with_ticket set_attempts y_hk y_attempts]. fold t m. rewrite Hask.
  cbn [ask hk_events hk_file]. rewrite Hevs, Hfile. cbn [h drawn hk_events hk_file]. rewrite drop_app_length.
  rewrite (dials_ask _ m n (ticketed t a)), dials_settled_tab by done. unfold m, h, t.
  rewrite dials_draw, fmap_insert, insert_insert_eq by done. reflexivity.
Qed.

Lemma present_run insecure sid hash info (h : hk_state) :
  present insecure sid hash info h =
  let t := next_ticket h in
  if insecure then decide_ticket t true [] (drawn h)
  else match verify (hk_file h) (i_host info) (i_port info) (i_key info) with
       | Err e => decide_ticket t false [CouldNotRead e] (drawn h)
       | Ok Trusted => decide_ticket t true [] (drawn h)
       | Ok (VRevoked line) => decide_ticket t false [HostKeyRevoked (i_host info) (i_port info) line] (drawn h)
       | Ok (Changed line alg recorded) =>
           decide_ticket t false
             [HostKeyChanged (i_host info) (i_port info) alg recorded (i_fingerprint info) line] (drawn h)
       | Ok Unknown => prompt sid hash info t (drawn h)
       end.
Proof. done. Qed.

Lemma key_follows n key y y' :
  sys_linked y → key_presented kh_path show_kh_error n key y = Some y' →
  sys_linked y' ∧ desk_step (desk_of y) (desk_of y').
Proof.
  intros [Hl Hn]. unfold key_presented. destruct (y_attempts y !! n) as [a|] eqn:Ha; [|done]. cbn [mbind option_bind].
  destruct (at_ticket a) as [|] eqn:Ht; [done|]. set (args := at_args a).
  set (info := info_of (s_host (ca_cfg args)) (s_port (ca_cfg args)) key).
  set (i := Present (ca_insecure args) (ca_id args) (ca_hash_new args) info). intros [= <-].
  change (set_attempts _ y) with (with_ticket n a y). set (t := next_ticket (y_hk y)).
  assert (∀ h', linked h' (<[n := ticketed t a]> (y_attempts y)) → hk_step (y_hk y) i = h' →
    sys_linked (hk_do (ca_id args) i (with_ticket n a y))) as Hlink.
  { intros h' Hl' <-. split; [done|]. cbn. intros n' [x [[<- _]|[_ Hx]]%lookup_insert_Some]; apply Hn;
      [by rewrite Ha|by rewrite Hx]. }
  assert (∀ b evs ns, hk_step (y_hk y) i = decide_ticket t b evs (drawn (y_hk y)) →
    notice_of ∘ hk_event_dto kh_path show_kh_error <$> evs = ns →
    show_key n (dial_of (y_hk y) a) key (desk_of y) =
      tell (ca_id args) ns (put_dial n (ruled (if (b : bool) then LetIn else Refused) (dial_of (y_hk y) a)) (desk_of y)) →
    sys_linked (hk_do (ca_id args) i (with_ticket n a y)) ∧
    desk_step (desk_of y) (desk_of (hk_do (ca_id args) i (with_ticket n a y)))) as Hsettled.
  { intros b evs ns Hi <- Hshow. split; [eapply Hlink; [|exact Hi]; by apply present_settled|].
    rewrite (desk_settled y n a _ i b evs), <- Hshow by done. apply dk_key; [|cbn; by rewrite Ht].
    cbn. unfold dials_of. by rewrite lookup_fmap, Ha. }
  assert (ca_insecure args = dl_skip (dial_of (y_hk y) a)) as Hskip by done.
  destruct (ca_insecure args) eqn:Hins.
  { apply (Hsettled true [] []); [done|done|].
    unfold show_key. by rewrite <- Hskip. }
  assert (∀ d, d = desk_of y → k_book d = book_of (hk_file (y_hk y))) as Hbook by (by intros d ->).
  destruct (read (hk_file (y_hk y))) as [text|e] eqn:Hread.
  2:{ destruct (book_of_None _ e Hread) as [Hb ->].
      pose proof (verify_unread (s_host (ca_cfg args)) (s_port (ca_cfg args)) key _ _ Hread) as Hv.
      apply (Hsettled false [CouldNotRead Io] [NTrouble]);
        [cbn [i hk_step]; rewrite present_run; cbn [info info_of i_host i_port i_key]; by rewrite Hv|done|].
      unfold show_key. by rewrite <- Hskip, (Hbook _ eq_refl), Hb. }
  pose proof (book_of_read _ text Hread) as Hb.
  destruct (verify_judges (s_host (ca_cfg args)) (s_port (ca_cfg args)) key _ text Hread) as (v & Hv & Hj).
  assert (hk_step (y_hk y) i = present false (ca_id args) (ca_hash_new args) info (y_hk y)) as Hi by done.
  rewrite present_run in Hi. cbn [info info_of i_host i_port i_key i_fingerprint] in Hi. rewrite Hv in Hi.
  assert (show_key n (dial_of (y_hk y) a) key (desk_of y) = show_judged n (dial_of (y_hk y) a) key (judgement_of v) (desk_of y))
    as Hshow by (rewrite Hj; unfold show_key; by rewrite <- Hskip, (Hbook _ eq_refl), Hb).
  destruct v as [| |line alg recorded|line]; cbn [judgement_of show_judged] in Hshow.
  - by apply (Hsettled true [] []).
  - destruct (desk_asked y n a key (ca_hash_new args) i Hl Ha Ht Hi) as [Hl' Hd].
    split; [by eapply Hlink|].
    assert (desk_of (hk_do (ca_id args) i (with_ticket n a y)) =
      show_key n (dial_of (y_hk y) a) key (desk_of y)) as -> by (rewrite Hshow; exact Hd).
    apply dk_key; [|cbn; by rewrite Ht]. cbn. unfold dials_of. by rewrite lookup_fmap, Ha.
  - by eapply (Hsettled false).
  - by eapply (Hsettled false).
Qed.
(** * Answers *)

Lemma learn_taken_down d salt host port key hash file r file' :
  learn d salt host port key hash file = (r, file') →
  taken_down host port key (is_ok r) (book_of file) (book_of file').
Proof.
  intros Hl. unfold taken_down. destruct (plain_name (match_target host port)) eqn:Hplain; [|done].
  pose proof (learn_kept d salt host port key hash file Hplain) as Hk.
  cbn [run_trust trust_spec] in Hk. rewrite Hl in Hk. cbn [fst snd] in Hk. unfold failed, added in Hk.
  destruct (openssh_key_part key) as [part|e]; [|destruct Hk as [-> ->]; by left].
  destruct (book_of file) as [es|]; [|destruct Hk as [-> ->]; by left].
  destruct d as [| |n whole].
  - destruct Hk as (-> & e & Hb & He). by exists es, e.
  - destruct Hk as [-> ->]. by left.
  - destruct Hk as (-> & [->|[->|(e & Hb & He)]]); [right; by left|by left|]. right. right. by exists es, e.
Qed.

Lemma approve_follows id accept d salt y :
  sys_linked y →
  let y' := hk_do id (Approve id accept d salt) y in
  sys_linked y' ∧ desk_step (desk_of y) (desk_of y').
Proof.
  intros [Hl Hn] y'. split; [split; [by apply linked_approve|done]|]. unfold y'. rewrite desk_hk.
  cbn [hk_step]. unfold approve_host_key. destruct (pending (y_hk y) !! id) as [t|] eqn:Hp; cbn [snd].
  2:{ rewrite drop_ge by done. cbn [fmap list_fmap]. rewrite tell_nothing. exact (dk_stay (desk_of y)). }
  fold (forget id (y_hk y)). destruct (waiting (y_hk y) !! t) as [w|] eqn:Hw.
  2:{ assert (resolve_ticket t accept d salt (forget id (y_hk y)) = forget id (y_hk y)) as ->
        by (unfold resolve_ticket; cbn [forget waiting]; by rewrite Hw).
      cbn [forget hk_events hk_file]. rewrite drop_ge by done. cbn [fmap list_fmap].
      fold (forget id (y_hk y)). rewrite (dials_same (y_hk y)) by done.
      rewrite tell_nothing. exact (dk_stay (desk_of y)). }
  destruct (lk_owned _ _ Hl _ _ Hw) as (n & a & Ha & Ht).
  destruct (lk_waits _ _ Hl _ _ _ _ Ha Ht Hw) as [[key Hkey] _].
  pose proof (lk_only _ _ Hl _ _ _ _ _ Ha Ht Hw Hp) as Hid.
  assert (decided (y_hk y) !! t = None) as Hd.
  { destruct (decided (y_hk y) !! t) eqn:Hd; [|done]. rewrite (lk_settled _ _ Hl _ _ _ Ha Ht) in Hw; [done|].
    by rewrite Hd. }
  assert (k_dials (desk_of y) !! n = Some (dial_of (y_hk y) a)) as Hdial
    by (cbn; unfold dials_of; by rewrite lookup_fmap, Ha).
  assert (dl_key (dial_of (y_hk y) a) = Asked key) as Hasked.
  { cbn. rewrite Ht. unfold ruling_of. by rewrite Hd, Hw, Hkey. }
  rewrite (dials_answer _ _ n a) by (first [done|by rewrite Hw|intros n' a' ??; by eapply (lk_one _ _ Hl)]).
  change (dial_of (forget id (y_hk y)) a) with (dial_of (y_hk y) a).
  change (dials_of (forget id (y_hk y)) (y_attempts y)) with (k_dials (desk_of y)).
  unfold resolve_ticket. cbn [forget waiting hk_file]. rewrite Hw.
  destruct accept.
  - rewrite Hkey. cbn [info_of i_host i_port i_key].
    destruct (learn _ _ _ _ _ _ _) as [r file'] eqn:Hlearn. apply learn_taken_down in Hlearn.
    pose proof (dk_yes (desk_of y) n _ key (is_ok r) (book_of file') Hdial Hasked Hlearn) as Hyes.
    cbn [decide_ticket hk_events hk_file]. rewrite drop_app_length. rewrite Hid.
    destruct r as [[]|e]; exact Hyes.
  - cbn [decide_ticket hk_events hk_file]. rewrite app_nil_r, drop_ge by done. cbn [fmap list_fmap].
    rewrite tell_nothing. exact (dk_no (desk_of y) n _ key Hdial Hasked).
Qed.
(** * Connects that end *)

Lemma end_attempt_frame n a y :
  y_sups (end_attempt kh_path show_kh_error n a y) = y_sups y ∧
  y_up (end_attempt kh_path show_kh_error n a y) = y_up y ∧
  y_next (end_attempt kh_path show_kh_error n a y) = y_next y.
Proof. unfold end_attempt. by destruct (at_ticket a). Qed.

Lemma desk_end n a y :
  sys_linked y → y_attempts y !! n = Some a →
  sys_linked (end_attempt kh_path show_kh_error n a y) ∧
  desk_of (end_attempt kh_path show_kh_error n a y) = hang_up n (desk_of y).
Proof.
  intros [Hl Hn] Ha.
  assert (∀ n', is_Some (delete n (y_attempts y) !! n') → n' < y_next y) as Hn'.
  { intros n' [x [_ Hx]%lookup_delete_Some]. apply Hn. by rewrite Hx. }
  unfold end_attempt. destruct (at_ticket a) as [t|] eqn:Ht.
  - split; [split; [|done]; by eapply linked_abandon|]. rewrite desk_hk.
    cbn [set_attempts y_hk y_attempts hk_step abandon hk_events hk_file]. rewrite drop_ge by done.
    cbn [fmap list_fmap]. rewrite tell_nothing. fold (abandon t (y_hk y)).
    by rewrite (dials_abandon _ _ n a) by done.
  - split; [split; [|done]; by eapply linked_hang_up|].
    unfold desk_of, hang_up, with_dials. cbn. unfold dials_of. by rewrite fmap_delete.
Qed.

Lemma desk_swap tab a y :
  desk_of (swap_transport tab a y) = with_lines (line_of <$> alter (swap_via a) tab (y_sups y)) (desk_of y).
Proof.
  unfold desk_of, swap_transport, with_lines. cbn. rewrite dom_alter_L. f_equal.
  unfold on_session. destruct (sessions (y_app y) !! tab) as [live|] eqn:Hs; [|done]. cbn.
  by rewrite dom_insert_lookup_L by (by rewrite Hs).
Qed.

Lemma reconnected_follows n a t y y' :
  sys_linked y → y_attempts y !! n = Some a → at_purpose a = ForReconnect →
  ruling_of (y_hk y) (at_ticket a) = LetIn →
  let tab := ca_id (at_args a) in
  sup_do tab (AttemptOk t) (swap_transport tab a (end_attempt kh_path show_kh_error n a y)) = Some y' →
  desk_step (desk_of y) (desk_of y').
Proof.
  intros Hy Ha Hp Hr tab Hs. destruct (desk_end n a y Hy Ha) as [_ Hd].
  destruct (end_attempt_frame n a y) as [Hsups _].
  apply desk_sup in Hs as (sv' & s & Hsv' & Hs & -> & _).
  cbn [swap_transport set_app set_up set_sups y_sups] in Hsv'. rewrite Hsups, lookup_alter_eq in Hsv'.
  destruct (y_sups y !! tab) as [sv|] eqn:Hsv; [|done]. injection Hsv' as <-.
  revert Hs. unfold sup_step. cbn [swap_via sv_sup sv_plan].
  destruct (ph (sv_sup sv)) as [| |k reason|] eqn:Hph; [done..| |done]. intros [= <-].
  pose proof (dk_reconnect (desk_of y) n (dial_of (y_hk y) a) (line_of sv) k) as Hstep.
  unfold news. cbn [emitted ph condition_of]. rewrite drop_app_length. cbn [fmap list_fmap].
  rewrite desk_swap, Hd, Hsups.
  assert (put_line tab (now Up (line_of (swap_via a sv)))
      (with_lines (line_of <$> alter (swap_via a) tab (y_sups y)) (hang_up n (desk_of y))) =
    put_line tab (moved (dial_of (y_hk y) a) (line_of sv)) (hang_up n (desk_of y))) as ->.
  { unfold put_line, with_lines. cbn. f_equal. apply map_eq. intros j.
    destruct (decide (j = tab)) as [->|Hne]; [by rewrite !lookup_insert_eq|].
    by rewrite !lookup_insert_ne, !lookup_fmap, lookup_alter_ne by done. }
  apply Hstep; [cbn; unfold dials_of; by rewrite lookup_fmap, Ha|unfold is_redial; cbn; by rewrite Hp|done
    |by apply desk_line|]. cbn. by rewrite Hph.
Qed.

Lemma failed_follows n a e rnd y y' :
  sys_linked y → y_attempts y !! n = Some a → at_purpose a = ForReconnect →
  let tab := ca_id (at_args a) in
  sup_do tab (AttemptFailed (re_retryable e) (re_message e) rnd) (end_attempt kh_path show_kh_error n a y) = Some y' →
  desk_step (desk_of y) (desk_of y').
Proof.
  intros Hy Ha Hp tab Hs. destruct (desk_end n a y Hy Ha) as [_ Hd].
  destruct (end_attempt_frame n a y) as [Hsups _].
  apply desk_sup in Hs as (sv & s & Hsv & Hs & -> & _). rewrite Hsups in Hsv. rewrite Hd.
  revert Hs. unfold sup_step. destruct (ph (sv_sup sv)) as [| |k reason|] eqn:Hph; [done..| |done].
  intros [= <-].
  assert (∀ again, desk_step (desk_of y) (fall tab (line_of sv) again (next_try k) (hang_up n (desk_of y)))) as Hfall.
  { intros again. apply (dk_redial_fails (desk_of y) n (dial_of (y_hk y) a) (line_of sv) k again);
      [cbn; unfold dials_of; by rewrite lookup_fmap, Ha|unfold is_redial; cbn; by rewrite Hp|by apply desk_line|].
    cbn. by rewrite Hph. }
  unfold after_failed_attempt. destruct (re_retryable e); cbn [negb].
  - rewrite desk_follow by done. apply Hfall.
  - pose proof (Hfall false) as Hlost. unfold news. cbn. rewrite drop_app_length. exact Hlost.
Qed.

Lemma connect_follows n a polls r now_ at_ rnd y y' :
  sys_linked y → y_attempts y !! n = Some a → handshake_honest a polls y →
  connect (ca_cfg (at_args a)) polls = Some r →
  connect_ended kh_path show_kh_error n r now_ at_ rnd y = Some y' →
  sys_linked y' ∧ desk_step (desk_of y) (desk_of y').
Proof.
  intros Hy Ha Hh Hc. destruct (desk_end n a y Hy Ha) as [Hy1 Hd].
  assert (∀ t, finish_connect (at_args a) r = Ok t → ruling_of (y_hk y) (at_ticket a) = LetIn) as Hlet.
  { intros t Hf. destruct r as [w|e]; [|done]. revert Hc. unfold connect.
    destruct (connect_loop _ _ _) as [[h|]|] eqn:Hloop; [|done..]. intros _.
    apply connect_loop_resolved, Hh in Hloop as (u & -> & Hu). unfold ruling_of. by rewrite Hu. }
  assert (k_dials (desk_of y) !! n = Some (dial_of (y_hk y) a)) as Hdial
    by (cbn; unfold dials_of; by rewrite lookup_fmap, Ha).
  assert (at_purpose a ≠ ForReconnect → desk_step (desk_of y) (desk_of (end_attempt kh_path show_kh_error n a y))) as Hover.
  { intros Hne. rewrite Hd. eapply dk_over; [done|]. unfold is_redial. cbn. by destruct (at_purpose a). }
  unfold connect_ended. rewrite Ha. cbn [mbind option_bind]. destruct (at_purpose a) as [plan req| |] eqn:Hp.
  - destruct (finish_connect _ _) as [t|e] eqn:Hf; intros [= <-]; [|split; [done|by apply Hover]].
    split; [by eapply sys_linked_same|].
    pose proof (dk_connect (desk_of y) n _ (terms_of plan) Hdial) as Hstep. cbn [dial_of dl_aim dl_key] in Hstep.
    rewrite Hp in Hstep. specialize (Hstep eq_refl (Hlet t eq_refl)).
    match type of Hstep with desk_step _ ?d =>
      match goal with |- desk_step _ ?g => assert (g = d) as ->; [|exact Hstep] end end.
    rewrite <- Hd. unfold desk_of, with_rising, put_line, with_lines. cbn.
    destruct (end_attempt_frame n a y) as (_ & Hup & _). by rewrite fmap_insert, dom_insert_L, Hup.
  - intros [= <-]. split; [done|by apply Hover].
  - destruct (finish_connect _ _) as [t|e] eqn:Hf; intros Hs.
    + split; [by eapply sup_linked; [|exact Hs]; eapply sys_linked_same|].
      eapply reconnected_follows; eauto.
    + split; [by eapply sup_linked|]. by eapply failed_follows.
Qed.
(** * Tabs *)

Lemma directory_found id s host : (get_host id s).1 = Ok (Some host) → directory s id = Some host.
Proof. intros Hg. unfold directory. by rewrite Hg. Qed.

Lemma linked_added y a : sys_linked y → at_ticket a = None → sys_linked (add_attempt a y).
Proof.
  intros Hy Ht. pose proof (sl_fresh y Hy) as Hfresh. destruct Hy as [Hl Hn]. split; cbn.
  - by apply linked_new.
  - intros n. rewrite lookup_insert_is_Some'. intros [->|Hs%Hn]; lia.
Qed.

Lemma fresh_dial y : sys_linked y → k_dials (desk_of y) !! y_next y = None.
Proof. intros Hy. cbn. unfold dials_of. by rewrite lookup_fmap, sl_fresh. Qed.

Lemma open_follows req spawned now_ y :
  sys_linked y →
  let y' := (open_begin req spawned now_ y).2 in
  sys_linked y' ∧ desk_step (desk_of y) (desk_of y').
Proof.
  intros Hy y'. unfold y', open_begin. unfold fresh_id. set (tab := session_id _ _).
  set (app := MkApp _ _).
  destruct (resolve_target tab req (y_store y) (y_keyring y)) as [[r evs] k] eqn:Hr.
  set (y1 := send tab evs (set_store (y_store y) k (set_app app y))).
  assert (sys_linked y1) as Hy1 by (by eapply sys_linked_same).
  assert (desk_of y1 = tell tab (notice_of <$> evs) (desk_of y)) as Hd1
    by exact (desk_send tab evs (set_store (y_store y) k (set_app app y))).
  revert Hr. unfold resolve_target, resolve_saved. destruct (req_target req) as [target|target|host_id].
  - intros [= <- <- <-]. split; [by apply linked_added|]. cbn [snd]. rewrite desk_add, Hd1.
    apply (dk_dial _ _ _ _ _ _ (MkTerms None false _)); [exact (fresh_dial y Hy)|constructor|done].
  - intros [= <- <- <-]. rewrite tell_nothing in Hd1. destruct spawned as [[]|e]; cbn [snd].
    + split; [by eapply sys_linked_same|]. pose proof (dk_local (desk_of y) tab) as Hstep.
      match type of Hstep with desk_step _ ?d =>
        match goal with |- desk_step _ ?g => assert (g = d) as ->; [|exact Hstep] end end.
      unfold desk_of, with_rising, y1, set_up. cbn -[tab]. by rewrite dom_insert_L, app_nil_r.
    + split; [done|]. rewrite Hd1. constructor.
  - destruct (get_host host_id (y_store y)).1 as [[host|]|e] eqn:Hg.
    + destruct (auth_for_host host (y_keyring y)) as [resolved k1]. intros [= <- <- <-].
      split; [by apply linked_added|]. cbn [snd]. rewrite desk_add, Hd1.
      apply (dk_dial _ _ _ _ _ _ (MkTerms (Some host_id) _ _)); [exact (fresh_dial y Hy)| |].
      * destruct (degraded resolved); repeat constructor.
      * split; [done|]. exists host. split_and!; [by apply directory_found|done..].
    + intros [= <- <- <-]. cbn [snd]. split; [done|]. rewrite Hd1, tell_nothing. constructor.
    + intros [= <- <- <-]. cbn [snd]. split; [done|]. rewrite Hd1, tell_nothing. constructor.
Qed.

Lemma test_follows req y :
  sys_linked y → sys_linked (test_begin req y) ∧ desk_step (desk_of y) (desk_of (test_begin req y)).
Proof.
  intros Hy. unfold test_begin, fresh_id. set (tab := session_id _ _). set (app := MkApp _ _).
  destruct (test_args tab req _ _) as [args k] eqn:Hargs.
  assert (ca_insecure args = false) as Hins.
  { unfold test_args in Hargs. destruct (test_stored _ _ _). by injection Hargs as <- _. }
  set (y1 := set_store (y_store y) k (set_app app y)).
  assert (sys_linked y1) as Hy1 by (by eapply sys_linked_same).
  split; [by apply linked_added|]. rewrite desk_add. unfold dial_of. cbn [at_args at_purpose at_ticket].
  rewrite Hins. apply (dk_trial (desk_of y)). exact (fresh_dial y Hy).
Qed.

Lemma reconnect_follows id cols rows rnd y y' :
  sys_linked y →
  (∀ n a, y_attempts y !! n = Some a → at_purpose a = ForReconnect → ca_id (at_args a) ≠ id) →
  reconnect_begin show_store_error id cols rows rnd y = Some y' →
  sys_linked y' ∧ desk_step (desk_of y) (desk_of y').
Proof.
  intros Hy Hnone. unfold reconnect_begin. destruct (y_sups y !! id) as [sv|] eqn:Hsv; [|done].
  cbn [mbind option_bind]. destruct (ph (sv_sup sv)) as [| |k reason|] eqn:Hph; try done.
  destruct (pl_host (sv_plan sv)) as [host_id|] eqn:Hhost; [|done].
  assert (ln_now (line_of sv) = Trying k) as Hnow by (cbn; by rewrite Hph).
  assert (∀ e k', re_retryable e = false → directory (y_store y) host_id = None →
    sup_do id (AttemptFailed (re_retryable e) (re_message e) rnd) (set_store (y_store y) k' y) = Some y' →
    sys_linked y' ∧ desk_step (desk_of y) (desk_of y')) as Hgone.
  { intros e k' He Hdir Hs. split; [by eapply sup_linked; [|exact Hs]; eapply sys_linked_same|].
    apply desk_sup in Hs as (sv' & s & Hsv' & Hs & -> & _). cbn in Hsv'. rewrite Hsv in Hsv'.
    injection Hsv' as <-. revert Hs. unfold sup_step. rewrite Hph, He. intros [= <-].
    unfold news. cbn. rewrite drop_app_length. cbn.
    by apply (dk_host_gone (desk_of y) id (line_of sv) k host_id); [apply desk_line| | |]. }
  unfold establish_args. destruct (get_host host_id (y_store y)).1 as [[host|]|e] eqn:Hg.
  - destruct (auth_for_host host (y_keyring y)) as [resolved k']. intros [= <-].
    set (y1 := set_store (y_store y) k' y).
    assert (sys_linked y1) as Hy1 by (by eapply sys_linked_same).
    split; [by apply linked_added|]. rewrite desk_add.
    apply (dk_redial (desk_of y) (y_next y) id (line_of sv) k host_id host);
      [exact (fresh_dial y Hy)|by apply desk_line|done| |done|by apply directory_found].
    intros m dl. cbn. unfold dials_of. rewrite lookup_fmap. intros (a & Ha & ->)%fmap_Some Hre.
    apply (Hnone m); [done|]. unfold is_redial in Hre. cbn in Hre. by destruct (at_purpose a).
  - apply (Hgone (MkReconnectError false _)); [done|]. unfold directory. by rewrite Hg.
  - apply (Hgone (MkReconnectError false _)); [done|]. unfold directory. by rewrite Hg.
Qed.

Lemma register_follows id y y' :
  sys_linked y → register id y = Some y' → sys_linked y' ∧ desk_step (desk_of y) (desk_of y').
Proof.
  intros Hy. unfold register. destruct (y_up y !! id) as [live|] eqn:Hup; [|done]. intros [= <-].
  split; [by eapply sys_linked_same|].
  assert (id ∈ k_rising (desk_of y)) as Hin by (cbn; by apply elem_of_dom_2 in Hup).
  pose proof (dk_show (desk_of y) id Hin) as Hstep.
  match type of Hstep with desk_step _ ?d =>
    match goal with |- desk_step _ ?g => assert (g = d) as ->; [|exact Hstep] end end.
  unfold with_tabs, with_rising, tell, desk_of. cbn. by rewrite dom_delete_L, dom_insert_L, fmap_app.
Qed.

Lemma close_follows id y : sys_linked y → sys_linked (close id y) ∧ desk_step (desk_of y) (desk_of (close id y)).
Proof.
  intros Hy. unfold close, close_session. split; [by eapply sys_linked_same|].
  destruct (sessions (y_app y) !! id) as [live|] eqn:Hs.
  - assert (id ∈ k_tabs (desk_of y)) as Hin by (cbn; by apply elem_of_dom_2 in Hs).
    pose proof (dk_close (desk_of y) id Hin) as Hstep.
    match type of Hstep with desk_step _ ?d =>
      match goal with |- desk_step _ ?g => assert (g = d) as ->; [|exact Hstep] end end.
    unfold with_tabs, with_closed, desk_of. cbn. by rewrite dom_delete_L.
  - assert (desk_of y = desk_of (MkSystem _ _ _ _ (y_store y) (y_keyring y) (y_hk y)
      (MkApp (delete id (sessions (y_app y))) (next_id (y_app y))) (y_attempts y) (y_next y) (y_up y) (y_sups y)
      (y_jobs y) (y_closed y) (y_events y))) as Heq by (unfold desk_of; cbn; by rewrite delete_id).
    rewrite Heq at 1. constructor.
Qed.

(** A command on one session changes nothing the desk shows. *)
Lemma session_follows id f a y :
  sys_linked y → on_session id f (y_app y) = Some a →
  sys_linked (set_app a y) ∧ desk_step (desk_of y) (desk_of (set_app a y)).
Proof.
  intros Hy. unfold on_session. intros (s & Hs & ->)%fmap_Some. split; [by eapply sys_linked_same|].
  match goal with |- desk_step ?d ?g => assert (g = d) as ->; [|constructor] end.
  unfold desk_of. cbn. by rewrite dom_insert_lookup_L by (by rewrite Hs).
Qed.

(** Every step is one of the desk's, or something that happened outside. *)
Lemma step_follows y y' :
  sys_linked y → sys_step y y' →
  sys_linked y' ∧
  (desk_step (desk_of y) (desk_of y') ∨
   (∃ f, y' = set_hk (edit_file f (y_hk y)) y ∧ desk_of y' = with_book (book_of f) (desk_of y)) ∨
   ∃ f, desk_of y' = with_hosts f (desk_of y)).
Proof.
  intros Hy Hstep.
  assert (∀ (y2 : System), sys_linked y2 ∧ desk_step (desk_of y) (desk_of y2) →
    sys_linked y2 ∧ (desk_step (desk_of y) (desk_of y2) ∨
      (∃ f, y2 = set_hk (edit_file f (y_hk y)) y ∧ desk_of y2 = with_book (book_of f) (desk_of y)) ∨
      ∃ f, desk_of y2 = with_hosts f (desk_of y))) as Hown by (intros y2 [? ?]; auto).
  destruct Hstep as
    [req spawned now_|req|id cols rows rnd y' Hn _ Hs|n key y' Hs|n a polls r now_ at_ rnd y' Ha Hh Hc Hs
    |id y' Hs|id i y' Hag Hs|id accept w salt|f|s k|y' Hs|id|id now_ a Ha|id now_ a Ha|rq a Ha|id now_ a Ha].
  - by apply Hown, open_follows.
  - by apply Hown, test_follows.
  - by eapply Hown, reconnect_follows.
  - by eapply Hown, key_follows.
  - by eapply Hown, connect_follows.
  - by eapply Hown, register_follows.
  - apply Hown. split; [by eapply sup_linked|by eapply supervise_follows].
  - by apply Hown, approve_follows.
  - split; [split; [by eapply linked_same; [apply Hy|..]|apply Hy]|]. right. left. by exists f.
  - split; [by eapply sys_linked_same|]. right. right. by exists (directory s).
  - unfold run_job in Hs. destruct (y_jobs y) as [|[host_id at_] jobs]; [done|]. injection Hs as <-.
    split; [by eapply sys_linked_same|]. right. right. by eexists.
  - by apply Hown, close_follows.
  - by eapply Hown, session_follows.
  - by eapply Hown, session_follows.
  - by eapply Hown, session_follows.
  - by eapply Hown, session_follows.
Qed.
Lemma sys_linked_init s k file : sys_linked (sys_init s k file).
Proof. split; [apply linked_init|]. intros n. cbn. rewrite lookup_empty. by intros []. Qed.

Lemma desk_of_init s k file : desk_of (sys_init s k file) = desk_new (directory s) (book_of file).
Proof. unfold desk_of, desk_new. cbn. unfold dials_of. by rewrite !fmap_empty, !dom_empty_L. Qed.

Lemma step_any y y' : sys_linked y → sys_step y y' → desk_any (desk_of y) (desk_of y').
Proof.
  intros Hy Hstep. destruct (step_follows y y' Hy Hstep) as [_ [Hd|[(f & _ & ->)|[f ->]]]];
    [by left|right; constructor..].
Qed.

Lemma run_follows y y' :
  sys_linked y → steps sys_step y y' → sys_linked y' ∧ steps desk_any (desk_of y) (desk_of y').
Proof.
  intros Hy Hs. induction Hs as [y|y y1 y2 Hs IH Hstep]; [split; [done|constructor]|].
  destruct (IH Hy) as [Hy1 Hd]. split; [by destruct (step_follows y1 y2 Hy1 Hstep)|].
  eapply steps_snoc; [exact Hd|by apply step_any].
Qed.

Lemma reached_linked s k file y : steps sys_step (sys_init s k file) y → sys_linked y.
Proof. intros Hs. by destruct (run_follows _ _ (sys_linked_init s k file) Hs). Qed.

Lemma reached_asked s k file y : steps sys_step (sys_init s k file) y → asked_told (desk_of y).
Proof.
  intros Hs. destruct (run_follows _ _ (sys_linked_init s k file) Hs) as [_ Hd]. rewrite desk_of_init in Hd.
  refine (steps_invariant _ asked_told _ _ asked_told_any (asked_told_new _ _) Hd).
Qed.

(** C2: the desktop does what the desk describes: in every run, whatever is
    opened, tested, presented, answered, dropped, retried and closed, and in
    whatever order, the hosts dialled, the keys let in, the state of each line,
    the book of trusted keys and everything the tabs are told change as the
    abstract desk allows. *)
Theorem desk_refines s k file y :
  steps sys_step (sys_init s k file) y →
  steps desk_any (desk_new (directory s) (book_of file)) (desk_of y).
Proof. intros Hs. rewrite <- (desk_of_init s k). apply run_follows; [apply sys_linked_init|done]. Qed.

(** C8: the sessions write no key the user was not shown: whenever a step
    brings a new entry into known_hosts, either the file was written from
    outside of them, or a prompt with this host, this algorithm and this
    fingerprint was sent before, and the entry records the very key it showed,
    for the host it named. *)
Theorem recorded_was_asked s k file y y' es e :
  steps sys_step (sys_init s k file) y → sys_step y y' →
  book_of (hk_file (y_hk y')) = Some es → e ∈ es →
  (∀ es0, book_of (hk_file (y_hk y)) = Some es0 → e ∉ es0) →
  (∃ f, y' = set_hk (edit_file f (y_hk y)) y) ∨
  ∃ tab sid host port key,
    (tab, SeHostKeyPrompt sid host port (algorithm key) (fingerprint key)) ∈ y_events y ∧
    (plain_name (match_target host port) = true → records key e = true ∧ is_for host port e).
Proof.
  intros Hs Hstep Hb He Hnew. pose proof (reached_asked s k file y Hs) as Hasked.
  destruct (step_follows y y' (reached_linked _ _ _ _ Hs) Hstep) as [_ [Hd|[(f & -> & _)|[f Hf]]]];
    [|by left; exists f|].
  - right. destruct (book_grows _ _ es e Hd Hb He Hnew) as (n & dl & key & Hn & Hk & Hrec).
    pose proof (Hasked n dl key Hn Hk) as Htold. cbn in Htold.
    apply list_elem_of_fmap in Htold as ([tab ev] & Heq & Hin). injection Heq as Htab Hev.
    destruct ev as [sid host port alg fp| | | | | | | |]; try done. injection Hev as Hh Hp Ha Hf.
    exists tab, sid, (dl_host dl), (dl_port dl), key. split; [by rewrite Hh, Hp, Ha, Hf|done].
  - exfalso. assert (k_book (desk_of y') = k_book (desk_of y)) as Hsame by (by rewrite Hf).
    cbn in Hsame. rewrite Hb in Hsame. symmetry in Hsame. by eapply Hnew.
Qed.

(** C9: closing a tab is the end of it: once a session is closed and its
    supervisor is not in the middle of an attempt, nothing that happens
    afterwards ever connects for it again. *)
Theorem closed_never_redialled s k file y y' id :
  steps sys_step (sys_init s k file) y → id ∈ y_closed y →
  (∀ sv, y_sups y !! id = Some sv → match ph (sv_sup sv) with Attempting _ _ => False | _ => True end) →
  (∀ n a, y_attempts y !! n = Some a → at_purpose a = ForReconnect → ca_id (at_args a) ≠ id) →
  steps sys_step y y' →
  ∀ n a, y_attempts y' !! n = Some a → at_purpose a = ForReconnect → ca_id (at_args a) ≠ id.
Proof.
  intros Hs Hc Hsv Hat Hs' n a Ha Hp.
  destruct (run_follows y y' (reached_linked _ _ _ _ Hs) Hs') as [_ Hd].
  assert (hushed id (desk_of y)) as Hq.
  { split_and!; [done| |].
    - cbn. intros ln c. rewrite lookup_fmap. intros (sv & Hl & ->)%fmap_Some. cbn. specialize (Hsv sv Hl).
      by destruct (ph (sv_sup sv)).
    - cbn. unfold dials_of. intros m dl. rewrite lookup_fmap. intros (b & Hl & ->)%fmap_Some Hre.
      apply (Hat m); [done|]. unfold is_redial in Hre. cbn in Hre. by destruct (at_purpose b). }
  assert (hushed id (desk_of y')) as (_ & _ & Hr)
    by (refine (steps_invariant _ (hushed id) _ _ (hushed_step id) Hq Hd)).
  apply (Hr n (dial_of (y_hk y') a)); [cbn; unfold dials_of; by rewrite lookup_fmap, Ha|].
  unfold is_redial. cbn. by rewrite Hp.
Qed.
End desk.

(** * On a concrete run *)
#[local] Existing Instances map_keyring sqlite_max_rowid json_bool json_no_number sample_keys
  sample_transport sample_shells.

(** A tab opened on an unknown server: the user is asked, says yes, and it
    connects. *)
Lemma desk_refines_witness :
  steps desk_any (desk_new (directory (d_store sample_created)) (book_of Absent)) (desk_of run_4) ∧
  k_told (desk_of run_4) = [(#"s-0", NAsk #"web" 22 (algorithm KeyA) (fingerprint KeyA))] ∧
  ln_now <$> k_lines (desk_of run_4) !! #"s-0" = Some Up.
Proof.
  split; [|by split].
  apply (desk_refines #"kh" no_store_text no_kh_text (d_store sample_created) (d_keyring sample_created) Absent).
  apply sample_run_steps.
Defined.

Lemma run_2_steps : steps (sys_step #"kh" no_store_text no_kh_text) run_0 run_2.
Proof.
  eapply steps_snoc; [eapply steps_snoc; [apply steps_refl|]|].
  - apply sys_open.
  - by apply (sys_key _ _ _ run_1 0 KeyA).
Qed.

(** The key that approving writes down is the one the prompt showed. *)
Lemma recorded_was_asked_witness :
  (∃ f, run_3 = set_hk (edit_file f (y_hk run_2)) run_2) ∨
  ∃ tab sid host port key,
    (tab, SeHostKeyPrompt sid host port (algorithm key) (fingerprint key)) ∈ y_events run_2 ∧
    (plain_name (match_target host port) = true →
     ∃ e, book_of (hk_file (y_hk run_3)) = Some [e] ∧ records key e = true ∧ is_for host port e).
Proof.
  assert (∃ e, book_of (hk_file (y_hk run_3)) = Some [e]) as [e He] by (vm_compute; by eexists).
  destruct (recorded_was_asked #"kh" no_store_text no_kh_text (d_store sample_created)
    (d_keyring sample_created) Absent run_2 run_3 [e] e) as [Hf|(tab & sid & host & port & key & Hin & Hrec)].
  - apply run_2_steps.
  - apply sys_approve.
  - exact He.
  - by left.
  - assert (book_of (hk_file (y_hk run_2)) = Some []) as -> by (vm_compute; reflexivity).
    intros es [= <-]. by intros ?%elem_of_nil.
  - by left.
  - right. exists tab, sid, host, port, key. split; [done|]. intros Hp. exists e. by split; [|apply Hrec].
Defined.

(** The tab of [run_5] is closed, and its supervisor notices. *)
Definition run_closed : System := close #"s-0" run_5.
Definition run_hushed : System := default run_closed (sup_do #"s-0" Shutdown run_closed).

Lemma closed_never_redialled_witness :
  #"s-0" ∈ y_closed run_closed ∧
  ∀ n a, y_attempts run_hushed !! n = Some a → at_purpose a = ForReconnect → ca_id (at_args a) ≠ #"s-0".
Proof.
  assert (#"s-0" ∈ y_closed run_closed) as Hc by (apply elem_of_union; left; by apply elem_of_singleton).
  split; [exact Hc|].
  apply (closed_never_redialled #"kh" no_store_text no_kh_text (d_store sample_created)
    (d_keyring sample_created) Absent run_closed run_hushed #"s-0").
  - eapply steps_snoc; [eapply steps_snoc; [apply sample_run_steps|]|].
    + apply (sys_register _ _ _ run_4 #"s-0"). reflexivity.
    + apply sys_close.
  - exact Hc.
  - intros sv Hsv. vm_compute in Hsv. by injection Hsv as <-.
  - intros n a Ha. vm_compute in Ha. by destruct n.
  - apply steps_once. by apply (sys_supervise _ _ _ run_closed #"s-0" Shutdown).
Defined.
