(* ===== verification/ShellExample.v ===== *)
(** * The example shell

    [core-ssh/examples/shell.rs]: its command line, the prompt for a host key,
    and the loop between the terminal and the remote shell.  What the user types
    at a prompt and what the terminal reports are inputs; the connection is the
    class [Transport] with [ShellTransport]. *)
From S2P Require Import Prelude Text Model Vault Auth Session Shell Channel.

Definition CTRL_Q : N := 17%N.

Record Args := MkArgs {
  arg_user : str;
  arg_host : str;
  arg_port : Z;
  arg_auth : AuthMethod;
  arg_insecure_accept : bool
}.

(** How the program leaves: [usage] with status 2, or an unreadable password
    with status 1. *)
Inductive early_exit := Usage | PasswordUnreadable.
Definition exit_code_of (e : early_exit) : Z := match e with Usage => 2 | PasswordUnreadable => 1 end.

(** [str::rsplit_once(char)]. *)
Definition rsplit_once (c : char) (s : str) : option (str * str) :=
  (λ '(a, b), (reverse b, reverse a)) <$> split_once c (reverse s).

(** The locals of the loop over the options. *)
Record opts := MkOpts {
  op_auth : option AuthMethod;
  op_insecure : bool;
  op_key_path : option str;
  op_passphrase : option str
}.
Definition opts_init : opts := MkOpts None false None None.

(** The loop; [typed] is what each password prompt reads, [None] an error. *)
Fixpoint parse_opts (argv : list str) (typed : list (option str)) (o : opts) : result early_exit opts :=
  match argv with
  | [] => Ok o
  | a :: rest =>
      if decide (a = #"--password") then
        match typed with
        | Some pw :: typed =>
            parse_opts rest typed
              (MkOpts (Some (method_password pw)) (op_insecure o) (op_key_path o) (op_passphrase o))
        | _ => Err PasswordUnreadable
        end
      else if decide (a = #"--agent") then
        parse_opts rest typed (MkOpts (Some MAgent) (op_insecure o) (op_key_path o) (op_passphrase o))
      else if decide (a = #"--key") then
        match rest with
        | [] => Err Usage
        | path :: rest =>
            parse_opts rest typed (MkOpts (op_auth o) (op_insecure o) (Some path) (op_passphrase o))
        end
      else if decide (a = #"--passphrase") then
        match rest with
        | [] => Err Usage
        | pp :: rest =>
            parse_opts rest typed (MkOpts (op_auth o) (op_insecure o) (op_key_path o) (Some pp))
        end
      else if decide (a = #"--insecure-accept") then
        parse_opts rest typed (MkOpts (op_auth o) true (op_key_path o) (op_passphrase o))
      else Err Usage
  end.

Definition parse_hostport (hostport : str) : result early_exit (str * Z) :=
  match rsplit_once (ch ":") hostport with
  | Some (h, p) =>
      match parse_uint u16_max p with Some port => Ok (h, port) | None => Err Usage end
  | None => Ok (hostport, 22%Z)
  end.

(** [argv] without the program's name. *)
Definition parse_args (argv : list str) (typed : list (option str)) : result early_exit Args :=
  match argv with
  | [] => Err Usage
  | target :: rest =>
      match split_once (ch "@") target with
      | None => Err Usage
      | Some (user, hostport) =>
          '(host, port) ← parse_hostport hostport;
          o ← parse_opts rest typed opts_init;
          let auth := match op_key_path o with
                      | Some path => Some (key_file path (op_passphrase o))
                      | None => op_auth o
                      end in
          Ok (MkArgs user host port (default MAgent auth) (op_insecure o))
      end
  end.

(** [accept_any_host_key] of [session.rs]. *)
Definition accept_any_host_key {I} (info : I) : bool := true.

(** The answer to the prompt: the line read, or nothing when reading failed or
    the blocking task died. *)
Definition tofu_answer (line : option str) : bool :=
  match line with
  | Some line => bool_decide (trim line = #"yes" ∨ trim line = #"y")
  | None => false
  end.

(** [on_host_key] of [run]. *)
Definition shell_host_key (args : Args) (line : option str) : bool :=
  if arg_insecure_accept args then accept_any_host_key args else tofu_answer line.

Definition shell_cfg (args : Args) : SessionConfig :=
  let cfg := config_new (arg_host args) (arg_user args) (arg_auth args) in
  {| s_host := s_host cfg;
     s_port := arg_port args;
     s_username := s_username cfg;
     s_auth := s_auth cfg;
     s_term := s_term cfg;
     s_keepalive_interval := s_keepalive_interval cfg;
     s_keepalive_max := s_keepalive_max cfg;
     s_connect_timeout := s_connect_timeout cfg;
     s_window_size := s_window_size cfg;
     s_channel_buffer_size := s_channel_buffer_size cfg |}.

Definition initial_size (size : option (Z * Z)) : Z * Z := default (80, 24)%Z size.

Definition closing_line (code : option Z) : str :=
  match code with
  | Some code => newline :: #"[session closed, exit status " ++ show_Z code ++ #"]"
  | None => newline :: #"[session closed]"
  end.

(** * The loop of [run_session] *)
Section session.
Context `{!Transport, !ShellTransport}.

(** What the [select!] wakes up for: the shell's output or its end, a chunk from
    the keyboard or its end, and a change of the window with its new size. *)
Inductive ui_input :=
  | Output (out : option (list N))
  | Typed (data : option (list N))
  | Winch (size : option (Z * Z)).

Record ui := Ui {
  ui_stdout : list N;
  ui_w : W;
  ui_done : bool
}.

Definition ui_step (chan : Chan) (s : ui) (i : ui_input) : option ui :=
  if ui_done s then None
  else Some match i with
       | Output (Some bytes) => Ui (ui_stdout s ++ bytes) (ui_w s) false
       | Output None => Ui (ui_stdout s) (ui_w s) true
       | Typed (Some bytes) =>
           if decide (CTRL_Q ∈ bytes) then Ui (ui_stdout s) (ui_w s) true
           else let '(r, w) := shell_write chan bytes (ui_w s) in
                Ui (ui_stdout s) w (negb (is_ok r))
       | Typed None => Ui (ui_stdout s) (ui_w s) true
       | Winch (Some (cols, rows)) => Ui (ui_stdout s) (shell_resize chan cols rows (ui_w s)).2 false
       | Winch None => s
       end.

Definition ui_run (chan : Chan) (l : list ui_input) (s : ui) : option ui :=
  foldl (λ o i, s ← o; ui_step chan s i) (Some s) l.

(** [run_session]: the loop, then closing the channel. *)
Definition run_session (chan : Chan) (l : list ui_input) (drained : option pump) (w : W) :
    option (option Z * ui) :=
  s ← ui_run chan l (Ui [] w false);
  if ui_done s then
    let '(code, w) := channel_close chan drained (ui_w s) in
    Some (code, Ui (ui_stdout s) w true)
  else None.

(** [run] up to what it prints last: the exit status and that line.  The prompt
    for the host key happens while connecting, under [shell_host_key]. *)
Definition shell_main (argv : list str) (typed : list (option str)) (polls : list poll)
    (size : option (Z * Z)) (inputs : list ui_input) (drained : option pump) : option (Z * str * list N) :=
  match parse_args argv typed with
  | Err e => Some (exit_code_of e, [], [])
  | Ok args =>
      r ← connect (shell_cfg args) polls;
      match r with
      | Err e => Some (1%Z, #"connect failed: " ++ display_error debug_duration e, [])
      | Ok w =>
          let '(cols, rows) := initial_size size in
          match open_shell (s_term (shell_cfg args)) cols rows w with
          | (Err e, _) => Some (1%Z, #"open shell failed: " ++ display_error debug_duration e, [])
          | (Ok chan, w) =>
              '(code, s) ← run_session chan inputs drained w;
              let '(_, _) := disconnect (ui_w s) in
              Some (0%Z, closing_line code, ui_stdout s)
          end
      end
  end.

(** What the inputs ask of the connection, in order. *)
Definition ui_effect (chan : Chan) (i : ui_input) (w : W) : W :=
  match i with
  | Typed (Some bytes) => if decide (CTRL_Q ∈ bytes) then w else (shell_write chan bytes w).2
  | Winch (Some (cols, rows)) => (shell_resize chan cols rows w).2
  | _ => w
  end.

Definition shown (i : ui_input) : list N :=
  match i with Output (Some bytes) => bytes | _ => [] end.

(** The terminal shows the output whole and in order; the remote gets every
    chunk typed and every new size, in order, and never the chunk with Ctrl-Q. *)
Theorem ui_relays chan l w s :
  ui_run chan l (Ui [] w false) = Some s →
  ui_stdout s = concat (shown <$> l) ∧ ui_w s = foldl (λ w i, ui_effect chan i w) w l.
Proof.
  revert s. unfold ui_run. induction l as [|i l IH] using rev_ind; intros s; [by intros [= <-]|].
  rewrite foldl_app. cbn [foldl]. intros (s1 & H1 & H2)%bind_Some. apply IH in H1 as [Hout Hw].
  rewrite fmap_app, concat_app, foldl_app. cbn. rewrite app_nil_r, <- Hout, <- Hw.
  revert H2. unfold ui_step. destruct (ui_done s1); [done|]. intros [= <-].
  destruct i as [[bytes|]|[bytes|]|[[c r]|]]; cbn; rewrite ?app_nil_r; try done.
  case_decide; [done|]. by destruct (shell_write chan bytes (ui_w s1)).
Qed.
End session.

(** * The command line reads back *)

(** The words that give these options. *)
Definition render_args (a : Args) (port_given : bool) : list str :=
  (arg_user a ++ ch "@" :: arg_host a ++ if port_given then ch ":" :: show_Z (arg_port a) else []) ::
  match arg_auth a with
  | MPassword _ => [ #"--password"]
  | MKeyFile path pp => #"--key" :: path :: match pp with Some pp => [ #"--passphrase"; pp] | None => [] end
  | MAgent => []
  end ++ (if arg_insecure_accept a then [ #"--insecure-accept"] else []).

Lemma rsplit_once_app c a b : c ∉ b → rsplit_once c (a ++ c :: b) = Some (a, b).
Proof.
  intros Hb. unfold rsplit_once. rewrite reverse_app, reverse_cons, <- (assoc_L (++)). cbn.
  rewrite split_once_app by (by rewrite elem_of_reverse). cbn. by rewrite !reverse_involutive.
Qed.

Lemma rsplit_once_None c s : c ∉ s → rsplit_once c s = None.
Proof.
  intros Hs. unfold rsplit_once. by rewrite (proj2 (split_once_None c (reverse s))) by
    (by rewrite elem_of_reverse).
Qed.

(** A connection written on the command line is the connection made, whatever
    the names and secrets are: the port may be left out for 22, and the host
    may contain colons if it is not. *)
Theorem parse_args_renders a port_given :
  ch "@" ∉ arg_user a → in_u16 (arg_port a) →
  (port_given = false → arg_port a = 22%Z ∧ ch ":" ∉ arg_host a) →
  parse_args (render_args a port_given)
    match arg_auth a with MPassword pw => [Some pw] | _ => [] end = Ok a.
Proof.
  destruct a as [user host port auth insecure].
  cbn [arg_user arg_host arg_port arg_auth arg_insecure_accept]. intros Huser Hport Hgiven.
  unfold parse_args, render_args. cbn [arg_user arg_host arg_port arg_auth arg_insecure_accept].
  rewrite split_once_app by done. cbv beta iota.
  assert (parse_hostport (host ++ if port_given then ch ":" :: show_Z port else []) = Ok (host, port)) as ->.
  { unfold parse_hostport. destruct port_given.
    - destruct (show_Z_digits port) as [Hd _]; [by destruct Hport|]. rewrite rsplit_once_app.
      + by rewrite parse_show_Z.
      + intros Hin. rewrite Forall_forall in Hd. by destruct (Hd _ Hin).
    - destruct (Hgiven eq_refl) as [-> Hcolon]. by rewrite app_nil_r, rsplit_once_None. }
  destruct auth as [pw|path [pp|]|], insecure; reflexivity.
Qed.

Lemma parse_args_renders_witness :
  parse_args [ #"ops@::1:2222"; #"--key"; #"k"; #"--passphrase"; #"p"; #"--insecure-accept"] [] =
  Ok (MkArgs #"ops" #"::1" 2222 (MKeyFile #"k" (Some #"p")) true).
Proof.
  apply (parse_args_renders (MkArgs #"ops" #"::1" 2222 (MKeyFile #"k" (Some #"p")) true) true).
  - by apply (bool_decide_unpack _).
  - by unfold in_u16, u16_max.
  - done.
Defined.

Example parse_usage : parse_args [ #"tern"] [] = Err Usage ∧ parse_args [ #"a@b:70000"] [] = Err Usage.
Proof. by vm_compute. Qed.
