(* ===== verification/BenchSink.v ===== *)
(** * The headless benchmark

    [core-ssh/examples/bench_sink.rs]: the sink behind the coalescer, which
    counts what arrives and looks for the markers the remote shell prints, and
    the verdict of a run.  The text of the JSON report is not modelled. *)
From Stdlib Require Import QArith Qround Lqa.
From S2P Require Import Prelude Text F64.

(** [env_or], with the environment as a function. *)
Definition bench_env_or (env : str → option str) (key dflt : str) : str := default dflt (env key).

(** A [Duration] in nanoseconds as [as_secs_f64], and a throughput in MB/s. *)
Definition secs_f64 (wall : Z) : Q :=
  fl (fl (inject_Z (wall / 1000000000)) + fl (fl (inject_Z (wall mod 1000000000)) / inject_Z 1000000000)).
Definition mbps (bytes wall : Z) : Q :=
  let secs := secs_f64 wall in
  if Qle_bool secs 0 then 0%Q
  else fl (fl (fl (inject_Z bytes) / fl (inject_Z (1024 * 1024))) / secs).

(** * Text from bytes *)

(** The bytes a character takes in UTF-8, and [str::len]. *)
Definition len_utf8 (c : char) : nat :=
  if (c <? 128)%N then 1 else if (c <? 2048)%N then 2 else if (c <? 65536)%N then 3 else 4.
Definition byte_len (s : str) : nat := sum_list (len_utf8 <$> s).

Definition replacement : char := 65533%N.
Definition between (lo hi b : N) : bool := ((lo <=? b) && (b <=? hi))%N.
Definition continuation (b : N) : bool := between 128 191 b.
Definition payload (b : N) : N := (b mod 64)%N.

(** The second byte a three or four byte sequence may have. *)
Definition second_ok (lead b : N) : bool :=
  if (lead =? 224)%N then between 160 191 b
  else if (lead =? 237)%N then between 128 159 b
  else if (lead =? 240)%N then between 144 191 b
  else if (lead =? 244)%N then between 128 143 b
  else continuation b.

(** [String::from_utf8_lossy]: each maximal prefix of a sequence that goes
    wrong becomes one replacement character. *)
Fixpoint from_utf8_lossy (bytes : list N) : str :=
  match bytes with
  | [] => []
  | b0 :: r0 =>
      if (b0 <? 128)%N then b0 :: from_utf8_lossy r0
      else if between 194 223 b0 then
        match r0 with
        | b1 :: r1 =>
            if continuation b1 then ((b0 - 192) * 64 + payload b1)%N :: from_utf8_lossy r1
            else replacement :: from_utf8_lossy r0
        | [] => [replacement]
        end
      else if between 224 239 b0 then
        match r0 with
        | b1 :: r1 =>
            if second_ok b0 b1 then
              match r1 with
              | b2 :: r2 =>
                  if continuation b2
                  then (((b0 - 224) * 64 + payload b1) * 64 + payload b2)%N :: from_utf8_lossy r2
                  else replacement :: from_utf8_lossy r1
              | [] => [replacement]
              end
            else replacement :: from_utf8_lossy r0
        | [] => [replacement]
        end
      else if between 240 244 b0 then
        match r0 with
        | b1 :: r1 =>
            if second_ok b0 b1 then
              match r1 with
              | b2 :: r2 =>
                  if continuation b2 then
                    match r2 with
                    | b3 :: r3 =>
                        if continuation b3
                        then ((((b0 - 240) * 64 + payload b1) * 64 + payload b2) * 64 + payload b3)%N ::
                             from_utf8_lossy r3
                        else replacement :: from_utf8_lossy r2
                    | [] => [replacement]
                    end
                  else replacement :: from_utf8_lossy r1
              | [] => [replacement]
              end
            else replacement :: from_utf8_lossy r0
        | [] => [replacement]
        end
      else replacement :: from_utf8_lossy r0
  end.

(** * The sink *)

(** [String::drain(..cut)]: [None] is its panic, when [cut] is inside a
    character or past the end. *)
Fixpoint drain_to (cut : nat) (s : str) : option str :=
  match cut with
  | 0 => Some s
  | _ =>
      match s with
      | [] => None
      | c :: s => if len_utf8 c <=? cut then drain_to (cut - len_utf8 c) s else None
      end
  end.

(** [str::find]: what comes before the first occurrence, and from it on. *)
Fixpoint find_from (p s : str) : option (str * str) :=
  if starts_with p s then Some ([], s)
  else match s with
       | [] => None
       | c :: s => (λ '(a, b), (c :: a, b)) <$> find_from p s
       end.

(** [rest.find("__\n").or_else(|| rest.find("__\r"))] *)
Definition marker_end (rest : str) : option (str * str) :=
  match find_from (#"__" ++ [newline]) rest with
  | Some x => Some x
  | None => find_from (#"__" ++ [carriage_return]) rest
  end.

(** The [while let] loop: the markers found, and what is left of the text. *)
Fixpoint take_markers (fuel : nat) (tail : str) : list str * str :=
  match fuel with
  | 0 => ([], tail)
  | S fuel =>
      match find_from #"__SINK_" tail with
      | None => ([], tail)
      | Some (_, rest) =>
          match marker_end rest with
          | None => ([], tail)
          | Some (before, after) =>
              let '(ms, left_) := take_markers fuel (drop 2 after) in
              ((before ++ #"__") :: ms, left_)
          end
      end
  end.

Record sink := Sink {
  sk_bytes : Z;
  sk_newlines : Z;
  sk_tail : str;
  sk_markers : list str
}.
Definition sink_init : sink := Sink 0 0 [] [].

Definition frame_newlines (frame : list N) : Z := Z.of_nat (length (filter (λ b, b = newline) frame)).

Definition TAIL_MAX : nat := 512.

(** One frame; [None] when the task panics. *)
Definition sink_frame (s : sink) (frame : list N) : option sink :=
  let tail := sk_tail s ++ from_utf8_lossy frame in
  tail ← (if TAIL_MAX <? byte_len tail then drain_to (byte_len tail - TAIL_MAX) tail else Some tail);
  let '(found, tail) := take_markers (length tail) tail in
  Some (Sink (sk_bytes s + Z.of_nat (length frame)) (sk_newlines s + frame_newlines frame) tail
          (sk_markers s ++ found)).

Definition sink_run (frames : list (list N)) (s : sink) : option sink :=
  foldl (λ o f, s ← o; sink_frame s f) (Some s) frames.

(** * A run *)

Record ScenarioResult := MkScenario {
  sc_name : str;
  sc_bytes : Z;
  sc_newlines : Z;
  sc_wall : Z;
  sc_mbps : Q;
  sc_complete : bool
}.

Definition scenarios : list (str * str * Z) :=
  [(#"core_seq2m", #"seq 1 2000000", 2000000%Z); (#"core_cat100mb", #"cat /bench/100mb.txt", 0%Z)].

Definition scenario_command (name cmd : str) : str :=
  cmd ++ #"; printf '\n__SINK_" ++ name ++ #"__\n'" ++ [newline].
Definition scenario_marker (name : str) : str := #"__SINK_" ++ name ++ #"__".

(** What a scenario reports, from the counts before and after; [waited] is
    whether the wait for its marker came to a result in time, and which. *)
Definition scenario_result (name : str) (min_newlines : Z) (base counts : Z * Z) (wall : Z)
    (waited : option bool) : ScenarioResult :=
  let bytes := (counts.1 - base.1)%Z in
  let newlines := (counts.2 - base.2)%Z in
  MkScenario name bytes newlines (Z.min (wall / 1000000) u64_max) (mbps bytes wall)
    (default false waited && (min_newlines <=? newlines)%Z).

Definition all_complete (rs : list ScenarioResult) : bool := forallb sc_complete rs.

(** The floor, from the environment when it parses ([parse] is [f64]'s
    [FromStr]; a negative infinity is not considered). *)
Definition bench_floor (env : str → option str) (parse : str → option f64) : f64 :=
  default (Finite (inject_Z 80)) (v ← env #"TERN_BENCH_CORE_FLOOR"; parse v).
Definition floor_ok (floor : f64) (mbps : Q) : bool :=
  match floor with Finite q => Qle_bool q mbps | Infinite | NaN => false end.

(** Both assertions at the end hold; [None] is the [expect] on the scenario. *)
Definition bench_passes (floor : f64) (rs : list ScenarioResult) : option bool :=
  cat ← find_first (λ r, bool_decide (sc_name r = #"core_cat100mb")) rs;
  Some (all_complete rs && floor_ok floor (sc_mbps cat)).

(** The sink finds the marker a shell prints after its output. *)
Example sink_finds :
  let out := (#"1" ++ [carriage_return; newline] ++ #"2" ++ [carriage_return; newline]) in
  let mark := (scenario_marker #"core_seq2m" ++ [carriage_return; newline]) in
  sk_markers <$> sink_run [out; take 9 mark; drop 9 mark] sink_init = Some [scenario_marker #"core_seq2m"].
Proof. by vm_compute. Qed.

(** * What the sink does *)

Lemma find_from_Some p s a b : find_from p s = Some (a, b) → s = a ++ b.
Proof.
  revert a. induction s as [|c s IH]; intros a; cbn [find_from].
  - destruct (starts_with p []); [by intros [= <- <-]|done].
  - destruct (starts_with p (c :: s)); [by intros [= <- <-]|].
    destruct (find_from p s) as [[a' b']|]; [|done]. cbn. intros [= <- <-]. cbn. f_equal. by apply IH.
Qed.

Lemma marker_end_Some rest a b : marker_end rest = Some (a, b) → rest = a ++ b.
Proof.
  unfold marker_end. destruct (find_from (_ ++ [newline]) rest) as [[a' b']|] eqn:E.
  - intros [= <- <-]. by eapply find_from_Some.
  - apply find_from_Some.
Qed.

(** What is left after taking the markers is the end of the text. *)
Lemma take_markers_suffix fuel tail : (take_markers fuel tail).2 `suffix_of` tail.
Proof.
  revert tail. induction fuel as [|fuel IH]; intros tail; [done|]. cbn [take_markers].
  destruct (find_from _ tail) as [[a rest]|] eqn:Ef; [|done].
  destruct (marker_end rest) as [[before after]|] eqn:Em; [|done].
  specialize (IH (drop 2 after)). destruct (take_markers fuel (drop 2 after)) as [ms left_]. cbn in *.
  apply find_from_Some in Ef as ->. apply marker_end_Some in Em as ->.
  etrans; [exact IH|]. apply suffix_app_r, suffix_app_r. exists (take 2 after). by rewrite take_drop.
Qed.

Lemma find_from_starts p s a b : find_from p s = Some (a, b) → starts_with p b = true.
Proof.
  revert a. induction s as [|c s IH]; intros a; cbn [find_from].
  - destruct (starts_with p []) eqn:E; [by intros [= <- <-]|done].
  - destruct (starts_with p (c :: s)) eqn:E; [by intros [= <- <-]|].
    destruct (find_from p s) as [[a' b']|]; [|done]. cbn. intros [= <- <-]. by eapply IH.
Qed.

(** What is found holds the pattern. *)
Lemma find_from_inv p s a b : find_from p s = Some (a, b) → ∃ b', b = p ++ b' ∧ s = a ++ p ++ b'.
Proof.
  intros Hf. destruct (proj1 (starts_with_spec _ _) (find_from_starts _ _ _ _ Hf)) as [b' ->].
  exists b'. split; [done|]. by apply (find_from_Some p).
Qed.

Lemma find_from_absent p s c : c ∈ p → c ∉ s → find_from p s = None.
Proof.
  intros Hp Hs. destruct (find_from p s) as [[a b]|] eqn:Ef; [|done].
  apply find_from_inv in Ef as (b' & _ & ->). set_solver.
Qed.

(** Each round takes characters away, so the loop ends by finding nothing. *)
Lemma take_markers_done fuel tail :
  length tail ≤ fuel →
  match find_from #"__SINK_" (take_markers fuel tail).2 with
  | None => True
  | Some (_, rest) => marker_end rest = None
  end.
Proof.
  revert tail. induction fuel as [|fuel IH]; intros tail Hlen.
  { by destruct tail; [|cbn in Hlen; lia]. }
  cbn [take_markers]. destruct (find_from _ tail) as [[a rest]|] eqn:Ef; [|cbn [snd]; by rewrite Ef].
  destruct (marker_end rest) as [[before after]|] eqn:Em; [|cbn [snd]; by rewrite Ef].
  assert (length (drop 2 after) ≤ fuel) as Hfuel.
  { apply find_from_inv in Ef as (b' & -> & ->). apply marker_end_Some in Em.
    apply (f_equal length) in Em. rewrite length_app in Hlen. rewrite length_drop.
    rewrite !length_app in Em. rewrite length_app in Hlen. change (length #"__SINK_") with 7 in *. lia. }
  specialize (IH _ Hfuel). by destruct (take_markers fuel (drop 2 after)).
Qed.

Lemma byte_len_app s t : byte_len (s ++ t) = byte_len s + byte_len t.
Proof. unfold byte_len. rewrite fmap_app. induction (len_utf8 <$> s); cbn in *; lia. Qed.

Lemma drain_to_len cut s s' : drain_to cut s = Some s' → byte_len s = cut + byte_len s'.
Proof.
  revert cut. induction s as [|c s IH]; intros [|cut]; cbn [drain_to];
    [by intros [= <-]|done|by intros [= <-]|].
  destruct (Nat.leb_spec (len_utf8 c) (S cut)); [|done]. intros Hs%IH.
  change (byte_len (c :: s)) with (len_utf8 c + byte_len s). lia.
Qed.

Lemma byte_len_suffix s t : s `suffix_of` t → byte_len s ≤ byte_len t.
Proof. intros [k ->]. rewrite byte_len_app. lia. Qed.

(** Nothing is lost in the counts however the output is cut into frames, and the
    text kept for the search stays within its bound. *)
Theorem sink_counts frames s :
  sink_run frames sink_init = Some s →
  sk_bytes s = Z.of_nat (length (concat frames)) ∧ sk_newlines s = frame_newlines (concat frames) ∧
  byte_len (sk_tail s) ≤ TAIL_MAX.
Proof.
  revert s. unfold sink_run. induction frames as [|f frames IH] using rev_ind; intros s.
  { intros [= <-]. split_and!; [done..|]. unfold TAIL_MAX. cbn. lia. }
  rewrite foldl_app. cbn [foldl]. intros (s1 & H1 & H2)%bind_Some. apply IH in H1 as (Hb & Hn & _).
  unfold sink_frame in H2. apply bind_Some in H2 as (tail & Htail & H2).
  pose proof (take_markers_suffix (length tail) tail) as Hsuf.
  destruct (take_markers (length tail) tail) as [found left_]. injection H2 as <-.
  cbn [sk_bytes sk_newlines sk_tail snd] in *. rewrite concat_app. cbn [concat]. rewrite app_nil_r.
  unfold frame_newlines in *.
  split_and!; [rewrite length_app; lia|rewrite filter_app, length_app; lia|].
  etrans; [by apply byte_len_suffix|].
  destruct (Nat.ltb_spec TAIL_MAX (byte_len (sk_tail s1 ++ from_utf8_lossy f))) as [Hlt|Hle].
  - apply drain_to_len in Htail. lia.
  - by injection Htail as <-.
Qed.

Definition ascii_bytes (s : list N) : Prop := Forall (λ b, (b < 128)%N) s.

Lemma lossy_ascii s : ascii_bytes s → from_utf8_lossy s = s.
Proof.
  induction 1 as [|b s Hb _ IH]; [done|]. cbn [from_utf8_lossy].
  apply N.ltb_lt in Hb. by rewrite Hb, IH.
Qed.

Lemma byte_len_ascii s : ascii_bytes s → byte_len s = length s.
Proof.
  induction 1 as [|b s Hb _ IH]; [done|].
  change (byte_len (b :: s)) with (len_utf8 b + byte_len s). unfold len_utf8.
  apply N.ltb_lt in Hb. rewrite Hb, IH. done.
Qed.

Lemma drain_to_ascii cut s : ascii_bytes s → cut ≤ length s → drain_to cut s = Some (drop cut s).
Proof.
  intros Hs. revert cut. induction Hs as [|b s Hb _ IH]; intros [|cut] Hcut; [done|cbn in Hcut; lia|done|].
  cbn [drain_to drop]. unfold len_utf8. apply N.ltb_lt in Hb. rewrite Hb. cbn [Nat.leb].
  rewrite Nat.sub_1_r. cbn [Nat.pred]. apply IH. cbn in Hcut. lia.
Qed.

(** The end of the text that is kept for the search. *)
Definition keep_tail (t : str) : str := drop (length t - TAIL_MAX) t.

Lemma sink_frame_run s f :
  ascii_bytes (sk_tail s) → ascii_bytes f →
  let t := keep_tail (sk_tail s ++ f) in
  let r := take_markers (length t) t in
  sink_frame s f = Some (Sink (sk_bytes s + Z.of_nat (length f)) (sk_newlines s + frame_newlines f) r.2
    (sk_markers s ++ r.1)).
Proof.
  intros Hs Hf t r. unfold sink_frame. rewrite lossy_ascii by done.
  assert (ascii_bytes (sk_tail s ++ f)) as Ha by (by apply Forall_app). rewrite byte_len_ascii by done.
  assert ((if TAIL_MAX <? length (sk_tail s ++ f)
           then drain_to (length (sk_tail s ++ f) - TAIL_MAX) (sk_tail s ++ f)
           else Some (sk_tail s ++ f)) = Some t) as ->.
  { unfold t, keep_tail. destruct (Nat.ltb_spec TAIL_MAX (length (sk_tail s ++ f))) as [Hlt|Hle].
    - by rewrite drain_to_ascii by (done || lia).
    - by replace (length (sk_tail s ++ f) - TAIL_MAX) with 0 by lia. }
  cbn [mbind option_bind]. fold r. by destruct r.
Qed.

Lemma sink_frame_ascii s f :
  ascii_bytes (sk_tail s) → ascii_bytes f → ∃ s', sink_frame s f = Some s' ∧ ascii_bytes (sk_tail s').
Proof.
  intros Hs Hf. eexists. split; [by apply sink_frame_run|]. cbn [sk_tail]. set (t := keep_tail _).
  assert (ascii_bytes t) as Ht by (by apply Forall_drop, Forall_app).
  destruct (take_markers_suffix (length t) t) as [k Hk]. unfold ascii_bytes in *.
  rewrite Hk in Ht. by apply Forall_app in Ht as [_ ?].
Qed.

(** On ASCII output the sink takes every frame. *)
Theorem sink_ascii_total frames :
  Forall ascii_bytes frames → is_Some (sink_run frames sink_init).
Proof.
  assert (∀ s, ascii_bytes (sk_tail s) → Forall ascii_bytes frames → is_Some (sink_run frames s)) as Hgen.
  { induction frames as [|f frames IH]; intros s Hs Hf; [by eexists|].
    apply Forall_cons in Hf as [Hf Hfs]. destruct (sink_frame_ascii s f Hs Hf) as (s' & Hs' & Ht).
    unfold sink_run. cbn [foldl mbind option_bind]. rewrite Hs'. by apply IH. }
  apply Hgen. constructor.
Qed.

Lemma sink_ascii_total_witness : is_Some (sink_run [lit "ok"; replicate 600 10%N] sink_init).
Proof. apply sink_ascii_total. by apply (bool_decide_unpack _). Defined.

(** 171 bytes that are not UTF-8 stop it: each becomes a character of three
    bytes, and the cut at 512 bytes falls inside the first. *)
Theorem sink_panics_on_binary : sink_frame sink_init (replicate 171 255%N) = None.
Proof. by vm_compute. Qed.

Lemma sink_counts_witness :
  let frames := [lit "ab"; [10%N; 99%N]] in
  let s := Sink 4 1 [97; 98; 10; 99]%N [] in
  sk_bytes s = Z.of_nat (length (concat frames)) ∧ sk_newlines s = frame_newlines (concat frames) ∧
  byte_len (sk_tail s) ≤ TAIL_MAX.
Proof. intros frames s. by apply (sink_counts frames s). Defined.

(** * The marker is found *)

Definition underscore : char := ch "_".

(** The first occurrence is found. *)
Lemma find_from_skip p a b :
  (∀ a1 a2 t, a = a1 ++ a2 → a2 ≠ [] → a2 ++ b ≠ p ++ t) →
  starts_with p b = true → find_from p (a ++ b) = Some (a, b).
Proof.
  intros Ha Hb. induction a as [|x a IH]; cbn [app].
  - by destruct b as [|y b]; cbn [find_from]; rewrite Hb.
  - cbn [find_from]. destruct (starts_with p (x :: a ++ b)) eqn:E.
    + apply starts_with_spec in E as [t Ht]. by destruct (Ha [] (x :: a) t eq_refl ltac:(done) Ht).
    + rewrite IH; [done|]. intros a1 a2 t ->. by apply (Ha (x :: a1) a2 t).
Qed.

Lemma contains_false p t a b : contains p t = false → t ≠ a ++ p ++ b.
Proof. intros Hc ->. apply not_true_iff_false in Hc. apply Hc, contains_spec. by eexists _, _. Qed.

(** Text that ends its line without [__SINK_] in it: an occurrence in what
    comes next is there, and not across. *)
Definition line_before (a : str) : Prop := contains #"__SINK_" a = false ∧ last a = Some newline.

Lemma line_before_split a1 a2 b t : line_before (a1 ++ a2) → a2 ≠ [] → a2 ++ b ≠ #"__SINK_" ++ t.
Proof.
  intros [Hc Hl] Hne Heq. rewrite last_app in Hl. symmetry in Heq.
  apply app_eq_app in Heq as [l [[Hp _]|[-> _]]].
  - assert (newline ∈ #"__SINK_") as Hin; [|by revert Hin; apply (bool_decide_unpack _)].
    rewrite Hp. apply elem_of_app. left. destruct (last a2) eqn:E; [|by apply last_None in E].
    injection Hl as ->. by apply last_Some_elem_of in E.
  - by eapply (contains_false _ _ a1 l Hc).
Qed.

Lemma find_from_last u q :
  carriage_return ∉ u →
  find_from (#"__" ++ [carriage_return]) (u ++ #"__" ++ carriage_return :: q) =
  Some (u, #"__" ++ carriage_return :: q).
Proof.
  induction u as [|c u IH]; intros Hu; [done|]. cbn [app find_from].
  destruct (starts_with _ (c :: u ++ _)) eqn:E.
  - apply starts_with_spec in E as [t Ht]. injection Ht as -> Ht.
    destruct u as [|d [|e u]]; injection Ht; [done..|intros _ -> _]. set_solver.
  - rewrite IH by set_solver. done.
Qed.

Section marker.
Context (name : str).
Context (Hnl : newline ∉ name) (Hcr : carriage_return ∉ name).
Let mark : str := scenario_marker name.

Lemma not_in_mark c : c ∉ name → c ∉ #"__SINK_" → c ∉ mark.
Proof.
  unfold mark, scenario_marker. rewrite !not_elem_of_app. intros Hn Hp. split_and!; [done..|].
  intros Hin. apply Hp. apply elem_of_cons in Hin as [->|Hin]; [by left|].
  apply list_elem_of_singleton in Hin as ->. by left.
Qed.

Lemma mark_nl : newline ∉ mark.
Proof. apply not_in_mark; [done|]. by apply (bool_decide_unpack _). Qed.
Lemma mark_cr : carriage_return ∉ mark.
Proof. apply not_in_mark; [done|]. by apply (bool_decide_unpack _). Qed.

Lemma no_marker t : underscore ∉ t → find_from #"__SINK_" t = None.
Proof. apply find_from_absent. by left. Qed.

Lemma no_end c t : c ∉ t → find_from (#"__" ++ [c]) t = None.
Proof. apply find_from_absent, elem_of_app. right. by left. Qed.

(** Before the end of its line the marker is left in the text. *)
Lemma take_markers_partial fuel t p m m' :
  line_before p → t `suffix_of` p ++ m → mark = m ++ m' → take_markers fuel t = ([], t).
Proof.
  intros Hpre [k Hk] Hm. destruct fuel as [|fuel]; [done|]. cbn [take_markers].
  destruct (find_from _ t) as [[a rest]|] eqn:Ef; [|done].
  apply find_from_inv in Ef as (b' & -> & ->). rewrite (assoc_L (++)) in Hk.
  assert (∃ l, m = l ++ #"__SINK_" ++ b') as [l Hl].
  { apply app_eq_app in Hk as [l [[Hp Hr]|[_ Hr]]]; [|by exists l].
    destruct l as [|c l]; [by exists []|]. exfalso. rewrite Hp in Hpre.
    by eapply (line_before_split (k ++ a) (c :: l) m b' Hpre). }
  assert (∀ c, c ∉ mark → c ∉ #"__SINK_" ++ b') as Hin by (intros c; rewrite Hm, Hl; set_solver).
  unfold marker_end. by rewrite !no_end by (by apply Hin, mark_nl || by apply Hin, mark_cr).
Qed.

(** A newline after the marker is not the one that would end it. *)
Lemma no_newline_end q : underscore ∉ q → find_from (#"__" ++ [newline]) (mark ++ carriage_return :: q) = None.
Proof.
  intros Hq. destruct (find_from _ _) as [[a b]|] eqn:Ef; [|done].
  apply find_from_inv in Ef as (b' & _ & Heq). exfalso. pose proof mark_nl as Hn.
  change (mark ++ ([carriage_return] ++ q) = a ++ [underscore] ++ [underscore; newline] ++ b') in Heq.
  rewrite !(assoc_L (++)), <- (assoc_L (++) _ [underscore; newline]) in Heq.
  apply app_eq_app in Heq as [l [[Hl Hr]|[Hl Hr]]].
  - destruct l as [|c [|d l]]; [|injection Hr as <- Hr|injection Hr as <- <- Hr].
    + apply Hq. cbn in Hr. rewrite <- Hr. by left.
    + by apply app_inj_tail in Hl as [_ ?].
    + assert (newline ∈ mark ++ [carriage_return]) as [?|Hc%list_elem_of_singleton]%elem_of_app
        by (rewrite Hl; set_solver); done.
  - apply Hq. rewrite Hr. set_solver.
Qed.

Lemma take_markers_whole fuel p q :
  line_before p ∨ p = [] → underscore ∉ q →
  take_markers (S fuel) (p ++ mark ++ carriage_return :: q) = ([mark], carriage_return :: q).
Proof.
  intros Hp Hq. cbn [take_markers].
  assert (find_from #"__SINK_" (p ++ mark ++ carriage_return :: q) =
    Some (p, mark ++ carriage_return :: q)) as ->.
  { apply find_from_skip.
    - intros a1 a2 t -> Hne. destruct Hp as [Hp|[_ Hp]%app_nil]; [by eapply line_before_split|done].
    - apply starts_with_spec. unfold mark, scenario_marker. rewrite <- !(assoc_L (++)). by eexists. }
  unfold marker_end. rewrite no_newline_end by done. unfold mark, scenario_marker.
  rewrite <- !(assoc_L (++)), (assoc_L (++) #"__SINK_"), find_from_last.
  2:{ rewrite not_elem_of_app. split; [by apply (bool_decide_unpack _)|done]. }
  assert (take_markers fuel (carriage_return :: q) = ([], carriage_return :: q)) as Hrest.
  { destruct fuel as [|fuel]; [done|]. cbn [take_markers]. rewrite no_marker; [done|].
    by apply not_elem_of_cons. }
  cbn [drop app lit]. by rewrite Hrest.
Qed.

(** The run so far, with [x] fed since the markers [ms]: before the end of the
    marker's line, or after it. *)
Definition searching (ms : list str) (pre x : str) (s : sink) : Prop :=
  ascii_bytes (sk_tail s) ∧
  ((∃ r, pre ++ mark = x ++ r) ∧ sk_tail s = keep_tail x ∧ sk_markers s = ms ∨
   (∃ q, x = pre ++ mark ++ carriage_return :: q) ∧ (underscore ∉ sk_tail s) ∧
     sk_markers s = ms ++ [mark]).

Lemma keep_tail_suffix x : keep_tail x `suffix_of` x.
Proof. exists (take (length x - TAIL_MAX) x). unfold keep_tail. by rewrite take_drop. Qed.

Lemma keep_tail_app x f : keep_tail (keep_tail x ++ f) = keep_tail (x ++ f).
Proof.
  unfold keep_tail. rewrite !length_app, length_drop, <- (drop_app_le x f) by lia.
  rewrite drop_drop. f_equal. lia.
Qed.

Lemma keep_tail_enough x y : length y ≤ TAIL_MAX → ∃ p, p `suffix_of` x ∧ keep_tail (x ++ y) = p ++ y.
Proof.
  intros Hy. unfold keep_tail. exists (drop (length x + length y - TAIL_MAX) x). split.
  - exists (take (length x + length y - TAIL_MAX) x). by rewrite take_drop.
  - rewrite length_app, drop_app_le; [done|lia].
Qed.

Context (ms : list str) (pre post : str) (Hpre : line_before pre) (Hpost : underscore ∉ post).
Context (Hroom : length mark + length post < TAIL_MAX).

Lemma take_markers_waiting fuel z r :
  pre ++ mark = z ++ r → take_markers fuel (keep_tail z) = ([], keep_tail z).
Proof.
  intros Hz. apply app_eq_app in Hz as [l [[Hp _]|[-> Hm]]].
  - destruct fuel as [|fuel]; [done|]. cbn [take_markers].
    destruct (find_from _ (keep_tail z)) as [[a rest]|] eqn:Ef; [|done].
    apply find_from_inv in Ef as (b' & _ & Hk). destruct (keep_tail_suffix z) as [k Hz].
    destruct Hpre as [Hc _]. exfalso. apply (contains_false _ _ (k ++ a) (b' ++ l) Hc).
    by rewrite Hp, Hz, Hk, <- !(assoc_L (++)).
  - by apply (take_markers_partial fuel _ pre l r); [|apply keep_tail_suffix|].
Qed.

Lemma line_before_suffix k p : line_before (k ++ p) → line_before p ∨ p = [].
Proof.
  intros [Hc Hl]. destruct p as [|c p]; [by right|]. left. split.
  - apply not_true_iff_false. intros (a & b & Hab)%contains_spec. rewrite Hab in Hc.
    by apply (contains_false _ _ (k ++ a) b Hc); rewrite <- (assoc_L (++)).
  - rewrite last_app in Hl. by destruct (last (c :: p)) eqn:E; [|apply last_None in E].
Qed.

Lemma take_markers_arrived q rest :
  post = q ++ rest →
  let t := keep_tail (pre ++ mark ++ carriage_return :: q) in
  take_markers (length t) t = ([mark], carriage_return :: q).
Proof.
  intros Hq t. destruct (keep_tail_enough pre (mark ++ carriage_return :: q)) as (p & [k Hk] & Ht).
  { rewrite length_app. cbn [length]. rewrite Hq, length_app in Hroom. lia. }
  fold t in Ht. rewrite Ht, length_app, length_app. cbn [length]. rewrite !Nat.add_succ_r.
  apply take_markers_whole; [apply (line_before_suffix k); by rewrite <- Hk|].
  intros Hin. apply Hpost. rewrite Hq. set_solver.
Qed.

Lemma searching_frame x f rest s :
  searching ms pre x s → ascii_bytes f → (x ++ f) ++ rest = pre ++ mark ++ carriage_return :: post →
  ∃ s', sink_frame s f = Some s' ∧ searching ms pre (x ++ f) s'.
Proof.
  intros [Ha Hs] Hf Hall. destruct (sink_frame_ascii s f Ha Hf) as (s' & Hrun & Ha').
  exists s'. split; [done|]. split; [done|]. clear Ha'. rewrite sink_frame_run in Hrun by done.
  injection Hrun as <-. cbn [sk_tail sk_markers].
  destruct Hs as [(_ & -> & ->)|([q ->] & Hu & ->)].
  - rewrite keep_tail_app. cbn [app]. rewrite (assoc_L (++) pre) in Hall.
    apply app_eq_app in Hall as [l [[Hx Hl]|[Hx Hl]]].
    + destruct l as [|c q]; [|injection Hl as <- Hl].
      * left. rewrite app_nil_r in Hx. erewrite take_markers_waiting by (by rewrite Hx, app_nil_r).
        rewrite app_nil_r. split_and!; [|done..]. exists []. by rewrite app_nil_r, Hx.
      * right. rewrite Hx, <- (assoc_L (++)), (take_markers_arrived q rest Hl). split_and!; [by exists q| |done].
        cbn. apply not_elem_of_cons. split; [done|]. intros Hin. apply Hpost. rewrite Hl. set_solver.
    + left. rewrite (take_markers_waiting _ _ l Hx), app_nil_r. split_and!; [by exists l|done..].
  - right. assert (pre ++ mark ++ carriage_return :: (q ++ f ++ rest) =
      pre ++ mark ++ carriage_return :: post) as Heq by (by rewrite <- Hall, <- !(assoc_L (++))).
    apply app_inv_head, app_inv_head in Heq. injection Heq as Heq. set (t := keep_tail _).
    assert (underscore ∉ t) as Ht.
    { intros Hin. apply Hpost. rewrite <- Heq. destruct (keep_tail_suffix (sk_tail s ++ f)) as [k Hk].
      assert (underscore ∈ sk_tail s ++ f) by (rewrite Hk; apply elem_of_app; by right). set_solver. }
    assert (take_markers (length t) t = ([], t)) as ->.
    { destruct (length t); [done|]. cbn [take_markers]. by rewrite no_marker. }
    rewrite app_nil_r. split_and!; [exists (q ++ f); by rewrite <- !(assoc_L (++))|done|done].
Qed.

Lemma searching_run frames rest s x :
  searching ms pre x s → Forall ascii_bytes frames →
  (x ++ concat frames) ++ rest = pre ++ mark ++ carriage_return :: post →
  ∃ s', sink_run frames s = Some s' ∧ searching ms pre (x ++ concat frames) s'.
Proof.
  revert x s. induction frames as [|f frames IH]; intros x s Hs Hf Hall.
  { exists s. cbn [concat]. by rewrite app_nil_r. }
  apply Forall_cons in Hf as [Hf Hfs]. cbn [concat] in *.
  rewrite (assoc_L (++) x f) in Hall |- *.
  destruct (searching_frame x f (concat frames ++ rest) s Hs Hf) as (s1 & H1 & Hs1); 
    [by rewrite <- Hall, !(assoc_L (++))|].
  destruct (IH _ _ Hs1 Hfs Hall) as (s' & H2 & Hs2). exists s'. split; [|done].
  unfold sink_run in *. cbn [foldl mbind option_bind]. by rewrite H1.
Qed.
End marker.

(** A sink between two scenarios: the text it keeps is the end of a prompt. *)
Definition idle (s : sink) : Prop :=
  ascii_bytes (sk_tail s) ∧ underscore ∉ sk_tail s ∧ length (sk_tail s) ≤ TAIL_MAX.

(** The output of one scenario, cut into frames: what its command and [printf]
    print on the lines before the marker, the marker, and after the end of its
    line the prompt. *)
Record output := Output {
  ou_frames : list (list N);
  ou_before : str;
  ou_name : str;
  ou_prompt : str
}.
Record printed (o : output) : Prop := {
  pr_all : concat (ou_frames o) = ou_before o ++ scenario_marker (ou_name o) ++ carriage_return :: ou_prompt o;
  pr_ascii : Forall ascii_bytes (ou_frames o);
  pr_before : line_before (ou_before o);
  pr_prompt : underscore ∉ ou_prompt o;
  pr_name : newline ∉ ou_name o ∧ carriage_return ∉ ou_name o;
  pr_room : length (scenario_marker (ou_name o)) + length (ou_prompt o) < TAIL_MAX
}.

Lemma line_before_after t a : underscore ∉ t → line_before a → line_before (t ++ a).
Proof.
  intros Ht [Hc Hl]. split.
  - apply not_true_iff_false. intros (x & y & Hxy)%contains_spec.
    apply app_eq_app in Hxy as [l [[-> Hp]|[-> Hp]]].
    + destruct l as [|c l]; [by apply (contains_false _ _ [] y Hc)|]. injection Hp as <- _.
      apply Ht, elem_of_app. right. by left.
    + by eapply (contains_false _ _ l y Hc).
  - rewrite last_app. by rewrite Hl.
Qed.

Lemma sink_run_bound frames s s' :
  sink_run frames s = Some s' → ascii_bytes (sk_tail s) → Forall ascii_bytes frames →
  length (sk_tail s) ≤ TAIL_MAX → length (sk_tail s') ≤ TAIL_MAX.
Proof.
  revert s. induction frames as [|f frames IH]; intros s; [by intros [= <-]|].
  intros Hrun Hs [Hf Hfs]%Forall_cons _. unfold sink_run in Hrun. cbn [foldl mbind option_bind] in Hrun.
  destruct (sink_frame_ascii s f Hs Hf) as (s1 & H1 & Hs1). rewrite H1 in Hrun.
  apply (IH s1 Hrun Hs1 Hfs). rewrite sink_frame_run in H1 by done. injection H1 as <-. cbn [sk_tail].
  set (t := keep_tail _). destruct (take_markers_suffix (length t) t) as [k Hk].
  assert (length t ≤ TAIL_MAX) as Ht by (unfold t, keep_tail; rewrite length_drop; lia).
  rewrite Hk, length_app in Ht. lia.
Qed.

(** One scenario, from an idle sink to an idle sink. *)
Lemma sink_runs_output o s :
  idle s → printed o →
  ∃ s', sink_run (ou_frames o) s = Some s' ∧ idle s' ∧
    sk_markers s' = sk_markers s ++ [scenario_marker (ou_name o)].
Proof.
  intros (Ha & Hu & Hlen) [Hall Hf Hb Hp [Hnl Hcr] Hroom]. set (pre := sk_tail s ++ ou_before o).
  assert (line_before pre) as Hpre by (by apply line_before_after).
  assert ((sk_tail s ++ concat (ou_frames o)) ++ [] =
    pre ++ scenario_marker (ou_name o) ++ carriage_return :: ou_prompt o) as Heq
    by (unfold pre; by rewrite app_nil_r, Hall, <- (assoc_L (++))).
  destruct (searching_run (ou_name o) Hnl Hcr (sk_markers s) pre (ou_prompt o) Hpre Hp Hroom
    (ou_frames o) [] s (sk_tail s)) as (s' & Hrun & Ha' & Hs); [|done..|].
  - split; [done|]. left. split_and!; [|unfold keep_tail; by replace (_ - _) with 0 by lia|done].
    exists (ou_before o ++ scenario_marker (ou_name o)). unfold pre. by rewrite <- (assoc_L (++)).
  - exists s'. split; [done|]. rewrite app_nil_r in Heq.
    destruct Hs as [([r Hr] & _)|(_ & Hu' & Hm)].
    { rewrite Heq in Hr. apply (f_equal length) in Hr. rewrite !length_app in Hr. cbn in Hr. lia. }
    split; [|done]. split_and!; [done|done|by eapply sink_run_bound].
Qed.

(** C38: scenarios that print their markers are seen to complete: for any
    number of them one after the other, and however the output is cut into
    frames, the sink reports exactly their markers, each once and in order, and
    is ready for the next.  The output is ASCII; what comes before a marker is
    whole lines ([printf] begins a new one) without [__SINK_] in them, and what
    follows it is a prompt without underscores, shorter than the text the sink
    keeps. *)
Theorem sink_finds_markers outs s :
  idle s → Forall printed outs →
  ∃ s', sink_run (concat (ou_frames <$> outs)) s = Some s' ∧ idle s' ∧
    sk_markers s' = sk_markers s ++ (scenario_marker ∘ ou_name <$> outs).
Proof.
  revert s. induction outs as [|o outs IH]; intros s Hs Hall.
  { exists s. cbn. by rewrite app_nil_r. }
  apply Forall_cons in Hall as [Ho Hall]. destruct (sink_runs_output o s Hs Ho) as (s1 & H1 & Hs1 & Hm1).
  destruct (IH s1 Hs1 Hall) as (s2 & H2 & Hs2 & Hm2). exists s2. split; [|split; [done|]].
  - cbn [fmap list_fmap concat]. unfold sink_run in *. by rewrite foldl_app, H1.
  - rewrite Hm2, Hm1, <- (assoc_L (++)). done.
Qed.

(** The two scenarios of the benchmark, in short. *)
Lemma sink_finds_markers_witness :
  let eol := [carriage_return; newline] in
  let lines_ := concat (replicate 400 (#"1" ++ eol)) in
  let o1 := Output [lines_ ++ eol; #"__SI"; #"NK_core_seq2m_"; #"_" ++ eol ++ #"$ "]
              (lines_ ++ eol) #"core_seq2m" (newline :: #"$ ") in
  let o2 := Output [lit "a_b__c" ++ eol ++ #"__SINK_core_cat100mb__" ++ eol; #"$ "]
              (lit "a_b__c" ++ eol) #"core_cat100mb" (newline :: #"$ ") in
  ∃ s, sink_run (ou_frames o1 ++ ou_frames o2) sink_init = Some s ∧ idle s ∧
    sk_markers s = [scenario_marker #"core_seq2m"; scenario_marker #"core_cat100mb"].
Proof.
  intros eol lines_ o1 o2. apply (sink_finds_markers [o1; o2] sink_init).
  - split_and!; [constructor|by apply (bool_decide_unpack _); vm_compute|cbn; lia].
  - repeat apply Forall_cons_2; [..|done]; split;
      first [by vm_compute|by apply (bool_decide_unpack _); vm_compute|by split; vm_compute|vm_compute; lia|idtac].
Defined.
