(* ===== verification/Bootstrap.v ===== *)
(** * Starting the desktop

    [apps/desktop/src/lib.rs] and [main.rs]: how the tracing filter is chosen,
    how the store is opened and the state built, and which commands the webview
    can call; and what the store's crate has around its tables: the clock, a
    database in memory, and [schema_dump] ([core-store/src/db.rs]).  Tauri's builder and
    the tracing subscriber are not modelled: what they return, and the files and
    the database underneath, are arguments. *)
From S2P Require Import Prelude Text Path Model Database Migrate Commands.

(** * [init_tracing] *)

Definition default_filter (debug_assertions : bool) : str :=
  if debug_assertions then #"warn,tern_lib=debug,tern_core_ssh=debug" else #"warn".

(** [EnvFilter]: [parse] is its parser, [new] its lossy one. *)
Section tracing.
Context {Filter : Type} (env : str → option str) (parse : str → option Filter) (new : str → Filter).

(** [EnvFilter::try_from_env]: an error when unset or when it does not parse. *)
Definition try_from_env (key : str) : option Filter := v ← env key; parse v.

Definition tracing_filter (debug_assertions : bool) : Filter :=
  match try_from_env #"RUST_LOG" with
  | Some f => f
  | None =>
      match try_from_env #"TERN_LOG" with
      | Some f => f
      | None => new (default_filter debug_assertions)
      end
  end.
End tracing.

(** * [setup] *)

Record AppHandle := MkAppHandle {
  ah_conn : Conn;
  ah_state : AppState;
  ah_known_hosts_path : str
}.

(** What [setup] manages, or the message it stops the start with. *)
Definition setup (open_store : str → result StoreError Conn) (show_store_error : StoreError → str)
    (app_config_dir : result str str) : result str AppHandle :=
  '(db_path, known_hosts_path) ← app_paths app_config_dir;
  conn ← map_err (λ e, #"could not open store at " ++ db_path ++ #": " ++ show_store_error e)
           (open_store db_path);
  Ok (MkAppHandle conn app_new known_hosts_path).

(** [tauri::generate_handler!] *)
Definition invoke_handler : list str :=
  [ #"open_session"; #"approve_host_key"; #"test_connection"; #"write_session"; #"resize_session";
    #"pause_session"; #"resume_session"; #"close_session";
    #"list_hosts"; #"get_host"; #"create_host"; #"update_host"; #"delete_host"; #"move_host";
    #"set_host_tags";
    #"list_folders"; #"create_folder"; #"rename_folder"; #"move_folder"; #"delete_folder";
    #"list_tags"; #"create_tag"; #"delete_tag";
    #"list_known_hosts"; #"remove_known_host"; #"import_known_hosts";
    #"scan_ssh_config"; #"import_ssh_config";
    #"keyring_status"; #"inspect_key"; #"verify_key_passphrase";
    #"get_appearance"; #"set_appearance";
    #"bench_reset"; #"bench_stats"; #"bench_finish"; #"bench_log"; #"bench_auto"; #"bench_auto_done"].

(** * The clock and the store in memory *)

(** Unix seconds, for every timestamp column: [since_epoch] is what the system
    clock says, [None] when it is before the epoch.  [now_unix] of the desktop
    is the same code. *)
Definition now (since_epoch : option Z) : Z :=
  match since_epoch with
  | Some secs => if decide (secs <= i64_max)%Z then secs else i64_max
  | None => 0%Z
  end.
Definition now_unix (since_epoch : option Z) : Z := now since_epoch.

(** [Store::open_in_memory]; [opened] is SQLite's fresh connection. *)
Definition open_in_memory (pragmas : Conn → result sqlite_error ()) (fault : statement → bool) (ts : Z)
    (opened : result sqlite_error Conn) : result StoreError Conn :=
  c ← map_err Sqlite opened; from_connection pragmas fault ts c.

(** * [schema_dump] *)

(** A row of [sqlite_master]. *)
Record MasterRow := MkMaster {
  ms_type : str;
  ms_name : str;
  ms_sql : option str
}.

(** [name NOT LIKE 'sqlite_%']: seven or more characters, the first six being
    [sqlite] in any case. *)
Definition internal_name (name : str) : bool :=
  starts_with #"sqlite" (nocase name) && (7 <=? length name).

Definition master_le (a b : MasterRow) : Prop :=
  (str_le (ms_type a) (ms_type b) = true ∧ ms_type a ≠ ms_type b) ∨
  (ms_type a = ms_type b ∧ str_le (ms_name a) (ms_name b) = true).
#[export] Instance master_le_dec a b : Decision (master_le a b).
Proof. unfold master_le. apply _. Defined.

Definition schema_dump (poisoned : bool) (sqlite_master : list MasterRow) : result StoreError str :=
  if poisoned then Err LockPoisoned
  else
    let shown := filter (λ r, is_Some (ms_sql r) ∧ internal_name (ms_name r) = false) sqlite_master in
    Ok (join (#";" ++ [newline]) (omap ms_sql (merge_sort master_le shown)) ++ #";" ++ [newline]).

(** * What a start leaves *)

(** A timestamp fits its column whatever the clock says, and is the clock's as
    long as that does. *)
Lemma now_fits since_epoch :
  (∀ secs, since_epoch = Some secs → 0 <= secs <= u64_max)%Z →
  (0 <= now since_epoch <= i64_max)%Z ∧
  ∀ secs, since_epoch = Some secs → (secs <= i64_max)%Z → now since_epoch = secs.
Proof.
  intros Hu. unfold now. destruct since_epoch as [secs|]; [|by split; [|done]].
  specialize (Hu secs eq_refl). split; [case_decide; unfold i64_max in *; lia|].
  intros ? [= <-] Hle. by rewrite decide_True.
Qed.

(** A store in memory is what opening a path to an empty database gives. *)
Lemma open_in_memory_open exists_dir create_dir_all connection_open pragmas fault ts path :
  make_parent exists_dir create_dir_all path = Ok () →
  open exists_dir create_dir_all connection_open pragmas fault ts path =
  open_in_memory pragmas fault ts (connection_open path).
Proof. intros Hdir. unfold open. by rewrite Hdir. Qed.

(** Every command is registered once. *)
Lemma invoke_handler_NoDup : NoDup invoke_handler.
Proof. apply (bool_decide_unpack _). by vm_compute. Qed.

#[local] Instance master_le_total : Total master_le.
Proof.
  intros a b. unfold master_le. destruct (decide (ms_type a = ms_type b)) as [Heq|Hne].
  - rewrite Heq. destruct (str_le_total (ms_name a) (ms_name b)); auto.
  - destruct (str_le_total (ms_type a) (ms_type b)); auto.
Qed.

Lemma str_le_antisymm s t : str_le s t = true → str_le t s = true → s = t.
Proof.
  revert t. induction s as [|a s IH]; intros [|b t]; try done. rewrite !str_le_cons.
  intros [?|[-> ?]] [?|[? ?]]; try lia. f_equal. by apply IH.
Qed.

#[local] Instance master_le_trans : Transitive master_le.
Proof.
  intros a b c. unfold master_le. intros [[H1 H2]|[H1 H2]] [[H3 H4]|[H3 H4]].
  - left. split; [by eapply str_le_trans|]. intros Heq. apply H2.
    apply str_le_antisymm; [done|by rewrite Heq].
  - left. rewrite <- H3. done.
  - left. rewrite H1. done.
  - right. rewrite H1. split; [done|]. by eapply str_le_trans.
Qed.

(** The dump does not depend on the order SQLite keeps its schema in, as long as
    no two objects of a type share a name. *)
Theorem schema_dump_deterministic l k :
  l ≡ₚ k → (∀ a b, a ∈ l → b ∈ l → ms_type a = ms_type b → ms_name a = ms_name b → a = b) →
  schema_dump false l = schema_dump false k.
Proof.
  intros Hp Hu. unfold schema_dump. cbv zeta. do 4 f_equal.
  eapply (StronglySorted_unique_strong master_le);
    [|apply (StronglySorted_merge_sort master_le)..|by rewrite !merge_sort_Permutation, Hp].
  intros a b. rewrite !merge_sort_Permutation, !list_elem_of_filter. intros [_ Ha] [_ Hb] H1 H2.
  assert (ms_type a = ms_type b) as Ht.
  { destruct H1 as [[H1 _]|[? _]]; [|done]. destruct H2 as [[H2 _]|[? _]]; [|done].
    by apply str_le_antisymm. }
  apply Hu; [done|by rewrite Hp|done|].
  destruct H1 as [[_ []]|[_ H1]]; [done|]. destruct H2 as [[_ []]|[_ H2]]; [done|].
  by apply str_le_antisymm.
Qed.

(** A schema of one table and its index, as SQLite may list it. *)
Lemma schema_dump_deterministic_witness :
  let t := MkMaster #"table" #"tags" (Some #"CREATE TABLE tags") in
  let i := MkMaster #"index" #"tags_name" (Some #"CREATE INDEX tags_name") in
  let a := MkMaster #"index" #"sqlite_autoindex_tags_1" None in
  schema_dump false [t; a; i] = schema_dump false [i; t; a].
Proof.
  intros t i a. apply schema_dump_deterministic.
  - apply (Permutation_app_comm [t; a] [i]).
  - intros x y Hx Hy Ht Hn.
    repeat (apply elem_of_cons in Hx as [->|Hx]); try by apply elem_of_nil in Hx.
    all: repeat (apply elem_of_cons in Hy as [->|Hy]); try by apply elem_of_nil in Hy.
    all: first [done|exfalso; by vm_compute in Ht|exfalso; by vm_compute in Hn].
Defined.
